(** * The ROI index/coordinate engine of fractal-tasks-core

    A shallow embedding of
      - [fractal_tasks_core/lib_regions_of_interest.py]
        (ROI tables, physical-to-pixel conversion, origin reset,
        bounding boxes of label arrays, grids of ROIs),
      - [fractal_tasks_core/lib_regions_of_interest/v1_checks.py]
        (zero-origin check of index lists),
      - [fractal_tasks_core/cellpose_segmentation.py]
        (masking of the cellpose input and restoration of its output),
    and the theorems that relate this code to its specification.

    Conventions of the embedding.
      - Physical quantities (micrometers, pixel sizes) are Python/NumPy
        floating-point numbers in the source; here they are exact
        rationals [Q], so the theorems describe the arithmetic the code
        writes down, without rounding of the intermediate float results
        and without the rounding of the values that a table stores as
        [float32].  Equality of computed physical values is [==] on [Q].
        Where the rounding decides what the code returns (a quotient of
        two floats rounded to an integer, a lower bound on a difference
        of two products) the operation is modelled in binary64
        arithmetic, see [float64] below.
      - Python integers are [Z].
      - A Python exception is a value [Err e] of the type [result]; the
        constructors of [exn] record what the source puts in the message.
      - AnnData tables are matrices addressed by row name and column name,
        as in the source; NumPy arrays are a shape with row-major data;
        arrays that the source updates in place live in a heap of objects
        and are passed by reference. *)

From Stdlib Require Import ZArith QArith Qround Qabs Qpower Lia Lqa Bool.
From Stdlib Require Import String DecimalString.
From Stdlib Require Import List Sorting.Sorted.
Import ListNotations.

Local Open Scope Z_scope.

(** * Part I: the embedding of the sources, and the notions used to state
    the theorems *)

(** ** Results and exceptions *)

(** The exceptions raised by the modelled code.  [NegativeIndices] and
    [NonZeroOrigin] carry the data that the source formats into the message
    of its [ValueError]. *)
Inductive exn :=
| NegativeIndices (ROI_name : string) (position_zyx : Q * Q * Q)
                  (pxl_sizes_zyx : Q * Q * Q) (level : Z)
| NonZeroOrigin (axis : string) (ROI_table_name : string) (min_index : Z)
| EmptySequence                 (* min() of an empty sequence *)
| KeyError (key : string)       (* unknown row or column name *)
| IndexError                    (* position outside a sequence / mask mismatch *)
| UnpackError                   (* tuple unpacking with a wrong length *)
| ZeroDivisionError
| NonFiniteRound                (* round() of the result of a division by 0.0 *)
| ValueError (msg : string)
| AttributeError                (* attribute of None *)
| IOError                       (* the array store cannot deliver a region *)
| DanglingReference.            (* a reference to no object: never in Python *)

Inductive result (A : Type) :=
| Ok (a : A)
| Err (e : exn).
Arguments Ok {A} a.
Arguments Err {A} e.

Definition bind {A B} (m : result A) (f : A -> result B) : result B :=
  match m with
  | Ok a => f a
  | Err e => Err e
  end.

Notation "x <- m ;; k" := (bind m (fun x => k))
  (at level 61, m at next level, right associativity).
Notation "' p <- m ;; k" := (bind m (fun p => k))
  (at level 61, p pattern, m at next level, right associativity).


(** ** Python's [round] on one argument: nearest integer, ties to even *)

Definition py_round (q : Q) : Z :=
  let f := Qfloor q in
  match (q - inject_Z f ?= 1 # 2)%Q with
  | Lt => f
  | Gt => f + 1
  | Eq => if Z.even f then f else f + 1
  end.

(** [n] is an integer nearest to [q]. *)
Definition nearest_integer (q : Q) (n : Z) : Prop :=
  (Qabs (q - inject_Z n) <= 1 # 2)%Q.

(** ** Binary64 arithmetic

    A Python float is an IEEE 754 binary64 number: a significand of 53
    bits and a power of two.  An arithmetic operation on floats returns
    the float nearest to its exact result, ties going to the even
    significand.  [float64 q] is this float for the exact result [q]; the
    range of the exponent is not modelled (no overflow, no subnormal
    numbers). *)

(** The exponent [e] with [2^e <= q < 2^(e+1)], for [q > 0]. *)
Definition Qlog2 (q : Q) : Z :=
  let e := Z.log2 (Qnum q) - Z.log2 (Zpos (Qden q)) in
  if Qle_bool (2 ^ e) q then e else e - 1.

Definition float64 (q : Q) : Q :=
  if Qeq_bool q 0 then 0%Q
  else
    let ulp := (2 ^ (Qlog2 (Qabs q) - 52))%Q in
    (inject_Z (py_round (q / ulp)) * ulp)%Q.

(** ** Python's [min] on a sequence of integers *)

Fixpoint py_min (l : list Z) : result Z :=
  match l with
  | [] => Err EmptySequence
  | x :: r =>
      match r with
      | [] => Ok x
      | _ :: _ => m <- py_min r ;; Ok (Z.min x m)
      end
  end.

(** ** AnnData tables

    An [AnnData] object is the matrix [X] with its row names [obs_names],
    its column names [var_names] and the per-row annotation [obs]
    (annotation columns, each a name and its values). *)

Record AnnData := {
  obs_names : list string;
  var_names : list string;
  X : list (list Q);
  obs : list (string * list string)
}.

(** [len(adata)] *)
Definition n_obs (adata : AnnData) : nat := length (obs_names adata).

Fixpoint index_of (s : string) (l : list string) : option nat :=
  match l with
  | [] => None
  | x :: r => if String.eqb s x then Some 0%nat
              else option_map S (index_of s r)
  end.

(** The entry of a matrix row in the column named [c]. *)
Definition row_value (vars : list string) (row : list Q) (c : string)
  : result Q :=
  match index_of c vars with
  | None => Err (KeyError c)
  | Some j =>
      match nth_error row j with
      | None => Err IndexError
      | Some v => Ok v
      end
  end.

(** The first matrix row whose name is [name]. *)
Fixpoint find_row (name : string) (names : list string) (rows : list (list Q))
  : result (list Q) :=
  match names with
  | [] => Err (KeyError name)
  | n :: ns =>
      match rows with
      | [] => Err IndexError
      | r :: rs => if String.eqb name n then Ok r else find_row name ns rs
      end
  end.

(** [adata[r, c].X[0, 0]]: the view selects the rows named [r] and the
    columns named [c]; its entry [0, 0] is read. *)
Definition getitem (adata : AnnData) (r c : string) : result Q :=
  row <- find_row r (obs_names adata) (X adata) ;;
  row_value (var_names adata) row c.

(** ** convert_ROI_table_to_indices *)

(** [coarsening_xy ** level] on Python integers: a negative exponent gives
    the inverse (a float), and [0 ** level] with [level < 0] raises. *)
Definition py_pow (base : Z) (e : Z) : result Q :=
  if (base =? 0) && (e <? 0) then Err ZeroDivisionError
  else Ok (inject_Z base ^ e)%Q.

(** A NumPy floating-point value: a finite number, or [None] for the
    infinity or NaN that a division by [0.0] gives. *)
Definition np_div (a b : Q) : option Q :=
  if Qeq_bool b 0 then None else Some (a / b)%Q.

(** [round] of such a value; [round] raises on infinity and NaN. *)
Definition round (v : option Q) : result Z :=
  match v with
  | Some q => Ok (py_round q)
  | None => Err NonFiniteRound
  end.

Fixpoint mapM {A B} (f : A -> result B) (l : list A) : result (list B) :=
  match l with
  | [] => Ok []
  | a :: r => b <- f a ;; bs <- mapM f r ;; Ok (b :: bs)
  end.

Definition default_cols_xyz_pos : list string :=
  ["x_micrometer"; "y_micrometer"; "z_micrometer"]%string.
Definition default_cols_xyz_len : list string :=
  ["len_x_micrometer"; "len_y_micrometer"; "len_z_micrometer"]%string.

Section ConvertLoop.

Variable ROI : AnnData.
Variables pxl_size_z pxl_size_y pxl_size_x : Q.
Variable level : Z.
Variables x_pos y_pos z_pos x_len y_len z_len : string.

(** The body of the loop over [ROI.obs_names]. *)
Definition ROI_indices (ROI_name : string) : result (list Z) :=
  (* Extract data from anndata table *)
  x_micrometer <- getitem ROI ROI_name x_pos ;;
  y_micrometer <- getitem ROI ROI_name y_pos ;;
  z_micrometer <- getitem ROI ROI_name z_pos ;;
  len_x_micrometer <- getitem ROI ROI_name x_len ;;
  len_y_micrometer <- getitem ROI ROI_name y_len ;;
  len_z_micrometer <- getitem ROI ROI_name z_len ;;
  (* Identify indices along the three dimensions *)
  let start_x := np_div x_micrometer pxl_size_x in
  let end_x := np_div (x_micrometer + len_x_micrometer) pxl_size_x in
  let start_y := np_div y_micrometer pxl_size_y in
  let end_y := np_div (y_micrometer + len_y_micrometer) pxl_size_y in
  let start_z := np_div z_micrometer pxl_size_z in
  let end_z := np_div (z_micrometer + len_z_micrometer) pxl_size_z in
  let indices := [start_z; end_z; start_y; end_y; start_x; end_x] in
  (* Round indices *)
  indices <- mapM round indices ;;
  (* Fail for negative indices *)
  m <- py_min indices ;;
  if m <? 0 then
    Err (NegativeIndices ROI_name
           (z_micrometer, y_micrometer, x_micrometer)
           (pxl_size_z, pxl_size_y, pxl_size_x) level)
  else Ok indices.

(** [for ROI_name in ROI.obs_names: ... list_indices.append(indices[:])] *)
Fixpoint ROI_loop (names : list string) : result (list (list Z)) :=
  match names with
  | [] => Ok []
  | ROI_name :: rest =>
      indices <- ROI_indices ROI_name ;;
      list_indices <- ROI_loop rest ;;
      Ok (indices :: list_indices)
  end.

End ConvertLoop.

Definition convert_ROI_table_to_indices
    (ROI : AnnData) (full_res_pxl_sizes_zyx : list Q)
    (level : Z) (coarsening_xy : Z)
    (cols_xyz_pos cols_xyz_len : list string) : result (list (list Z)) :=
  (* Handle empty ROI table *)
  if (n_obs ROI =? 0)%nat then Ok [] else
  (* Set pyramid-level pixel sizes *)
  match full_res_pxl_sizes_zyx with
  | [pxl_size_z; pxl_size_y; pxl_size_x] =>
      prefactor <- py_pow coarsening_xy level ;;
      let pxl_size_x := (pxl_size_x * prefactor)%Q in
      let pxl_size_y := (pxl_size_y * prefactor)%Q in
      match cols_xyz_pos, cols_xyz_len with
      | [x_pos; y_pos; z_pos], [x_len; y_len; z_len] =>
          ROI_loop ROI pxl_size_z pxl_size_y pxl_size_x level
                   x_pos y_pos z_pos x_len y_len z_len (obs_names ROI)
      | _, _ => Err UnpackError
      end
  | _ => Err UnpackError
  end.

(** *** The typed view of a ROI table *)

(** One row of a ROI table, in physical units. *)
Record PhysicalROI := {
  roi_x : Q; roi_y : Q; roi_z : Q;
  roi_len_x : Q; roi_len_y : Q; roi_len_z : Q
}.

(** The matrix row [row] of a table with the columns [vars] holds [r] in
    the six ROI columns. *)
Definition row_holds (vars : list string) (row : list Q) (r : PhysicalROI)
  : Prop :=
  row_value vars row "x_micrometer" = Ok (roi_x r) /\
  row_value vars row "y_micrometer" = Ok (roi_y r) /\
  row_value vars row "z_micrometer" = Ok (roi_z r) /\
  row_value vars row "len_x_micrometer" = Ok (roi_len_x r) /\
  row_value vars row "len_y_micrometer" = Ok (roi_len_y r) /\
  row_value vars row "len_z_micrometer" = Ok (roi_len_z r).

(** [rows] lists, in order, the name and the content of every row of the
    table [adata]. *)
Definition ROI_table_rows (adata : AnnData)
    (rows : list (string * PhysicalROI)) : Prop :=
  obs_names adata = map fst rows /\
  Forall2 (fun xrow nr => row_holds (var_names adata) xrow (snd nr))
          (X adata) rows.

(** The six indices of a ROI for given pixel sizes, as the loop body
    computes them. *)
Definition pixel_range (r : PhysicalROI) (pz py px : Q) : list Z :=
  [ py_round (roi_z r / pz); py_round ((roi_z r + roi_len_z r) / pz);
    py_round (roi_y r / py); py_round ((roi_y r + roi_len_y r) / py);
    py_round (roi_x r / px); py_round ((roi_x r + roi_len_x r) / px) ].


Definition has_negative (l : list Z) : bool := existsb (fun i => i <? 0) l.

(** The loop of [convert_ROI_table_to_indices], on the typed view. *)
Fixpoint convert_rows (pz py px : Q) (level : Z)
    (rows : list (string * PhysicalROI)) : result (list (list Z)) :=
  match rows with
  | [] => Ok []
  | (name, r) :: rest =>
      if has_negative (pixel_range r pz py px) then
        Err (NegativeIndices name (roi_z r, roi_y r, roi_x r) (pz, py, px)
                             level)
      else
        l <- convert_rows pz py px level rest ;;
        Ok (pixel_range r pz py px :: l)
  end.

(** *** A small table used in the examples: two fields of view of
    4 x 4 x 1 pixels at full resolution, pixel sizes 1 (Z) and 1/2 (Y, X). *)

Definition demo_ROI_table : AnnData := {|
  obs_names := ["FOV_1"; "FOV_2"]%string;
  var_names := ["x_micrometer"; "y_micrometer"; "z_micrometer";
                "len_x_micrometer"; "len_y_micrometer"; "len_z_micrometer"]%string;
  X := [ [0; 0; 0; 2; 2; 1]; [2; 0; 0; 2; 2; 1] ]%Q;
  obs := []
|}.

Definition demo_ROI_rows : list (string * PhysicalROI) :=
  [ ("FOV_1"%string, {| roi_x := 0; roi_y := 0; roi_z := 0;
                        roi_len_x := 2; roi_len_y := 2; roi_len_z := 1 |});
    ("FOV_2"%string, {| roi_x := 2; roi_y := 0; roi_z := 0;
                        roi_len_x := 2; roi_len_y := 2; roi_len_z := 1 |}) ].

(** A ROI with non-negative position and extent. *)
Definition nonneg_ROI (r : PhysicalROI) : Prop :=
  (0 <= roi_x r /\ 0 <= roi_y r /\ 0 <= roi_z r /\
   0 <= roi_len_x r /\ 0 <= roi_len_y r /\ 0 <= roi_len_z r)%Q.

(** ** check_valid_ROI_indices

    The function is defined twice in the sources, with the same body
    ([lib_regions_of_interest.py] and
    [lib_regions_of_interest/v1_checks.py]). *)

(** [l[i]] on a Python list. *)
Definition list_item {A} (l : list A) (i : nat) : result A :=
  match nth_error l i with
  | Some v => Ok v
  | None => Err IndexError
  end.

(** [for ind, min_index in enumerate(mins): if min_index != 0: raise ...] *)
Fixpoint check_zero_loop (ROI_table_name : string) (ind : nat)
    (mins : list Z) : result unit :=
  match mins with
  | [] => Ok tt
  | min_index :: rest =>
      if negb (min_index =? 0) then
        axis <- list_item ["Z"; "Y"; "X"]%string ind ;;
        Err (NonZeroOrigin axis ROI_table_name min_index)
      else check_zero_loop ROI_table_name (S ind) rest
  end.

Definition check_valid_ROI_indices (list_indices : list (list Z))
    (ROI_table_name : string) : result unit :=
  if negb (existsb (String.eqb ROI_table_name)
                   ["FOV_ROI_table"; "well_ROI_table"]%string)
  then
    (* This validation function only applies to the FOV/well ROI tables *)
    Ok tt
  else
    (* Find minimum index along ZYX *)
    starts_z <- mapM (fun item => list_item item 0) list_indices ;;
    min_start_z <- py_min starts_z ;;
    starts_y <- mapM (fun item => list_item item 2) list_indices ;;
    min_start_y <- py_min starts_y ;;
    starts_x <- mapM (fun item => list_item item 4) list_indices ;;
    min_start_x <- py_min starts_x ;;
    (* Check that minimum indices are all zero *)
    check_zero_loop ROI_table_name 0 [min_start_z; min_start_y; min_start_x].

(** The table kinds the check applies to. *)
Definition FOV_or_well (ROI_table_name : string) : Prop :=
  ROI_table_name = "FOV_ROI_table"%string \/
  ROI_table_name = "well_ROI_table"%string.

(** [m] is the minimum of the entries at position [k] of the index
    ranges [l]. *)
Definition axis_minimum (k : nat) (l : list (list Z)) (m : Z) : Prop :=
  (exists item, In item l /\ nth_error item k = Some m) /\
  (forall item v, In item l -> nth_error item k = Some v -> m <= v).

(** ** reset_origin *)

(** Python's [min] on a sequence of floats: the first smallest element. *)
Fixpoint min_from (m : Q) (l : list Q) : Q :=
  match l with
  | [] => m
  | x :: r => min_from (if Qle_bool m x then m else x) r
  end.

Definition py_min_float (l : list Q) : result Q :=
  match l with
  | [] => Err EmptySequence
  | x :: r => Ok (min_from x r)
  end.

(** [adata[:, c].X[:, 0]]: the column named [c]. *)
Definition column (adata : AnnData) (c : string) : result (list Q) :=
  mapM (fun row => row_value (var_names adata) row c) (X adata).

(** A matrix row with [v] written into the columns named [c]. *)
Fixpoint row_set (vars : list string) (row : list Q) (c : string) (v : Q)
  : list Q :=
  match vars, row with
  | n :: ns, x :: xs =>
      (if String.eqb c n then v else x) :: row_set ns xs c v
  | _, _ => row
  end.

(** The matrix with [v] written into the rows named [r], columns named
    [c]. *)
Fixpoint rows_set (names vars : list string) (rows : list (list Q))
    (r c : string) (v : Q) : list (list Q) :=
  match names, rows with
  | n :: ns, x :: xs =>
      (if String.eqb r n then row_set vars x c v else x)
        :: rows_set ns vars xs r c v
  | _, _ => rows
  end.

(** [adata[r, c] = v] *)
Definition setitem (adata : AnnData) (r c : string) (v : Q)
  : result AnnData :=
  if negb (existsb (String.eqb r) (obs_names adata)) then Err (KeyError r)
  else if negb (existsb (String.eqb c) (var_names adata)) then Err (KeyError c)
  else Ok {| obs_names := obs_names adata;
             var_names := var_names adata;
             X := rows_set (obs_names adata) (var_names adata) (X adata) r c v;
             obs := obs adata |}.

(** [for FOV in new_table.obs_names: ...], the table being updated as the
    loop goes. *)
Fixpoint reset_origin_loop (origin_x origin_y origin_z : Q)
    (x_pos y_pos z_pos : string) (names : list string) (new_table : AnnData)
  : result AnnData :=
  match names with
  | [] => Ok new_table
  | FOV :: rest =>
      x <- getitem new_table FOV x_pos ;;
      new_table <- setitem new_table FOV x_pos (x - origin_x)%Q ;;
      y <- getitem new_table FOV y_pos ;;
      new_table <- setitem new_table FOV y_pos (y - origin_y)%Q ;;
      z <- getitem new_table FOV z_pos ;;
      new_table <- setitem new_table FOV z_pos (z - origin_z)%Q ;;
      reset_origin_loop origin_x origin_y origin_z x_pos y_pos z_pos
                        rest new_table
  end.

(** The function works on a copy of its argument, which it returns; the
    argument itself is left as it was. *)
Definition reset_origin (ROI_table : AnnData) (x_pos y_pos z_pos : string)
  : result AnnData :=
  let new_table := ROI_table in
  xs <- column new_table x_pos ;;
  origin_x <- py_min_float xs ;;
  ys <- column new_table y_pos ;;
  origin_y <- py_min_float ys ;;
  zs <- column new_table z_pos ;;
  origin_z <- py_min_float zs ;;
  reset_origin_loop origin_x origin_y origin_z x_pos y_pos z_pos
                    (obs_names new_table) new_table.

(** ** prepare_FOV_ROI_table and prepare_well_ROI_table *)

(** One row of the input dataframe (the metadata of one field of view):
    its numeric columns. *)
Record site_metadata := {
  x_micrometer : Q; y_micrometer : Q; z_micrometer : Q;
  x_pixel : Z; y_pixel : Z; z_pixel : Z;
  pixel_size_x : Q; pixel_size_y : Q; pixel_size_z : Q;
  x_micrometer_original : Q; y_micrometer_original : Q
}.

(** The input dataframe: its index, its rows, and its other columns (such
    as the acquisition time) with their values already as strings. *)
Record metadata_DataFrame := {
  df_index : list string;
  df_rows : list site_metadata;
  df_other : list (string * list string)
}.

Definition len_x_micrometer (s : site_metadata) : Q :=
  inject_Z (x_pixel s) * pixel_size_x s.
Definition len_y_micrometer (s : site_metadata) : Q :=
  inject_Z (y_pixel s) * pixel_size_y s.
Definition len_z_micrometer (s : site_metadata) : Q :=
  inject_Z (z_pixel s) * pixel_size_z s.

(** [for col in metadata: if col in df: adata.obs[col] = df[col].astype(str)]
    for the non-numeric columns of the dataframe. *)
Fixpoint save_metadata (other : list (string * list string))
    (metadata : list string) : list (string * list string) :=
  match metadata with
  | [] => []
  | col :: rest =>
      match find (fun kv => String.eqb col (fst kv)) other with
      | Some kv => kv :: save_metadata other rest
      | None => save_metadata other rest
      end
  end.

Definition FOV_positional_columns : list string :=
  ["x_micrometer"; "y_micrometer"; "z_micrometer";
   "len_x_micrometer"; "len_y_micrometer"; "len_z_micrometer";
   "x_micrometer_original"; "y_micrometer_original"]%string.

Definition well_positional_columns : list string :=
  ["x_micrometer"; "y_micrometer"; "z_micrometer";
   "len_x_micrometer"; "len_y_micrometer"; "len_z_micrometer"]%string.

(** Both functions store the positional columns as [float32]
    ([.astype(np.float32)]); the tables of the embedding hold the exact
    values, of which the stored ones are the nearest [float32] numbers. *)

Definition prepare_FOV_ROI_table (df : metadata_DataFrame) (metadata : list string)
  : result AnnData :=
  (* Select only the numeric positional columns needed to define ROIs *)
  let df_roi :=
    map (fun s => [x_micrometer s; y_micrometer s; z_micrometer s;
                   len_x_micrometer s; len_y_micrometer s; len_z_micrometer s;
                   x_micrometer_original s; y_micrometer_original s])
        (df_rows df) in
  (* Create an AnnData object directly from the DataFrame *)
  let adata := {| obs_names := df_index df;
                  var_names := FOV_positional_columns;
                  X := df_roi; obs := [] |} in
  (* Reset origin of the FOV ROI table *)
  adata <- reset_origin adata "x_micrometer" "y_micrometer" "z_micrometer" ;;
  (* Save any metadata that is specified to the obs df; rename rows *)
  Ok {| obs_names := map (String.append "FOV_") (obs_names adata);
        var_names := FOV_positional_columns;
        X := X adata;
        obs := save_metadata (df_other df) metadata |}.

(** The columns of the input dataframe: the numeric columns of
    [site_metadata], its other columns and, once the function has added
    them, the three lengths. *)
Definition site_columns : list string :=
  ["x_micrometer"; "y_micrometer"; "z_micrometer";
   "x_pixel"; "y_pixel"; "z_pixel";
   "pixel_size_x"; "pixel_size_y"; "pixel_size_z";
   "x_micrometer_original"; "y_micrometer_original"]%string.

(** [col in df] *)
Definition in_dataframe (df : metadata_DataFrame) (col : string) : bool :=
  existsb (String.eqb col)
          (site_columns ++ map fst (df_other df)
           ++ ["len_x_micrometer"; "len_y_micrometer";
               "len_z_micrometer"]%string).

(** The index repeats a label. *)
Fixpoint has_duplicates (index : list string) : bool :=
  match index with
  | [] => false
  | label :: rest => existsb (String.eqb label) rest || has_duplicates rest
  end.

(** pandas' [Series.max], on a non-empty column. *)
Fixpoint max_from (m : Q) (l : list Q) : Q :=
  match l with
  | [] => m
  | x :: r => max_from (if Qle_bool x m then m else x) r
  end.

Definition prepare_well_ROI_table (df : metadata_DataFrame) (metadata : list string)
  : result AnnData :=
  (* Calculate bounding box extents in physical units; then
     df.iloc[0:1, :]: the first row of the dataframe, if there is one *)
  let df_roi :=
    match df_rows df with
    | [] => []
    | s :: rest =>
        let min_min (pos : site_metadata -> Q) :=
          min_from (pos s) (map pos rest) in
        let max_max (pos len : site_metadata -> Q) :=
          max_from (pos s + len s)%Q (map (fun t => pos t + len t)%Q rest) in
        [[ min_min x_micrometer; min_min y_micrometer; min_min z_micrometer;
           max_max x_micrometer len_x_micrometer - min_min x_micrometer;
           max_max y_micrometer len_y_micrometer - min_min y_micrometer;
           max_max z_micrometer len_z_micrometer - min_min z_micrometer ]%Q]
    end in
  let adata := {| obs_names := firstn 1 (df_index df);
                  var_names := well_positional_columns;
                  X := df_roi; obs := [] |} in
  (* Reset origin of the single-entry well ROI table *)
  adata <- reset_origin adata "x_micrometer" "y_micrometer" "z_micrometer" ;;
  (* Save any metadata that is specified to the obs df:
     adata.obs[col] = df[col].astype(str) aligns the column, which has the
     index of the dataframe, on the one row of adata; pandas keeps the
     value of the first row, and refuses to reindex a column whose index
     repeats a label *)
  if existsb (in_dataframe df) metadata && has_duplicates (df_index df) then
    Err (ValueError "cannot reindex on an axis with duplicate labels")
  else
  Ok {| obs_names := map (String.append "well_") (obs_names adata);
        var_names := well_positional_columns;
        X := X adata;
        obs := save_metadata (map (fun kv => (fst kv, firstn 1 (snd kv)))
                                  (df_other df)) metadata |}.

(** The values [vs] of a position column have minimum zero: none is
    negative and one of them is zero. *)
Definition zero_minimum (vs : list Q) : Prop :=
  Forall (fun v => 0 <= v)%Q vs /\ Exists (fun v => v == 0)%Q vs.

(** What one iteration of the loop of [reset_origin] does to the matrix
    row it addresses. *)
Definition reset_row (vars : list string) (origin_x origin_y origin_z : Q)
    (x_pos y_pos z_pos : string) (row : list Q) : result (list Q) :=
  x <- row_value vars row x_pos ;;
  let row := row_set vars row x_pos (x - origin_x)%Q in
  y <- row_value vars row y_pos ;;
  let row := row_set vars row y_pos (y - origin_y)%Q in
  z <- row_value vars row z_pos ;;
  Ok (row_set vars row z_pos (z - origin_z)%Q).

(** The table has its origin at zero: on each of the X, Y and Z axes the
    positions of its rows have minimum zero. *)
Definition origin_normalized (adata : AnnData) : Prop :=
  exists xs ys zs,
    column adata "x_micrometer" = Ok xs /\ zero_minimum xs /\
    column adata "y_micrometer" = Ok ys /\ zero_minimum ys /\
    column adata "z_micrometer" = Ok zs /\ zero_minimum zs.

(** A dataframe with two fields of view, side by side along X, away from
    the origin. *)
Definition demo_site (x : Q) : site_metadata := {|
  x_micrometer := x; y_micrometer := -3; z_micrometer := 1 # 2;
  x_pixel := 4; y_pixel := 4; z_pixel := 1;
  pixel_size_x := 1 # 2; pixel_size_y := 1 # 2; pixel_size_z := 1;
  x_micrometer_original := x; y_micrometer_original := -3
|}.

Definition demo_dataframe : metadata_DataFrame := {|
  df_index := ["1"; "2"]%string;
  df_rows := [demo_site 10; demo_site 12];
  df_other := [("time"%string, ["t0"; "t1"]%string)]
|}.

(** The same fields of view under one index label. *)
Definition demo_dataframe_repeated : metadata_DataFrame := {|
  df_index := ["1"; "1"]%string;
  df_rows := [demo_site 10; demo_site 12];
  df_other := [("time"%string, ["t0"; "t1"]%string)]
|}.

(** ** NumPy arrays

    An array is its shape and its elements in row-major (C) order. *)

Record ndarray (A : Type) := {
  shape : list nat;
  data : list A
}.
Arguments shape {A} _.
Arguments data {A} _.

Definition ndim {A} (a : ndarray A) : nat := length (shape a).

(** The number of elements of an array of the given shape. *)
Definition size_of (shape : list nat) : nat := fold_right Nat.mul 1%nat shape.

(** A well-formed array holds as many elements as its shape says. *)
Definition ndarray_wf {A} (a : ndarray A) : Prop :=
  length (data a) = size_of (shape a).

(** The coordinates of the element at the flat position [i]. *)
Fixpoint unravel (shape : list nat) (i : nat) : list Z :=
  match shape with
  | [] => []
  | _ :: rest =>
      Z.of_nat (i / size_of rest) :: unravel rest (i mod size_of rest)
  end.

(** The flat position of the element at the coordinates [c], when they
    are inside the shape. *)
Fixpoint ravel (shape : list nat) (c : list Z) : option nat :=
  match shape, c with
  | [], [] => Some 0%nat
  | d :: rest, z :: cs =>
      if (0 <=? z) && (z <? Z.of_nat d) then
        option_map (fun r => (Z.to_nat z * size_of rest + r)%nat)
                   (ravel rest cs)
      else None
  | _, _ => None
  end.

(** [a[c]] for in-range, non-negative coordinates. *)
Definition voxel {A} (a : ndarray A) (c : list Z) : option A :=
  match ravel (shape a) c with
  | Some i => nth_error (data a) i
  | None => None
  end.

(** ** array_to_bounding_box_table *)

(** [np.unique] on the flattened array: the distinct values, ascending. *)
Fixpoint insert_unique (x : Z) (l : list Z) : list Z :=
  match l with
  | [] => [x]
  | y :: r =>
      if x <? y then x :: l
      else if x =? y then l
      else y :: insert_unique x r
  end.

Definition np_unique (l : list Z) : list Z := fold_right insert_unique [] l.

(** The coordinates of the elements equal to [label], in row-major order. *)
Definition matching_coordinates (mask_array : ndarray Z) (label : Z)
  : list (list Z) :=
  map (unravel (shape mask_array))
      (filter (fun i => match nth_error (data mask_array) i with
                        | Some v => v =? label
                        | None => false
                        end)
              (seq 0 (length (data mask_array)))).

(** [np.where(mask_array == label)]: one sequence of coordinates per axis. *)
Definition np_where_eq (mask_array : ndarray Z) (label : Z) : list (list Z) :=
  let coords := matching_coordinates mask_array label in
  map (fun k => map (fun c => nth k c 0) coords) (seq 0 (ndim mask_array)).

Fixpoint py_max (l : list Z) : result Z :=
  match l with
  | [] => Err EmptySequence
  | x :: r =>
      match r with
      | [] => Ok x
      | _ :: _ => m <- py_max r ;; Ok (Z.max x m)
      end
  end.

(** [ints * floats] on one-dimensional arrays, with NumPy's broadcasting. *)
Definition np_mul (ints : list Z) (floats : list Q) : result (list Q) :=
  if (length ints =? length floats)%nat then
    Ok (map (fun ip => inject_Z (fst ip) * snd ip)%Q (combine ints floats))
  else
    match ints, floats with
    | [i], _ => Ok (map (fun p => inject_Z i * p)%Q floats)
    | _, [p] => Ok (map (fun i => inject_Z i * p)%Q ints)
    | _, _ => Err (ValueError "operands could not be broadcast together")
    end.

Definition unpack3 {A} (l : list A) : result (A * A * A) :=
  match l with
  | [a; b; c] => Ok (a, b, c)
  | _ => Err UnpackError
  end.

(** The dataframe the function returns: its column names, and per row the
    values of the float columns and the value of the [label] column. *)
Record bbox_DataFrame := {
  bbox_columns : list string;
  bbox_rows : list (list Q * Z)
}.

Definition df_columns : list string :=
  ["x_micrometer"; "y_micrometer"; "z_micrometer";
   "len_x_micrometer"; "len_y_micrometer"; "len_z_micrometer"]%string.

Section BoundingBox.

Variable mask_array : ndarray Z.
Variable pxl_sizes_zyx : list Q.
Variables z_origin y_origin x_origin : Z.

(** The body of the loop over the labels. *)
Definition bounding_box (label : Z) : result (list Q) :=
  (* Compute bounding box *)
  let label_match := np_where_eq mask_array label in
  mins <- mapM py_min label_match ;;
  mins <- np_mul mins pxl_sizes_zyx ;;
  '(zmin, ymin, xmin) <- unpack3 mins ;;
  maxs <- mapM py_max label_match ;;
  maxs <- np_mul (map (fun m => m + 1) maxs) pxl_sizes_zyx ;;
  '(zmax, ymax, xmax) <- unpack3 maxs ;;
  (* Compute bounding-box edges *)
  let length_x := (xmax - xmin)%Q in
  let length_y := (ymax - ymin)%Q in
  let length_z := (zmax - zmin)%Q in
  (* Shift origin *)
  pz <- list_item pxl_sizes_zyx 0 ;;
  let zmin := (zmin + inject_Z z_origin * pz)%Q in
  py <- list_item pxl_sizes_zyx 1 ;;
  let ymin := (ymin + inject_Z y_origin * py)%Q in
  px <- list_item pxl_sizes_zyx 2 ;;
  let xmin := (xmin + inject_Z x_origin * px)%Q in
  Ok [xmin; ymin; zmin; length_x; length_y; length_z].

End BoundingBox.

Definition array_to_bounding_box_table (mask_array : ndarray Z)
    (pxl_sizes_zyx : list Q) (origin_zyx : list Z) : result bbox_DataFrame :=
  '(z_origin, y_origin, x_origin) <- unpack3 origin_zyx ;;
  let labels := np_unique (data mask_array) in
  let labels := filter (fun label => 0 <? label) labels in
  elem_list <- mapM (bounding_box mask_array pxl_sizes_zyx
                                  z_origin y_origin x_origin) labels ;;
  match elem_list with
  | [] => Ok {| bbox_columns := df_columns ++ ["label"%string];
                bbox_rows := [] |}
  | _ :: _ => Ok {| bbox_columns := df_columns ++ ["label"%string];
                    bbox_rows := combine elem_list labels |}
  end.

(** [lo] and [hi] are the smallest and the largest coordinate along the
    axis [k] among the voxels of [mask_array] equal to [label]. *)
Definition axis_extent (mask_array : ndarray Z) (label : Z) (k : nat)
    (lo hi : Z) : Prop :=
  (exists c, voxel mask_array c = Some label /\ nth k c 0 = lo) /\
  (exists c, voxel mask_array c = Some label /\ nth k c 0 = hi) /\
  (forall c, voxel mask_array c = Some label ->
             lo <= nth k c 0 <= hi).

(** The float columns of the row that the loop body builds for a label
    whose voxels span [z0..z1], [y0..y1], [x0..x1]. *)
Definition bbox_values (pz py px : Q) (oz oy ox : Z)
    (z0 z1 y0 y1 x0 x1 : Z) : list Q :=
  [ inject_Z x0 * px + inject_Z ox * px;
    inject_Z y0 * py + inject_Z oy * py;
    inject_Z z0 * pz + inject_Z oz * pz;
    inject_Z (x1 + 1) * px - inject_Z x0 * px;
    inject_Z (y1 + 1) * py - inject_Z y0 * py;
    inject_Z (z1 + 1) * pz - inject_Z z0 * pz ]%Q.

(** What the specification asks of the row of [label]: the lower corner is
    the smallest voxel coordinate of the label times the pixel size, shifted
    by the origin times the pixel size; the extent is (largest coordinate
    + 1 - smallest coordinate) times the pixel size. *)
Definition is_bounding_box (mask_array : ndarray Z) (pz py px : Q)
    (oz oy ox : Z) (label : Z) (values : list Q) : Prop :=
  exists z0 z1 y0 y1 x0 x1 xmin ymin zmin len_x len_y len_z,
    values = [xmin; ymin; zmin; len_x; len_y; len_z] /\
    axis_extent mask_array label 0 z0 z1 /\
    axis_extent mask_array label 1 y0 y1 /\
    axis_extent mask_array label 2 x0 x1 /\
    (xmin == inject_Z x0 * px + inject_Z ox * px /\
     ymin == inject_Z y0 * py + inject_Z oy * py /\
     zmin == inject_Z z0 * pz + inject_Z oz * pz /\
     len_x == inject_Z (x1 + 1 - x0) * px /\
     len_y == inject_Z (y1 + 1 - y0) * py /\
     len_z == inject_Z (z1 + 1 - z0) * pz)%Q.

(** A 2 x 2 x 3 label array with the labels 2 and 5. *)
Definition demo_mask : ndarray Z := {|
  shape := [2; 2; 3]%nat;
  data := [0; 5; 5;  0; 0; 5;
           2; 0; 0;  0; 0; 5]
|}.

(** ** array_to_bounding_box_table in binary64 arithmetic

    The same function, each product, difference and sum being rounded as
    the code computes it on floats.  The integers of [np.min] and
    [np.max] become floats without rounding (they are far below 2^53). *)

(** [ints * floats] *)
Definition np_mul_float64 (ints : list Z) (floats : list Q)
  : result (list Q) :=
  products <- np_mul ints floats ;;
  Ok (map float64 products).

Section BoundingBoxFloat64.

Variable mask_array : ndarray Z.
Variable pxl_sizes_zyx : list Q.
Variables z_origin y_origin x_origin : Z.

(** The body of the loop over the labels. *)
Definition bounding_box_float64 (label : Z) : result (list Q) :=
  (* Compute bounding box *)
  let label_match := np_where_eq mask_array label in
  mins <- mapM py_min label_match ;;
  mins <- np_mul_float64 mins pxl_sizes_zyx ;;
  '(zmin, ymin, xmin) <- unpack3 mins ;;
  maxs <- mapM py_max label_match ;;
  maxs <- np_mul_float64 (map (fun m => m + 1) maxs) pxl_sizes_zyx ;;
  '(zmax, ymax, xmax) <- unpack3 maxs ;;
  (* Compute bounding-box edges *)
  let length_x := float64 (xmax - xmin) in
  let length_y := float64 (ymax - ymin) in
  let length_z := float64 (zmax - zmin) in
  (* Shift origin *)
  pz <- list_item pxl_sizes_zyx 0 ;;
  let zmin := float64 (zmin + float64 (inject_Z z_origin * pz)) in
  py <- list_item pxl_sizes_zyx 1 ;;
  let ymin := float64 (ymin + float64 (inject_Z y_origin * py)) in
  px <- list_item pxl_sizes_zyx 2 ;;
  let xmin := float64 (xmin + float64 (inject_Z x_origin * px)) in
  Ok [xmin; ymin; zmin; length_x; length_y; length_z].

End BoundingBoxFloat64.

Definition array_to_bounding_box_table_float64 (mask_array : ndarray Z)
    (pxl_sizes_zyx : list Q) (origin_zyx : list Z) : result bbox_DataFrame :=
  '(z_origin, y_origin, x_origin) <- unpack3 origin_zyx ;;
  let labels := np_unique (data mask_array) in
  let labels := filter (fun label => 0 <? label) labels in
  elem_list <- mapM (bounding_box_float64 mask_array pxl_sizes_zyx
                                          z_origin y_origin x_origin) labels ;;
  match elem_list with
  | [] => Ok {| bbox_columns := df_columns ++ ["label"%string];
                bbox_rows := [] |}
  | _ :: _ => Ok {| bbox_columns := df_columns ++ ["label"%string];
                    bbox_rows := combine elem_list labels |}
  end.

(** The extent that the loop body computes on floats for a label whose
    voxels span [lo..hi] along an axis of pixel size [p]. *)
Definition bbox_length_float64 (p : Q) (lo hi : Z) : Q :=
  float64 (float64 (inject_Z (hi + 1) * p) - float64 (inject_Z lo * p)).

(** The float columns of the row that the loop body builds on floats. *)
Definition bbox_values_float64 (pz py px : Q) (oz oy ox : Z)
    (z0 z1 y0 y1 x0 x1 : Z) : list Q :=
  [ float64 (float64 (inject_Z x0 * px) + float64 (inject_Z ox * px));
    float64 (float64 (inject_Z y0 * py) + float64 (inject_Z oy * py));
    float64 (float64 (inject_Z z0 * pz) + float64 (inject_Z oz * pz));
    bbox_length_float64 px x0 x1;
    bbox_length_float64 py y0 y1;
    bbox_length_float64 pz z0 z1 ]%Q.

(** A line of ten voxels, the last of which carries the label 1. *)
Definition demo_line : ndarray Z := {|
  shape := [1; 1; 10]%nat;
  data := [0; 0; 0; 0; 0; 0; 0; 0; 0; 1]
|}.

(** ** get_image_grid_ROIs *)

(** [math.ceil(a / b)] on Python integers (exact for the sizes of arrays,
    which are far below 2^53). *)
Definition py_ceil_div (a b : Z) : result Z :=
  if b =? 0 then Err ZeroDivisionError else Ok (- ((- a) / b)).

(** [range(n)] *)
Definition py_range (n : Z) : list Z := map Z.of_nat (seq 0 (Z.to_nat n)).

(** [l[-3:]] *)
Definition last3 {A} (l : list A) : list A := skipn (length l - 3) l.

Definition unpack2 {A} (l : list A) : result (A * A) :=
  match l with
  | [a; b] => Ok (a, b)
  | _ => Err UnpackError
  end.

(** [f"ROI_{counter}"] *)
Definition ROI_name_of (counter : nat) : string :=
  String.append "ROI_" (NilEmpty.string_of_uint (Nat.to_uint counter)).

Definition grid_var_names : list string :=
  ["x_micrometer"; "y_micrometer"; "z_micrometer";
   "len_x_micrometer"; "len_y_micrometer"; "len_z_micrometer";
   "x_micrometer_original"; "y_micrometer_original"]%string.

(** The row appended for the cell [(ind_y, ind_x)] of the grid. *)
Definition grid_ROI (pixels_ZYX : list Q) (shape_z shape_y shape_x : Z)
    (len_y len_x : Z) (ind : Z * Z) : result (list Q) :=
  let '(ind_y, ind_x) := ind in
  let start_z := 0 in
  let len_z := shape_z in
  let start_y := ind_y * len_y in
  let tmp_len_y := Z.min shape_y (start_y + len_y) - start_y in
  let start_x := ind_x * len_x in
  let tmp_len_x := Z.min shape_x (start_x + len_x) - start_x in
  pixel_x <- list_item pixels_ZYX 2 ;;
  pixel_y <- list_item pixels_ZYX 1 ;;
  pixel_z <- list_item pixels_ZYX 0 ;;
  Ok [ inject_Z start_x * pixel_x;
       inject_Z start_y * pixel_y;
       inject_Z start_z * pixel_z;
       inject_Z tmp_len_x * pixel_x;
       inject_Z tmp_len_y * pixel_y;
       inject_Z len_z * pixel_z;
       inject_Z start_x * pixel_x;
       inject_Z start_y * pixel_y ]%Q.

Definition get_image_grid_ROIs (array_shape : list Z) (pixels_ZYX : list Q)
    (grid_ROI_shape : option (list Z)) : result AnnData :=
  '(shape_z, shape_y, shape_x) <- unpack3 (last3 array_shape) ;;
  let grid_ROI_shape :=
    match grid_ROI_shape with
    | None => [2; 2]
    | Some g => g
    end in
  '(grid_size_y, grid_size_x) <- unpack2 grid_ROI_shape ;;
  (* Find minimal len_y that covers [0,shape_y] with grid_size_y intervals *)
  len_y <- py_ceil_div shape_y grid_size_y ;;
  len_x <- py_ceil_div shape_x grid_size_x ;;
  (* for ind_y in range(grid_size_y): for ind_x in range(grid_size_x) *)
  rows <- mapM (grid_ROI pixels_ZYX shape_z shape_y shape_x len_y len_x)
               (list_prod (py_range grid_size_y) (py_range grid_size_x)) ;;
  match rows with
  | [] =>
      (* AnnData needs a two-dimensional X; np.array([]) has one axis *)
      Err (ValueError "X needs to be 2-dimensional, not 1-dimensional.")
  | _ :: _ =>
      Ok {| obs_names := map ROI_name_of (seq 1 (length rows));
            var_names := grid_var_names;
            X := rows;
            obs := [] |}
  end.

(** A cell of the grid in pixel units: where it starts and how many
    pixels it spans, along Y and along X. *)
Record grid_cell := {
  cell_start_y : Z; cell_len_y : Z;
  cell_start_x : Z; cell_len_x : Z
}.

(** The table row of a cell, for an image of [shape_z] planes. *)
Definition cell_row (pixel_z pixel_y pixel_x : Q) (shape_z : Z)
    (c : grid_cell) : list Q :=
  [ inject_Z (cell_start_x c) * pixel_x;
    inject_Z (cell_start_y c) * pixel_y;
    inject_Z 0 * pixel_z;
    inject_Z (cell_len_x c) * pixel_x;
    inject_Z (cell_len_y c) * pixel_y;
    inject_Z shape_z * pixel_z;
    inject_Z (cell_start_x c) * pixel_x;
    inject_Z (cell_start_y c) * pixel_y ]%Q.

(** The pixel [(y, x)] lies in the cell. *)
Definition in_cell (c : grid_cell) (y x : Z) : Prop :=
  cell_start_y c <= y < cell_start_y c + cell_len_y c /\
  cell_start_x c <= x < cell_start_x c + cell_len_x c.

(** The cells tile the extent [0, shape_y) x [0, shape_x): each lies
    inside it, and every pixel of it is in exactly one cell. *)
Definition tiles (cells : list grid_cell) (shape_y shape_x : Z) : Prop :=
  Forall (fun c => 0 <= cell_start_y c /\ 0 <= cell_len_y c /\
                   cell_start_y c + cell_len_y c <= shape_y /\
                   0 <= cell_start_x c /\ 0 <= cell_len_x c /\
                   cell_start_x c + cell_len_x c <= shape_x) cells /\
  forall y x, 0 <= y < shape_y -> 0 <= x < shape_x ->
    exists k c, nth_error cells k = Some c /\ in_cell c y x /\
      forall k' c', nth_error cells k' = Some c' -> in_cell c' y x -> k' = k.

(** The sum of the areas of the cells, in pixels. *)
Definition total_area (cells : list grid_cell) : Z :=
  fold_right (fun c acc => cell_len_y c * cell_len_x c + acc) 0 cells.

(** The cell [(ind_y, ind_x)] of the grid, as the loop computes it. *)
Definition cell_of (shape_y shape_x len_y len_x : Z) (ind : Z * Z)
  : grid_cell :=
  {| cell_start_y := fst ind * len_y;
     cell_len_y := Z.min shape_y (fst ind * len_y + len_y) - fst ind * len_y;
     cell_start_x := snd ind * len_x;
     cell_len_x := Z.min shape_x (snd ind * len_x + len_x) - snd ind * len_x |}.

(** The pixels that the cells of one axis span, summed over the cell
    indices [l]. *)
Definition axis_total (s len : Z) (l : list Z) : Z :=
  fold_right (fun i acc => (Z.min s (i * len + len) - i * len) + acc) 0 l.

(** ** The masked-region compositor ([cellpose_segmentation.py])

    [preprocess_cellpose_input] and [postprocess_cellpose_output] assign
    into the arrays they are given.  The arrays of integers therefore live
    in a heap and are passed by reference; a function takes the heap and
    returns the heap it leaves.  The boolean background mask is only ever
    read, and is passed as a value. *)

Definition ref := nat.
Definition heap := list (ndarray Z).

Definition heap_get (h : heap) (r : ref) : option (ndarray Z) := nth_error h r.

Fixpoint heap_set (h : heap) (r : ref) (a : ndarray Z) : heap :=
  match h, r with
  | [], _ => []
  | _ :: rest, O => a :: rest
  | x :: rest, S r' => x :: heap_set rest r' a
  end.

(** A new object; its reference is returned with the heap. *)
Definition heap_alloc (h : heap) (a : ndarray Z) : heap * ref :=
  (h ++ [a], length h).

Fixpoint shape_eqb (s1 s2 : list nat) : bool :=
  match s1, s2 with
  | [], [] => true
  | a :: r1, b :: r2 => (a =? b)%nat && shape_eqb r1 r2
  | _, _ => false
  end.

(** [a != v], elementwise *)
Definition np_ne (a : ndarray Z) (v : Z) : ndarray bool :=
  {| shape := shape a; data := map (fun x => negb (x =? v)) (data a) |}.

(** [(a == v).sum()] *)
Definition np_count_eq (a : ndarray Z) (v : Z) : nat :=
  length (filter (fun x => x =? v) (data a)).

(** [np.expand_dims(a, axis=0)] *)
Definition expand_dims0 {A} (a : ndarray A) : ndarray A :=
  {| shape := 1%nat :: shape a; data := data a |}.

(** Indexing the array [a] with the boolean array [m]: the shape of [m]
    must be the leading part of the shape of [a] (NumPy raises IndexError
    otherwise; a boolean index is not broadcast).  Each element of [m]
    then selects a whole sub-array of [a]: the result lists, per element of
    [a], whether it is selected. *)
Definition mask_flags (a_shape : list nat) (m : ndarray bool)
  : result (list bool) :=
  if shape_eqb (firstn (length (shape m)) a_shape) (shape m) then
    let inner := size_of (skipn (length (shape m)) a_shape) in
    Ok (flat_map (fun b => repeat b inner) (data m))
  else Err IndexError.

(** The selected elements, in row-major order. *)
Fixpoint take_flagged (flags : list bool) (xs : list Z) : list Z :=
  match flags, xs with
  | b :: fs, x :: xr => if b then x :: take_flagged fs xr
                        else take_flagged fs xr
  | _, _ => []
  end.

(** The successive values [vals] written at the selected positions;
    [None] when there are too few or too many values. *)
Fixpoint put_flagged (flags : list bool) (xs : list Z) (vals : list Z)
  : option (list Z) :=
  match flags, xs with
  | b :: fs, x :: xr =>
      if b then
        match vals with
        | v :: vr => option_map (cons v) (put_flagged fs xr vr)
        | [] => None
        end
      else option_map (cons x) (put_flagged fs xr vals)
  | _, _ =>
      match vals with
      | [] => Some xs
      | _ :: _ => None
      end
  end.

(** [a[m]] *)
Definition getitem_mask (a : ndarray Z) (m : ndarray bool)
  : result (list Z) :=
  flags <- mask_flags (shape a) m ;;
  Ok (take_flagged flags (data a)).

(** [a[m] = vals], the new content of [a] *)
Definition setitem_mask (a : ndarray Z) (m : ndarray bool) (vals : list Z)
  : result (ndarray Z) :=
  flags <- mask_flags (shape a) m ;;
  match put_flagged flags (data a) vals with
  | Some xs => Ok {| shape := shape a; data := xs |}
  | None => Err (ValueError "cannot assign the input values to the output values where the mask is true")
  end.

(** [a[m] = v] for a scalar [v], the new content of [a] *)
Definition setitem_mask_scalar (a : ndarray Z) (m : ndarray bool) (v : Z)
  : result (ndarray Z) :=
  flags <- mask_flags (shape a) m ;;
  Ok {| shape := shape a;
        data := map (fun bx : bool * Z => if fst bx then v else snd bx)
                    (combine flags (data a)) |}.

Definition postprocess_cellpose_output (h : heap) (use_masks : bool)
    (new_label_array old_label_array : option ref)
    (background_3D : option (ndarray bool)) : heap * result (option ref) :=
  if use_masks then
    match new_label_array, old_label_array, background_3D with
    | Some new_ref, Some old_ref, Some background =>
        match heap_get h new_ref, heap_get h old_ref with
        | Some new_array, Some old_array =>
            if negb ((ndim new_array =? 3)%nat
                     && (ndim old_array =? 3)%nat
                     && shape_eqb (shape old_array) (shape new_array)
                     && shape_eqb (shape background) (shape new_array))
            then (h, Err (ValueError "In postprocess_cellpose_output"))
            else
              (* new_label_array[background_3D] =
                   old_label_array[background_3D] *)
              match getitem_mask old_array background with
              | Err e => (h, Err e)
              | Ok vals =>
                  match setitem_mask new_array background vals with
                  | Err e => (h, Err e)
                  | Ok restored =>
                      (heap_set h new_ref restored, Ok (Some new_ref))
                  end
              end
        | _, _ => (h, Err DanglingReference)
        end
    | _, _, _ => (h, Err AttributeError)
    end
  else (h, Ok new_label_array).

(** A region of an array: one slice (start, stop) per axis. *)
Definition region := list (Z * Z).

(** [ROI_table.obs], a pandas dataframe: its columns, by name. *)
Definition obs_frame := list (string * list Z).

Section Preprocess.

(** The array store: [da.from_zarr(path)[region].compute()], [None] when
    the store cannot deliver the region. *)
Variable from_zarr : string -> region -> option (ndarray Z).

(** [None in (region, current_label_path, primary_label_path,
    ROI_table_obs, index_ROI)]: Python goes through the items of the
    tuple in order and takes the truth value of [item is None or
    item == None] for each, stopping at the first true one.  A tuple of
    slices, a string or an integer that is not [None] is not equal to
    [None].  A pandas dataframe compared with [None] gives a dataframe of
    booleans, and asking for the truth value of a dataframe raises
    [ValueError] (whatever the dataframe, empty ones included). *)
Inductive None_comparison :=
| is_None          (* the item is None *)
| differs          (* item == None is False *)
| ambiguous.       (* item == None has no truth value *)

Definition compare_with_None {A} (item : option A) : None_comparison :=
  match item with
  | None => is_None
  | Some _ => differs
  end.

Definition compare_DataFrame_with_None (item : option obs_frame)
  : None_comparison :=
  match item with
  | None => is_None
  | Some _ => ambiguous
  end.

Fixpoint None_in (items : list None_comparison) : result bool :=
  match items with
  | [] => Ok false
  | is_None :: _ => Ok true
  | differs :: rest => None_in rest
  | ambiguous :: _ =>
      Err (ValueError "The truth value of a DataFrame is ambiguous. Use a.empty, a.bool(), a.item(), a.any() or a.all().")
  end.

Definition preprocess_cellpose_input (h : heap) (image_array : ref)
    (use_masks : bool) (region : option region)
    (current_label_path primary_label_path : option string)
    (ROI_table_obs : option obs_frame) (index_ROI : option nat)
  : heap * result (ref * option (ndarray bool) * option ref) :=
  match heap_get h image_array with
  | None => (h, Err DanglingReference)
  | Some image =>
  if negb (ndim image =? 4)%nat then
    (h, Err (ValueError "preprocess_cellpose_input requires a four-dimensional image_array argument"))
  else if use_masks then
    match None_in [compare_with_None region;
                   compare_with_None current_label_path;
                   compare_with_None primary_label_path;
                   compare_DataFrame_with_None ROI_table_obs;
                   compare_with_None index_ROI] with
    | Err e => (h, Err e)
    | Ok true =>
        (h, Err (ValueError "preprocess_cellpose_input called with use_masks but an argument is None"))
    | Ok false =>
    match region, current_label_path, primary_label_path,
          ROI_table_obs, index_ROI with
    | Some region, Some current_label_path, Some primary_label_path,
      Some ROI_table_obs, Some index_ROI =>
        (* Check that ROI_table has the obs.label column *)
        match find (fun col => String.eqb "label" (fst col)) ROI_table_obs with
        | None =>
            (h, Err (ValueError "In preprocess_cellpose_input, label missing in ROI_table_obs.columns"))
        | Some (_, labels) =>
        match nth_error labels index_ROI with
        | None => (h, Err (KeyError "index_ROI"))
        | Some label_value =>
        (* Load primary label array *)
        match from_zarr primary_label_path region with
        | None => (h, Err IOError)
        | Some primary_label_array =>
        if negb (shape_eqb (shape primary_label_array) (tl (shape image)))
        then
          (h, Err (ValueError "In preprocess_cellpose_input, image_array.shape and primary_label_array.shape differ"))
        else
        (* Load current label array *)
        match from_zarr current_label_path region with
        | None => (h, Err IOError)
        | Some current_label_array =>
        (* Compute background mask *)
        let background_3D := np_ne primary_label_array label_value in
        if (np_count_eq primary_label_array label_value =? 0)%nat then
          (h, Err (ValueError ""))
        else
        (* Set image background to zero *)
        let background_4D := expand_dims0 background_3D in
        match setitem_mask_scalar image background_4D 0 with
        | Err e => (h, Err e)
        | Ok masked =>
            let h := heap_set h image_array masked in
            let '(h, current_ref) := heap_alloc h current_label_array in
            (h, Ok (image_array, Some background_3D, Some current_ref))
        end
        end
        end
        end
        end
    | _, _, _, _, _ =>
        (* an argument is None although None is not in the tuple *)
        (h, Err AttributeError)
    end
    end
  else (h, Ok (image_array, None, None))
  end.

End Preprocess.

(** The array that holds [old] where the flag is set and [new] elsewhere. *)
Fixpoint composite (flags : list bool) (old new : list Z) : list Z :=
  match flags, old, new with
  | b :: fs, o :: os, n :: ns =>
      (if b then o else n) :: composite fs os ns
  | _, _, _ => []
  end.

(** Arrays and a store for the examples: one voxel per array. *)
Definition demo_new_labels : ndarray Z :=
  {| shape := [1; 1; 1]%nat; data := [5] |}.
Definition demo_old_labels : ndarray Z :=
  {| shape := [1; 1; 1]%nat; data := [7] |}.
Definition demo_background : ndarray bool :=
  {| shape := [1; 1; 1]%nat; data := [true] |}.
Definition demo_image_1 : ndarray Z :=
  {| shape := [1; 1; 1; 2]%nat; data := [40; 41] |}.
Definition demo_primary_labels : ndarray Z :=
  {| shape := [1; 1; 2]%nat; data := [3; 0] |}.
Definition demo_current_labels : ndarray Z :=
  {| shape := [1; 1; 2]%nat; data := [0; 9] |}.
Definition demo_from_zarr (path : string) (_ : region) : option (ndarray Z) :=
  if String.eqb path "labels/organoids/0" then Some demo_primary_labels
  else if String.eqb path "labels/nuclei/0" then Some demo_current_labels
  else None.
Definition demo_region : region := [(0, 1); (0, 1); (0, 2)].
Definition demo_obs : obs_frame := [("label"%string, [3])].

(** ** Proof automation *)


From Stdlib Require Import DecimalNat FinFun.
(** * Further functions of the sources

    The remaining functions of [lib_regions_of_interest.py] (and of
    [lib_regions_of_interest/v1_checks.py], where they are repeated), and
    the metadata accessors of [lib_ngff.py] that deliver the pixel sizes
    and the coarsening factor these functions are called with. *)

(** ** are_ROI_table_columns_valid *)

(** [for column in columns: if column not in var_names: raise ValueError] *)
Fixpoint columns_loop (var_names : list string) (columns : list string)
  : result unit :=
  match columns with
  | [] => Ok tt
  | column :: rest =>
      if negb (existsb (String.eqb column) var_names) then
        Err (ValueError
               (String.append "Column "
                  (String.append column " is not present in ROI table")))
      else columns_loop var_names rest
  end.

Definition are_ROI_table_columns_valid (table : AnnData) : result unit :=
  (* Hard constraint: table columns must include some expected ones *)
  let columns :=
    ["x_micrometer"; "y_micrometer"; "z_micrometer";
     "len_x_micrometer"; "len_y_micrometer"; "len_z_micrometer"]%string in
  columns_loop (var_names table) columns.

(** A table as AnnData holds it: one name per matrix row, one name per
    entry of a row. *)
Definition rectangular (adata : AnnData) : Prop :=
  length (X adata) = length (obs_names adata) /\
  Forall (fun row => length row = length (var_names adata)) (X adata).

(** ** is_standard_roi_table *)

(** [sub in s] on Python strings: [sub] occurs in [s]. *)
Fixpoint str_contains (sub s : string) : bool :=
  String.prefix sub s ||
  match s with
  | EmptyString => false
  | String _ rest => str_contains sub rest
  end.

Definition is_standard_roi_table (table : string) : bool :=
  if str_contains "well_ROI_table" table then true
  else if str_contains "FOV_ROI_table" table then true
  else false.

(** [sub] is a part of [s]. *)
Definition occurs_in (sub s : string) : Prop :=
  exists before after,
    s = String.append before (String.append sub after).

(** ** get_single_image_ROI *)

(** The matrix is built with [dtype=np.float32]; the table of the
    embedding holds the exact products, of which the stored values are
    the nearest [float32] numbers. *)
Definition get_single_image_ROI (array_shape : list Z) (pixels_ZYX : list Q)
  : result AnnData :=
  '(shape_z, shape_y, shape_x) <- unpack3 (last3 array_shape) ;;
  pixel_x <- list_item pixels_ZYX 2 ;;
  pixel_y <- list_item pixels_ZYX 1 ;;
  pixel_z <- list_item pixels_ZYX 0 ;;
  Ok {| obs_names := ["image_1"%string];
        var_names :=
          ["x_micrometer"; "y_micrometer"; "z_micrometer";
           "len_x_micrometer"; "len_y_micrometer"; "len_z_micrometer";
           "x_micrometer_original"; "y_micrometer_original"]%string;
        X := [[ 0; 0; 0;
                inject_Z shape_x * pixel_x;
                inject_Z shape_y * pixel_y;
                inject_Z shape_z * pixel_z;
                0; 0 ]%Q];
        obs := [] |}.

(** ** convert_ROIs_from_3D_to_2D *)

(** [df = adata.to_df(); df[c] = v] followed by [AnnData(X=df)]: the
    column named [c] is overwritten in every row, or added as the last
    column when the table has none of this name.  The new table has the
    row names and the column names of the dataframe and no annotation. *)
Definition convert_ROIs_from_3D_to_2D (adata : AnnData) (pixel_size_z : Q)
  : AnnData :=
  (* Compress a 3D stack of images to a single Z plane,
     with thickness equal to pixel_size_z *)
  if existsb (String.eqb "len_z_micrometer") (var_names adata) then
    {| obs_names := obs_names adata;
       var_names := var_names adata;
       X := map (fun row => row_set (var_names adata) row
                                    "len_z_micrometer" pixel_size_z)
                (X adata);
       obs := [] |}
  else
    {| obs_names := obs_names adata;
       var_names := var_names adata ++ ["len_z_micrometer"%string];
       X := map (fun row => row ++ [pixel_size_z]) (X adata);
       obs := [] |}.

(** ** convert_indices_to_regions and load_region *)

(** A [region] is a tuple of slices [slice(start, stop)] with integer
    bounds, as [convert_indices_to_regions] builds them. *)
Definition convert_indices_to_regions (index : list Z) : result region :=
  i0 <- list_item index 0 ;;
  i1 <- list_item index 1 ;;
  i2 <- list_item index 2 ;;
  i3 <- list_item index 3 ;;
  i4 <- list_item index 4 ;;
  i5 <- list_item index 5 ;;
  Ok [(i0, i1); (i2, i3); (i4, i5)].

(** A bound of a slice on an axis of length [n]: a negative bound counts
    from the end, and bounds outside the axis are clipped to it. *)
Definition slice_bound (n : Z) (i : Z) : Z :=
  if i <? 0 then Z.max 0 (i + n) else Z.min i n.

(** [slice(start, stop).indices(n)]: the first position selected and
    the number of positions selected. *)
Definition slice_range (n : nat) (s : Z * Z) : nat * nat :=
  let start := slice_bound (Z.of_nat n) (fst s) in
  let stop := slice_bound (Z.of_nat n) (snd s) in
  (Z.to_nat start, Z.to_nat (stop - start)).

(** The ranges selected on the leading axes of an array of the given
    shape; [None] when there are more slices than axes. *)
Fixpoint slice_ranges (shape : list nat) (slices : region) {struct slices}
  : option (list (nat * nat)) :=
  match slices with
  | [] => Some []
  | s :: rest =>
      match shape with
      | [] => None
      | n :: ns =>
          option_map (cons (slice_range n s)) (slice_ranges ns rest)
      end
  end.

(** The elements selected, in row-major order: for each selected position
    of the first axis, the selection within the sub-array at this position.
    Axes without a range are taken whole. *)
Fixpoint slice_data {A} (shape : list nat) (ranges : list (nat * nat))
    (data : list A) : list A :=
  match shape, ranges with
  | _ :: rest, (start, len) :: rs =>
      let inner := size_of rest in
      flat_map (fun i => slice_data rest rs
                           (firstn inner (skipn (i * inner) data)))
               (seq start len)
  | _, _ => data
  end.

Fixpoint slice_shape (shape : list nat) (ranges : list (nat * nat))
  : list nat :=
  match shape, ranges with
  | _ :: rest, (_, len) :: rs => len :: slice_shape rest rs
  | _, _ => shape
  end.

(** [a[slices]] for a tuple of slices *)
Definition getitem_slices {A} (a : ndarray A) (slices : region)
  : result (ndarray A) :=
  match slice_ranges (shape a) slices with
  | None => Err IndexError
  | Some ranges =>
      Ok {| shape := slice_shape (shape a) ranges;
            data := slice_data (shape a) ranges (data a) |}
  end.

(** With [compute=True] the function returns a NumPy array and otherwise
    a dask array, of the same shape and content: the embedding has one
    type for both, and no argument [compute]. *)
Definition load_region {A} (data_zyx : ndarray A) (region : region)
    (return_as_3D : bool) : result (ndarray A) :=
  if negb (length region =? 3)%nat then
    Err (ValueError "In load_region, region must have three elements")
  else if (length (shape data_zyx) =? 3)%nat then
    getitem_slices data_zyx region
  else if (length (shape data_zyx) =? 2)%nat then
    region_1 <- list_item region 1 ;;
    region_2 <- list_item region 2 ;;
    img <- getitem_slices data_zyx [region_1; region_2] ;;
    if return_as_3D then Ok (expand_dims0 img) else Ok img
  else
    Err (ValueError "Shape not supported for load_region").

(** *** The typed view of the grid tables *)

(** The ROI that the table row of a cell holds. *)
Definition cell_ROI (pixel_z pixel_y pixel_x : Q) (shape_z : Z)
    (c : grid_cell) : PhysicalROI :=
  {| roi_x := inject_Z (cell_start_x c) * pixel_x;
     roi_y := inject_Z (cell_start_y c) * pixel_y;
     roi_z := inject_Z 0 * pixel_z;
     roi_len_x := inject_Z (cell_len_x c) * pixel_x;
     roi_len_y := inject_Z (cell_len_y c) * pixel_y;
     roi_len_z := inject_Z shape_z * pixel_z |}.

(** The pixels of a cell, as a range
    [start_z, end_z, start_y, end_y, start_x, end_x]. *)
Definition cell_range (shape_z : Z) (c : grid_cell) : list Z :=
  [ 0; shape_z;
    cell_start_y c; cell_start_y c + cell_len_y c;
    cell_start_x c; cell_start_x c + cell_len_x c ].

(** *** The typed view of the tables of [convert_ROIs_from_3D_to_2D] *)

(** The ROI [r] made [len_z] thick. *)
Definition with_len_z (r : PhysicalROI) (len_z : Q) : PhysicalROI :=
  {| roi_x := roi_x r; roi_y := roi_y r; roi_z := roi_z r;
     roi_len_x := roi_len_x r; roi_len_y := roi_len_y r;
     roi_len_z := len_z |}.

(** The range [range] of a ROI, cut down to its first Z plane. *)
Definition first_plane (range : list Z) : list Z :=
  match range with
  | start_z :: _ :: rest => start_z :: (start_z + 1) :: rest
  | _ => range
  end.

(** *** Notions used to state what a selection holds *)

(** Every range lies inside its axis. *)
Fixpoint ranges_inside (shape : list nat) (ranges : list (nat * nat))
    {struct ranges} : Prop :=
  match ranges with
  | [] => True
  | (start, len) :: rs =>
      match shape with
      | [] => False
      | n :: rest => (start + len <= n)%nat /\ ranges_inside rest rs
      end
  end.

(** The coordinates in the array of the element that has the coordinates
    [c] in the selection. *)
Fixpoint selected_coordinates (ranges : list (nat * nat)) (c : list Z)
  : list Z :=
  match ranges, c with
  | (start, _) :: rs, z :: cs =>
      (Z.of_nat start + z) :: selected_coordinates rs cs
  | _, _ => c
  end.

(** A table of two ROIs away from the origin, for the examples. *)
Definition demo_shifted_table : AnnData := {|
  obs_names := ["a"; "b"]%string;
  var_names := well_positional_columns;
  X := [[5; 7; 1; 2; 2; 1]; [3; 9; 1; 2; 2; 1]]%Q;
  obs := []
|}.

(** *** The rows of the tables of [prepare_FOV_ROI_table] and
    [prepare_well_ROI_table] *)

(** The row of a field of view whose positions are counted from the
    origin [(origin_x, origin_y, origin_z)]. *)
Definition FOV_row (origin_x origin_y origin_z : Q) (s : site_metadata)
  : list Q :=
  [ x_micrometer s - origin_x; y_micrometer s - origin_y;
    z_micrometer s - origin_z;
    len_x_micrometer s; len_y_micrometer s; len_z_micrometer s;
    x_micrometer_original s; y_micrometer_original s ]%Q.

(** [lo] is the smallest and [hi] the largest of the values [vs]. *)
Definition smallest (lo : Q) (vs : list Q) : Prop :=
  In lo vs /\ Forall (fun v => lo <= v)%Q vs.
Definition largest (hi : Q) (vs : list Q) : Prop :=
  In hi vs /\ Forall (fun v => v <= hi)%Q vs.

(** The extent of the fields of view along one axis: the row of the well,
    for the smallest positions [lo] and the largest ends [hi]. *)
Definition well_row (lo_x lo_y lo_z hi_x hi_y hi_z : Q) : list Q :=
  [ lo_x - lo_x; lo_y - lo_y; lo_z - lo_z;
    hi_x - lo_x; hi_y - lo_y; hi_z - lo_z ]%Q.

(** *** The typed view of a row of six values, in the order of the ROI
    columns *)

Definition ROI_of_row (values : list Q) : PhysicalROI :=
  {| roi_x := nth 0 values 0%Q; roi_y := nth 1 values 0%Q;
     roi_z := nth 2 values 0%Q;
     roi_len_x := nth 3 values 0%Q; roi_len_y := nth 4 values 0%Q;
     roi_len_z := nth 5 values 0%Q |}.

(** The voxels from [lo] to [hi] (included) along Z, Y and X, shifted by
    the origin, as a range
    [start_z, end_z, start_y, end_y, start_x, end_x]. *)
Definition voxel_range (oz oy ox : Z) (z0 z1 y0 y1 x0 x1 : Z) : list Z :=
  [ z0 + oz; z1 + 1 + oz; y0 + oy; y1 + 1 + oy; x0 + ox; x1 + 1 + ox ].

(** ** NGFF metadata ([lib_ngff.py])

    The pydantic models are records with the fields that the accessors
    read.  The accessors raise [NotImplementedError] besides the built-in
    exceptions above; their results are of the type [outcome]. *)

Inductive py_exception :=
| BuiltIn (e : exn)
| NotImplementedError (msg : string).

Inductive outcome (A : Type) :=
| Return (a : A)
| Raise (e : py_exception).
Arguments Return {A} a.
Arguments Raise {A} e.

Definition obind {A B} (m : outcome A) (f : A -> outcome B) : outcome B :=
  match m with
  | Return a => f a
  | Raise e => Raise e
  end.

Notation "x <~ m ;; k" := (obind m (fun x => k))
  (at level 61, m at next level, right associativity).

Definition lift {A} (m : result A) : outcome A :=
  match m with
  | Ok a => Return a
  | Err e => Raise (BuiltIn e)
  end.

Fixpoint omapM {A B} (f : A -> outcome B) (l : list A) : outcome (list B) :=
  match l with
  | [] => Return []
  | a :: r => b <~ f a ;; bs <~ omapM f r ;; Return (b :: bs)
  end.

(** [class Axe] *)
Record Axe := {
  axe_name : string;
  axe_type : option string
}.

(** [CoordinateTransformation] (of type [scale]) and
    [CoordinateTransformation1] (of type [translation]). *)
Inductive CoordinateTransformation :=
| Scale (scale : list Q)
| Translation (translation : list Q).

(** [class Dataset] *)
Record Dataset := {
  dataset_path : string;
  coordinateTransformations : list CoordinateTransformation
}.

(** [class Multiscale] *)
Record Multiscale := {
  multiscale_datasets : list Dataset;
  axes : list Axe
}.

(** [class NgffImageMeta] *)
Record NgffImageMeta := {
  multiscales : list Multiscale
}.

Definition multiscale (self : NgffImageMeta) : outcome Multiscale :=
  if (1 <? length (multiscales self))%nat then
    Raise (NotImplementedError "Only images with one multiscale are supported")
  else lift (list_item (multiscales self) 0).

Definition datasets (self : NgffImageMeta) : outcome (list Dataset) :=
  m <~ multiscale self ;; Return (multiscale_datasets m).

Definition num_levels (self : NgffImageMeta) : outcome nat :=
  ds <~ datasets self ;; Return (length ds).

(** [axes.index(name)] *)
Definition axes_index (name : string) (axes : list string) : result nat :=
  match index_of name axes with
  | Some i => Ok i
  | None => Err (ValueError (String.append name " is not in list"))
  end.

(** [transformation.scale] *)
Definition scale_of (t : CoordinateTransformation) : result (list Q) :=
  match t with
  | Scale scale => Ok scale
  | Translation _ => Err AttributeError
  end.

Definition pixel_sizes_zyx (self : NgffImageMeta)
  : outcome (list (Q * Q * Q)) :=
  m <~ multiscale self ;;
  let axes := map axe_name (axes m) in
  x_index <~ lift (axes_index "x" axes) ;;
  y_index <~ lift (axes_index "y" axes) ;;
  (* try: z_index = axes.index("z"); except ValueError: z_index = None *)
  let z_index := index_of "z" axes in
  n <~ num_levels self ;;
  omapM (fun level =>
           ds <~ datasets self ;;
           dataset <~ lift (list_item ds level) ;;
           t <~ lift (list_item (coordinateTransformations dataset) 0) ;;
           scale <~ lift (scale_of t) ;;
           pixel_size_x <~ lift (list_item scale x_index) ;;
           pixel_size_y <~ lift (list_item scale y_index) ;;
           pixel_size_z <~ match z_index with
                           | Some z_index => lift (list_item scale z_index)
                           | None => Return 1%Q
                           end ;;
           Return (pixel_size_z, pixel_size_y, pixel_size_x))
        (seq 0 n).

(** [l[i]] for a Python integer [i]: a negative [i] counts from the end. *)
Definition py_getitem {A} (l : list A) (i : Z) : result A :=
  if (0 <=? i) then list_item l (Z.to_nat i)
  else if (- Z.of_nat (length l) <=? i) then
    list_item l (Z.to_nat (Z.of_nat (length l) + i))
  else Err IndexError.

Definition get_pixel_sizes_zyx (self : NgffImageMeta) (level : Z)
  : outcome (Q * Q * Q) :=
  sizes <~ pixel_sizes_zyx self ;; lift (py_getitem sizes level).

(** [a / b] on Python floats: the float nearest to the quotient. *)
Definition py_truediv (a b : Q) : result Q :=
  if Qeq_bool b 0 then Err ZeroDivisionError else Ok (float64 (a / b)).

(** [round(self.pixel_sizes_zyx[ind][k] / self.pixel_sizes_zyx[ind - 1][k])]
    for the component selected by [component]. *)
Definition level_ratio (self : NgffImageMeta) (component : Q * Q * Q -> Q)
    (ind : nat) : outcome Z :=
  sizes <~ pixel_sizes_zyx self ;;
  fine <~ lift (list_item sizes ind) ;;
  sizes <~ pixel_sizes_zyx self ;;
  coarse <~ lift (list_item sizes (ind - 1)) ;;
  ratio <~ lift (py_truediv (component fine) (component coarse)) ;;
  Return (py_round ratio).

(** [for ind in range(1, self.num_levels): ...] *)
Fixpoint coarsening_loop (self : NgffImageMeta) (inds : list nat)
    (current_ratio : option Z) : outcome (option Z) :=
  match inds with
  | [] => Return current_ratio
  | ind :: rest =>
      ratio_x <~ level_ratio self (fun zyx => snd zyx) ind ;;
      ratio_y <~ level_ratio self (fun zyx => snd (fst zyx)) ind ;;
      if negb (ratio_x =? ratio_y) then
        Raise (NotImplementedError "Inhomogeneous coarsening in X/Y directions is not supported.")
      else
        match current_ratio with
        | None => coarsening_loop self rest (Some ratio_x)
        | Some ratio =>
            if negb (ratio =? ratio_x) then
              Raise (NotImplementedError "Inhomogeneous coarsening across levels is not supported.")
            else coarsening_loop self rest current_ratio
        end
  end.

(** The result is [None] when the loop body is never run. *)
Definition coarsening_xy (self : NgffImageMeta) : outcome (option Z) :=
  n <~ num_levels self ;;
  coarsening_loop self (seq 1 (n - 1)) None.

(** [class Image] *)
Record Image := {
  acquisition : option Z;
  image_path : string
}.

(** [class Well] *)
Record Well := {
  images : list Image
}.

(** [class NgffWellMeta] *)
Record NgffWellMeta := {
  well : option Well
}.

(** [for image in self.well.images: ...]; the dictionary lists its items
    in the order of their insertion. *)
Fixpoint acquisition_loop (images : list Image)
    (acquisition_dict : list (Z * string)) : outcome (list (Z * string)) :=
  match images with
  | [] => Return acquisition_dict
  | image :: rest =>
      match acquisition image with
      | None =>
          Raise (BuiltIn (ValueError "Cannot get acquisition paths for Zarr files without 'acquisition' metadata at the well level"))
      | Some a =>
          if existsb (fun item => fst item =? a) acquisition_dict then
            Raise (NotImplementedError "This task is not implemented for wells with multiple images of the same acquisition")
          else
            acquisition_loop rest (acquisition_dict ++ [(a, image_path image)])
      end
  end.

Definition get_acquisition_paths (self : NgffWellMeta)
  : outcome (list (Z * string)) :=
  match well self with
  | None => Raise (BuiltIn AttributeError)
  | Some w => acquisition_loop (images w) []
  end.

(** [d[key]] on such a dictionary *)
Definition dict_get (d : list (Z * string)) (key : Z) : option string :=
  option_map snd (find (fun item => fst item =? key) d).

(** The X and Y pixel sizes are those of a pyramid that starts at
    [(y0, x0)] and coarsens by the factor [c] from each level to the
    next. *)
Definition homogeneous_pyramid (y0 x0 : Q) (c : Z) (sizes : list (Q * Q * Q))
  : Prop :=
  forall level zyx,
    nth_error sizes level = Some zyx ->
    (snd (fst zyx) == y0 * inject_Z c ^ Z.of_nat level)%Q /\
    (snd zyx == x0 * inject_Z c ^ Z.of_nat level)%Q.

(** The metadata of an image with the axes c, z, y, x and three levels,
    coarsened by the factor 2 in Y and X, for the examples. *)
Definition demo_image_meta : NgffImageMeta := {|
  multiscales := [
    {| multiscale_datasets := [
         {| dataset_path := "0";
            coordinateTransformations := [Scale [1; 1; 1 # 2; 1 # 2]%Q] |};
         {| dataset_path := "1";
            coordinateTransformations := [Scale [1; 1; 1; 1]%Q] |};
         {| dataset_path := "2";
            coordinateTransformations := [Scale [1; 1; 2; 2]%Q] |} ];
       axes := [ {| axe_name := "c"; axe_type := Some "channel"%string |};
                 {| axe_name := "z"; axe_type := Some "space"%string |};
                 {| axe_name := "y"; axe_type := Some "space"%string |};
                 {| axe_name := "x"; axe_type := Some "space"%string |} ] |} ]
|}.

(** ** is_ROI_table_valid ([lib_regions_of_interest.py])

    The function reads the table and the attributes of the zarr group at
    [table_path]; here it is given what it reads there.  The attributes
    are JSON values. *)

#[warnings="-register-all"] Inductive json :=
| JNull
| JBool (b : bool)
| JNumber (q : Q)
| JString (s : string)
| JArray (l : list json)
| JObject (items : list (string * json)).

(** [attrs[key]] *)
Definition attrs_get (attrs : list (string * json)) (key : string)
  : result json :=
  match find (fun item => String.eqb key (fst item)) attrs with
  | Some item => Ok (snd item)
  | None => Err (KeyError key)
  end.

(** [value == s] for a string [s] *)
Definition json_eqb_string (value : json) (s : string) : bool :=
  match value with
  | JString t => String.eqb t s
  | _ => false
  end.

(** [value.keys()]: only a dictionary has keys. *)
Definition json_keys (value : json) : result (list string) :=
  match value with
  | JObject items => Ok (map fst items)
  | _ => Err AttributeError
  end.

Definition is_ROI_table_valid (table : AnnData)
    (attrs : list (string * json)) (use_masks : bool)
  : result (option bool) :=
  _ <- are_ROI_table_columns_valid table ;;
  if negb use_masks then Ok None
  else
    (* Soft constraint: the table can be used for masked loading (if not,
       return False) *)
    let valid :=
      forallb (fun key => existsb (String.eqb key) (map fst attrs))
              ["type"; "region"; "instance_key"]%string in
    valid <-
      (if valid then
         type <- attrs_get attrs "type" ;;
         let valid := valid && json_eqb_string type "ngff:region_table" in
         if valid then
           region <- attrs_get attrs "region" ;;
           keys <- json_keys region ;;
           Ok (existsb (String.eqb "path") keys)
         else Ok false
       else Ok false) ;;
    if valid then Ok (Some true) else Ok (Some false).

(** The attributes that masked loading asks for: the three keys, the
    type [ngff:region_table], and a region with a [path]. *)
Definition masking_attrs (attrs : list (string * json)) : Prop :=
  exists items instance_key,
    attrs_get attrs "type" = Ok (JString "ngff:region_table") /\
    attrs_get attrs "region" = Ok (JObject items) /\
    In "path"%string (map fst items) /\
    attrs_get attrs "instance_key" = Ok instance_key.

(** * Part II: theorems *)

Lemma Qfloor_frac (q : Q) :
  (0 <= q - inject_Z (Qfloor q))%Q /\ (q - inject_Z (Qfloor q) < 1)%Q.
Proof.
  pose proof (Qfloor_le q) as H1. pose proof (Qlt_floor q) as H2.
  rewrite inject_Z_plus in H2. change (inject_Z 1) with 1%Q in H2.
  split; lra.
Qed.

Lemma py_round_nearest (q : Q) : nearest_integer q (py_round q).
Proof.
  unfold nearest_integer, py_round.
  destruct (Qfloor_frac q) as [H0 H1].
  apply Qabs_Qle_condition.
  destruct (Qcompare_spec (q - inject_Z (Qfloor q)) (1 # 2)) as [E|E|E].
  - destruct (Z.even (Qfloor q)).
    + split; lra.
    + rewrite inject_Z_plus. change (inject_Z 1) with 1%Q. split; lra.
  - split; lra.
  - rewrite inject_Z_plus. change (inject_Z 1) with 1%Q. split; lra.
Qed.

Lemma py_round_bounds (q : Q) :
  Qfloor q <= py_round q <= Qfloor q + 1.
Proof.
  unfold py_round.
  destruct (q - inject_Z (Qfloor q) ?= 1 # 2)%Q; try lia.
  destruct (Z.even (Qfloor q)); lia.
Qed.

Lemma py_round_le (p q : Q) : (p <= q)%Q -> py_round p <= py_round q.
Proof.
  intros Hpq.
  pose proof (Qfloor_resp_le _ _ Hpq) as Hf.
  destruct (Z.eq_dec (Qfloor p) (Qfloor q)) as [E|NE].
  - unfold py_round. rewrite E.
    destruct (Qcompare_spec (p - inject_Z (Qfloor q)) (1 # 2)) as [E1|E1|E1];
    destruct (Qcompare_spec (q - inject_Z (Qfloor q)) (1 # 2)) as [E2|E2|E2];
      try lia; try (destruct (Z.even (Qfloor q)); lia); exfalso; lra.
  - pose proof (py_round_bounds p). pose proof (py_round_bounds q). lia.
Qed.

Lemma py_round_nonneg (q : Q) : (0 <= q)%Q -> 0 <= py_round q.
Proof.
  intros H. change 0 with (py_round 0). now apply py_round_le.
Qed.

Lemma py_round_eq (p q : Q) : (p == q)%Q -> py_round p = py_round q.
Proof.
  intros E. apply Z.le_antisymm; apply py_round_le; rewrite E; apply Qle_refl.
Qed.

Lemma py_round_inject_Z (n : Z) : py_round (inject_Z n) = n.
Proof.
  unfold py_round. rewrite Qfloor_Z.
  assert (E : (inject_Z n - inject_Z n == 0)%Q) by ring.
  rewrite E. reflexivity.
Qed.

(** ** Binary64 arithmetic *)

Lemma Qpow2_pos (e : Z) : (0 < 2 ^ e)%Q.
Proof. apply Qpower_0_lt. reflexivity. Qed.

Lemma Qpow2_succ (e : Z) : (2 ^ (e + 1) == 2 * 2 ^ e)%Q.
Proof.
  rewrite Qpower_plus by discriminate. rewrite Qpower_1_r. ring.
Qed.

Lemma Qpow2_inject (a : Z) : 0 <= a -> (inject_Z (2 ^ a) == 2 ^ a)%Q.
Proof. intros H. now rewrite Zpower_Qpower. Qed.

(** [Qlog2] is the exponent of the binade of its argument. *)
Lemma Qlog2_spec (q : Q) :
  (0 < q)%Q -> (2 ^ Qlog2 q <= q)%Q /\ (q < 2 ^ (Qlog2 q + 1))%Q.
Proof.
  intros Hq. unfold Qlog2.
  destruct q as [n d]. cbn [Qnum Qden].
  assert (Hn : 0 < n).
  { unfold Qlt in Hq. cbn in Hq. lia. }
  set (a := Z.log2 n). set (b := Z.log2 (Z.pos d)).
  pose proof (Z.log2_spec n Hn) as Ha. fold a in Ha.
  pose proof (Z.log2_spec (Z.pos d) eq_refl) as Hb. fold b in Hb.
  assert (Ha0 : 0 <= a) by apply Z.log2_nonneg.
  assert (Hb0 : 0 <= b) by apply Z.log2_nonneg.
  assert (HA : (inject_Z (2 ^ a) <= inject_Z n)%Q /\
               (inject_Z n < 2 * inject_Z (2 ^ a))%Q).
  { split; [rewrite <- Zle_Qle; lia|].
    change 2%Q with (inject_Z 2). rewrite <- inject_Z_mult, <- Zlt_Qlt.
    rewrite Z.pow_succ_r in Ha by assumption. lia. }
  assert (HB : (inject_Z (2 ^ b) <= inject_Z (Z.pos d))%Q /\
               (inject_Z (Z.pos d) < 2 * inject_Z (2 ^ b))%Q).
  { split; [rewrite <- Zle_Qle; lia|].
    change 2%Q with (inject_Z 2). rewrite <- inject_Z_mult, <- Zlt_Qlt.
    rewrite Z.pow_succ_r in Hb by assumption. lia. }
  rewrite !Qpow2_inject in HA, HB by assumption.
  assert (HD : (0 < inject_Z (Z.pos d))%Q) by reflexivity.
  assert (Hq' : ((n # d) * inject_Z (Z.pos d) == inject_Z n)%Q).
  { rewrite (Qmake_Qdiv n d). field. discriminate. }
  set (D := inject_Z (Z.pos d)) in *. set (N := inject_Z n) in *.
  set (x := (n # d)) in *.
  assert (HP : (2 ^ (a - b) * 2 ^ b == 2 ^ a)%Q).
  { rewrite <- Qpower_plus by discriminate. now replace (a - b + b) with a by lia. }
  pose proof (Qpow2_pos (a - b)) as HP0.
  pose proof (Qpow2_pos b) as HB0.
  pose proof (Qpow2_pos a) as HA0.
  destruct (Qle_bool (2 ^ (a - b)) x) eqn:E.
  - apply Qle_bool_iff in E. split; [exact E|].
    rewrite Qpow2_succ.
    set (P := (2 ^ (a - b))%Q) in *. set (A := (2 ^ a)%Q) in *.
    set (B := (2 ^ b)%Q) in *.
    apply Qnot_le_lt. intros Hc. nra.
  - assert (E' : (x < 2 ^ (a - b))%Q).
    { apply Qnot_le_lt. intros Hc. apply Qle_bool_iff in Hc. congruence. }
    replace (a - b - 1 + 1) with (a - b) by lia. split; [|exact E'].
    assert (HP' : (2 * 2 ^ (a - b - 1) == 2 ^ (a - b))%Q).
    { rewrite <- Qpow2_succ. now replace (a - b - 1 + 1) with (a - b) by lia. }
    pose proof (Qpow2_pos (a - b - 1)) as HP0'.
    set (P := (2 ^ (a - b))%Q) in *. set (A := (2 ^ a)%Q) in *.
    set (B := (2 ^ b)%Q) in *. set (P' := (2 ^ (a - b - 1))%Q) in *.
    apply Qnot_lt_le. intros Hc. nra.
Qed.

Lemma Qlog2_unique (q : Q) (e : Z) :
  (2 ^ e <= q)%Q -> (q < 2 ^ (e + 1))%Q -> Qlog2 q = e.
Proof.
  intros H1 H2.
  assert (Hq : (0 < q)%Q) by (pose proof (Qpow2_pos e); lra).
  destruct (Qlog2_spec q Hq) as [H3 H4].
  assert (Ha : Qlog2 q < e + 1).
  { apply (Qpower_lt_compat_l_inv 2); [lra|reflexivity]. }
  assert (Hb : e < Qlog2 q + 1).
  { apply (Qpower_lt_compat_l_inv 2); [lra|reflexivity]. }
  lia.
Qed.

Lemma Qlog2_comp (p q : Q) : (0 < p)%Q -> (p == q)%Q -> Qlog2 p = Qlog2 q.
Proof.
  intros Hp E. symmetry. destruct (Qlog2_spec p Hp) as [H1 H2].
  apply Qlog2_unique; rewrite <- E; assumption.
Qed.

Lemma Qabs_nonzero_pos (p : Q) : ~ (p == 0)%Q -> (0 < Qabs p)%Q.
Proof.
  intros Hp. destruct (Q_dec p 0) as [[H|H]|H]; [| |contradiction];
    apply Qabs_case; intros; lra.
Qed.

(** [float64] does not depend on how the rational is written. *)
Lemma float64_comp (p q : Q) : (p == q)%Q -> (float64 p == float64 q)%Q.
Proof.
  intros E. unfold float64.
  destruct (Qeq_bool p 0) eqn:Ep, (Qeq_bool q 0) eqn:Eq0.
  - reflexivity.
  - apply Qeq_bool_iff in Ep. apply Qeq_bool_neq in Eq0.
    rewrite <- E in Eq0. contradiction.
  - apply Qeq_bool_iff in Eq0. apply Qeq_bool_neq in Ep.
    rewrite E in Ep. contradiction.
  - apply Qeq_bool_neq in Ep.
    rewrite (Qlog2_comp (Qabs p) (Qabs q))
      by (now apply Qabs_nonzero_pos || now rewrite E).
    rewrite (py_round_eq (p / 2 ^ (Qlog2 (Qabs q) - 52))
                         (q / 2 ^ (Qlog2 (Qabs q) - 52))) by now rewrite E.
    reflexivity.
Qed.

(** The relative error of rounding is at most [2^-53]. *)
Lemma float64_error (q : Q) :
  (Qabs (float64 q - q) <= Qabs q * (1 # 9007199254740992))%Q.
Proof.
  unfold float64. destruct (Qeq_bool q 0) eqn:E0.
  - apply Qeq_bool_iff in E0. rewrite E0. discriminate.
  - apply Qeq_bool_neq in E0.
    pose proof (Qabs_nonzero_pos q E0) as Habs.
    destruct (Qlog2_spec (Qabs q) Habs) as [Hlo _].
    set (e := Qlog2 (Qabs q)) in *.
    pose proof (Qpow2_pos (e - 52)) as Hulp.
    assert (Hu : (2 ^ e == 2 ^ (e - 52) * 4503599627370496)%Q).
    { change 4503599627370496%Q with (2 ^ 52)%Q.
      rewrite <- Qpower_plus by discriminate.
      now replace (e - 52 + 52) with e by lia. }
    set (ulp := (2 ^ (e - 52))%Q) in *.
    pose proof (py_round_nearest (q / ulp)) as Hn. unfold nearest_integer in Hn.
    set (m := inject_Z (py_round (q / ulp))) in *.
    assert (Hd : (m * ulp - q == - (q / ulp - m) * ulp)%Q) by (field; lra).
    rewrite Hd, Qabs_Qmult, Qabs_opp, (Qabs_pos ulp)
      by (apply Qlt_le_weak; exact Hulp).
    set (x := Qabs (q / ulp - m)) in *. set (y := Qabs q) in *.
    set (P := (2 ^ e)%Q) in *.
    assert (Hx : (0 <= x)%Q) by apply Qabs_nonneg.
    nra.
Qed.

Lemma float64_pos (q : Q) : (0 < q)%Q -> (0 < float64 q)%Q.
Proof.
  intros Hq. pose proof (float64_error q) as H.
  rewrite (Qabs_pos q) in H by lra.
  apply Qabs_Qle_condition in H. lra.
Qed.

(** The integers below [2^53] are floats. *)
Lemma float64_inject_Z (c : Z) :
  0 < c < 2 ^ 53 -> (float64 (inject_Z c) == inject_Z c)%Q.
Proof.
  intros [Hc0 Hc]. unfold float64.
  assert (Hq : (0 < inject_Z c)%Q) by (change 0%Q with (inject_Z 0); now rewrite <- Zlt_Qlt).
  destruct (Qeq_bool (inject_Z c) 0) eqn:E0.
  { apply Qeq_bool_iff in E0. lra. }
  assert (Ea : Qabs (inject_Z c) = inject_Z c).
  { unfold Qabs, inject_Z. now rewrite Z.abs_eq by lia. }
  rewrite Ea.
  pose proof (Z.log2_spec c Hc0) as Hl.
  assert (He0 : 0 <= Z.log2 c) by apply Z.log2_nonneg.
  assert (He : Z.log2 c < 53).
  { apply Z.log2_lt_pow2; assumption. }
  rewrite (Qlog2_unique (inject_Z c) (Z.log2 c)).
  2: { rewrite <- Qpow2_inject by assumption. rewrite <- Zle_Qle. lia. }
  2: { rewrite <- Qpow2_inject by lia. rewrite <- Zlt_Qlt.
       replace (Z.log2 c + 1) with (Z.succ (Z.log2 c)) by lia. lia. }
  set (e := Z.log2 c) in *.
  assert (Hk : (2 ^ (e - 52) * inject_Z (2 ^ (52 - e)) == 1)%Q).
  { rewrite Qpow2_inject by lia. rewrite <- Qpower_plus by discriminate.
    now replace (e - 52 + (52 - e)) with 0 by lia. }
  pose proof (Qpow2_pos (e - 52)) as Hulp.
  set (ulp := (2 ^ (e - 52))%Q) in *.
  rewrite (py_round_eq (inject_Z c / ulp) (inject_Z (c * 2 ^ (52 - e)))).
  2: { rewrite inject_Z_mult. set (K := inject_Z (2 ^ (52 - e))) in *.
       assert (HK : (/ ulp == K)%Q).
       { transitivity (/ ulp * (ulp * K))%Q; [rewrite Hk; ring|field; lra]. }
       unfold Qdiv. now rewrite HK. }
  rewrite py_round_inject_Z, inject_Z_mult, <- Qmult_assoc,
    (Qmult_comm (inject_Z (2 ^ (52 - e)))), Hk. ring.
Qed.

Lemma py_min_spec (l : list Z) :
  l <> [] ->
  exists m, py_min l = Ok m /\ In m l /\ Forall (fun x => m <= x) l.
Proof.
  induction l as [|x r IH]; [congruence|]. intros _.
  destruct r as [|y r'].
  - exists x. simpl. repeat split; auto. constructor; [lia|constructor].
  - destruct IH as (m & Em & Im & Fm); [discriminate|].
    exists (Z.min x m). change (py_min (x :: y :: r'))
      with (m <- py_min (y :: r') ;; Ok (Z.min x m)). rewrite Em. simpl.
    split; [reflexivity|]. split.
    + destruct (Z.min_spec x m) as [[_ ->]|[_ ->]]; [now left|now right].
    + constructor; [lia|].
      eapply Forall_impl; [|exact Fm]. simpl. intros; lia.
Qed.


Lemma has_negative_Exists (l : list Z) :
  has_negative l = true <-> Exists (fun i => i < 0) l.
Proof.
  unfold has_negative. rewrite existsb_exists, Exists_exists.
  split; intros (x & Hin & Hx); exists x; split; auto; lia.
Qed.

Lemma has_negative_Forall (l : list Z) :
  has_negative l = false <-> Forall (fun i => 0 <= i) l.
Proof.
  unfold has_negative. induction l as [|x r IH]; simpl.
  - split; auto.
  - rewrite orb_false_iff, IH. split.
    + intros [H1 H2]. constructor; [lia|assumption].
    + intros H. inversion H; subst. split; [lia|assumption].
Qed.

Lemma py_min_negative (l : list Z) (m : Z) :
  py_min l = Ok m -> (m <? 0) = has_negative l.
Proof.
  intros Hm. assert (Hne : l <> []) by (intros ->; discriminate).
  destruct (py_min_spec l Hne) as (m' & E & Hin & Hall).
  rewrite Hm in E. injection E as <-.
  destruct (has_negative l) eqn:Hn.
  - apply has_negative_Exists, Exists_exists in Hn.
    destruct Hn as (x & Hx & Hlt). rewrite Forall_forall in Hall.
    specialize (Hall x Hx). lia.
  - apply has_negative_Forall in Hn. rewrite Forall_forall in Hn.
    specialize (Hn m Hin). lia.
Qed.

Lemma np_div_pos (a b : Q) : (0 < b)%Q -> np_div a b = Some (a / b)%Q.
Proof.
  intros Hb. unfold np_div.
  destruct (Qeq_bool b 0) eqn:E; [|reflexivity].
  apply Qeq_bool_eq in E. rewrite E in Hb. discriminate.
Qed.

Lemma find_row_located {P : list Q -> string * PhysicalROI -> Prop}
    (before after : list (string * PhysicalROI)) name r xrows :
  Forall2 P xrows (before ++ (name, r) :: after) ->
  ~ In name (map fst before) ->
  exists xrow,
    find_row name (map fst (before ++ (name, r) :: after)) xrows = Ok xrow /\
    P xrow (name, r).
Proof.
  revert xrows. induction before as [|[n0 r0] before IH]; intros xrows HF Hnot.
  - inversion HF as [|xrow ? xs ? Hx Hrest]; subst.
    exists xrow. simpl. rewrite String.eqb_refl. auto.
  - inversion HF as [|xrow ? xs ? Hx Hrest]; subst.
    simpl in Hnot. simpl.
    destruct (String.eqb_spec name n0) as [->|Hne]; [tauto|].
    apply IH; tauto.
Qed.

Section ConvertProof.

Variable ROI : AnnData.
Variables pz py px : Q.
Variable level : Z.
Hypothesis pz_pos : (0 < pz)%Q.
Hypothesis py_pos : (0 < py)%Q.
Hypothesis px_pos : (0 < px)%Q.

Lemma ROI_indices_located before name r after :
  ROI_table_rows ROI (before ++ (name, r) :: after) ->
  ~ In name (map fst before) ->
  ROI_indices ROI pz py px level
    "x_micrometer" "y_micrometer" "z_micrometer"
    "len_x_micrometer" "len_y_micrometer" "len_z_micrometer" name =
    if has_negative (pixel_range r pz py px) then
      Err (NegativeIndices name (roi_z r, roi_y r, roi_x r) (pz, py, px)
                           level)
    else Ok (pixel_range r pz py px).
Proof.
  intros [Hnames Hrows] Hnot.
  destruct (find_row_located before after name r (X ROI) Hrows Hnot)
    as (xrow & Hfind & Hx & Hy & Hz & Hlx & Hly & Hlz).
  simpl in Hx, Hy, Hz, Hlx, Hly, Hlz.
  unfold ROI_indices, getitem. rewrite Hnames, Hfind.
  cbn [bind]. rewrite Hx, Hy, Hz, Hlx, Hly, Hlz. cbn [bind].
  rewrite !np_div_pos by assumption. cbn [mapM round bind].
  fold (pixel_range r pz py px).
  destruct (py_min (pixel_range r pz py px)) as [m|e] eqn:Em.
  - cbn [bind]. now rewrite (py_min_negative _ _ Em).
  - exfalso. destruct (py_min_spec (pixel_range r pz py px)) as (m & E & _).
    + discriminate.
    + congruence.
Qed.

Lemma ROI_loop_rows before rows :
  ROI_table_rows ROI (before ++ rows) ->
  NoDup (map fst (before ++ rows)) ->
  ROI_loop ROI pz py px level
    "x_micrometer" "y_micrometer" "z_micrometer"
    "len_x_micrometer" "len_y_micrometer" "len_z_micrometer"
    (map fst rows)
  = convert_rows pz py px level rows.
Proof.
  revert before. induction rows as [|[name r] rows IH]; intros before HT HN.
  - reflexivity.
  - cbn [map fst ROI_loop convert_rows].
    assert (Hnot : ~ In name (map fst before)).
    { rewrite map_app in HN. simpl in HN.
      apply NoDup_remove_2 in HN. intros Hin. apply HN.
      apply in_or_app. now left. }
    rewrite (ROI_indices_located before name r rows HT Hnot).
    destruct (has_negative (pixel_range r pz py px)); [reflexivity|].
    cbn [bind].
    specialize (IH (before ++ [(name, r)])).
    rewrite <- app_assoc in IH. simpl in IH.
    rewrite (IH HT HN). reflexivity.
Qed.

End ConvertProof.

Lemma convert_rows_Ok pz py px level rows out :
  convert_rows pz py px level rows = Ok out ->
  out = map (fun nr => pixel_range (snd nr) pz py px) rows /\
  Forall (Forall (fun i => 0 <= i)) out.
Proof.
  revert out. induction rows as [|[name r] rows IH]; intros out H;
    cbn [convert_rows] in H.
  - injection H as <-. split; [reflexivity|constructor].
  - destruct (has_negative (pixel_range r pz py px)) eqn:Hn; [discriminate|].
    destruct (convert_rows pz py px level rows) as [l|e]; [|discriminate].
    cbn [bind] in H. injection H as <-.
    destruct (IH l eq_refl) as [-> HF]. split; [reflexivity|].
    constructor; [|assumption]. now apply has_negative_Forall.
Qed.

Lemma convert_rows_Err pz py px level rows e :
  convert_rows pz py px level rows = Err e ->
  exists before name r after,
    rows = before ++ (name, r) :: after /\
    Forall (fun nr => Forall (fun i => 0 <= i) (pixel_range (snd nr) pz py px))
           before /\
    Exists (fun i => i < 0) (pixel_range r pz py px) /\
    e = NegativeIndices name (roi_z r, roi_y r, roi_x r) (pz, py, px) level.
Proof.
  induction rows as [|[name r] rows IH]; intros H; cbn [convert_rows] in H;
    [discriminate|].
  destruct (has_negative (pixel_range r pz py px)) eqn:Hn.
  - injection H as <-. exists [], name, r, rows.
    repeat split; auto. now apply has_negative_Exists.
  - destruct (convert_rows pz py px level rows) as [l|e'] eqn:E;
      [discriminate|].
    cbn [bind] in H. injection H as ->.
    destruct (IH eq_refl) as (before & n & r' & after & -> & HF & HE & ->).
    exists ((name, r) :: before), n, r', after.
    repeat split; auto. constructor; [|assumption].
    now apply has_negative_Forall.
Qed.

Lemma convert_rows_nonneg pz py px level rows :
  Forall (fun nr => Forall (fun i => 0 <= i) (pixel_range (snd nr) pz py px))
         rows ->
  convert_rows pz py px level rows
  = Ok (map (fun nr => pixel_range (snd nr) pz py px) rows).
Proof.
  induction 1 as [|[name r] rows Hr _ IH]; [reflexivity|].
  cbn [convert_rows map snd] in *. apply has_negative_Forall in Hr.
  rewrite Hr, IH. reflexivity.
Qed.



(** When the pixel size of the level is positive, the power that scales
    it is defined. *)
Lemma py_pow_defined (f : Q) (c level : Z) :
  (0 < f * inject_Z c ^ level)%Q ->
  py_pow c level = Ok (inject_Z c ^ level)%Q.
Proof.
  intros H. unfold py_pow.
  destruct (Z.eqb_spec c 0) as [->|_]; [|reflexivity].
  destruct (Z.ltb_spec level 0) as [Hneg|_]; [|reflexivity].
  exfalso. change (inject_Z 0) with 0%Q in H.
  rewrite Qpower_0 in H by lia. rewrite Qmult_0_r in H. discriminate.
Qed.

Lemma convert_as_rows ROI rows fz fy fx level c :
  ROI_table_rows ROI rows -> NoDup (map fst rows) ->
  (0 < fz)%Q -> (0 < fy * inject_Z c ^ level)%Q ->
  (0 < fx * inject_Z c ^ level)%Q ->
  convert_ROI_table_to_indices ROI [fz; fy; fx] level c
    default_cols_xyz_pos default_cols_xyz_len
  = convert_rows fz (fy * inject_Z c ^ level) (fx * inject_Z c ^ level)
                 level rows.
Proof.
  intros HT HN Hz Hy Hx.
  pose proof (py_pow_defined fy c level Hy) as Epow.
  unfold convert_ROI_table_to_indices, n_obs.
  destruct HT as [Hnames Hrows]. rewrite Hnames.
  destruct rows as [|nr rows]; [reflexivity|].
  cbn [map List.length Nat.eqb]. rewrite Epow. cbn [bind].
  unfold default_cols_xyz_pos, default_cols_xyz_len.
  change (fst nr :: map fst rows) with (map fst (nr :: rows)).
  apply (ROI_loop_rows ROI) with (before := []); simpl; auto.
  split; assumption.
Qed.



(** *** Monotonicity in the pyramid level *)

Lemma Qdiv_nonneg (a p : Q) : (0 <= a)%Q -> (0 < p)%Q -> (0 <= a / p)%Q.
Proof.
  intros Ha Hp. apply Qle_shift_div_l; [assumption|]. lra.
Qed.

Lemma Qdiv_le_divisor (a p1 p2 : Q) :
  (0 <= a)%Q -> (0 < p1)%Q -> (p1 <= p2)%Q -> (a / p2 <= a / p1)%Q.
Proof.
  intros Ha Hp1 Hp.
  apply Qle_shift_div_r; [lra|].
  pose proof (Qdiv_nonneg a p1 Ha Hp1) as Hq.
  assert (E : (a / p1 * p1 == a)%Q) by (field; lra).
  set (q := (a / p1)%Q) in *. nra.
Qed.

Lemma round_div_le_divisor (a p1 p2 : Q) :
  (0 <= a)%Q -> (0 < p1)%Q -> (p1 <= p2)%Q ->
  py_round (a / p2) <= py_round (a / p1).
Proof.
  intros. apply py_round_le. now apply Qdiv_le_divisor.
Qed.

Lemma level_pixel_size_le (f : Q) (c L1 L2 : Z) :
  (0 < f)%Q -> 1 <= c -> L1 <= L2 ->
  (0 < f * inject_Z c ^ L1)%Q /\
  (f * inject_Z c ^ L1 <= f * inject_Z c ^ L2)%Q.
Proof.
  intros Hf Hc HL.
  assert (H1 : (1 <= inject_Z c)%Q).
  { change 1%Q with (inject_Z 1). now rewrite <- Zle_Qle. }
  pose proof (Qpower_le_compat_l (inject_Z c) L1 L2 HL H1) as Hpow.
  assert (Hpos : (0 < inject_Z c ^ L1)%Q) by (apply Qpower_0_lt; lra).
  split.
  - now apply Qmult_lt_0_compat.
  - apply Qmult_le_l; assumption.
Qed.

Lemma pixel_range_nonneg r pz py px :
  nonneg_ROI r -> (0 < pz)%Q -> (0 < py)%Q -> (0 < px)%Q ->
  Forall (fun i => 0 <= i) (pixel_range r pz py px).
Proof.
  intros (Hx & Hy & Hz & Hlx & Hly & Hlz) Hpz Hpy Hpx.
  unfold pixel_range.
  repeat constructor; apply py_round_nonneg; apply Qdiv_nonneg;
    try assumption; lra.
Qed.

Lemma pixel_range_level_le r pz py1 px1 py2 px2 :
  nonneg_ROI r -> (0 < py1)%Q -> (0 < px1)%Q ->
  (py1 <= py2)%Q -> (px1 <= px2)%Q ->
  Forall2 Z.le (pixel_range r pz py2 px2) (pixel_range r pz py1 px1) /\
  firstn 2 (pixel_range r pz py2 px2) = firstn 2 (pixel_range r pz py1 px1).
Proof.
  intros (Hx & Hy & Hz & Hlx & Hly & Hlz) Hpy Hpx Hy12 Hx12.
  unfold pixel_range. split; [|reflexivity].
  repeat constructor; try apply Z.le_refl;
    apply round_div_le_divisor; try assumption; lra.
Qed.

(** C8.  For a ROI table whose rows all have non-negative position and
    extent, positive full-resolution pixel sizes, a coarsening factor of at
    least 1 and levels [L1 <= L2], the conversion succeeds at both levels
    and every index at level [L2] is less than or equal to the index at
    level [L1] of the same row; the two Z indices are equal. *)
Theorem convert_ROI_table_to_indices_level_monotone
    (ROI : AnnData) (rows : list (string * PhysicalROI))
    (fz fy fx : Q) (c L1 L2 : Z) :
  ROI_table_rows ROI rows -> NoDup (map fst rows) ->
  Forall (fun nr => nonneg_ROI (snd nr)) rows ->
  (0 < fz)%Q -> (0 < fy)%Q -> (0 < fx)%Q -> 1 <= c -> L1 <= L2 ->
  exists out1 out2,
    convert_ROI_table_to_indices ROI [fz; fy; fx] L1 c
      default_cols_xyz_pos default_cols_xyz_len = Ok out1 /\
    convert_ROI_table_to_indices ROI [fz; fy; fx] L2 c
      default_cols_xyz_pos default_cols_xyz_len = Ok out2 /\
    length out1 = length rows /\
    Forall2 (fun range2 range1 =>
               Forall2 Z.le range2 range1 /\
               firstn 2 range2 = firstn 2 range1) out2 out1.
Proof.
  intros HT HN Hnn Hz Hy Hx Hc HL.
  destruct (level_pixel_size_le fy c L1 L2 Hy Hc HL) as [Hy1 Hy12].
  destruct (level_pixel_size_le fx c L1 L2 Hx Hc HL) as [Hx1 Hx12].
  assert (Hy2 : (0 < fy * inject_Z c ^ L2)%Q) by lra.
  assert (Hx2 : (0 < fx * inject_Z c ^ L2)%Q) by lra.
  rewrite !(convert_as_rows ROI rows) by assumption.
  do 2 eexists. split; [|split; [|split]].
  - apply convert_rows_nonneg. eapply Forall_impl; [|exact Hnn].
    intros nr Hr. now apply pixel_range_nonneg.
  - apply convert_rows_nonneg. eapply Forall_impl; [|exact Hnn].
    intros nr Hr. now apply pixel_range_nonneg.
  - apply length_map.
  - clear HT HN. induction Hnn as [|nr rows Hr _ IH]; constructor; auto.
    now apply pixel_range_level_le.
Qed.

Lemma convert_ROI_table_to_indices_level_monotone_witness :
  exists out1 out2,
    convert_ROI_table_to_indices demo_ROI_table [1; 1 # 2; 1 # 2]%Q 0 2
      default_cols_xyz_pos default_cols_xyz_len = Ok out1 /\
    convert_ROI_table_to_indices demo_ROI_table [1; 1 # 2; 1 # 2]%Q 1 2
      default_cols_xyz_pos default_cols_xyz_len = Ok out2 /\
    length out1 = length demo_ROI_rows /\
    Forall2 (fun range2 range1 =>
               Forall2 Z.le range2 range1 /\
               firstn 2 range2 = firstn 2 range1) out2 out1.
Proof.
  apply (convert_ROI_table_to_indices_level_monotone
           demo_ROI_table demo_ROI_rows 1 (1 # 2) (1 # 2) 2 0 1).
  - split; [reflexivity|]. repeat constructor.
  - repeat constructor; simpl; intuition discriminate.
  - repeat constructor; simpl; discriminate.
  - reflexivity.
  - reflexivity.
  - reflexivity.
  - discriminate.
  - discriminate.
Defined.

(** ** check_valid_ROI_indices *)

Lemma FOV_or_well_existsb (name : string) :
  existsb (String.eqb name) ["FOV_ROI_table"; "well_ROI_table"]%string = true
  <-> FOV_or_well name.
Proof.
  unfold FOV_or_well. cbn [existsb]. rewrite !orb_true_iff, !String.eqb_eq.
  intuition discriminate.
Qed.

Lemma mapM_list_item (k : nat) (l : list (list Z)) :
  Forall (fun item => (k < length item)%nat) l ->
  exists vs, mapM (fun item => list_item item k) l = Ok vs /\
             Forall2 (fun item v => nth_error item k = Some v) l vs.
Proof.
  induction 1 as [|item l Hk _ (vs & E & HF)].
  - exists []. split; [reflexivity|constructor].
  - apply nth_error_Some in Hk.
    destruct (nth_error item k) as [v|] eqn:Ev; [|congruence].
    exists (v :: vs). cbn [mapM]. unfold list_item at 1. rewrite Ev, E.
    split; [reflexivity|]. now constructor.
Qed.

Lemma axis_minimum_of_starts k l vs m :
  Forall2 (fun item v => nth_error item k = Some v) l vs ->
  In m vs -> Forall (fun x => m <= x) vs -> axis_minimum k l m.
Proof.
  intros HF. split.
  - clear H0. induction HF as [|item v l vs Hv _ IH]; [contradiction|].
    destruct H as [->|Hin].
    + exists item. split; [now left|assumption].
    + destruct (IH Hin) as (it & Hit & Hnth). exists it. split; auto.
      now right.
  - clear H. induction HF as [|item v l vs Hv _ IH]; [contradiction|].
    intros it w [->|Hin] Hw.
    + inversion H0; subst. congruence.
    + inversion H0; subst. eauto.
Qed.

(** The complete behaviour of the check on a non-empty list of six-integer
    ranges. *)
Lemma check_valid_ROI_indices_nonempty
    (list_indices : list (list Z)) (ROI_table_name : string) :
  list_indices <> [] ->
  Forall (fun item => length item = 6%nat) list_indices ->
  exists mz my mx,
    axis_minimum 0 list_indices mz /\
    axis_minimum 2 list_indices my /\
    axis_minimum 4 list_indices mx /\
    check_valid_ROI_indices list_indices ROI_table_name =
      if negb (existsb (String.eqb ROI_table_name)
                       ["FOV_ROI_table"; "well_ROI_table"]%string)
      then Ok tt
      else if negb (mz =? 0) then Err (NonZeroOrigin "Z" ROI_table_name mz)
      else if negb (my =? 0) then Err (NonZeroOrigin "Y" ROI_table_name my)
      else if negb (mx =? 0) then Err (NonZeroOrigin "X" ROI_table_name mx)
      else Ok tt.
Proof.
  intros Hne H6.
  assert (Hk : forall k, (k < 6)%nat ->
    exists vs m, mapM (fun item => list_item item k) list_indices = Ok vs /\
                 py_min vs = Ok m /\ axis_minimum k list_indices m).
  { intros k Hk6.
    destruct (mapM_list_item k list_indices) as (vs & E & HF).
    { eapply Forall_impl; [|exact H6]. simpl. intros; lia. }
    destruct (py_min_spec vs) as (m & Em & Hin & Hall).
    { intros ->. inversion HF. subst. congruence. }
    exists vs, m. repeat split; auto;
      eapply axis_minimum_of_starts; eauto. }
  destruct (Hk 0%nat) as (vz & mz & Ez & Emz & Hz); [lia|].
  destruct (Hk 2%nat) as (vy & my & Ey & Emy & Hy); [lia|].
  destruct (Hk 4%nat) as (vx & mx & Ex & Emx & Hx); [lia|].
  exists mz, my, mx. repeat split; try apply Hz; try apply Hy; try apply Hx.
  unfold check_valid_ROI_indices.
  destruct (negb (existsb _ _)); [reflexivity|].
  rewrite Ez. cbn [bind]. rewrite Emz. cbn [bind].
  rewrite Ey. cbn [bind]. rewrite Emy. cbn [bind].
  rewrite Ex. cbn [bind]. rewrite Emx. cbn [bind check_zero_loop].
  destruct (mz =? 0); [|reflexivity].
  destruct (my =? 0); [|reflexivity].
  destruct (mx =? 0); reflexivity.
Qed.

(** ** reset_origin *)

Lemma row_value_cons n ns x xs c :
  row_value (n :: ns) (x :: xs) c =
  if String.eqb c n then Ok x else row_value ns xs c.
Proof.
  unfold row_value. cbn [index_of].
  destruct (String.eqb c n); [reflexivity|].
  destruct (index_of c ns); reflexivity.
Qed.

Lemma row_value_In vars row c v :
  row_value vars row c = Ok v -> existsb (String.eqb c) vars = true.
Proof.
  unfold row_value. intros H.
  destruct (index_of c vars) as [j|] eqn:E; [clear H|discriminate].
  revert j E. induction vars as [|n ns IH]; intros j E; [discriminate|].
  cbn [index_of existsb] in *.
  destruct (String.eqb c n); [reflexivity|].
  destruct (index_of c ns) as [j'|]; [|discriminate]. simpl. eauto.
Qed.

Lemma row_value_row_set_same vars row c x v :
  row_value vars row c = Ok x ->
  row_value vars (row_set vars row c v) c = Ok v.
Proof.
  revert row. induction vars as [|n ns IH]; intros row H.
  - discriminate.
  - destruct row as [|y ys].
    + unfold row_value in H. destruct (index_of c (n :: ns)) as [[|j]|];
        discriminate.
    + cbn [row_set]. rewrite row_value_cons in *.
      destruct (String.eqb c n); [reflexivity|]. now apply IH.
Qed.

Lemma row_value_row_set_other vars row c c' v :
  c <> c' ->
  row_value vars (row_set vars row c v) c' = row_value vars row c'.
Proof.
  intros Hne. revert row. induction vars as [|n ns IH]; intros row.
  - reflexivity.
  - destruct row as [|y ys]; [reflexivity|].
    cbn [row_set]. rewrite !row_value_cons.
    destruct (String.eqb_spec c' n) as [->|_]; [|apply IH].
    destruct (String.eqb_spec c n) as [->|_]; [congruence|reflexivity].
Qed.

Lemma existsb_eqb_In (name : string) (names : list string) :
  In name names -> existsb (String.eqb name) names = true.
Proof.
  intros H. apply existsb_exists. exists name. split; [assumption|].
  apply String.eqb_refl.
Qed.

Lemma find_row_split name n_done n_todo (done todo : list (list Q)) row :
  length n_done = length done -> ~ In name n_done ->
  find_row name (n_done ++ name :: n_todo) (done ++ row :: todo) = Ok row.
Proof.
  revert done. induction n_done as [|n ns IH]; intros [|d ds] Hlen Hnot;
    try discriminate; simpl in *.
  - now rewrite String.eqb_refl.
  - destruct (String.eqb_spec name n) as [->|_]; [tauto|].
    apply IH; [lia|tauto].
Qed.

Lemma rows_set_not_named names vars rows r c v :
  ~ In r names -> rows_set names vars rows r c v = rows.
Proof.
  revert rows. induction names as [|n ns IH]; intros rows Hnot.
  - reflexivity.
  - destruct rows as [|x xs]; [reflexivity|]. simpl in *.
    destruct (String.eqb_spec r n) as [->|_]; [tauto|].
    rewrite IH; tauto.
Qed.

Lemma rows_set_split name n_done n_todo vars (done todo : list (list Q))
    row c v :
  length n_done = length done -> ~ In name n_done -> ~ In name n_todo ->
  rows_set (n_done ++ name :: n_todo) vars (done ++ row :: todo) name c v
  = done ++ row_set vars row c v :: todo.
Proof.
  revert done. induction n_done as [|n ns IH]; intros [|d ds] Hlen Hnot Hnot';
    try discriminate; simpl in *.
  - rewrite String.eqb_refl. now rewrite rows_set_not_named.
  - destruct (String.eqb_spec name n) as [->|_]; [tauto|].
    rewrite IH; try tauto. lia.
Qed.

Section ResetOrigin.

Variables origin_x origin_y origin_z : Q.
Variables x_pos y_pos z_pos : string.
Variables names vars : list string.
Variable annotation : list (string * list string).
Hypothesis names_NoDup : NoDup names.

(** One iteration of the loop, on the table whose matrix is
    [done ++ row :: todo]. *)
Lemma reset_origin_loop_step n_done name n_todo done row row' todo :
  names = n_done ++ name :: n_todo ->
  length n_done = length done ->
  reset_row vars origin_x origin_y origin_z x_pos y_pos z_pos row = Ok row' ->
  reset_origin_loop origin_x origin_y origin_z x_pos y_pos z_pos
    (name :: n_todo)
    {| obs_names := names; var_names := vars;
       X := done ++ row :: todo; obs := annotation |}
  = reset_origin_loop origin_x origin_y origin_z x_pos y_pos z_pos
    n_todo
    {| obs_names := names; var_names := vars;
       X := done ++ row' :: todo; obs := annotation |}.
Proof.
  intros Hnames Hlen Hrow.
  assert (Hnot : ~ In name n_done /\ ~ In name n_todo).
  { pose proof names_NoDup as HN. rewrite Hnames in HN.
    apply NoDup_remove_2 in HN. split; intros Hin; apply HN;
      apply in_or_app; auto. }
  destruct Hnot as [Hnot Hnot'].
  assert (Hin : existsb (String.eqb name) names = true).
  { apply existsb_eqb_In. rewrite Hnames. apply in_or_app. right. now left. }
  assert (Hget : forall r c,
    getitem {| obs_names := names; var_names := vars;
               X := done ++ r :: todo; obs := annotation |} name c
    = row_value vars r c).
  { intros r c. unfold getitem. cbn [obs_names X var_names].
    rewrite Hnames, find_row_split by assumption. reflexivity. }
  assert (Hset : forall r c x v, row_value vars r c = Ok x ->
    setitem {| obs_names := names; var_names := vars;
               X := done ++ r :: todo; obs := annotation |} name c v
    = Ok {| obs_names := names; var_names := vars;
            X := done ++ row_set vars r c v :: todo; obs := annotation |}).
  { intros r c x v Hv. unfold setitem. cbn [obs_names X var_names obs].
    rewrite Hin, (row_value_In _ _ _ _ Hv). cbn [negb].
    rewrite Hnames at 2. rewrite rows_set_split by assumption. reflexivity. }
  unfold reset_row in Hrow. cbn [reset_origin_loop].
  rewrite Hget.
  destruct (row_value vars row x_pos) as [x|] eqn:Ex; [|discriminate].
  cbn [bind] in *. rewrite (Hset _ _ _ _ Ex). cbn [bind]. rewrite Hget.
  destruct (row_value vars (row_set vars row x_pos (x - origin_x)) y_pos)
    as [y|] eqn:Ey; [|discriminate].
  cbn [bind] in *. rewrite (Hset _ _ _ _ Ey). cbn [bind]. rewrite Hget.
  destruct (row_value vars _ z_pos) as [z|] eqn:Ez; [|discriminate].
  cbn [bind] in *. rewrite (Hset _ _ _ _ Ez). cbn [bind].
  injection Hrow as <-. reflexivity.
Qed.

Lemma reset_origin_loop_rows n_done n_todo done todo todo' :
  names = n_done ++ n_todo ->
  length n_done = length done ->
  Forall2 (fun row row' =>
             reset_row vars origin_x origin_y origin_z x_pos y_pos z_pos row
             = Ok row') todo todo' ->
  length n_todo = length todo ->
  reset_origin_loop origin_x origin_y origin_z x_pos y_pos z_pos n_todo
    {| obs_names := names; var_names := vars;
       X := done ++ todo; obs := annotation |}
  = Ok {| obs_names := names; var_names := vars;
          X := done ++ todo'; obs := annotation |}.
Proof.
  intros Hnames Hlen HF. revert n_done n_todo done Hnames Hlen.
  induction HF as [|row row' todo todo' Hrow _ IH];
    intros n_done n_todo done Hnames Hlen Hlen'.
  - destruct n_todo; [reflexivity|discriminate].
  - destruct n_todo as [|name n_todo]; [discriminate|].
    rewrite (reset_origin_loop_step n_done name n_todo done row row' todo)
      by assumption.
    specialize (IH (n_done ++ [name]) n_todo (done ++ [row'])).
    rewrite <- !app_assoc in IH. simpl in IH. apply IH.
    + assumption.
    + rewrite !length_app. simpl. lia.
    + simpl in Hlen'. lia.
Qed.

End ResetOrigin.

Lemma min_from_spec (l : list Q) (m : Q) :
  In (min_from m l) (m :: l) /\
  Forall (fun x => min_from m l <= x)%Q (m :: l).
Proof.
  revert m. induction l as [|x r IH]; intros m; cbn [min_from].
  - split; [now left|]. constructor; [apply Qle_refl|constructor].
  - destruct (Qle_bool m x) eqn:E.
    + destruct (IH m) as [Hin Hall]. apply Qle_bool_iff in E.
      inversion Hall as [|? ? Hm Hr]; subst. split.
      * destruct Hin as [<-|Hin]; [now left|right; now right].
      * constructor; [assumption|]. constructor; [|assumption].
        eapply Qle_trans; eassumption.
    + destruct (IH x) as [Hin Hall].
      assert (Hxm : (x <= m)%Q).
      { destruct (Qlt_le_dec x m) as [H|H]; [now apply Qlt_le_weak|].
        apply Qle_bool_iff in H. congruence. }
      inversion Hall as [|? ? Hx Hr]; subst. split.
      * right. exact Hin.
      * constructor; [eapply Qle_trans; eassumption|]. now constructor.
Qed.

Lemma py_min_float_spec (l : list Q) :
  l <> [] ->
  exists m, py_min_float l = Ok m /\ In m l /\ Forall (fun x => m <= x)%Q l.
Proof.
  destruct l as [|x r]; [congruence|]. intros _.
  exists (min_from x r). split; [reflexivity|]. apply min_from_spec.
Qed.

Lemma shifted_zero_minimum (vs : list Q) (m : Q) :
  In m vs -> Forall (fun x => m <= x)%Q vs ->
  zero_minimum (map (fun x => x - m)%Q vs).
Proof.
  intros Hin Hall. split.
  - apply Forall_map. eapply Forall_impl; [|exact Hall].
    simpl. intros x Hx. lra.
  - apply Exists_exists. exists (m - m)%Q. split.
    + apply in_map_iff. now exists m.
    + lra.
Qed.

Lemma mapM_Ok_length {A B} (f : A -> result B) (l : list A) (vs : list B) :
  mapM f l = Ok vs -> length vs = length l.
Proof.
  revert vs. induction l as [|a l IH]; intros vs H; cbn [mapM] in H.
  - now injection H as <-.
  - destruct (f a); [|discriminate]. cbn [bind] in H.
    destruct (mapM f l) as [bs|]; [|discriminate]. cbn [bind] in H.
    injection H as <-. simpl. f_equal. now apply IH.
Qed.

Section ResetRows.

Variables origin_x origin_y origin_z : Q.
Variables x_pos y_pos z_pos : string.
Variable vars : list string.
Hypothesis xy_distinct : x_pos <> y_pos.
Hypothesis xz_distinct : x_pos <> z_pos.
Hypothesis yz_distinct : y_pos <> z_pos.

Lemma reset_row_values row x y z :
  row_value vars row x_pos = Ok x ->
  row_value vars row y_pos = Ok y ->
  row_value vars row z_pos = Ok z ->
  exists row',
    reset_row vars origin_x origin_y origin_z x_pos y_pos z_pos row = Ok row' /\
    row_value vars row' x_pos = Ok (x - origin_x)%Q /\
    row_value vars row' y_pos = Ok (y - origin_y)%Q /\
    row_value vars row' z_pos = Ok (z - origin_z)%Q.
Proof.
  intros Hx Hy Hz. unfold reset_row. rewrite Hx. cbn [bind].
  rewrite row_value_row_set_other, Hy by assumption. cbn [bind].
  rewrite !row_value_row_set_other, Hz by assumption. cbn [bind].
  eexists. split; [reflexivity|]. split; [|split].
  - rewrite !row_value_row_set_other by congruence.
    eapply row_value_row_set_same; eassumption.
  - rewrite row_value_row_set_other by congruence.
    eapply row_value_row_set_same.
    rewrite row_value_row_set_other by assumption. eassumption.
  - eapply row_value_row_set_same.
    rewrite !row_value_row_set_other by assumption. eassumption.
Qed.

Lemma reset_rows_columns (rows : list (list Q)) xs ys zs :
  mapM (fun row => row_value vars row x_pos) rows = Ok xs ->
  mapM (fun row => row_value vars row y_pos) rows = Ok ys ->
  mapM (fun row => row_value vars row z_pos) rows = Ok zs ->
  exists rows',
    Forall2 (fun row row' =>
               reset_row vars origin_x origin_y origin_z x_pos y_pos z_pos row
               = Ok row') rows rows' /\
    mapM (fun row => row_value vars row x_pos) rows'
      = Ok (map (fun x => x - origin_x)%Q xs) /\
    mapM (fun row => row_value vars row y_pos) rows'
      = Ok (map (fun y => y - origin_y)%Q ys) /\
    mapM (fun row => row_value vars row z_pos) rows'
      = Ok (map (fun z => z - origin_z)%Q zs).
Proof.
  revert xs ys zs. induction rows as [|row rows IH]; intros xs ys zs Hx Hy Hz;
    cbn [mapM] in Hx, Hy, Hz.
  - injection Hx as <-. injection Hy as <-. injection Hz as <-.
    exists []. repeat split; constructor.
  - destruct (row_value vars row x_pos) as [x|] eqn:Ex; [|discriminate].
    destruct (row_value vars row y_pos) as [y|] eqn:Ey; [|discriminate].
    destruct (row_value vars row z_pos) as [z|] eqn:Ez; [|discriminate].
    cbn [bind] in Hx, Hy, Hz.
    destruct (mapM _ rows) as [xs'|] eqn:Exs in Hx; [|discriminate].
    destruct (mapM _ rows) as [ys'|] eqn:Eys in Hy; [|discriminate].
    destruct (mapM _ rows) as [zs'|] eqn:Ezs in Hz; [|discriminate].
    cbn [bind] in Hx, Hy, Hz.
    injection Hx as <-. injection Hy as <-. injection Hz as <-.
    destruct (IH xs' ys' zs' Exs Eys Ezs) as (rows' & HF & Hxs & Hys & Hzs).
    destruct (reset_row_values row x y z Ex Ey Ez)
      as (row' & Hrow & Hx' & Hy' & Hz').
    exists (row' :: rows'). split; [now constructor|].
    cbn [mapM map]. rewrite Hx', Hy', Hz', Hxs, Hys, Hzs. auto.
Qed.

End ResetRows.

(** After [reset_origin], each of the three position columns has minimum
    zero; row names, column names and the number of rows are kept. *)
Lemma reset_origin_zero_minimum (ROI_table : AnnData) (xs ys zs : list Q) :
  NoDup (obs_names ROI_table) ->
  length (obs_names ROI_table) = length (X ROI_table) ->
  X ROI_table <> [] ->
  column ROI_table "x_micrometer" = Ok xs ->
  column ROI_table "y_micrometer" = Ok ys ->
  column ROI_table "z_micrometer" = Ok zs ->
  exists new_table xs' ys' zs',
    reset_origin ROI_table "x_micrometer" "y_micrometer" "z_micrometer"
      = Ok new_table /\
    obs_names new_table = obs_names ROI_table /\
    var_names new_table = var_names ROI_table /\
    length (X new_table) = length (X ROI_table) /\
    column new_table "x_micrometer" = Ok xs' /\ zero_minimum xs' /\
    column new_table "y_micrometer" = Ok ys' /\ zero_minimum ys' /\
    column new_table "z_micrometer" = Ok zs' /\ zero_minimum zs'.
Proof.
  intros HN Hlen Hne Hx Hy Hz.
  destruct ROI_table as [names vars rows annotation].
  unfold column in *. cbn [obs_names var_names X obs] in *.
  assert (Hnonempty : forall vs : list Q, length vs = length rows -> vs <> []).
  { intros vs Hl ->. destruct rows; [congruence|discriminate]. }
  destruct (py_min_float_spec xs) as (ox & Eox & Hox & Hxall).
  { apply Hnonempty. eapply mapM_Ok_length; eassumption. }
  destruct (py_min_float_spec ys) as (oy & Eoy & Hoy & Hyall).
  { apply Hnonempty. eapply mapM_Ok_length; eassumption. }
  destruct (py_min_float_spec zs) as (oz & Eoz & Hoz & Hzall).
  { apply Hnonempty. eapply mapM_Ok_length; eassumption. }
  destruct (reset_rows_columns ox oy oz
              "x_micrometer" "y_micrometer" "z_micrometer" vars
              ltac:(discriminate) ltac:(discriminate) ltac:(discriminate)
              rows xs ys zs Hx Hy Hz)
    as (rows' & HF & Hxs & Hys & Hzs).
  exists {| obs_names := names; var_names := vars; X := rows';
            obs := annotation |}.
  exists (map (fun x => x - ox)%Q xs), (map (fun y => y - oy)%Q ys),
         (map (fun z => z - oz)%Q zs).
  unfold reset_origin, column. cbn [obs_names var_names X obs].
  rewrite Hx. cbn [bind]. rewrite Eox. cbn [bind].
  rewrite Hy. cbn [bind]. rewrite Eoy. cbn [bind].
  rewrite Hz. cbn [bind]. rewrite Eoz. cbn [bind].
  split.
  { apply (reset_origin_loop_rows ox oy oz _ _ _ names vars annotation HN
             [] names [] rows rows'); auto. }
  split; [reflexivity|]. split; [reflexivity|].
  split; [symmetry; eapply Forall2_length; eassumption|].
  split; [exact Hxs|]. split; [now apply shifted_zero_minimum|].
  split; [exact Hys|]. split; [now apply shifted_zero_minimum|].
  split; [exact Hzs|]. now apply shifted_zero_minimum.
Qed.

Lemma mapM_map_Ok {A B C} (f : B -> result C) (g : A -> B) (h : A -> C)
    (l : list A) :
  (forall a, f (g a) = Ok (h a)) -> mapM f (map g l) = Ok (map h l).
Proof.
  intros H. induction l as [|a l IH]; [reflexivity|].
  cbn [map mapM]. now rewrite H, IH.
Qed.

Lemma prepare_FOV_ROI_table_normalized (df : metadata_DataFrame) metadata :
  df_rows df <> [] -> NoDup (df_index df) ->
  length (df_index df) = length (df_rows df) ->
  exists adata,
    prepare_FOV_ROI_table df metadata = Ok adata /\
    obs_names adata = map (String.append "FOV_") (df_index df) /\
    length (X adata) = length (df_rows df) /\
    origin_normalized adata.
Proof.
  intros Hne HN Hlen. unfold prepare_FOV_ROI_table.
  set (df_roi := map _ (df_rows df)).
  set (adata := {| obs_names := df_index df; X := df_roi |}).
  destruct (reset_origin_zero_minimum adata
              (map x_micrometer (df_rows df)) (map y_micrometer (df_rows df))
              (map z_micrometer (df_rows df)))
    as (new_table & xs & ys & zs & E & Hnames & Hvars & HlenX
        & Hx & Hxm & Hy & Hym & Hz & Hzm).
  - exact HN.
  - subst adata df_roi. cbn [obs_names X]. now rewrite length_map.
  - subst adata df_roi. cbn [X]. destruct (df_rows df); [congruence|discriminate].
  - apply mapM_map_Ok. reflexivity.
  - apply mapM_map_Ok. reflexivity.
  - apply mapM_map_Ok. reflexivity.
  - rewrite E. cbn [bind]. eexists. split; [reflexivity|].
    cbn [obs_names X]. split; [now rewrite Hnames|].
    split; [rewrite HlenX; subst adata df_roi; cbn [X]; apply length_map|].
    exists xs, ys, zs. unfold column in *. cbn [var_names X].
    rewrite Hvars in Hx, Hy, Hz. auto 10.
Qed.

Lemma has_duplicates_NoDup (index : list string) :
  has_duplicates index = false <-> NoDup index.
Proof.
  induction index as [|label rest IH]; cbn [has_duplicates].
  - split; [constructor|reflexivity].
  - rewrite orb_false_iff, IH. split.
    + intros [Hl Hr]. constructor; [|exact Hr].
      intros Hin. apply existsb_eqb_In in Hin. congruence.
    + intros H. inversion H as [|? ? Hl Hr]; subst. split; [|exact Hr].
      destruct (existsb (String.eqb label) rest) eqn:E; [|reflexivity].
      apply existsb_exists in E. destruct E as (x & Hx & E).
      apply String.eqb_eq in E. now subst.
Qed.

(** The dataframes on which saving the metadata of the well goes
    through. *)
Lemma metadata_saved (df : metadata_DataFrame) (metadata : list string) :
  NoDup (df_index df) \/
  (forall col, In col metadata -> in_dataframe df col = false) ->
  existsb (in_dataframe df) metadata && has_duplicates (df_index df) = false.
Proof.
  intros [H|H].
  - apply has_duplicates_NoDup in H. rewrite H. apply andb_false_r.
  - destruct (existsb (in_dataframe df) metadata) eqn:E; [|reflexivity].
    apply existsb_exists in E. destruct E as (col & Hin & E).
    rewrite (H col Hin) in E. discriminate.
Qed.

Lemma prepare_well_ROI_table_normalized (df : metadata_DataFrame) metadata :
  df_rows df <> [] ->
  length (df_index df) = length (df_rows df) ->
  NoDup (df_index df) \/
  (forall col, In col metadata -> in_dataframe df col = false) ->
  exists adata,
    prepare_well_ROI_table df metadata = Ok adata /\
    length (X adata) = 1%nat /\
    origin_normalized adata.
Proof.
  intros Hne Hlen Hmeta. apply metadata_saved in Hmeta.
  unfold prepare_well_ROI_table. rewrite Hmeta. clear Hmeta.
  destruct (df_rows df) as [|s rest] eqn:Erows; [congruence|].
  destruct (df_index df) as [|i0 index]; [discriminate|].
  cbn [firstn].
  match goal with
  | |- context [reset_origin ?a _ _ _] => set (adata := a)
  end.
  destruct (reset_origin_zero_minimum adata
              [min_from (x_micrometer s) (map x_micrometer rest)]
              [min_from (y_micrometer s) (map y_micrometer rest)]
              [min_from (z_micrometer s) (map z_micrometer rest)])
    as (new_table & xs & ys & zs & E & Hnames & Hvars & HlenX
        & Hx & Hxm & Hy & Hym & Hz & Hzm);
    try reflexivity; try discriminate.
  - repeat constructor. simpl. tauto.
  - rewrite E. cbn [bind]. eexists. split; [reflexivity|].
    cbn [X]. split; [exact HlenX|].
    exists xs, ys, zs. unfold column in *. cbn [var_names X].
    rewrite Hvars in Hx, Hy, Hz. auto 10.
Qed.

(** C3.  Origin normalization.  [reset_origin], applied to a non-empty
    table with unique row names that has the three position columns,
    returns a table whose positions have minimum exactly zero on each of
    the X, Y and Z axes, no position being negative.
    [prepare_FOV_ROI_table] and [prepare_well_ROI_table], which build a
    table and normalize it with [reset_origin], therefore return such a
    table: the first for every non-empty dataframe with a unique index,
    the second for every non-empty dataframe whose index repeats no label
    or of which no column is to be saved as metadata.  On the other
    non-empty dataframes (a repeated label and a column to be saved)
    [prepare_well_ROI_table] returns no table: it fails with the
    [ValueError] of pandas. *)
Theorem origin_normalization_zero_minimum :
  (forall ROI_table xs ys zs,
      NoDup (obs_names ROI_table) ->
      length (obs_names ROI_table) = length (X ROI_table) ->
      X ROI_table <> [] ->
      column ROI_table "x_micrometer" = Ok xs ->
      column ROI_table "y_micrometer" = Ok ys ->
      column ROI_table "z_micrometer" = Ok zs ->
      exists new_table,
        reset_origin ROI_table "x_micrometer" "y_micrometer" "z_micrometer"
          = Ok new_table /\
        obs_names new_table = obs_names ROI_table /\
        length (X new_table) = length (X ROI_table) /\
        origin_normalized new_table) /\
  (forall df metadata,
      df_rows df <> [] -> NoDup (df_index df) ->
      length (df_index df) = length (df_rows df) ->
      exists adata,
        prepare_FOV_ROI_table df metadata = Ok adata /\
        length (X adata) = length (df_rows df) /\
        origin_normalized adata) /\
  (forall df metadata,
      df_rows df <> [] ->
      length (df_index df) = length (df_rows df) ->
      (NoDup (df_index df) \/
       (forall col, In col metadata -> in_dataframe df col = false) ->
       exists adata,
         prepare_well_ROI_table df metadata = Ok adata /\
         length (X adata) = 1%nat /\
         origin_normalized adata) /\
      (~ NoDup (df_index df) ->
       (exists col, In col metadata /\ in_dataframe df col = true) ->
       prepare_well_ROI_table df metadata
       = Err (ValueError "cannot reindex on an axis with duplicate labels"))).
Proof.
  split; [|split].
  - intros ROI_table xs ys zs HN Hlen Hne Hx Hy Hz.
    destruct (reset_origin_zero_minimum ROI_table xs ys zs HN Hlen Hne Hx Hy Hz)
      as (new_table & xs' & ys' & zs' & E & Hnames & _ & HlenX & H).
    exists new_table. repeat split; auto. now exists xs', ys', zs'.
  - intros df metadata Hne HN Hlen.
    destruct (prepare_FOV_ROI_table_normalized df metadata Hne HN Hlen)
      as (adata & E & _ & HlenX & H).
    now exists adata.
  - intros df metadata Hne Hlen. split.
    + intros Hmeta.
      destruct (prepare_well_ROI_table_normalized df metadata Hne Hlen Hmeta)
        as (adata & E & H).
      now exists adata.
    + intros Hdup (col & Hin & Hcol).
      assert (Hsave : existsb (in_dataframe df) metadata
                      && has_duplicates (df_index df) = true).
      { apply andb_true_iff. split.
        - apply existsb_exists. now exists col.
        - destruct (has_duplicates (df_index df)) eqn:E; [reflexivity|].
          apply has_duplicates_NoDup in E. contradiction. }
      destruct (prepare_well_ROI_table_normalized
                  {| df_index := df_index df;
                     df_rows := df_rows df; df_other := [] |} [])
        as (adata & E & _).
      * exact Hne.
      * exact Hlen.
      * right. intros c [].
      * unfold prepare_well_ROI_table in E |- *. rewrite Hsave.
        cbn [df_index df_rows df_other existsb andb] in E.
        destruct (reset_origin _ _ _ _); [reflexivity|discriminate].
Qed.

Lemma origin_normalization_zero_minimum_witness :
  (exists adata,
      prepare_FOV_ROI_table demo_dataframe ["time"%string] = Ok adata /\
      length (X adata) = length (df_rows demo_dataframe) /\
      origin_normalized adata) /\
  (exists adata,
      prepare_well_ROI_table demo_dataframe ["time"%string] = Ok adata /\
      length (X adata) = 1%nat /\
      origin_normalized adata) /\
  prepare_well_ROI_table demo_dataframe_repeated ["time"%string]
  = Err (ValueError "cannot reindex on an axis with duplicate labels").
Proof.
  split; [|split].
  - apply (proj1 (proj2 origin_normalization_zero_minimum)).
    + discriminate.
    + repeat constructor; simpl; intuition discriminate.
    + reflexivity.
  - refine (proj1 (proj2 (proj2 origin_normalization_zero_minimum)
                     demo_dataframe ["time"%string] _ _) _).
    + discriminate.
    + reflexivity.
    + left. repeat constructor; simpl; intuition discriminate.
  - refine (proj2 (proj2 (proj2 origin_normalization_zero_minimum)
                     demo_dataframe_repeated ["time"%string] _ _) _ _).
    + discriminate.
    + reflexivity.
    + intros H. inversion H as [|? ? Hin _]; subst. apply Hin. now left.
    + exists "time"%string. split; [now left|reflexivity].
Defined.

(** ** NumPy arrays: flat positions and coordinates *)

Lemma unravel_ravel (shape : list nat) (i : nat) :
  (i < size_of shape)%nat -> ravel shape (unravel shape i) = Some i.
Proof.
  revert i. induction shape as [|d rest IH]; intros i Hi.
  - simpl in Hi. assert (i = 0)%nat by lia. now subst.
  - cbn [size_of fold_right] in Hi. fold (size_of rest) in Hi.
    cbn [unravel ravel].
    assert (Hpos : (0 < size_of rest)%nat) by (destruct (size_of rest); lia).
    assert (Hdiv : (i / size_of rest < d)%nat).
    { apply Nat.Div0.div_lt_upper_bound. lia. }
    assert (Hmod : (i mod size_of rest < size_of rest)%nat)
      by (apply Nat.mod_upper_bound; lia).
    replace ((0 <=? Z.of_nat (i / size_of rest))
             && (Z.of_nat (i / size_of rest) <? Z.of_nat d)) with true
      by (symmetry; apply andb_true_iff; split; [apply Z.leb_le|apply Z.ltb_lt];
          lia).
    rewrite (IH _ Hmod). cbn [option_map]. f_equal.
    rewrite Nat2Z.id. pose proof (Nat.div_mod_eq i (size_of rest)). lia.
Qed.

Lemma ravel_unravel (shape : list nat) (c : list Z) (i : nat) :
  ravel shape c = Some i -> (i < size_of shape)%nat /\ unravel shape i = c.
Proof.
  revert c i. induction shape as [|d rest IH]; intros c i H.
  - destruct c; [|discriminate]. injection H as <-. simpl. split; [lia|auto].
  - destruct c as [|z cs]; [discriminate|]. cbn [ravel] in H.
    destruct ((0 <=? z) && (z <? Z.of_nat d)) eqn:Hz; [|discriminate].
    apply andb_true_iff in Hz. destruct Hz as [Hz0 Hzd].
    apply Z.leb_le in Hz0. apply Z.ltb_lt in Hzd.
    destruct (ravel rest cs) as [r|] eqn:Er; [|discriminate].
    cbn [option_map] in H. injection H as <-.
    destruct (IH cs r Er) as [Hr Hc].
    cbn [size_of fold_right unravel]. fold (size_of rest).
    assert (Hdiv : ((Z.to_nat z * size_of rest + r) / size_of rest
                    = Z.to_nat z)%nat).
    { rewrite Nat.div_add_l by lia. rewrite Nat.div_small by assumption. lia. }
    assert (Hmod : ((Z.to_nat z * size_of rest + r) mod size_of rest = r)%nat).
    { rewrite Nat.add_comm, Nat.Div0.mod_add. now apply Nat.mod_small. }
    split.
    + assert (Z.to_nat z < d)%nat by lia. nia.
    + rewrite Hdiv, Hmod, Hc. f_equal. lia.
Qed.

Lemma matching_coordinates_voxel (a : ndarray Z) (label : Z) (c : list Z) :
  ndarray_wf a ->
  In c (matching_coordinates a label) <-> voxel a c = Some label.
Proof.
  intros Hwf. unfold matching_coordinates, voxel, ndarray_wf in *.
  rewrite in_map_iff. split.
  - intros (i & <- & Hi). apply filter_In in Hi. destruct Hi as [Hi Hv].
    apply in_seq in Hi.
    rewrite unravel_ravel by lia.
    destruct (nth_error (data a) i) as [v|]; [|discriminate].
    apply Z.eqb_eq in Hv. now subst.
  - intros H. destruct (ravel (shape a) c) as [i|] eqn:Er; [|discriminate].
    destruct (ravel_unravel _ _ _ Er) as [Hi Hc].
    exists i. split; [assumption|]. apply filter_In. split.
    + apply in_seq. lia.
    + rewrite H. apply Z.eqb_refl.
Qed.

Lemma matching_coordinates_nonempty (a : ndarray Z) (label : Z) :
  In label (data a) -> matching_coordinates a label <> [].
Proof.
  intros Hin Hnil. apply In_nth_error in Hin. destruct Hin as (i & Hi).
  assert (Hf : In i (filter (fun i => match nth_error (data a) i with
                                      | Some v => v =? label
                                      | None => false
                                      end) (seq 0 (length (data a))))).
  { apply filter_In. split.
    - apply in_seq. split; [lia|]. simpl. apply nth_error_Some. congruence.
    - rewrite Hi. apply Z.eqb_refl. }
  unfold matching_coordinates in Hnil.
  destruct (filter _ _); [contradiction|discriminate].
Qed.

(** ** np.unique *)

Lemma insert_unique_In (x y : Z) (l : list Z) :
  In y (insert_unique x l) <-> y = x \/ In y l.
Proof.
  induction l as [|z r IH]; simpl.
  - intuition.
  - destruct (Z.ltb_spec x z).
    + simpl. intuition.
    + destruct (Z.eqb_spec x z) as [->|Hne]; simpl.
      * intuition.
      * rewrite IH. intuition.
Qed.

Lemma insert_unique_sorted (x : Z) (l : list Z) :
  StronglySorted Z.lt l -> StronglySorted Z.lt (insert_unique x l).
Proof.
  induction 1 as [|z r Hr IH Hall]; simpl.
  - repeat constructor.
  - destruct (Z.ltb_spec x z).
    + constructor; [now constructor|]. constructor; [assumption|].
      eapply Forall_impl; [|exact Hall]. simpl. intros; lia.
    + destruct (Z.eqb_spec x z) as [->|Hne].
      * now constructor.
      * constructor; [assumption|]. apply Forall_forall. intros y Hy.
        apply insert_unique_In in Hy. destruct Hy as [->|Hy]; [lia|].
        rewrite Forall_forall in Hall. now apply Hall.
Qed.

Lemma np_unique_In (l : list Z) (x : Z) : In x (np_unique l) <-> In x l.
Proof.
  induction l as [|y r IH]; simpl; [tauto|].
  rewrite insert_unique_In, IH. intuition.
Qed.

Lemma np_unique_sorted (l : list Z) : StronglySorted Z.lt (np_unique l).
Proof.
  induction l as [|y r IH]; simpl; [constructor|].
  now apply insert_unique_sorted.
Qed.

Lemma StronglySorted_filter {A} (R : A -> A -> Prop) (f : A -> bool)
    (l : list A) :
  StronglySorted R l -> StronglySorted R (filter f l).
Proof.
  induction 1 as [|x r Hr IH Hall]; simpl; [constructor|].
  destruct (f x); [|assumption]. constructor; [assumption|].
  apply Forall_forall. intros y Hy. apply filter_In in Hy.
  rewrite Forall_forall in Hall. now apply Hall.
Qed.

Lemma py_max_spec (l : list Z) :
  l <> [] ->
  exists m, py_max l = Ok m /\ In m l /\ Forall (fun x => x <= m) l.
Proof.
  induction l as [|x r IH]; [congruence|]. intros _.
  destruct r as [|y r'].
  - exists x. simpl. repeat split; auto. constructor; [lia|constructor].
  - destruct IH as (m & Em & Im & Fm); [discriminate|].
    exists (Z.max x m). change (py_max (x :: y :: r'))
      with (m <- py_max (y :: r') ;; Ok (Z.max x m)). rewrite Em. simpl.
    split; [reflexivity|]. split.
    + destruct (Z.max_spec x m) as [[_ ->]|[_ ->]]; [now right|now left].
    + constructor; [lia|].
      eapply Forall_impl; [|exact Fm]. simpl. intros; lia.
Qed.

(** ** array_to_bounding_box_table *)

Lemma axis_extent_of_coordinates (a : ndarray Z) (label : Z) (k : nat)
    (coords : list (list Z)) (lo hi : Z) :
  (forall c, In c coords <-> voxel a c = Some label) ->
  py_min (map (fun c => nth k c 0) coords) = Ok lo ->
  py_max (map (fun c => nth k c 0) coords) = Ok hi ->
  axis_extent a label k lo hi.
Proof.
  intros Hc Hlo Hhi.
  assert (Hne : map (fun c => nth k c 0) coords <> [])
    by (intros E; rewrite E in Hlo; discriminate).
  destruct (py_min_spec _ Hne) as (lo' & Elo & Hinlo & Halllo).
  destruct (py_max_spec _ Hne) as (hi' & Ehi & Hinhi & Hallhi).
  rewrite Hlo in Elo. injection Elo as <-.
  rewrite Hhi in Ehi. injection Ehi as <-.
  apply in_map_iff in Hinlo. destruct Hinlo as (clo & Hclo & Hlo').
  apply in_map_iff in Hinhi. destruct Hinhi as (chi & Hchi & Hhi').
  split; [|split].
  - exists clo. split; [now apply Hc|assumption].
  - exists chi. split; [now apply Hc|assumption].
  - intros c Hv. apply Hc in Hv.
    rewrite Forall_forall in Halllo, Hallhi.
    split; [apply Halllo|apply Hallhi]; apply in_map_iff; now exists c.
Qed.

Lemma bounding_box_spec (a : ndarray Z) (nz ny nx : nat) (pz py px : Q)
    (oz oy ox : Z) (label : Z) :
  shape a = [nz; ny; nx] -> ndarray_wf a -> In label (data a) ->
  exists z0 z1 y0 y1 x0 x1,
    axis_extent a label 0 z0 z1 /\
    axis_extent a label 1 y0 y1 /\
    axis_extent a label 2 x0 x1 /\
    bounding_box a [pz; py; px] oz oy ox label
    = Ok (bbox_values pz py px oz oy ox z0 z1 y0 y1 x0 x1).
Proof.
  intros Hshape Hwf Hin.
  pose proof (matching_coordinates_nonempty a label Hin) as Hne.
  pose proof (fun c => matching_coordinates_voxel a label c Hwf) as Hc.
  unfold bounding_box, np_where_eq, ndim. rewrite Hshape.
  cbn [length seq map mapM].
  set (coords := matching_coordinates a label) in *.
  assert (Hmap : forall k, map (fun c => nth k c 0) coords <> []).
  { intros k E. apply map_eq_nil in E. contradiction. }
  destruct (py_min_spec _ (Hmap 0%nat)) as (z0 & Ez0 & _).
  destruct (py_min_spec _ (Hmap 1%nat)) as (y0 & Ey0 & _).
  destruct (py_min_spec _ (Hmap 2%nat)) as (x0 & Ex0 & _).
  destruct (py_max_spec _ (Hmap 0%nat)) as (z1 & Ez1 & _).
  destruct (py_max_spec _ (Hmap 1%nat)) as (y1 & Ey1 & _).
  destruct (py_max_spec _ (Hmap 2%nat)) as (x1 & Ex1 & _).
  exists z0, z1, y0, y1, x0, x1.
  split; [eapply axis_extent_of_coordinates; eassumption|].
  split; [eapply axis_extent_of_coordinates; eassumption|].
  split; [eapply axis_extent_of_coordinates; eassumption|].
  rewrite Ez0, Ey0, Ex0, Ez1, Ey1, Ex1. reflexivity.
Qed.

Lemma mapM_Forall2 {A B} (f : A -> result B) (P : A -> B -> Prop)
    (l : list A) :
  (forall a, In a l -> exists b, f a = Ok b /\ P a b) ->
  exists bs, mapM f l = Ok bs /\ Forall2 P l bs.
Proof.
  induction l as [|a l IH]; intros H.
  - exists []. split; [reflexivity|constructor].
  - destruct (H a (or_introl eq_refl)) as (b & Eb & Hb).
    destruct IH as (bs & Ebs & Hbs); [intros; apply H; now right|].
    exists (b :: bs). cbn [mapM]. rewrite Eb, Ebs. split; [reflexivity|].
    now constructor.
Qed.

Lemma Forall2_combine {A B} (P : A -> B -> Prop) (l : list A) (bs : list B) :
  Forall2 P l bs ->
  map fst (combine bs l) = bs /\ map snd (combine bs l) = l /\
  Forall (fun row => P (snd row) (fst row)) (combine bs l).
Proof.
  induction 1 as [|a b l bs Hab _ (IH1 & IH2 & IH3)]; simpl.
  - repeat split; constructor.
  - rewrite IH1, IH2. repeat split; auto.
Qed.

(** The table that [array_to_bounding_box_table] returns for a
    three-dimensional array. *)
Lemma bounding_box_table (a : ndarray Z) (nz ny nx : nat) (pz py px : Q)
    (oz oy ox : Z) :
  shape a = [nz; ny; nx] -> ndarray_wf a ->
  exists df,
    array_to_bounding_box_table a [pz; py; px] [oz; oy; ox] = Ok df /\
    bbox_columns df = df_columns ++ ["label"%string] /\
    map snd (bbox_rows df)
      = filter (fun label => 0 <? label) (np_unique (data a)) /\
    Forall (fun row =>
              exists z0 z1 y0 y1 x0 x1,
                axis_extent a (snd row) 0 z0 z1 /\
                axis_extent a (snd row) 1 y0 y1 /\
                axis_extent a (snd row) 2 x0 x1 /\
                fst row = bbox_values pz py px oz oy ox z0 z1 y0 y1 x0 x1)
           (bbox_rows df).
Proof.
  intros Hshape Hwf. unfold array_to_bounding_box_table.
  cbn [unpack3 bind].
  set (labels := filter (fun label => 0 <? label) (np_unique (data a))).
  destruct (mapM_Forall2 (bounding_box a [pz; py; px] oz oy ox)
              (fun label values =>
                 exists z0 z1 y0 y1 x0 x1,
                   axis_extent a label 0 z0 z1 /\
                   axis_extent a label 1 y0 y1 /\
                   axis_extent a label 2 x0 x1 /\
                   values = bbox_values pz py px oz oy ox z0 z1 y0 y1 x0 x1)
              labels) as (elem_list & E & HF).
  { intros label Hl. apply filter_In in Hl. destruct Hl as [Hl _].
    apply (proj1 (np_unique_In _ _)) in Hl.
    destruct (bounding_box_spec a nz ny nx pz py px oz oy ox label
                Hshape Hwf Hl) as (z0 & z1 & y0 & y1 & x0 & x1 & H0 & H1 & H2 & Eb).
    eexists. split; [exact Eb|]. exists z0, z1, y0, y1, x0, x1. auto. }
  rewrite E. cbn [bind].
  destruct (Forall2_combine _ _ _ HF) as (_ & Hsnd & Hall).
  exists {| bbox_columns := df_columns ++ ["label"%string];
            bbox_rows := combine elem_list labels |}.
  split.
  { destruct elem_list; reflexivity. }
  cbn [bbox_columns bbox_rows]. auto.
Qed.

Lemma filter_positive_nil (l : list Z) :
  Forall (fun v => v <= 0) l ->
  filter (fun label => 0 <? label) (np_unique l) = [].
Proof.
  intros H.
  destruct (filter (fun label => 0 <? label) (np_unique l)) as [|v r] eqn:E;
    [reflexivity|].
  assert (Hv : In v (filter (fun label => 0 <? label) (np_unique l)))
    by (rewrite E; now left).
  apply filter_In in Hv. destruct Hv as [Hv Hpos].
  apply (proj1 (np_unique_In _ _)) in Hv. apply Z.ltb_lt in Hpos.
  rewrite Forall_forall in H. specialize (H v Hv). lia.
Qed.

(** C4.  For a three-dimensional integer array, [array_to_bounding_box_table]
    returns a table with the six ROI columns and the [label] column that
    has exactly one row per distinct positive value of the array, in
    ascending order of that value; the row of a label holds, per axis, the
    smallest voxel coordinate of the label times the pixel size plus the
    origin shift times the pixel size, and as extent (largest coordinate
    + 1 - smallest coordinate) times the pixel size, which does not depend
    on the shift; an array without positive values gives the table with
    these columns and no row. *)
Theorem array_to_bounding_box_table_spec
    (mask_array : ndarray Z) (nz ny nx : nat) (pz py px : Q) (oz oy ox : Z) :
  shape mask_array = [nz; ny; nx] -> ndarray_wf mask_array ->
  exists df,
    array_to_bounding_box_table mask_array [pz; py; px] [oz; oy; ox] = Ok df /\
    bbox_columns df =
      ["x_micrometer"; "y_micrometer"; "z_micrometer"; "len_x_micrometer";
       "len_y_micrometer"; "len_z_micrometer"; "label"]%string /\
    StronglySorted Z.lt (map snd (bbox_rows df)) /\
    (forall v, In v (map snd (bbox_rows df)) <->
               0 < v /\ In v (data mask_array)) /\
    Forall (fun row => is_bounding_box mask_array pz py px oz oy ox
                                       (snd row) (fst row))
           (bbox_rows df) /\
    (Forall (fun v => v <= 0) (data mask_array) -> bbox_rows df = []).
Proof.
  intros Hshape Hwf.
  destruct (bounding_box_table mask_array nz ny nx pz py px oz oy ox
              Hshape Hwf) as (df & E & Hcols & Hlabels & Hrows).
  exists df. split; [exact E|]. split; [exact Hcols|].
  split; [|split; [|split]].
  - rewrite Hlabels. apply StronglySorted_filter, np_unique_sorted.
  - intros v. rewrite Hlabels, filter_In, np_unique_In, Z.ltb_lt. tauto.
  - eapply Forall_impl; [|exact Hrows].
    intros [values label]
      (z0 & z1 & y0 & y1 & x0 & x1 & Hz & Hy & Hx & Hvalues).
    cbn [fst snd] in *. subst values. unfold bbox_values.
    exists z0, z1, y0, y1, x0, x1. do 6 eexists.
    split; [reflexivity|].
    split; [exact Hz|]. split; [exact Hy|]. split; [exact Hx|].
    repeat split; try reflexivity;
      unfold Z.sub; rewrite !inject_Z_plus, inject_Z_opp; ring.
  - intros Hnone. apply filter_positive_nil in Hnone.
    rewrite Hnone in Hlabels. now apply map_eq_nil in Hlabels.
Qed.

Lemma array_to_bounding_box_table_spec_witness :
  exists df,
    array_to_bounding_box_table demo_mask [1; 1 # 2; 1 # 4]%Q [0; 10; 20]
      = Ok df /\
    bbox_columns df =
      ["x_micrometer"; "y_micrometer"; "z_micrometer"; "len_x_micrometer";
       "len_y_micrometer"; "len_z_micrometer"; "label"]%string /\
    StronglySorted Z.lt (map snd (bbox_rows df)) /\
    (forall v, In v (map snd (bbox_rows df)) <->
               0 < v /\ In v (data demo_mask)) /\
    Forall (fun row => is_bounding_box demo_mask 1 (1 # 2) (1 # 4) 0 10 20
                                       (snd row) (fst row))
           (bbox_rows df) /\
    (Forall (fun v => v <= 0) (data demo_mask) -> bbox_rows df = []).
Proof.
  apply (array_to_bounding_box_table_spec demo_mask 2 2 3
           1 (1 # 2) (1 # 4) 0 10 20); reflexivity.
Defined.

Lemma Qmult_diff_ge (hi lo : Z) (p : Q) :
  lo <= hi -> (0 < p)%Q ->
  (p <= inject_Z (hi + 1) * p - inject_Z lo * p)%Q.
Proof.
  intros Hle Hp.
  assert (H : (1 <= inject_Z (hi + 1) - inject_Z lo)%Q).
  { unfold Qminus. rewrite <- inject_Z_opp, <- inject_Z_plus.
    change 1%Q with (inject_Z 1). rewrite <- Zle_Qle. lia. }
  nra.
Qed.

Lemma axis_extent_le (a : ndarray Z) (label : Z) (k : nat) (lo hi : Z) :
  axis_extent a label k lo hi -> lo <= hi.
Proof.
  intros ((c & Hc & _) & _ & Hall). specialize (Hall c Hc). lia.
Qed.

Lemma voxel_coordinates {A} (a : ndarray A) (nz ny nx : nat) (c : list Z)
    (v : A) :
  shape a = [nz; ny; nx] -> voxel a c = Some v ->
  exists z y x,
    c = [z; y; x] /\
    0 <= z < Z.of_nat nz /\ 0 <= y < Z.of_nat ny /\ 0 <= x < Z.of_nat nx.
Proof.
  intros Hshape Hv. unfold voxel in Hv. rewrite Hshape in Hv.
  destruct c as [|z [|y [|x [|? ?]]]]; cbn [ravel] in Hv;
    repeat match type of Hv with
           | context [(0 <=? ?u) && (?u <? ?n)] =>
               destruct (Z.leb_spec 0 u); destruct (Z.ltb_spec u n);
               cbn [andb] in Hv
           end;
    try discriminate.
  exists z, y, x. repeat split; assumption.
Qed.

Lemma axis_extent_bounds (a : ndarray Z) (nz ny nx : nat) (label : Z)
    (k : nat) (lo hi : Z) :
  shape a = [nz; ny; nx] -> (k < 3)%nat ->
  axis_extent a label k lo hi ->
  0 <= lo <= hi /\ hi < Z.of_nat (nth k [nz; ny; nx] 0%nat).
Proof.
  intros Hshape Hk H. pose proof (axis_extent_le _ _ _ _ _ H) as Hle.
  destruct H as ((c & Hc & Hlo) & (c' & Hc' & Hhi) & _).
  destruct (voxel_coordinates a nz ny nx c label Hshape Hc)
    as (z & y & x & -> & Hz & Hy & Hx).
  destruct (voxel_coordinates a nz ny nx c' label Hshape Hc')
    as (z' & y' & x' & -> & Hz' & Hy' & Hx').
  destruct k as [|[|[|k]]]; cbn [nth] in *; lia.
Qed.

(** The loop body and the table in binary64 arithmetic. *)
Lemma bounding_box_float64_spec (a : ndarray Z) (nz ny nx : nat)
    (pz py px : Q) (oz oy ox : Z) (label : Z) :
  shape a = [nz; ny; nx] -> ndarray_wf a -> In label (data a) ->
  exists z0 z1 y0 y1 x0 x1,
    axis_extent a label 0 z0 z1 /\
    axis_extent a label 1 y0 y1 /\
    axis_extent a label 2 x0 x1 /\
    bounding_box_float64 a [pz; py; px] oz oy ox label
    = Ok (bbox_values_float64 pz py px oz oy ox z0 z1 y0 y1 x0 x1).
Proof.
  intros Hshape Hwf Hin.
  pose proof (matching_coordinates_nonempty a label Hin) as Hne.
  pose proof (fun c => matching_coordinates_voxel a label c Hwf) as Hc.
  unfold bounding_box_float64, np_where_eq, ndim. rewrite Hshape.
  cbn [length seq map mapM].
  set (coords := matching_coordinates a label) in *.
  assert (Hmap : forall k, map (fun c => nth k c 0) coords <> []).
  { intros k E. apply map_eq_nil in E. contradiction. }
  destruct (py_min_spec _ (Hmap 0%nat)) as (z0 & Ez0 & _).
  destruct (py_min_spec _ (Hmap 1%nat)) as (y0 & Ey0 & _).
  destruct (py_min_spec _ (Hmap 2%nat)) as (x0 & Ex0 & _).
  destruct (py_max_spec _ (Hmap 0%nat)) as (z1 & Ez1 & _).
  destruct (py_max_spec _ (Hmap 1%nat)) as (y1 & Ey1 & _).
  destruct (py_max_spec _ (Hmap 2%nat)) as (x1 & Ex1 & _).
  exists z0, z1, y0, y1, x0, x1.
  split; [eapply axis_extent_of_coordinates; eassumption|].
  split; [eapply axis_extent_of_coordinates; eassumption|].
  split; [eapply axis_extent_of_coordinates; eassumption|].
  rewrite Ez0, Ey0, Ex0, Ez1, Ey1, Ex1. reflexivity.
Qed.

Lemma bounding_box_table_float64 (a : ndarray Z) (nz ny nx : nat)
    (pz py px : Q) (oz oy ox : Z) :
  shape a = [nz; ny; nx] -> ndarray_wf a ->
  exists df,
    array_to_bounding_box_table_float64 a [pz; py; px] [oz; oy; ox] = Ok df /\
    Forall (fun row =>
              exists z0 z1 y0 y1 x0 x1,
                axis_extent a (snd row) 0 z0 z1 /\
                axis_extent a (snd row) 1 y0 y1 /\
                axis_extent a (snd row) 2 x0 x1 /\
                fst row
                = bbox_values_float64 pz py px oz oy ox z0 z1 y0 y1 x0 x1)
           (bbox_rows df).
Proof.
  intros Hshape Hwf. unfold array_to_bounding_box_table_float64.
  cbn [unpack3 bind].
  set (labels := filter (fun label => 0 <? label) (np_unique (data a))).
  destruct (mapM_Forall2 (bounding_box_float64 a [pz; py; px] oz oy ox)
              (fun label values =>
                 exists z0 z1 y0 y1 x0 x1,
                   axis_extent a label 0 z0 z1 /\
                   axis_extent a label 1 y0 y1 /\
                   axis_extent a label 2 x0 x1 /\
                   values
                   = bbox_values_float64 pz py px oz oy ox z0 z1 y0 y1 x0 x1)
              labels) as (elem_list & E & HF).
  { intros label Hl. apply filter_In in Hl. destruct Hl as [Hl _].
    apply (proj1 (np_unique_In _ _)) in Hl.
    destruct (bounding_box_float64_spec a nz ny nx pz py px oz oy ox label
                Hshape Hwf Hl)
      as (z0 & z1 & y0 & y1 & x0 & x1 & H0 & H1 & H2 & Eb).
    eexists. split; [exact Eb|]. exists z0, z1, y0, y1, x0, x1. auto. }
  rewrite E. cbn [bind].
  destruct (Forall2_combine _ _ _ HF) as (_ & Hsnd & Hall).
  exists {| bbox_columns := df_columns ++ ["label"%string];
            bbox_rows := combine elem_list labels |}.
  split.
  { destruct elem_list; reflexivity. }
  cbn [bbox_rows]. exact Hall.
Qed.

(** The rounded difference of the two rounded products is positive: the
    products differ by at least one pixel size, and each is off by at
    most [2^-53] of itself. *)
Lemma bbox_length_float64_pos (p : Q) (lo hi : Z) :
  (0 < p)%Q -> 0 <= lo <= hi -> hi < 2 ^ 52 ->
  (0 < bbox_length_float64 p lo hi)%Q.
Proof.
  intros Hp Hlo Hhi. unfold bbox_length_float64. apply float64_pos.
  pose proof (float64_error (inject_Z (hi + 1) * p)) as Hb.
  pose proof (float64_error (inject_Z lo * p)) as Ha.
  assert (H0 : (0 <= inject_Z lo)%Q)
    by (change 0%Q with (inject_Z 0); rewrite <- Zle_Qle; lia).
  assert (H1 : (inject_Z lo + 1 <= inject_Z (hi + 1))%Q).
  { change 1%Q with (inject_Z 1). rewrite <- inject_Z_plus, <- Zle_Qle. lia. }
  assert (H2 : (inject_Z (hi + 1) <= 4503599627370496)%Q).
  { change 4503599627370496%Q with (inject_Z (2 ^ 52)).
    rewrite <- Zle_Qle. lia. }
  rewrite (Qabs_pos (inject_Z lo * p)) in Ha by nra.
  rewrite (Qabs_pos (inject_Z (hi + 1) * p)) in Hb by nra.
  apply Qabs_Qle_condition in Ha, Hb.
  set (a := float64 (inject_Z lo * p)) in *.
  set (b := float64 (inject_Z (hi + 1) * p)) in *.
  set (m := inject_Z lo) in *. set (n := inject_Z (hi + 1)) in *.
  nra.
Qed.

(** C10 (as amended).  For a three-dimensional mask array and strictly
    positive pixel sizes, every row of the table of
    [array_to_bounding_box_table] has a strictly positive extent on each
    of the three axes: no ROI of the table has an empty box.  This holds
    of the extents in exact arithmetic, and of the extents as the code
    computes them on floats, [(max + 1) * size - min * size] with each
    operation rounded, for arrays of at most 2^52 voxels along an axis. *)
Theorem array_to_bounding_box_table_extents_positive
    (mask_array : ndarray Z) (nz ny nx : nat) (pz py px : Q) (oz oy ox : Z) :
  shape mask_array = [nz; ny; nx] -> ndarray_wf mask_array ->
  (0 < pz)%Q -> (0 < py)%Q -> (0 < px)%Q ->
  (exists df,
      array_to_bounding_box_table mask_array [pz; py; px] [oz; oy; ox]
      = Ok df /\
      Forall (fun row =>
                exists xmin ymin zmin len_x len_y len_z,
                  fst row = [xmin; ymin; zmin; len_x; len_y; len_z] /\
                  (0 < len_x /\ 0 < len_y /\ 0 < len_z)%Q)
             (bbox_rows df)) /\
  (Z.of_nat nz <= 2 ^ 52 -> Z.of_nat ny <= 2 ^ 52 ->
   Z.of_nat nx <= 2 ^ 52 ->
   exists df,
     array_to_bounding_box_table_float64 mask_array [pz; py; px] [oz; oy; ox]
     = Ok df /\
     Forall (fun row =>
               exists xmin ymin zmin len_x len_y len_z,
                 fst row = [xmin; ymin; zmin; len_x; len_y; len_z] /\
                 (0 < len_x /\ 0 < len_y /\ 0 < len_z)%Q)
            (bbox_rows df)).
Proof.
  intros Hshape Hwf Hpz Hpy Hpx. split.
  - destruct (bounding_box_table mask_array nz ny nx pz py px oz oy ox
                Hshape Hwf) as (df & E & _ & _ & Hrows).
    exists df. split; [exact E|].
    eapply Forall_impl; [|exact Hrows].
    intros [values label]
      (z0 & z1 & y0 & y1 & x0 & x1 & Hz & Hy & Hx & Hvalues).
    cbn [fst snd] in *. subst values. unfold bbox_values.
    apply axis_extent_le in Hz, Hy, Hx.
    pose proof (Qmult_diff_ge z1 z0 pz Hz Hpz).
    pose proof (Qmult_diff_ge y1 y0 py Hy Hpy).
    pose proof (Qmult_diff_ge x1 x0 px Hx Hpx).
    do 6 eexists. split; [reflexivity|].
    repeat split; lra.
  - intros Hnz Hny Hnx.
    destruct (bounding_box_table_float64 mask_array nz ny nx pz py px
                oz oy ox Hshape Hwf) as (df & E & Hrows).
    exists df. split; [exact E|].
    eapply Forall_impl; [|exact Hrows].
    intros [values label]
      (z0 & z1 & y0 & y1 & x0 & x1 & Hz & Hy & Hx & Hvalues).
    cbn [fst snd] in *. subst values. unfold bbox_values_float64.
    apply (axis_extent_bounds _ nz ny nx) in Hz, Hy, Hx;
      try assumption; try lia.
    cbn [nth] in Hz, Hy, Hx.
    do 6 eexists. split; [reflexivity|].
    repeat split; apply bbox_length_float64_pos; (assumption || lia).
Qed.

Lemma array_to_bounding_box_table_extents_positive_witness :
  (exists df,
      array_to_bounding_box_table demo_mask [1; 1 # 2; 1 # 4]%Q [0; 10; 20]
      = Ok df /\
      Forall (fun row =>
                exists xmin ymin zmin len_x len_y len_z,
                  fst row = [xmin; ymin; zmin; len_x; len_y; len_z] /\
                  (0 < len_x /\ 0 < len_y /\ 0 < len_z)%Q)
             (bbox_rows df)) /\
  (exists df,
      array_to_bounding_box_table_float64 demo_mask [1; 1 # 2; 1 # 4]%Q
        [0; 10; 20] = Ok df /\
      Forall (fun row =>
                exists xmin ymin zmin len_x len_y len_z,
                  fst row = [xmin; ymin; zmin; len_x; len_y; len_z] /\
                  (0 < len_x /\ 0 < len_y /\ 0 < len_z)%Q)
             (bbox_rows df)).
Proof.
  split.
  - apply (proj1 (array_to_bounding_box_table_extents_positive demo_mask
                    2 2 3 1 (1 # 2) (1 # 4) 0 10 20
                    eq_refl eq_refl eq_refl eq_refl eq_refl)).
  - apply (proj2 (array_to_bounding_box_table_extents_positive demo_mask
                    2 2 3 1 (1 # 2) (1 # 4) 0 10 20
                    eq_refl eq_refl eq_refl eq_refl eq_refl));
      simpl; lia.
Defined.

(** C10, the claim as stated, fails on floats: for a label in the last
    voxel of a line of ten and a pixel size of 0.1 along X, the extent
    that the code computes, [10 * 0.1 - 9 * 0.1], is
    0.09999999999999998, below the pixel size. *)
Lemma array_to_bounding_box_table_extent_below_pixel_size :
  let px := float64 (1 # 10) in
  exists xmin ymin zmin len_x len_y len_z : Q,
    array_to_bounding_box_table_float64 demo_line [1%Q; 1%Q; px] [0; 0; 0]
    = Ok {| bbox_columns := df_columns ++ ["label"%string];
            bbox_rows := [([xmin; ymin; zmin; len_x; len_y; len_z], 1)] |} /\
    (px == 3602879701896397 # 36028797018963968)%Q /\
    (len_x == 900719925474099 # 9007199254740992)%Q /\
    (len_x < px)%Q.
Proof.
  cbv zeta. do 6 eexists. split; [vm_compute; reflexivity|].
  split; [|split]; vm_compute; reflexivity.
Qed.

(** ** get_image_grid_ROIs *)

(** The nominal cell length [len = ceil(s / g)]. *)
Lemma ceil_div_bounds (s g : Z) :
  1 <= g -> let len := - ((- s) / g) in (len - 1) * g < s <= len * g.
Proof.
  intros Hg len. subst len.
  pose proof (Z.div_mod (- s) g ltac:(lia)) as Hdm.
  pose proof (Z.mod_pos_bound (- s) g ltac:(lia)) as Hmod.
  nia.
Qed.

Section GridAxis.

Variables s g len : Z.
Hypothesis g_pos : 1 <= g.
Hypothesis len_ceil : (len - 1) * g < s <= len * g.
Hypothesis last_start : (g - 1) * len <= s.

Lemma grid_len_nonneg : 0 <= len.
Proof using g_pos len_ceil last_start. nia. Qed.

(** Every cell of the axis lies inside the extent. *)
Lemma grid_axis_inside (i : Z) :
  0 <= i < g ->
  0 <= i * len /\ 0 <= Z.min s (i * len + len) - i * len /\
  i * len + (Z.min s (i * len + len) - i * len) <= s.
Proof.
  intros Hi. pose proof grid_len_nonneg. nia.
Qed.

(** When the last cell starts inside the extent, no cell is empty. *)
Lemma grid_axis_nonempty (i : Z) :
  (g - 1) * len < s -> 0 <= i < g ->
  0 < Z.min s (i * len + len) - i * len.
Proof.
  intros Hlast Hi. pose proof grid_len_nonneg. nia.
Qed.

(** Every pixel of the extent is in the cell [y / len], and in no other. *)
Lemma grid_axis_cover (y : Z) :
  0 <= y < s ->
  0 <= y / len < g /\
  y / len * len <= y < y / len * len + (Z.min s (y / len * len + len)
                                        - y / len * len).
Proof.
  intros Hy. pose proof grid_len_nonneg.
  assert (Hlen : 0 < len) by nia.
  pose proof (Z.div_mod y len ltac:(lia)) as Hdm.
  pose proof (Z.mod_pos_bound y len Hlen) as Hmod.
  assert (0 <= y / len) by (apply Z.div_pos; lia).
  split; [|nia].
  split; [assumption|].
  apply Z.div_lt_upper_bound; nia.
Qed.

Lemma grid_axis_unique (y i : Z) :
  0 <= y < s ->
  i * len <= y < i * len + (Z.min s (i * len + len) - i * len) ->
  i = y / len.
Proof.
  intros Hy Hi. pose proof grid_len_nonneg.
  assert (Hlen : 0 < len) by nia.
  apply Z.div_unique with (r := y - i * len); lia.
Qed.

End GridAxis.

(** Positions in a product of lists, in row-major order. *)
Lemma nth_error_list_prod {A B} (l : list A) (l' : list B) (i j : nat)
    (a : A) (b : B) :
  nth_error l i = Some a -> nth_error l' j = Some b ->
  nth_error (list_prod l l') (i * length l' + j) = Some (a, b).
Proof.
  revert i. induction l as [|x l IH]; intros i Ha Hb.
  - destruct i; discriminate.
  - cbn [list_prod]. destruct i as [|i].
    + cbn in Ha. injection Ha as ->. cbn [Nat.mul Nat.add].
      rewrite nth_error_app1.
      * now apply map_nth_error.
      * rewrite length_map. apply nth_error_Some. congruence.
    + cbn in Ha. rewrite nth_error_app2; rewrite length_map; [|lia].
      replace (S i * length l' + j - length l')%nat
        with (i * length l' + j)%nat by lia.
      now apply IH.
Qed.

Lemma nth_error_list_prod_inv {A B} (l : list A) (l' : list B) (k : nat)
    (p : A * B) :
  nth_error (list_prod l l') k = Some p ->
  exists i j, k = (i * length l' + j)%nat /\
              nth_error l i = Some (fst p) /\ nth_error l' j = Some (snd p).
Proof.
  revert k. induction l as [|x l IH]; intros k H.
  - destruct k; discriminate.
  - cbn [list_prod] in H.
    destruct (Nat.lt_ge_cases k (length l')) as [Hk|Hk].
    + rewrite nth_error_app1 in H by (now rewrite length_map).
      rewrite nth_error_map in H.
      destruct (nth_error l' k) as [b|] eqn:Eb; [|discriminate].
      cbn in H. injection H as <-.
      exists 0%nat, k. auto.
    + rewrite nth_error_app2 in H by (now rewrite length_map).
      rewrite length_map in H.
      destruct (IH _ H) as (i & j & Ek & Hi & Hj).
      exists (S i), j. split; [|auto]. cbn [Nat.mul]. lia.
Qed.

Lemma nth_error_py_range (n : Z) (i : nat) :
  nth_error (py_range n) i =
  if (i <? Z.to_nat n)%nat then Some (Z.of_nat i) else None.
Proof.
  unfold py_range.
  destruct (Nat.ltb_spec i (Z.to_nat n)) as [Hi|Hi].
  - rewrite nth_error_map, nth_error_seq.
    destruct (Nat.ltb_spec i (Z.to_nat n)); [reflexivity|lia].
  - apply nth_error_None. now rewrite length_map, length_seq.
Qed.

Lemma length_py_range (n : Z) : length (py_range n) = Z.to_nat n.
Proof.
  unfold py_range. now rewrite length_map, length_seq.
Qed.

Lemma mapM_pointwise {A B} (f : A -> result B) (h : A -> B) (l : list A) :
  (forall a, f a = Ok (h a)) -> mapM f l = Ok (map h l).
Proof.
  intros H. induction l as [|a l IH]; [reflexivity|].
  cbn [map mapM]. now rewrite H, IH.
Qed.

Lemma In_py_range (n i : Z) : In i (py_range n) <-> 0 <= i < n.
Proof.
  unfold py_range. rewrite in_map_iff. split.
  - intros (k & <- & Hk). apply in_seq in Hk. lia.
  - intros Hi. exists (Z.to_nat i). split; [lia|]. apply in_seq. lia.
Qed.

Section Grid.

Variables shape_z shape_y shape_x : Z.
Variables pixel_z pixel_y pixel_x : Q.
Variables grid_size_y grid_size_x : Z.
Hypothesis grid_y_pos : 1 <= grid_size_y.
Hypothesis grid_x_pos : 1 <= grid_size_x.

Local Abbreviation len_y := (- ((- shape_y) / grid_size_y)).
Local Abbreviation len_x := (- ((- shape_x) / grid_size_x)).
Local Abbreviation inds :=
  (list_prod (py_range grid_size_y) (py_range grid_size_x)).
Local Abbreviation cells := (map (cell_of shape_y shape_x len_y len_x) inds).

Lemma grid_inds_length : length inds = Z.to_nat (grid_size_y * grid_size_x).
Proof.
  rewrite length_prod, !length_py_range. lia.
Qed.

Lemma grid_inds_nth (iy ix : Z) :
  0 <= iy < grid_size_y -> 0 <= ix < grid_size_x ->
  nth_error inds (Z.to_nat (iy * grid_size_x + ix)) = Some (iy, ix).
Proof.
  intros Hy Hx.
  replace (Z.to_nat (iy * grid_size_x + ix))
    with (Z.to_nat iy * length (py_range grid_size_x) + Z.to_nat ix)%nat
    by (rewrite length_py_range; nia).
  apply nth_error_list_prod; rewrite nth_error_py_range.
  - destruct (Nat.ltb_spec (Z.to_nat iy) (Z.to_nat grid_size_y)); [|lia].
    f_equal. lia.
  - destruct (Nat.ltb_spec (Z.to_nat ix) (Z.to_nat grid_size_x)); [|lia].
    f_equal. lia.
Qed.

Lemma grid_inds_nth_inv (k : nat) (ind : Z * Z) :
  nth_error inds k = Some ind ->
  0 <= fst ind < grid_size_y /\ 0 <= snd ind < grid_size_x /\
  k = Z.to_nat (fst ind * grid_size_x + snd ind).
Proof.
  intros H. apply nth_error_list_prod_inv in H.
  destruct H as (i & j & Ek & Hi & Hj).
  rewrite nth_error_py_range in Hi, Hj. rewrite length_py_range in Ek.
  destruct (Nat.ltb_spec i (Z.to_nat grid_size_y)); [|discriminate].
  destruct (Nat.ltb_spec j (Z.to_nat grid_size_x)); [|discriminate].
  injection Hi as Hi. injection Hj as Hj. rewrite <- Hi, <- Hj.
  repeat split; lia || nia.
Qed.

Lemma get_image_grid_ROIs_cells :
  get_image_grid_ROIs [shape_z; shape_y; shape_x]
                      [pixel_z; pixel_y; pixel_x]
                      (Some [grid_size_y; grid_size_x])
  = Ok {| obs_names := map ROI_name_of (seq 1 (length cells));
          var_names := grid_var_names;
          X := map (cell_row pixel_z pixel_y pixel_x shape_z) cells;
          obs := [] |}.
Proof.
  unfold get_image_grid_ROIs. cbn [last3 length Nat.sub skipn unpack3 unpack2 bind].
  unfold py_ceil_div.
  destruct (Z.eqb_spec grid_size_y 0); [lia|].
  destruct (Z.eqb_spec grid_size_x 0); [lia|]. cbn [bind].
  rewrite (mapM_pointwise _
             (fun ind => cell_row pixel_z pixel_y pixel_x shape_z
                           (cell_of shape_y shape_x len_y len_x ind)))
    by (intros [iy ix]; reflexivity).
  cbn [bind]. rewrite <- map_map with (g := cell_row _ _ _ _).
  pose proof grid_inds_length as Hlen.
  destruct inds as [|ind rest] eqn:E; [simpl in Hlen; nia|].
  cbn [map length]. rewrite !length_map. reflexivity.
Qed.

Hypothesis last_start_y : (grid_size_y - 1) * len_y <= shape_y.
Hypothesis last_start_x : (grid_size_x - 1) * len_x <= shape_x.

Lemma grid_cells_tile : tiles cells shape_y shape_x.
Proof.
  pose proof (ceil_div_bounds shape_y grid_size_y grid_y_pos) as Hcy.
  pose proof (ceil_div_bounds shape_x grid_size_x grid_x_pos) as Hcx.
  cbv zeta in Hcy, Hcx.
  split.
  - apply Forall_map, Forall_forall. intros [iy ix] Hin.
    apply in_prod_iff in Hin. destruct Hin as [Hy Hx].
    apply In_py_range in Hy, Hx. cbn [cell_of fst snd cell_start_y cell_len_y
      cell_start_x cell_len_x].
    pose proof (grid_axis_inside shape_y grid_size_y len_y grid_y_pos Hcy
                  last_start_y iy Hy).
    pose proof (grid_axis_inside shape_x grid_size_x len_x grid_x_pos Hcx
                  last_start_x ix Hx).
    tauto.
  - intros y x Hy Hx.
    destruct (grid_axis_cover shape_y grid_size_y len_y grid_y_pos Hcy
                last_start_y y Hy) as [Hiy Hcy'].
    destruct (grid_axis_cover shape_x grid_size_x len_x grid_x_pos Hcx
                last_start_x x Hx) as [Hix Hcx'].
    exists (Z.to_nat (y / len_y * grid_size_x + x / len_x)).
    exists (cell_of shape_y shape_x len_y len_x (y / len_y, x / len_x)).
    split; [|split].
    + rewrite nth_error_map, grid_inds_nth by assumption. reflexivity.
    + split; assumption.
    + intros k' c' Hk' [Hin_y Hin_x].
      rewrite nth_error_map in Hk'.
      destruct (nth_error inds k') as [ind|] eqn:Eind; [|discriminate].
      cbn in Hk'. injection Hk' as <-.
      destruct (grid_inds_nth_inv k' ind Eind) as (_ & _ & ->).
      cbn [cell_of cell_start_y cell_len_y cell_start_x cell_len_x]
        in Hin_y, Hin_x.
      rewrite (grid_axis_unique shape_y grid_size_y len_y grid_y_pos Hcy
                 last_start_y y (fst ind) Hy Hin_y).
      rewrite (grid_axis_unique shape_x grid_size_x len_x grid_x_pos Hcx
                 last_start_x x (snd ind) Hx Hin_x).
      reflexivity.
Qed.

Lemma grid_cells_nonempty :
  (grid_size_y - 1) * len_y < shape_y ->
  (grid_size_x - 1) * len_x < shape_x ->
  Forall (fun c => 0 < cell_len_y c /\ 0 < cell_len_x c) cells.
Proof.
  intros Hly Hlx.
  pose proof (ceil_div_bounds shape_y grid_size_y grid_y_pos) as Hcy.
  pose proof (ceil_div_bounds shape_x grid_size_x grid_x_pos) as Hcx.
  cbv zeta in Hcy, Hcx.
  apply Forall_map, Forall_forall. intros [iy ix] Hin.
  apply in_prod_iff in Hin. destruct Hin as [Hy Hx].
  apply In_py_range in Hy, Hx.
  cbn [cell_of fst snd cell_len_y cell_len_x]. split.
  - now apply (grid_axis_nonempty shape_y grid_size_y).
  - now apply (grid_axis_nonempty shape_x grid_size_x).
Qed.

End Grid.

Lemma total_area_app (l1 l2 : list grid_cell) :
  total_area (l1 ++ l2) = total_area l1 + total_area l2.
Proof.
  induction l1 as [|c l1 IH]; simpl; [reflexivity|]. rewrite IH. lia.
Qed.

Lemma axis_total_app (s len : Z) (l1 l2 : list Z) :
  axis_total s len (l1 ++ l2) = axis_total s len l1 + axis_total s len l2.
Proof.
  induction l1 as [|c l1 IH]; simpl; [reflexivity|]. rewrite IH. lia.
Qed.

(** The area of a grid is the product of the lengths covered along Y and
    along X. *)
Lemma total_area_product (sy sx len_y len_x : Z) (ly lx : list Z) :
  total_area (map (cell_of sy sx len_y len_x) (list_prod ly lx))
  = axis_total sy len_y ly * axis_total sx len_x lx.
Proof.
  induction ly as [|iy ly IH]; [reflexivity|].
  cbn [list_prod]. rewrite map_app, total_area_app, IH. cbn [axis_total fold_right].
  fold (axis_total sy len_y ly).
  assert (E : total_area (map (cell_of sy sx len_y len_x)
                              (map (fun ix => (iy, ix)) lx))
              = (Z.min sy (iy * len_y + len_y) - iy * len_y)
                * axis_total sx len_x lx).
  { clear IH. induction lx as [|ix lx IH]; [simpl; lia|].
    cbn [map total_area fold_right cell_of fst snd cell_len_y cell_len_x
         axis_total].
    fold (total_area (map (cell_of sy sx len_y len_x)
                          (map (fun ix => (iy, ix)) lx))).
    fold (axis_total sx len_x lx). rewrite IH. lia. }
  rewrite E. lia.
Qed.

(** The cells of one axis, up to the cell [n], cover [min s (n * len)]
    pixels, as long as they start inside the extent. *)
Lemma axis_total_prefix (s len : Z) (n : nat) :
  0 <= s -> 0 <= len -> (Z.of_nat n - 1) * len <= s ->
  axis_total s len (map Z.of_nat (seq 0 n)) = Z.min s (Z.of_nat n * len).
Proof.
  intros Hs Hlen. induction n as [|n IH]; intros Hlast.
  - simpl. lia.
  - rewrite seq_S, map_app, axis_total_app, IH by nia.
    cbn [Nat.add map axis_total fold_right]. nia.
Qed.

Lemma grid_total_area (sy sx gy gx : Z) :
  1 <= gy -> 1 <= gx ->
  (gy - 1) * (- ((- sy) / gy)) <= sy ->
  (gx - 1) * (- ((- sx) / gx)) <= sx ->
  total_area (map (cell_of sy sx (- ((- sy) / gy)) (- ((- sx) / gx)))
                  (list_prod (py_range gy) (py_range gx)))
  = sy * sx.
Proof.
  intros Hgy Hgx Hly Hlx.
  pose proof (ceil_div_bounds sy gy Hgy) as Hcy.
  pose proof (ceil_div_bounds sx gx Hgx) as Hcx.
  cbv zeta in Hcy, Hcx.
  assert (0 <= - ((- sy) / gy)) by nia.
  assert (0 <= - ((- sx) / gx)) by nia.
  rewrite total_area_product. unfold py_range.
  rewrite !axis_total_prefix by nia.
  rewrite !Z2Nat.id by lia. nia.
Qed.

(** C5 (as amended).  For grid sizes of at least 1, [get_image_grid_ROIs]
    returns [grid_y * grid_x] rows named ROI_1, ROI_2, ... in row-major
    order (Y outer, X inner); the cell [(iy, ix)] starts at
    [iy * len_y], [ix * len_x] with the nominal lengths
    [len = ceil(shape / grid)], clipped at the end of the extent; Z is not
    partitioned.  When on each axis the last cell starts inside the extent,
    [(grid - 1) * len <= shape], the cells tile the Y and X extents exactly:
    every pixel is in exactly one cell and the areas add up to
    [shape_y * shape_x]; when [(grid - 1) * len < shape] on both axes, no
    cell is empty. *)
Theorem get_image_grid_ROIs_tiling
    (shape_z shape_y shape_x : Z) (pixel_z pixel_y pixel_x : Q)
    (grid_size_y grid_size_x : Z) :
  1 <= grid_size_y -> 1 <= grid_size_x ->
  let len_y := - ((- shape_y) / grid_size_y) in
  let len_x := - ((- shape_x) / grid_size_x) in
  exists cells,
    get_image_grid_ROIs [shape_z; shape_y; shape_x]
                        [pixel_z; pixel_y; pixel_x]
                        (Some [grid_size_y; grid_size_x])
    = Ok {| obs_names := map ROI_name_of (seq 1 (length cells));
            var_names := grid_var_names;
            X := map (cell_row pixel_z pixel_y pixel_x shape_z) cells;
            obs := [] |} /\
    length cells = Z.to_nat (grid_size_y * grid_size_x) /\
    (forall iy ix, 0 <= iy < grid_size_y -> 0 <= ix < grid_size_x ->
       nth_error cells (Z.to_nat (iy * grid_size_x + ix))
       = Some (cell_of shape_y shape_x len_y len_x (iy, ix))) /\
    ((grid_size_y - 1) * len_y <= shape_y ->
     (grid_size_x - 1) * len_x <= shape_x ->
     tiles cells shape_y shape_x /\
     total_area cells = shape_y * shape_x) /\
    ((grid_size_y - 1) * len_y < shape_y ->
     (grid_size_x - 1) * len_x < shape_x ->
     Forall (fun c => 0 < cell_len_y c /\ 0 < cell_len_x c) cells).
Proof.
  intros Hgy Hgx len_y len_x.
  exists (map (cell_of shape_y shape_x len_y len_x)
              (list_prod (py_range grid_size_y) (py_range grid_size_x))).
  split; [now apply get_image_grid_ROIs_cells|].
  split; [rewrite length_map; now apply grid_inds_length|].
  split; [|split].
  - intros iy ix Hy Hx. rewrite nth_error_map, grid_inds_nth by assumption.
    reflexivity.
  - intros Hly Hlx. split.
    + now apply grid_cells_tile.
    + now apply grid_total_area.
  - intros Hly Hlx. apply grid_cells_nonempty; unfold len_y, len_x in *; lia.
Qed.

Lemma get_image_grid_ROIs_tiling_witness :
  exists cells,
    get_image_grid_ROIs [1; 100; 100] [1; 1 # 2; 1 # 2]%Q (Some [2; 2])
    = Ok {| obs_names := map ROI_name_of (seq 1 (length cells));
            var_names := grid_var_names;
            X := map (cell_row 1 (1 # 2) (1 # 2) 1) cells;
            obs := [] |} /\
    length cells = 4%nat /\
    tiles cells 100 100 /\
    total_area cells = 10000 /\
    Forall (fun c => 0 < cell_len_y c /\ 0 < cell_len_x c) cells.
Proof.
  destruct (get_image_grid_ROIs_tiling 1 100 100 1 (1 # 2) (1 # 2) 2 2)
    as (cells & E & Hlen & _ & Htiles & Hnonempty);
    [discriminate|discriminate|].
  exists cells.
  destruct Htiles as [Ht Ha]; [discriminate|discriminate|].
  split; [exact E|]. split; [exact Hlen|]. split; [exact Ht|].
  split; [exact Ha|]. apply Hnonempty; reflexivity.
Defined.

(** C5, the claim as stated, fails on a 4 x 4 image with a 3 x 3 grid: the
    nominal cell length is [ceil(4 / 3) = 2], so the third cell of each
    axis starts at pixel 4 and is empty. *)
Lemma get_image_grid_ROIs_empty_cell :
  exists adata row,
    get_image_grid_ROIs [1; 4; 4] [1; 1; 1]%Q (Some [3; 3]) = Ok adata /\
    length (X adata) = 9%nat /\
    nth_error (X adata) 2 = Some row /\
    row = [4; 0; 0; 0; 2; 1; 4; 0]%Q /\
    row_value (var_names adata) row "len_x_micrometer" = Ok 0%Q.
Proof.
  do 2 eexists. split; [reflexivity|]. split; [reflexivity|].
  split; [reflexivity|]. split; reflexivity.
Qed.

(** ** The masked-region compositor *)

Lemma shape_eqb_eq (s1 s2 : list nat) : shape_eqb s1 s2 = true <-> s1 = s2.
Proof.
  revert s2. induction s1 as [|a r1 IH]; intros [|b r2]; simpl;
    try (split; [discriminate|congruence]); [tauto|].
  rewrite andb_true_iff, Nat.eqb_eq, IH. split.
  - intros [-> ->]. reflexivity.
  - intros E. injection E as -> ->. auto.
Qed.

Lemma shape_eqb_refl (s : list nat) : shape_eqb s s = true.
Proof. now apply shape_eqb_eq. Qed.

Lemma heap_get_set_same (h : heap) (r : ref) (a x : ndarray Z) :
  heap_get h r = Some x -> heap_get (heap_set h r a) r = Some a.
Proof.
  unfold heap_get. revert r. induction h as [|y h IH]; intros [|r] H;
    try discriminate; simpl in *; auto.
Qed.



Lemma heap_get_alloc_old (h : heap) (a : ndarray Z) (r : ref) :
  (r < length h)%nat -> heap_get (fst (heap_alloc h a)) r = heap_get h r.
Proof.
  intros Hr. unfold heap_get, heap_alloc. simpl.
  now rewrite nth_error_app1.
Qed.

Lemma heap_get_alloc_new (h : heap) (a : ndarray Z) :
  heap_get (fst (heap_alloc h a)) (snd (heap_alloc h a)) = Some a.
Proof.
  unfold heap_get, heap_alloc. simpl.
  rewrite nth_error_app2 by lia. now rewrite Nat.sub_diag.
Qed.

Lemma flat_map_repeat_1 {A} (l : list A) :
  flat_map (fun b => repeat b 1) l = l.
Proof.
  induction l as [|a l IH]; [reflexivity|].
  cbn [flat_map]. rewrite IH. reflexivity.
Qed.

(** A mask of the shape of the array selects element by element. *)
Lemma mask_flags_same_shape (s : list nat) (m : ndarray bool) :
  shape m = s -> mask_flags s m = Ok (data m).
Proof.
  intros <-. unfold mask_flags.
  rewrite firstn_all, shape_eqb_refl, skipn_all.
  change (size_of []) with 1%nat. now rewrite flat_map_repeat_1.
Qed.

Lemma put_take_composite (flags : list bool) (old new : list Z) :
  length flags = length new -> length old = length new ->
  put_flagged flags new (take_flagged flags old)
  = Some (composite flags old new).
Proof.
  revert old new. induction flags as [|b fs IH]; intros [|o os] [|n ns] Hf Ho;
    try discriminate; [reflexivity|].
  simpl in *. destruct b; simpl; rewrite IH by lia; reflexivity.
Qed.

Lemma composite_length (flags : list bool) (old new : list Z) :
  length flags = length new -> length old = length new ->
  length (composite flags old new) = length new.
Proof.
  revert old new. induction flags as [|b fs IH]; intros [|o os] [|n ns] Hf Ho;
    try discriminate; [reflexivity|].
  simpl in *. rewrite IH by lia. reflexivity.
Qed.

Lemma composite_nth (flags : list bool) (old new : list Z) (k : nat) (b : bool) :
  length flags = length new -> length old = length new ->
  nth_error flags k = Some b ->
  nth_error (composite flags old new) k
  = if b then nth_error old k else nth_error new k.
Proof.
  revert old new k. induction flags as [|b' fs IH];
    intros [|o os] [|n ns] k Hf Ho Hk; try discriminate.
  - destruct k; discriminate.
  - destruct k as [|k]; simpl in *.
    + injection Hk as ->. destruct b; reflexivity.
    + apply IH; auto; lia.
Qed.

Lemma composite_all_true (flags : list bool) (old new : list Z) :
  length flags = length new -> length old = length new ->
  Forall (fun b => b = true) flags -> composite flags old new = old.
Proof.
  revert old new. induction flags as [|b fs IH]; intros [|o os] [|n ns] Hf Ho H;
    try discriminate; [reflexivity|].
  inversion H; subst. simpl in *. rewrite IH by (auto; lia). reflexivity.
Qed.

(** The successful run of the post-segmentation step with masking. *)
Lemma postprocess_cellpose_output_masked (h : heap) (new_ref old_ref : ref)
    (new_array old_array : ndarray Z) (background : ndarray bool) :
  heap_get h new_ref = Some new_array ->
  heap_get h old_ref = Some old_array ->
  ndim new_array = 3%nat ->
  shape old_array = shape new_array ->
  shape background = shape new_array ->
  length (data background) = length (data new_array) ->
  length (data old_array) = length (data new_array) ->
  postprocess_cellpose_output h true (Some new_ref) (Some old_ref)
                              (Some background)
  = (heap_set h new_ref
       {| shape := shape new_array;
          data := composite (data background) (data old_array)
                            (data new_array) |},
     Ok (Some new_ref)).
Proof.
  intros Hnew Hold Hndim Hso Hsb Hlb Hlo.
  unfold postprocess_cellpose_output. rewrite Hnew, Hold.
  assert (Hndim' : ndim old_array = 3%nat) by (unfold ndim in *; congruence).
  rewrite Hndim, Hndim', Hso, Hsb, shape_eqb_refl. cbn [Nat.eqb andb negb].
  unfold getitem_mask, setitem_mask.
  rewrite (mask_flags_same_shape (shape old_array)) by congruence.
  rewrite (mask_flags_same_shape (shape new_array)) by congruence.
  cbn [bind]. rewrite put_take_composite by assumption. reflexivity.
Qed.

(** C6.  With masking enabled and same-shape three-dimensional arrays,
    [postprocess_cellpose_output] succeeds and returns an array that holds
    the prior array's value at every voxel where the background mask is
    true and the freshly segmented array's value at every voxel where it
    is false; with a mask that is true everywhere the returned array is the
    prior array, whatever was segmented.  With masking disabled,
    [postprocess_cellpose_output] returns the label array it was given and
    [preprocess_cellpose_input] returns the (four-dimensional) intensity
    array it was given, nothing being changed. *)
Theorem postprocess_cellpose_output_spec :
  (forall (h : heap) (new_ref old_ref : ref)
          (new_array old_array : ndarray Z) (background : ndarray bool),
      heap_get h new_ref = Some new_array ->
      heap_get h old_ref = Some old_array ->
      ndarray_wf new_array -> ndarray_wf old_array -> ndarray_wf background ->
      ndim new_array = 3%nat ->
      shape old_array = shape new_array ->
      shape background = shape new_array ->
      exists h' out_ref out,
        postprocess_cellpose_output h true (Some new_ref) (Some old_ref)
                                    (Some background)
        = (h', Ok (Some out_ref)) /\
        heap_get h' out_ref = Some out /\
        shape out = shape new_array /\
        length (data out) = length (data new_array) /\
        (forall k b,
            nth_error (data background) k = Some b ->
            nth_error (data out) k =
            if b then nth_error (data old_array) k
            else nth_error (data new_array) k) /\
        (Forall (fun b => b = true) (data background) -> out = old_array)) /\
  (forall h new_label_array old_label_array background_3D,
      postprocess_cellpose_output h false new_label_array old_label_array
                                  background_3D
      = (h, Ok new_label_array)) /\
  (forall from_zarr h image_array image region current_label_path
          primary_label_path ROI_table_obs index_ROI,
      heap_get h image_array = Some image ->
      ndim image = 4%nat ->
      preprocess_cellpose_input from_zarr h image_array false region
        current_label_path primary_label_path ROI_table_obs index_ROI
      = (h, Ok (image_array, None, None))).
Proof.
  split; [|split].
  - intros h new_ref old_ref new_array old_array background
           Hnew Hold Hwn Hwo Hwb Hndim Hso Hsb.
    unfold ndarray_wf in *.
    assert (Hlb : length (data background) = length (data new_array))
      by congruence.
    assert (Hlo : length (data old_array) = length (data new_array))
      by congruence.
    do 3 eexists. split.
    { apply (postprocess_cellpose_output_masked h new_ref old_ref
               new_array old_array background); assumption. }
    split; [eapply heap_get_set_same; eassumption|].
    cbn [shape data]. split; [reflexivity|].
    split; [now apply composite_length|].
    split; [intros k b Hk; now apply composite_nth|].
    intros Hall. rewrite composite_all_true by assumption.
    rewrite <- Hso. now destruct old_array.
  - reflexivity.
  - intros from_zarr h image_array image region cur prim obs idx Hget Hndim.
    unfold preprocess_cellpose_input. now rewrite Hget, Hndim.
Qed.

Lemma postprocess_cellpose_output_spec_witness :
  exists h' out_ref out,
    postprocess_cellpose_output [demo_new_labels; demo_old_labels] true
      (Some 0%nat) (Some 1%nat) (Some demo_background)
    = (h', Ok (Some out_ref)) /\
    heap_get h' out_ref = Some out /\
    shape out = shape demo_new_labels /\
    length (data out) = length (data demo_new_labels) /\
    (forall k b,
        nth_error (data demo_background) k = Some b ->
        nth_error (data out) k =
        if b then nth_error (data demo_old_labels) k
        else nth_error (data demo_new_labels) k) /\
    (Forall (fun b => b = true) (data demo_background) ->
     out = demo_old_labels).
Proof.
  apply (proj1 postprocess_cellpose_output_spec
           [demo_new_labels; demo_old_labels] 0%nat 1%nat
           demo_new_labels demo_old_labels demo_background);
    reflexivity.
Defined.

(** ** preprocess_cellpose_input with masking enabled *)

(** The test [None in (...)] never answers [False] when the fourth item
    is a dataframe or [None]. *)
Lemma None_in_arguments (reg : option region)
    (current_label_path primary_label_path : option string)
    (ROI_table_obs : option obs_frame) (index_ROI : option nat) :
  None_in [compare_with_None reg;
           compare_with_None current_label_path;
           compare_with_None primary_label_path;
           compare_DataFrame_with_None ROI_table_obs;
           compare_with_None index_ROI] = Ok true \/
  exists msg,
    None_in [compare_with_None reg;
             compare_with_None current_label_path;
             compare_with_None primary_label_path;
             compare_DataFrame_with_None ROI_table_obs;
             compare_with_None index_ROI] = Err (ValueError msg).
Proof.
  destruct reg, current_label_path, primary_label_path, ROI_table_obs;
    cbn; eauto.
Qed.

Lemma preprocess_cellpose_input_masked
    (from_zarr : string -> region -> option (ndarray Z))
    (h : heap) (image_array : ref) (image : ndarray Z)
    (reg : option region) (current_label_path primary_label_path : option string)
    (ROI_table_obs : option obs_frame) (index_ROI : option nat) :
  heap_get h image_array = Some image ->
  exists msg,
    preprocess_cellpose_input from_zarr h image_array true reg
      current_label_path primary_label_path ROI_table_obs index_ROI
    = (h, Err (ValueError msg)).
Proof.
  intros Hget. unfold preprocess_cellpose_input. rewrite Hget.
  destruct (negb (ndim image =? 4)%nat); [eauto|].
  destruct (None_in_arguments reg current_label_path primary_label_path
              ROI_table_obs index_ROI) as [E|[msg E]];
    rewrite E; eauto.
Qed.

(** C7.  With masking enabled [preprocess_cellpose_input] never succeeds.
    Whatever the intensity array, the region, the two paths, the dataframe
    and the index, the call raises [ValueError] and leaves every array as
    it was.  When the image is four-dimensional and the region, the paths
    and the dataframe are given, the error is the one that pandas raises
    for the truth value of [ROI_table_obs == None] inside the test
    [None in (...)], whether or not the ZYX shapes agree and the label is
    present: so it is for a single-channel image of the shape of the
    primary label array in which the label of the ROI occurs. *)
Theorem preprocess_cellpose_input_masked_raises :
  (forall from_zarr h image_array image reg current_label_path
          primary_label_path ROI_table_obs index_ROI,
      heap_get h image_array = Some image ->
      exists msg,
        preprocess_cellpose_input from_zarr h image_array true reg
          current_label_path primary_label_path ROI_table_obs index_ROI
        = (h, Err (ValueError msg))) /\
  (forall from_zarr h image_array image (reg : region)
          (current_label_path primary_label_path : string)
          (ROI_table_obs : obs_frame) index_ROI,
      heap_get h image_array = Some image ->
      ndim image = 4%nat ->
      preprocess_cellpose_input from_zarr h image_array true (Some reg)
        (Some current_label_path) (Some primary_label_path)
        (Some ROI_table_obs) index_ROI
      = (h, Err (ValueError "The truth value of a DataFrame is ambiguous. Use a.empty, a.bool(), a.item(), a.any() or a.all()."))) /\
  (shape demo_image_1 = 1%nat :: shape demo_primary_labels /\
   In 3 (data demo_primary_labels) /\
   preprocess_cellpose_input demo_from_zarr [demo_image_1] 0%nat true
     (Some demo_region) (Some "labels/nuclei/0"%string)
     (Some "labels/organoids/0"%string) (Some demo_obs) (Some 0%nat)
   = ([demo_image_1],
      Err (ValueError "The truth value of a DataFrame is ambiguous. Use a.empty, a.bool(), a.item(), a.any() or a.all().")%string)).
Proof.
  split; [|split].
  - intros. now apply (preprocess_cellpose_input_masked _ _ _ image).
  - intros from_zarr h image_array image reg cur prim obs idx Hget Hndim.
    unfold preprocess_cellpose_input. rewrite Hget, Hndim. reflexivity.
  - split; [reflexivity|]. split; [now left|reflexivity].
Qed.






(** C2.  On the empty list of index ranges, for a field-of-view or a well
    table, [check_valid_ROI_indices] fails although no per-axis minimum is
    different from zero: the minimum of an empty sequence does not exist,
    and the error raised names no axis.  (For any other table the call
    returns without a check.) *)
Theorem check_valid_ROI_indices_empty_list :
  check_valid_ROI_indices [] "FOV_ROI_table" = Err EmptySequence /\
  check_valid_ROI_indices [] "well_ROI_table" = Err EmptySequence /\
  check_valid_ROI_indices [] "nuclei_ROI_table" = Ok tt.
Proof. repeat split; reflexivity. Qed.

(** The two examples of the specification: one row starting at pixel
    (-1, 0, 0) fails on the axis Z; rows whose minima are zero pass. *)
Lemma check_valid_ROI_indices_examples :
  check_valid_ROI_indices [[-1; 1; 0; 2; 0; 2]] "FOV_ROI_table"
  = Err (NonZeroOrigin "Z" "FOV_ROI_table" (-1)) /\
  check_valid_ROI_indices [[0; 1; 0; 2; 0; 2]; [0; 1; 0; 2; 2; 4]]
                          "FOV_ROI_table"
  = Ok tt.
Proof. split; reflexivity. Qed.

(** * Further properties of the sources *)

(** ** are_ROI_table_columns_valid *)

Lemma existsb_eqb_true_In (name : string) (names : list string) :
  existsb (String.eqb name) names = true <-> In name names.
Proof.
  split; [|apply existsb_eqb_In].
  intros H. apply existsb_exists in H. destruct H as (x & Hin & E).
  apply String.eqb_eq in E. now subst.
Qed.

Lemma columns_loop_Ok (vars columns : list string) :
  columns_loop vars columns = Ok tt <-> Forall (fun c => In c vars) columns.
Proof.
  induction columns as [|c columns IH]; cbn [columns_loop].
  - split; auto.
  - destruct (existsb (String.eqb c) vars) eqn:E; cbn [negb].
    + apply existsb_eqb_true_In in E. rewrite IH. split.
      * intros H. now constructor.
      * intros H. now inversion H.
    + split; [discriminate|]. intros H. inversion H as [|? ? Hc _]; subst.
      apply existsb_eqb_In in Hc. congruence.
Qed.

Lemma columns_loop_Err (vars columns : list string) (e : exn) :
  columns_loop vars columns = Err e ->
  exists before column after,
    columns = before ++ column :: after /\
    Forall (fun c => In c vars) before /\
    ~ In column vars /\
    e = ValueError (String.append "Column "
                      (String.append column " is not present in ROI table")).
Proof.
  induction columns as [|c columns IH]; cbn [columns_loop]; [discriminate|].
  destruct (existsb (String.eqb c) vars) eqn:E; cbn [negb].
  - intros H. destruct (IH H) as (before & column & after & -> & HF & Hn & ->).
    exists (c :: before), column, after. repeat split; auto.
    constructor; [|assumption]. now apply existsb_eqb_true_In.
  - intros H. injection H as <-. exists [], c, columns.
    repeat split; auto. intros Hin. apply existsb_eqb_In in Hin. congruence.
Qed.

(** X1.  [are_ROI_table_columns_valid] returns normally exactly when the
    six columns [x_micrometer], [y_micrometer], [z_micrometer],
    [len_x_micrometer], [len_y_micrometer], [len_z_micrometer] are all
    among the column names of the table (in any order, other columns
    being allowed).  Otherwise it raises a [ValueError] whose message
    names the first of the six, in this order, that the table lacks. *)
Theorem are_ROI_table_columns_valid_spec (table : AnnData) :
  let columns :=
    ["x_micrometer"; "y_micrometer"; "z_micrometer";
     "len_x_micrometer"; "len_y_micrometer"; "len_z_micrometer"]%string in
  (are_ROI_table_columns_valid table = Ok tt <->
   forall c, In c columns -> In c (var_names table)) /\
  (forall e, are_ROI_table_columns_valid table = Err e ->
     exists before column after,
       columns = before ++ column :: after /\
       (forall c, In c before -> In c (var_names table)) /\
       ~ In column (var_names table) /\
       e = ValueError
             (String.append "Column "
                (String.append column " is not present in ROI table"))).
Proof.
  intros columns. unfold are_ROI_table_columns_valid. fold columns. split.
  - rewrite columns_loop_Ok. apply Forall_forall.
  - intros e H. apply columns_loop_Err in H.
    destruct H as (before & column & after & E & HF & Hn & ->).
    exists before, column, after. rewrite Forall_forall in HF. auto.
Qed.

(** In a rectangular table, a row has a value in every column that the
    table names. *)
Lemma row_value_defined (vars : list string) (row : list Q) (c : string) :
  In c vars -> length row = length vars ->
  exists v, row_value vars row c = Ok v.
Proof.
  revert row. induction vars as [|n vars IH]; intros row Hin Hlen;
    [contradiction|].
  destruct row as [|x row]; [discriminate|].
  unfold row_value. cbn [index_of].
  destruct (String.eqb_spec c n) as [->|Hne].
  - exists x. reflexivity.
  - destruct Hin as [->|Hin]; [congruence|].
    destruct (IH row Hin) as (v & Hv); [simpl in Hlen; lia|].
    exists v. unfold row_value in Hv.
    destruct (index_of c vars) as [j|]; [|discriminate].
    exact Hv.
Qed.

Lemma validated_rows (vars names : list string) (rows : list (list Q)) :
  columns_loop vars
    ["x_micrometer"; "y_micrometer"; "z_micrometer";
     "len_x_micrometer"; "len_y_micrometer"; "len_z_micrometer"]%string
  = Ok tt ->
  length rows = length names ->
  Forall (fun row => length row = length vars) rows ->
  exists typed,
    names = map fst typed /\
    Forall2 (fun xrow (nr : string * PhysicalROI) =>
               row_holds vars xrow (snd nr)) rows typed.
Proof.
  intros Hcols. apply columns_loop_Ok in Hcols.
  rewrite Forall_forall in Hcols.
  revert rows. induction names as [|name names IH]; intros rows Hlen HF.
  - destruct rows; [|discriminate]. exists []. split; constructor.
  - destruct rows as [|row rows]; [discriminate|].
    inversion HF as [|? ? Hrow HF']; subst.
    destruct (IH rows) as (typed & -> & HT); [simpl in Hlen; lia|assumption|].
    destruct (row_value_defined vars row "x_micrometer") as (x & Hx);
      [apply Hcols; simpl; tauto|assumption|].
    destruct (row_value_defined vars row "y_micrometer") as (y & Hy);
      [apply Hcols; simpl; tauto|assumption|].
    destruct (row_value_defined vars row "z_micrometer") as (z & Hz);
      [apply Hcols; simpl; tauto|assumption|].
    destruct (row_value_defined vars row "len_x_micrometer") as (lx & Hlx);
      [apply Hcols; simpl; tauto|assumption|].
    destruct (row_value_defined vars row "len_y_micrometer") as (ly & Hly);
      [apply Hcols; simpl; tauto|assumption|].
    destruct (row_value_defined vars row "len_z_micrometer") as (lz & Hlz);
      [apply Hcols; simpl; tauto|assumption|].
    exists ((name, {| roi_x := x; roi_y := y; roi_z := z;
                      roi_len_x := lx; roi_len_y := ly; roi_len_z := lz |})
              :: typed).
    split; [reflexivity|]. constructor; [|assumption].
    unfold row_holds. cbn [snd roi_x roi_y roi_z roi_len_x roi_len_y roi_len_z].
    auto 10.
Qed.

(** X2.  A table that [are_ROI_table_columns_valid] accepts is fit for
    [convert_ROI_table_to_indices]: when its row names are unique and
    the pixel sizes of the level are positive, the conversion either
    returns one range of six non-negative indices per row, or raises the
    documented error about negative indices for one of the rows of the
    table.  It raises nothing else (no missing column, no missing row). *)
Theorem validated_table_converts
    (ROI : AnnData) (fz fy fx : Q) (level c : Z) :
  are_ROI_table_columns_valid ROI = Ok tt ->
  rectangular ROI ->
  NoDup (obs_names ROI) ->
  (0 < fz)%Q ->
  (0 < fy * inject_Z c ^ level)%Q ->
  (0 < fx * inject_Z c ^ level)%Q ->
  match convert_ROI_table_to_indices ROI [fz; fy; fx] level c
          default_cols_xyz_pos default_cols_xyz_len with
  | Ok list_indices =>
      length list_indices = n_obs ROI /\
      Forall (fun item => length item = 6%nat /\
                          Forall (fun i => 0 <= i) item) list_indices
  | Err (NegativeIndices ROI_name _ _ _) => In ROI_name (obs_names ROI)
  | Err _ => False
  end.
Proof.
  intros Hvalid [Hlen Hrect] HN Hz Hy Hx.
  destruct (validated_rows (var_names ROI) (obs_names ROI) (X ROI))
    as (typed & Hnames & HT); [exact Hvalid|exact Hlen|exact Hrect|].
  rewrite (convert_as_rows ROI typed);
    [|split; assumption|now rewrite <- Hnames|assumption..].
  destruct (convert_rows _ _ _ level typed) as [l|e] eqn:E.
  - apply convert_rows_Ok in E. destruct E as [-> Hall]. split.
    + unfold n_obs. now rewrite Hnames, !length_map.
    + rewrite Forall_forall in *. intros item Hin. split; [|now apply Hall].
      apply in_map_iff in Hin. destruct Hin as (nr & <- & _). reflexivity.
  - apply convert_rows_Err in E.
    destruct E as (before & name & r & after & -> & _ & _ & ->).
    rewrite Hnames, map_app. apply in_or_app. right. now left.
Qed.

Lemma validated_table_converts_witness :
  match convert_ROI_table_to_indices demo_ROI_table [1; 1 # 2; 1 # 2]%Q 1 2
          default_cols_xyz_pos default_cols_xyz_len with
  | Ok list_indices =>
      length list_indices = n_obs demo_ROI_table /\
      Forall (fun item => length item = 6%nat /\
                          Forall (fun i => 0 <= i) item) list_indices
  | Err (NegativeIndices ROI_name _ _ _) =>
      In ROI_name (obs_names demo_ROI_table)
  | Err _ => False
  end.
Proof.
  apply (validated_table_converts demo_ROI_table 1 (1 # 2) (1 # 2) 1 2).
  - reflexivity.
  - split; [reflexivity|]. repeat constructor.
  - repeat constructor; simpl; intuition discriminate.
  - reflexivity.
  - reflexivity.
  - reflexivity.
Defined.

(** ** get_single_image_ROI and get_image_grid_ROIs, converted back *)

Lemma py_round_zero_div (p : Q) : py_round (0 / p) = 0.
Proof.
  rewrite (py_round_eq (0 / p) (inject_Z 0)).
  - apply py_round_inject_Z.
  - unfold Qdiv. change (inject_Z 0) with 0%Q. ring.
Qed.

(** The pixel range of a whole number of pixels: [start] pixels from the
    origin, [len] pixels long, for the pixel size [p] at full resolution
    and [p * k] at the level. *)
Lemma py_round_pixels (start len : Z) (p k : Q) :
  (0 < p)%Q -> (0 < k)%Q ->
  py_round (inject_Z start * p / (p * k)) = py_round (inject_Z start / k) /\
  py_round ((inject_Z start * p + inject_Z len * p) / (p * k))
  = py_round (inject_Z (start + len) / k).
Proof.
  intros Hp Hk. split; apply py_round_eq.
  - field. split; lra.
  - rewrite inject_Z_plus. field. split; lra.
Qed.

Lemma py_round_div_1 (n : Z) : py_round (inject_Z n / 1) = n.
Proof.
  rewrite (py_round_eq _ (inject_Z n)) by (field; discriminate).
  apply py_round_inject_Z.
Qed.

Lemma last3_app {A} (l : list A) (a b c : A) : last3 (l ++ [a; b; c]) = [a; b; c].
Proof.
  unfold last3. rewrite length_app. cbn [length].
  replace (length l + 3 - 3)%nat with (length l + 0)%nat by lia.
  rewrite skipn_app, skipn_all2 by lia.
  replace (length l + 0 - length l)%nat with 0%nat by lia. reflexivity.
Qed.

Lemma row_holds_grid (a b c d e f g h : Q) :
  row_holds grid_var_names [a; b; c; d; e; f; g; h]
    {| roi_x := a; roi_y := b; roi_z := c;
       roi_len_x := d; roi_len_y := e; roi_len_z := f |}.
Proof. repeat split. Qed.

(** A list of ranges that all start at zero passes the check (here: a
    single range). *)
Lemma check_valid_ROI_indices_single (ez ey ex : Z) (ROI_table_name : string) :
  check_valid_ROI_indices [[0; ez; 0; ey; 0; ex]] ROI_table_name = Ok tt.
Proof.
  unfold check_valid_ROI_indices.
  destruct (negb (existsb _ _)); reflexivity.
Qed.

(** X3.  The table of [get_single_image_ROI] converts back to the whole
    image.  For an array whose last three axes are Z, Y, X with
    non-negative lengths and for positive pixel sizes,
    [get_single_image_ROI] succeeds, and [convert_ROI_table_to_indices]
    on its table, with the same pixel sizes, gives at level 0 the single
    range [0, shape_z, 0, shape_y, 0, shape_x].  At every level of a
    pyramid with coarsening factor [c > 0] it gives a single range, which
    starts at 0 on the three axes, spans the whole of Z, has non-negative
    Y and X ends, and passes [check_valid_ROI_indices] under any table
    name. *)
Theorem get_single_image_ROI_round_trip
    (leading : list Z) (shape_z shape_y shape_x : Z) (pz py px : Q) (c : Z) :
  0 <= shape_z -> 0 <= shape_y -> 0 <= shape_x ->
  (0 < pz)%Q -> (0 < py)%Q -> (0 < px)%Q -> 0 < c ->
  exists ROI,
    get_single_image_ROI (leading ++ [shape_z; shape_y; shape_x]) [pz; py; px]
    = Ok ROI /\
    convert_ROI_table_to_indices ROI [pz; py; px] 0 c
      default_cols_xyz_pos default_cols_xyz_len
    = Ok [[0; shape_z; 0; shape_y; 0; shape_x]] /\
    (forall level,
        exists end_y end_x,
          0 <= end_y /\ 0 <= end_x /\
          convert_ROI_table_to_indices ROI [pz; py; px] level c
            default_cols_xyz_pos default_cols_xyz_len
          = Ok [[0; shape_z; 0; end_y; 0; end_x]] /\
          forall ROI_table_name,
            check_valid_ROI_indices [[0; shape_z; 0; end_y; 0; end_x]]
                                    ROI_table_name = Ok tt).
Proof.
  intros Hsz Hsy Hsx Hz Hy Hx Hc.
  unfold get_single_image_ROI. rewrite last3_app. cbn [unpack3 bind].
  cbn [list_item nth_error bind].
  eexists. split; [reflexivity|].
  set (ROI := {| obs_names := ["image_1"%string] |}).
  set (r := {| roi_x := 0; roi_y := 0; roi_z := 0;
               roi_len_x := inject_Z shape_x * px;
               roi_len_y := inject_Z shape_y * py;
               roi_len_z := inject_Z shape_z * pz |}).
  assert (HT : ROI_table_rows ROI [("image_1"%string, r)]).
  { split; [reflexivity|]. constructor; [|constructor]. apply row_holds_grid. }
  assert (HN : NoDup (map fst [("image_1"%string, r)])).
  { repeat constructor. simpl. tauto. }
  assert (Hends : forall L,
    0 <= py_round (inject_Z shape_y / inject_Z c ^ L) /\
    0 <= py_round (inject_Z shape_x / inject_Z c ^ L)).
  { intros L.
    assert (Hpow : (0 < inject_Z c ^ L)%Q).
    { apply Qpower_0_lt. change 0%Q with (inject_Z 0). now rewrite <- Zlt_Qlt. }
    split; apply py_round_nonneg; (apply Qdiv_nonneg; [|assumption]);
      change 0%Q with (inject_Z 0); now rewrite <- Zle_Qle. }
  assert (Hconv : forall L,
    convert_ROI_table_to_indices ROI [pz; py; px] L c
      default_cols_xyz_pos default_cols_xyz_len
    = Ok [[0; shape_z;
           0; py_round (inject_Z shape_y / inject_Z c ^ L);
           0; py_round (inject_Z shape_x / inject_Z c ^ L)]]).
  { intros L.
    assert (Hpow : (0 < inject_Z c ^ L)%Q).
    { apply Qpower_0_lt. change 0%Q with (inject_Z 0). now rewrite <- Zlt_Qlt. }
    rewrite (convert_as_rows ROI [("image_1"%string, r)]);
      [|assumption|assumption|assumption
       |now apply Qmult_lt_0_compat|now apply Qmult_lt_0_compat].
    assert (Hrange :
      pixel_range r pz (py * inject_Z c ^ L) (px * inject_Z c ^ L)
      = [0; shape_z;
         0; py_round (inject_Z shape_y / inject_Z c ^ L);
         0; py_round (inject_Z shape_x / inject_Z c ^ L)]).
    { unfold pixel_range, r.
      cbn [roi_x roi_y roi_z roi_len_x roi_len_y roi_len_z].
      rewrite !py_round_zero_div.
      rewrite (py_round_eq ((0 + inject_Z shape_z * pz) / pz)
                           (inject_Z shape_z)) by (field; lra).
      rewrite py_round_inject_Z.
      rewrite (py_round_eq ((0 + inject_Z shape_y * py)
                              / (py * inject_Z c ^ L))
                           (inject_Z shape_y / inject_Z c ^ L))
        by (field; split; lra).
      rewrite (py_round_eq ((0 + inject_Z shape_x * px)
                              / (px * inject_Z c ^ L))
                           (inject_Z shape_x / inject_Z c ^ L))
        by (field; split; lra).
      reflexivity. }
    destruct (Hends L) as [Hey Hex].
    rewrite convert_rows_nonneg.
    - cbn [map snd]. rewrite Hrange. reflexivity.
    - constructor; [|constructor]. cbn [snd]. rewrite Hrange.
      repeat constructor; lia. }
  split.
  - rewrite Hconv. cbn [Qpower]. now rewrite !py_round_div_1.
  - intros level. destruct (Hends level) as [Hey Hex].
    do 2 eexists. split; [exact Hey|]. split; [exact Hex|].
    split; [apply Hconv|].
    intros name. apply check_valid_ROI_indices_single.
Qed.

Lemma get_single_image_ROI_round_trip_witness :
  exists ROI,
    get_single_image_ROI ([3] ++ [10; 2160; 2560]) [1; 13 # 200; 13 # 200]%Q
    = Ok ROI /\
    convert_ROI_table_to_indices ROI [1; 13 # 200; 13 # 200]%Q 0 2
      default_cols_xyz_pos default_cols_xyz_len
    = Ok [[0; 10; 0; 2160; 0; 2560]] /\
    (forall level,
        exists end_y end_x,
          0 <= end_y /\ 0 <= end_x /\
          convert_ROI_table_to_indices ROI [1; 13 # 200; 13 # 200]%Q level 2
            default_cols_xyz_pos default_cols_xyz_len
          = Ok [[0; 10; 0; end_y; 0; end_x]] /\
          forall ROI_table_name,
            check_valid_ROI_indices [[0; 10; 0; end_y; 0; end_x]]
                                    ROI_table_name = Ok tt).
Proof.
  apply (get_single_image_ROI_round_trip [3] 10 2160 2560
           1 (13 # 200) (13 # 200) 2); reflexivity || lia.
Defined.

Lemma get_single_image_ROI_Ok (array_shape : list Z) (pixels_ZYX : list Q) :
  (3 <= length array_shape)%nat -> (3 <= length pixels_ZYX)%nat ->
  exists shape_z shape_y shape_x pixel_z pixel_y pixel_x leading rest,
    array_shape = leading ++ [shape_z; shape_y; shape_x] /\
    pixels_ZYX = pixel_z :: pixel_y :: pixel_x :: rest /\
    get_single_image_ROI array_shape pixels_ZYX
    = Ok {| obs_names := ["image_1"%string];
            var_names := grid_var_names;
            X := [[ 0; 0; 0;
                    inject_Z shape_x * pixel_x;
                    inject_Z shape_y * pixel_y;
                    inject_Z shape_z * pixel_z;
                    0; 0 ]%Q];
            obs := [] |}.
Proof.
  intros Hs Hp.
  assert (Hsplit : exists leading sz sy sx,
             array_shape = leading ++ [sz; sy; sx]).
  { exists (firstn (length array_shape - 3) array_shape).
    pose proof (firstn_skipn (length array_shape - 3) array_shape) as E.
    pose proof (length_skipn (length array_shape - 3) array_shape) as Hl.
    destruct (skipn (length array_shape - 3) array_shape)
      as [|sz [|sy [|sx [|? ?]]]]; cbn [length] in Hl; try lia.
    exists sz, sy, sx. now rewrite E. }
  destruct Hsplit as (leading & sz & sy & sx & ->).
  destruct pixels_ZYX as [|pixel_z [|pixel_y [|pixel_x rest]]];
    cbn [length] in Hp; try lia.
  exists sz, sy, sx, pixel_z, pixel_y, pixel_x, leading, rest.
  split; [reflexivity|]. split; [reflexivity|].
  unfold get_single_image_ROI. rewrite last3_app. reflexivity.
Qed.

(** X4.  [get_single_image_ROI] succeeds exactly when the array shape has
    at least three axes and at least three pixel sizes are given.  A
    shape with fewer axes cannot be unpacked into Z, Y, X, and with fewer
    pixel sizes the lookup of a pixel size fails.  The table returned has
    a single row, named [image_1], as long as its eight column names, and
    [are_ROI_table_columns_valid] accepts it. *)
Theorem get_single_image_ROI_defined
    (array_shape : list Z) (pixels_ZYX : list Q) :
  ((exists ROI, get_single_image_ROI array_shape pixels_ZYX = Ok ROI) <->
   (3 <= length array_shape)%nat /\ (3 <= length pixels_ZYX)%nat) /\
  ((length array_shape < 3)%nat ->
   get_single_image_ROI array_shape pixels_ZYX = Err UnpackError) /\
  ((3 <= length array_shape)%nat -> (length pixels_ZYX < 3)%nat ->
   get_single_image_ROI array_shape pixels_ZYX = Err IndexError) /\
  (forall ROI, get_single_image_ROI array_shape pixels_ZYX = Ok ROI ->
     obs_names ROI = ["image_1"%string] /\
     rectangular ROI /\
     are_ROI_table_columns_valid ROI = Ok tt).
Proof.
  assert (Hshort : (length array_shape < 3)%nat ->
            get_single_image_ROI array_shape pixels_ZYX = Err UnpackError).
  { intros H. destruct array_shape as [|a [|b [|c rest]]];
      cbn [length] in H; try lia; reflexivity. }
  assert (Hpix : (3 <= length array_shape)%nat -> (length pixels_ZYX < 3)%nat ->
            get_single_image_ROI array_shape pixels_ZYX = Err IndexError).
  { intros Hs Hp.
    destruct (get_single_image_ROI_Ok array_shape [0; 0; 0]%Q Hs)
      as (sz & sy & sx & _ & _ & _ & leading & _ & -> & _ & _);
      [simpl; lia|].
    unfold get_single_image_ROI. rewrite last3_app. cbn [unpack3 bind].
    destruct pixels_ZYX as [|pz [|py [|px rest]]];
      cbn [length] in Hp; try lia; reflexivity. }
  split; [split|split; [exact Hshort|split; [exact Hpix|]]].
  - intros [ROI E].
    destruct (Nat.lt_ge_cases (length array_shape) 3) as [H|H].
    { rewrite (Hshort H) in E. discriminate. }
    destruct (Nat.lt_ge_cases (length pixels_ZYX) 3) as [H'|H'].
    { rewrite (Hpix H H') in E. discriminate. }
    split; assumption.
  - intros [Hs Hp].
    destruct (get_single_image_ROI_Ok array_shape pixels_ZYX Hs Hp)
      as (sz & sy & sx & pz & py & px & leading & rest & _ & _ & E).
    eexists. exact E.
  - intros ROI E.
    destruct (Nat.lt_ge_cases (length array_shape) 3) as [H|H].
    { rewrite (Hshort H) in E. discriminate. }
    destruct (Nat.lt_ge_cases (length pixels_ZYX) 3) as [H'|H'].
    { rewrite (Hpix H H') in E. discriminate. }
    destruct (get_single_image_ROI_Ok array_shape pixels_ZYX H H')
      as (sz & sy & sx & pz & py & px & leading & rest & _ & _ & E').
    rewrite E' in E. injection E as <-.
    split; [reflexivity|]. split; [|reflexivity].
    split; [reflexivity|]. repeat constructor.
Qed.

Lemma get_single_image_ROI_defined_witness :
  get_single_image_ROI [2160; 2560] [1; 1; 1]%Q = Err UnpackError /\
  get_single_image_ROI [1; 2160; 2560] [1; 1]%Q = Err IndexError.
Proof.
  split.
  - apply (get_single_image_ROI_defined [2160; 2560] [1; 1; 1]%Q).
    simpl. lia.
  - apply (get_single_image_ROI_defined [1; 2160; 2560] [1; 1]%Q);
      simpl; lia.
Defined.

Lemma append_ROI_inj (s1 s2 : string) :
  String.append "ROI_" s1 = String.append "ROI_" s2 -> s1 = s2.
Proof. intros H. now injection H. Qed.

Lemma ROI_name_of_inj (a b : nat) : ROI_name_of a = ROI_name_of b -> a = b.
Proof.
  intros H. apply append_ROI_inj in H.
  apply (f_equal NilEmpty.uint_of_string) in H.
  rewrite !NilEmpty.usu in H. injection H as H.
  apply (f_equal Nat.of_uint) in H.
  now rewrite !DecimalNat.Unsigned.of_to in H.
Qed.

Lemma ROI_names_NoDup (start n : nat) : NoDup (map ROI_name_of (seq start n)).
Proof.
  apply Injective_map_NoDup; [|apply seq_NoDup].
  intros a b. apply ROI_name_of_inj.
Qed.

Lemma map_fst_combine {A B} (l : list A) (l' : list B) :
  length l = length l' -> map fst (combine l l') = l.
Proof.
  revert l'. induction l as [|a l IH]; intros [|b l'] H;
    try discriminate; [reflexivity|].
  simpl. f_equal. apply IH. simpl in H. lia.
Qed.

Lemma map_snd_combine {A B C} (f : B -> C) (l : list A) (l' : list B) :
  length l = length l' ->
  map (fun ab => f (snd ab)) (combine l l') = map f l'.
Proof.
  revert l'. induction l as [|a l IH]; intros [|b l'] H;
    try discriminate; [reflexivity|].
  simpl. f_equal. apply IH. simpl in H. lia.
Qed.

Lemma grid_table_rows (pixel_z pixel_y pixel_x : Q) (shape_z : Z)
    (names : list string) (cells : list grid_cell) :
  length names = length cells ->
  ROI_table_rows
    {| obs_names := names; var_names := grid_var_names;
       X := map (cell_row pixel_z pixel_y pixel_x shape_z) cells;
       obs := [] |}
    (combine names (map (cell_ROI pixel_z pixel_y pixel_x shape_z) cells)).
Proof.
  intros Hlen. split; cbn [obs_names var_names X].
  - symmetry. apply map_fst_combine. now rewrite length_map.
  - revert cells Hlen. induction names as [|n names IH]; intros [|c cells] H;
      try discriminate; [constructor|].
    cbn [map combine]. constructor; [apply row_holds_grid|].
    apply IH. simpl in H. lia.
Qed.

(** At full resolution the ROI of a cell covers the pixels of the cell. *)
Lemma pixel_range_cell_ROI (pz py px : Q) (shape_z : Z) (c : grid_cell) :
  (0 < pz)%Q -> (0 < py)%Q -> (0 < px)%Q ->
  pixel_range (cell_ROI pz py px shape_z c) pz (py * 1) (px * 1)
  = cell_range shape_z c.
Proof.
  intros Hz Hy Hx. unfold pixel_range, cell_ROI, cell_range.
  cbn [roi_x roi_y roi_z roi_len_x roi_len_y roi_len_z].
  assert (H1 : (0 < 1)%Q) by reflexivity.
  destruct (py_round_pixels (cell_start_y c) (cell_len_y c) py 1 Hy H1)
    as [-> ->].
  destruct (py_round_pixels (cell_start_x c) (cell_len_x c) px 1 Hx H1)
    as [-> ->].
  rewrite !py_round_div_1.
  rewrite (py_round_eq (inject_Z 0 * pz / pz) (inject_Z 0)) by (field; lra).
  rewrite (py_round_eq ((inject_Z 0 * pz + inject_Z shape_z * pz) / pz)
                       (inject_Z shape_z)) by (field; lra).
  now rewrite !py_round_inject_Z.
Qed.

(** X5.  The table of [get_image_grid_ROIs] converts back to the cells of
    the grid.  For an image of non-negative lengths, positive pixel sizes
    and a grid of at least one cell per axis, the rows of the table have
    distinct names, and [convert_ROI_table_to_indices] at level 0, with
    the same pixel sizes, returns for the cell [(ind_y, ind_x)], in the
    order of the loops, the range of its pixels: all of Z,
    [ind_y * len_y] up to (excluded) [min(shape_y, ind_y * len_y + len_y)]
    along Y, and likewise along X.  No cell is rejected for negative
    indices. *)
Theorem get_image_grid_ROIs_round_trip
    (shape_z shape_y shape_x : Z) (pz py px : Q)
    (grid_size_y grid_size_x c : Z) :
  0 <= shape_z -> 0 <= shape_y -> 0 <= shape_x ->
  1 <= grid_size_y -> 1 <= grid_size_x ->
  (0 < pz)%Q -> (0 < py)%Q -> (0 < px)%Q ->
  let len_y := - ((- shape_y) / grid_size_y) in
  let len_x := - ((- shape_x) / grid_size_x) in
  exists ROI,
    get_image_grid_ROIs [shape_z; shape_y; shape_x] [pz; py; px]
                        (Some [grid_size_y; grid_size_x]) = Ok ROI /\
    NoDup (obs_names ROI) /\
    convert_ROI_table_to_indices ROI [pz; py; px] 0 c
      default_cols_xyz_pos default_cols_xyz_len
    = Ok (map (fun ind : Z * Z =>
                 [ 0; shape_z;
                   fst ind * len_y;
                   Z.min shape_y (fst ind * len_y + len_y);
                   snd ind * len_x;
                   Z.min shape_x (snd ind * len_x + len_x) ])
              (list_prod (py_range grid_size_y) (py_range grid_size_x))).
Proof.
  intros Hsz Hsy Hsx Hgy Hgx Hz Hy Hx len_y len_x.
  set (inds := list_prod (py_range grid_size_y) (py_range grid_size_x)).
  set (cells := map (cell_of shape_y shape_x len_y len_x) inds).
  set (names := map ROI_name_of (seq 1 (length cells))).
  exists {| obs_names := names; var_names := grid_var_names;
            X := map (cell_row pz py px shape_z) cells; obs := [] |}.
  split; [now apply get_image_grid_ROIs_cells|].
  split; [apply ROI_names_NoDup|].
  assert (Hlen : length names = length cells).
  { unfold names. now rewrite length_map, length_seq. }
  pose proof (ceil_div_bounds shape_y grid_size_y Hgy) as Hcy.
  pose proof (ceil_div_bounds shape_x grid_size_x Hgx) as Hcx.
  cbv zeta in Hcy, Hcx. fold len_y in Hcy. fold len_x in Hcx.
  assert (Hly : 0 <= len_y) by nia.
  assert (Hlx : 0 <= len_x) by nia.
  rewrite (convert_as_rows _
             (combine names (map (cell_ROI pz py px shape_z) cells)));
    [|now apply grid_table_rows
     |rewrite map_fst_combine by (now rewrite length_map);
      apply ROI_names_NoDup
     |assumption
     |cbn [Qpower]; lra
     |cbn [Qpower]; lra].
  cbn [Qpower].
  assert (Hrange : forall cl,
    pixel_range (cell_ROI pz py px shape_z cl) pz (py * 1) (px * 1)
    = cell_range shape_z cl)
    by (intros; now apply pixel_range_cell_ROI).
  rewrite convert_rows_nonneg.
  - f_equal.
    rewrite (map_snd_combine (fun r => pixel_range r pz (py * 1) (px * 1)))
      by (now rewrite length_map).
    rewrite map_map. unfold cells. rewrite map_map.
    apply map_ext. intros [iy ix]. rewrite Hrange.
    unfold cell_range, cell_of.
    cbn [cell_start_y cell_len_y cell_start_x cell_len_x fst snd].
    assert (Hadd : forall a b, a + (b - a) = b) by (intros; lia).
    now rewrite !Hadd.
  - apply Forall_forall. intros [name r] Hin. cbn [snd].
    apply in_combine_r in Hin. apply in_map_iff in Hin.
    destruct Hin as (cl & <- & Hcl). rewrite Hrange.
    unfold cells in Hcl. apply in_map_iff in Hcl.
    destruct Hcl as ([iy ix] & <- & Hind).
    unfold inds in Hind. apply in_prod_iff in Hind.
    destruct Hind as [Hiy Hix].
    apply In_py_range in Hiy. apply In_py_range in Hix.
    unfold cell_range, cell_of.
    cbn [cell_start_y cell_len_y cell_start_x cell_len_x fst snd].
    repeat constructor; try lia; nia.
Qed.

Lemma get_image_grid_ROIs_round_trip_witness :
  exists ROI,
    get_image_grid_ROIs [1; 5; 4] [1; 1 # 2; 1 # 2]%Q (Some [2; 2]) = Ok ROI /\
    NoDup (obs_names ROI) /\
    convert_ROI_table_to_indices ROI [1; 1 # 2; 1 # 2]%Q 0 2
      default_cols_xyz_pos default_cols_xyz_len
    = Ok [ [0; 1; 0; 3; 0; 2]; [0; 1; 0; 3; 2; 4];
           [0; 1; 3; 5; 0; 2]; [0; 1; 3; 5; 2; 4] ].
Proof.
  apply (get_image_grid_ROIs_round_trip 1 5 4 1 (1 # 2) (1 # 2) 2 2 2);
    reflexivity || lia.
Defined.

(** ** convert_ROIs_from_3D_to_2D *)

Lemma find_row_map (f : list Q -> list Q) name names rows :
  find_row name names (map f rows)
  = row <- find_row name names rows ;; Ok (f row).
Proof.
  revert rows. induction names as [|n names IH]; intros rows; [reflexivity|].
  destruct rows as [|row rows]; [reflexivity|]. cbn [map find_row].
  destruct (String.eqb name n); [reflexivity|apply IH].
Qed.

Lemma find_row_defined name names (rows : list (list Q)) :
  In name names -> length rows = length names ->
  exists row, find_row name names rows = Ok row /\ In row rows.
Proof.
  revert rows. induction names as [|n names IH]; intros rows Hin Hlen;
    [contradiction|].
  destruct rows as [|row rows]; [discriminate|]. cbn [find_row].
  destruct (String.eqb_spec name n) as [->|Hne].
  - exists row. split; [reflexivity|now left].
  - destruct Hin as [->|Hin]; [congruence|].
    destruct (IH rows Hin) as (row' & E & Hin'); [simpl in Hlen; lia|].
    exists row'. split; [assumption|now right].
Qed.

Lemma find_row_In name names (rows : list (list Q)) row :
  find_row name names rows = Ok row -> In row rows.
Proof.
  revert rows. induction names as [|n names IH]; intros rows H;
    [discriminate|].
  destruct rows as [|row' rows]; [discriminate|]. cbn [find_row] in H.
  destruct (String.eqb name n).
  - injection H as ->. now left.
  - right. now apply IH.
Qed.

Lemma row_set_length vars (row : list Q) c v :
  length (row_set vars row c v) = length row.
Proof.
  revert row. induction vars as [|n vars IH]; intros [|x row];
    try reflexivity.
  cbn [row_set length]. now rewrite IH.
Qed.

Lemma index_of_lt (c : string) (vars : list string) (j : nat) :
  index_of c vars = Some j -> (j < length vars)%nat.
Proof.
  revert j. induction vars as [|n vars IH]; intros j H; [discriminate|].
  cbn [index_of] in H. destruct (String.eqb c n).
  - injection H as <-. simpl. lia.
  - destruct (index_of c vars) as [j'|]; [|discriminate].
    injection H as <-. simpl. specialize (IH j' eq_refl). lia.
Qed.

Lemma index_of_None (c : string) (vars : list string) :
  index_of c vars = None <-> ~ In c vars.
Proof.
  induction vars as [|n vars IH]; cbn [index_of].
  - split; auto.
  - destruct (String.eqb_spec c n) as [->|Hne].
    + split; [discriminate|]. intros H. exfalso. apply H. now left.
    + destruct (index_of c vars) as [j|]; cbn [option_map].
      * split; [discriminate|]. intros H. exfalso.
        assert (Hn : ~ In c vars) by (intros Hin; apply H; now right).
        apply IH in Hn. discriminate.
      * split; [|reflexivity]. intros _ [->|Hin]; [congruence|].
        now apply (proj1 IH).
Qed.

Lemma index_of_app_new (c : string) (vars : list string) :
  ~ In c vars -> index_of c (vars ++ [c]) = Some (length vars).
Proof.
  induction vars as [|n vars IH]; intros Hn; cbn [index_of app].
  - now rewrite String.eqb_refl.
  - destruct (String.eqb_spec c n) as [->|_].
    + exfalso. apply Hn. now left.
    + rewrite IH; [reflexivity|]. intros Hin. apply Hn. now right.
Qed.

Lemma index_of_app_other (c c' : string) (vars : list string) :
  c' <> c -> index_of c' (vars ++ [c]) = index_of c' vars.
Proof.
  intros Hne. induction vars as [|n vars IH]; cbn [index_of app].
  - destruct (String.eqb_spec c' c); [congruence|reflexivity].
  - destruct (String.eqb c' n); [reflexivity|]. now rewrite IH.
Qed.

(** A column added at the end of a rectangular table. *)
Lemma row_value_app_new vars (row : list Q) c v :
  ~ In c vars -> length row = length vars ->
  row_value (vars ++ [c]) (row ++ [v]) c = Ok v.
Proof.
  intros Hn Hlen. unfold row_value. rewrite index_of_app_new by assumption.
  rewrite nth_error_app2 by lia. rewrite <- Hlen, Nat.sub_diag. reflexivity.
Qed.

Lemma row_value_app_other vars (row : list Q) c c' v :
  c' <> c -> length row = length vars ->
  row_value (vars ++ [c]) (row ++ [v]) c' = row_value vars row c'.
Proof.
  intros Hne Hlen. unfold row_value. rewrite index_of_app_other by assumption.
  destruct (index_of c' vars) as [j|] eqn:E; [|reflexivity].
  apply index_of_lt in E. rewrite nth_error_app1 by lia. reflexivity.
Qed.

(** X6.  [convert_ROIs_from_3D_to_2D] returns a new table with the rows
    of the given (rectangular) table, under the same names: every row has
    the Z pixel size in its column [len_z_micrometer], and the values of
    all other columns, the Z position among them, are those of the given
    table.  The column [len_z_micrometer] is added as the last one when
    the given table has no such column.  The annotation of the rows is not
    carried over. *)
Theorem convert_ROIs_from_3D_to_2D_spec
    (adata : AnnData) (pixel_size_z : Q) :
  rectangular adata ->
  let new_adata := convert_ROIs_from_3D_to_2D adata pixel_size_z in
  obs_names new_adata = obs_names adata /\
  obs new_adata = [] /\
  rectangular new_adata /\
  (In "len_z_micrometer"%string (var_names adata) ->
   var_names new_adata = var_names adata) /\
  (~ In "len_z_micrometer"%string (var_names adata) ->
   var_names new_adata = var_names adata ++ ["len_z_micrometer"%string]) /\
  (forall r, In r (obs_names adata) ->
     getitem new_adata r "len_z_micrometer" = Ok pixel_size_z) /\
  (forall r c, c <> "len_z_micrometer"%string ->
     getitem new_adata r c = getitem adata r c).
Proof.
  intros [Hlen Hrect] new_adata. subst new_adata.
  unfold convert_ROIs_from_3D_to_2D.
  destruct (existsb _ (var_names adata)) eqn:E.
  - apply existsb_eqb_true_In in E.
    split; [reflexivity|]. split; [reflexivity|]. split; [|split; [|split; [|split]]].
    + split; cbn [X obs_names var_names]; [now rewrite length_map|].
      apply Forall_map. eapply Forall_impl; [|exact Hrect].
      cbn beta. intros row H. now rewrite row_set_length.
    + reflexivity.
    + intros Hn. contradiction.
    + intros r Hr. unfold getitem. cbn [X obs_names var_names].
      rewrite find_row_map.
      destruct (find_row_defined r (obs_names adata) (X adata) Hr Hlen)
        as (row & -> & Hin). cbn [bind].
      rewrite Forall_forall in Hrect.
      destruct (row_value_defined (var_names adata) row
                  "len_z_micrometer" E (Hrect row Hin)) as (x & Hx).
      eapply row_value_row_set_same; eassumption.
    + intros r c Hc. unfold getitem. cbn [X obs_names var_names].
      rewrite find_row_map.
      destruct (find_row r (obs_names adata) (X adata)); [|reflexivity].
      cbn [bind]. apply row_value_row_set_other. congruence.
  - assert (Hn : ~ In "len_z_micrometer"%string (var_names adata)).
    { intros Hin. apply existsb_eqb_In in Hin. congruence. }
    split; [reflexivity|]. split; [reflexivity|]. split; [|split; [|split; [|split]]].
    + split; cbn [X obs_names var_names]; [now rewrite length_map|].
      apply Forall_map. eapply Forall_impl; [|exact Hrect].
      cbn beta. intros row H. rewrite !length_app, H. reflexivity.
    + intros Hin. contradiction.
    + reflexivity.
    + intros r Hr. unfold getitem. cbn [X obs_names var_names].
      rewrite find_row_map.
      destruct (find_row_defined r (obs_names adata) (X adata) Hr Hlen)
        as (row & -> & Hin). cbn [bind].
      rewrite Forall_forall in Hrect.
      apply row_value_app_new; auto.
    + intros r c Hc. unfold getitem. cbn [X obs_names var_names].
      rewrite find_row_map.
      destruct (find_row r (obs_names adata) (X adata)) as [row|] eqn:Er;
        [|reflexivity].
      cbn [bind]. apply row_value_app_other; [assumption|].
      rewrite Forall_forall in Hrect. apply Hrect.
      eapply find_row_In; eassumption.
Qed.

Lemma convert_ROIs_from_3D_to_2D_spec_witness :
  let new_adata := convert_ROIs_from_3D_to_2D demo_ROI_table (1 # 4) in
  getitem new_adata "FOV_2" "len_z_micrometer" = Ok (1 # 4)%Q /\
  getitem new_adata "FOV_2" "x_micrometer"
  = getitem demo_ROI_table "FOV_2" "x_micrometer".
Proof.
  assert (Hrect : rectangular demo_ROI_table).
  { split; [reflexivity|]. repeat constructor. }
  pose proof (convert_ROIs_from_3D_to_2D_spec demo_ROI_table (1 # 4) Hrect)
    as (_ & _ & _ & _ & _ & Hz & Hother).
  split.
  - apply Hz. simpl. tauto.
  - apply Hother. discriminate.
Defined.

Lemma py_round_succ (k : Z) (z p : Q) :
  (0 < p)%Q -> (z == inject_Z k * p)%Q ->
  py_round (z / p) = k /\ py_round ((z + p) / p) = k + 1.
Proof.
  intros Hp Hz. split.
  - rewrite (py_round_eq _ (inject_Z k)); [apply py_round_inject_Z|].
    rewrite Hz. field. lra.
  - rewrite (py_round_eq _ (inject_Z (k + 1))); [apply py_round_inject_Z|].
    rewrite Hz, inject_Z_plus. field. lra.
Qed.

Lemma rows_3D_to_2D (vars : list string) (pixel_size_z : Q)
    (xrows : list (list Q)) (rows : list (string * PhysicalROI)) :
  Forall2 (fun xrow nr => row_holds vars xrow (snd nr)) xrows rows ->
  Forall2 (fun xrow nr => row_holds vars xrow (snd nr))
    (map (fun row => row_set vars row "len_z_micrometer" pixel_size_z) xrows)
    (map (fun nr => (fst nr, with_len_z (snd nr) pixel_size_z)) rows).
Proof.
  induction 1 as [|xrow [name r] xrows rows Hrow _ IH]; [constructor|].
  cbn [map]. constructor; [|exact IH].
  destruct Hrow as (Hx & Hy & Hz & Hlx & Hly & Hlz). cbn [snd] in *.
  unfold row_holds, with_len_z.
  cbn [snd fst roi_x roi_y roi_z roi_len_x roi_len_y roi_len_z].
  rewrite !row_value_row_set_other by discriminate.
  repeat (split; [assumption|]).
  eapply row_value_row_set_same; eassumption.
Qed.

(** X7.  The table of [convert_ROIs_from_3D_to_2D] selects one Z plane
    per ROI.  Take a ROI table with unique row names whose Z positions
    are whole numbers of Z pixels.  When [convert_ROI_table_to_indices]
    turns it into the index ranges [ranges], it turns the table that
    [convert_ROIs_from_3D_to_2D] makes of it (for the same Z pixel size)
    into the same ranges cut down to their first plane: each starts at
    the same Z index and ends one index later, and its Y and X indices
    are unchanged. *)
Theorem convert_ROIs_from_3D_to_2D_single_plane
    (ROI : AnnData) (rows : list (string * PhysicalROI))
    (fz fy fx : Q) (level c : Z) (ranges : list (list Z)) :
  ROI_table_rows ROI rows -> NoDup (map fst rows) ->
  (0 < fz)%Q ->
  (0 < fy * inject_Z c ^ level)%Q ->
  (0 < fx * inject_Z c ^ level)%Q ->
  Forall (fun nr => exists k : Z, (roi_z (snd nr) == inject_Z k * fz)%Q)
         rows ->
  convert_ROI_table_to_indices ROI [fz; fy; fx] level c
    default_cols_xyz_pos default_cols_xyz_len = Ok ranges ->
  convert_ROI_table_to_indices (convert_ROIs_from_3D_to_2D ROI fz)
    [fz; fy; fx] level c default_cols_xyz_pos default_cols_xyz_len
  = Ok (map first_plane ranges).
Proof.
  intros HT HN Hz Hy Hx Hgrid Hconv.
  rewrite (convert_as_rows ROI rows) in Hconv by assumption.
  apply convert_rows_Ok in Hconv. destruct Hconv as [-> Hnonneg].
  destruct HT as [Hnames Hrows].
  set (rows2 := map (fun nr : string * PhysicalROI =>
                       (fst nr, with_len_z (snd nr) fz)) rows).
  assert (Hfst : map fst rows2 = map fst rows).
  { unfold rows2. rewrite map_map. reflexivity. }
  assert (HT2 : ROI_table_rows (convert_ROIs_from_3D_to_2D ROI fz) rows2).
  { unfold convert_ROIs_from_3D_to_2D.
    destruct (existsb _ (var_names ROI)) eqn:E.
    - split; cbn [obs_names var_names X]; [now rewrite Hfst|].
      now apply rows_3D_to_2D.
    - (* the table has the column, as its rows hold a value in it *)
      destruct Hrows as [|xrow nr xrows rows' Hrow _].
      + split; [exact Hnames|constructor].
      + destruct Hrow as (_ & _ & _ & _ & _ & Hlz).
        apply row_value_In in Hlz. congruence. }
  rewrite (convert_as_rows _ rows2);
    [|assumption|now rewrite Hfst|assumption..].
  rewrite convert_rows_nonneg.
  - f_equal. unfold rows2. rewrite !map_map. apply map_ext_in.
    intros [name r] Hin. cbn [snd fst].
    rewrite Forall_forall in Hgrid. destruct (Hgrid _ Hin) as (k & Hk).
    cbn [snd] in Hk.
    unfold pixel_range, first_plane, with_len_z.
    cbn [roi_x roi_y roi_z roi_len_x roi_len_y roi_len_z].
    destruct (py_round_succ k (roi_z r) fz Hz Hk) as [-> ->]. reflexivity.
  - unfold rows2. apply Forall_map. apply Forall_forall.
    intros [name r] Hin. cbn [snd fst].
    rewrite Forall_forall in Hgrid. destruct (Hgrid _ Hin) as (k & Hk).
    cbn [snd] in Hk.
    rewrite Forall_forall in Hnonneg.
    specialize (Hnonneg (pixel_range r fz (fy * inject_Z c ^ level)
                                       (fx * inject_Z c ^ level))).
    assert (Hr : Forall (fun i => 0 <= i)
                   (pixel_range r fz (fy * inject_Z c ^ level)
                                     (fx * inject_Z c ^ level))).
    { apply Hnonneg. apply in_map_iff. exists (name, r). auto. }
    revert Hr. unfold pixel_range, with_len_z.
    cbn [roi_x roi_y roi_z roi_len_x roi_len_y roi_len_z].
    destruct (py_round_succ k (roi_z r) fz Hz Hk) as [-> ->].
    intros Hr. inversion Hr as [|? ? H0 Hr1]; subst.
    inversion Hr1 as [|? ? H1 Hr2]; subst.
    constructor; [assumption|]. constructor; [lia|assumption].
Qed.

Lemma convert_ROIs_from_3D_to_2D_single_plane_witness :
  convert_ROI_table_to_indices
    (convert_ROIs_from_3D_to_2D demo_ROI_table (1 # 4))
    [1 # 4; 1 # 2; 1 # 2]%Q 0 2 default_cols_xyz_pos default_cols_xyz_len
  = Ok (map first_plane [[0; 4; 0; 4; 0; 4]; [0; 4; 0; 4; 4; 8]]).
Proof.
  apply (convert_ROIs_from_3D_to_2D_single_plane demo_ROI_table demo_ROI_rows
           (1 # 4) (1 # 2) (1 # 2) 0 2).
  - split; [reflexivity|]. repeat constructor.
  - repeat constructor; simpl; intuition discriminate.
  - reflexivity.
  - reflexivity.
  - reflexivity.
  - repeat constructor; exists 0; reflexivity.
  - reflexivity.
Defined.

(** ** is_standard_roi_table *)

Lemma prefix_append (sub s : string) :
  String.prefix sub s = true <-> exists after, s = String.append sub after.
Proof.
  revert s. induction sub as [|a sub IH]; intros s.
  - split; [|destruct s; reflexivity]. intros _. exists s. reflexivity.
  - destruct s as [|b s]; cbn [String.prefix String.append].
    + split; [discriminate|]. intros [after H]. discriminate.
    + destruct (Ascii.ascii_dec a b) as [->|Hne].
      * rewrite IH. split.
        -- intros [after ->]. now exists after.
        -- intros [after H]. injection H as ->. now exists after.
      * split; [discriminate|]. intros [after H]. congruence.
Qed.

Lemma str_contains_occurs_in (sub s : string) :
  str_contains sub s = true <-> occurs_in sub s.
Proof.
  unfold occurs_in. induction s as [|b s IH]; cbn [str_contains].
  - rewrite orb_false_r, prefix_append. split.
    + intros [after H]. now exists EmptyString, after.
    + intros (before & after & H). exists after.
      destruct before; [exact H|discriminate].
  - rewrite orb_true_iff, prefix_append, IH. split.
    + intros [[after H]|(before & after & H)].
      * now exists EmptyString, after.
      * exists (String b before), after. cbn [String.append]. now f_equal.
    + intros (before & after & H). destruct before as [|b' before].
      * left. now exists after.
      * right. cbn [String.append] in H. injection H as _ H.
        now exists before, after.
Qed.

(** X8.  [is_standard_roi_table] holds exactly of the table names in
    which [well_ROI_table] or [FOV_ROI_table] occurs.  Every table name
    for which [check_valid_ROI_indices] can fail is standard in this
    sense; but a standard name with something in front of [FOV_ROI_table]
    (as in [registered_FOV_ROI_table]) is never checked for its origin. *)
Theorem is_standard_roi_table_spec :
  (forall table,
      is_standard_roi_table table = true <->
      occurs_in "well_ROI_table" table \/ occurs_in "FOV_ROI_table" table) /\
  (forall table list_indices,
      check_valid_ROI_indices list_indices table <> Ok tt ->
      is_standard_roi_table table = true) /\
  (forall a before list_indices,
      let table := String a (String.append before "FOV_ROI_table") in
      is_standard_roi_table table = true /\
      check_valid_ROI_indices list_indices table = Ok tt).
Proof.
  assert (Hspec : forall table,
      is_standard_roi_table table = true <->
      occurs_in "well_ROI_table" table \/ occurs_in "FOV_ROI_table" table).
  { intros table. unfold is_standard_roi_table.
    rewrite <- !str_contains_occurs_in.
    destruct (str_contains "well_ROI_table" table);
      destruct (str_contains "FOV_ROI_table" table); intuition discriminate. }
  split; [exact Hspec|]. split.
  - intros table l H. unfold check_valid_ROI_indices in H.
    destruct (existsb (String.eqb table) _) eqn:E; [|now contradiction H].
    cbn [existsb] in E. rewrite orb_false_r in E.
    apply orb_true_iff in E.
    destruct E as [E|E]; apply String.eqb_eq in E; subst; reflexivity.
  - intros a before l table. split.
    + apply Hspec. right. exists (String a before), EmptyString.
      subst table. cbn [String.append]. f_equal.
    + unfold check_valid_ROI_indices.
      assert (Hlen : forall s1 s2 : string, s1 = s2 ->
                       String.length s1 = String.length s2)
        by (intros; now subst).
      assert (Hlapp : forall s1 s2,
                String.length (String.append s1 s2)
                = (String.length s1 + String.length s2)%nat).
      { induction s1; intros; simpl; auto. }
      assert (E : existsb (String.eqb table)
                    ["FOV_ROI_table"; "well_ROI_table"]%string = false).
      { cbn [existsb]. rewrite orb_false_r. apply orb_false_iff.
        split; apply String.eqb_neq; intros H; subst table.
        - apply Hlen in H. cbn [String.length] in H. rewrite Hlapp in H.
          simpl in H. lia.
        - pose proof (Hlen _ _ H) as Hl. cbn [String.length] in Hl.
          rewrite Hlapp in Hl. simpl in Hl.
          destruct before as [|b before]; [discriminate|].
          destruct before; [|simpl in Hl; lia]. discriminate. }
      rewrite E. reflexivity.
Qed.

Lemma is_standard_roi_table_spec_witness :
  is_standard_roi_table "FOV_ROI_table" = true.
Proof.
  apply (proj1 (proj2 is_standard_roi_table_spec)
           "FOV_ROI_table"%string []).
  discriminate.
Defined.

(** ** Slices of arrays, convert_indices_to_regions and load_region *)

Lemma flat_map_uniform_length {A B} (f : B -> list A) (l : list B) (m : nat) :
  (forall x, In x l -> length (f x) = m) ->
  length (flat_map f l) = (length l * m)%nat.
Proof.
  induction l as [|x l IH]; intros H; [reflexivity|].
  cbn [flat_map length]. rewrite length_app, H by now left.
  rewrite IH by (intros; apply H; now right). lia.
Qed.

Lemma flat_map_uniform_nth {A B} (f : B -> list A) (l : list B) (m k r : nat)
    (b : B) :
  (forall x, In x l -> length (f x) = m) ->
  nth_error l k = Some b -> (r < m)%nat ->
  nth_error (flat_map f l) (k * m + r) = nth_error (f b) r.
Proof.
  revert k. induction l as [|x l IH]; intros k H Hk Hr.
  - destruct k; discriminate.
  - cbn [flat_map]. destruct k as [|k].
    + injection Hk as ->. simpl. apply nth_error_app1.
      rewrite H by now left. assumption.
    + cbn [nth_error] in Hk. rewrite nth_error_app2
        by (rewrite H by (now left); simpl; lia).
      rewrite H by now left.
      replace (S k * m + r - m)%nat with (k * m + r)%nat by (simpl; lia).
      apply IH; auto. intros; apply H; now right.
Qed.

Lemma chunk_nth {A} (data : list A) (inner i r : nat) :
  (r < inner)%nat ->
  nth_error (firstn inner (skipn (i * inner) data)) r
  = nth_error data (i * inner + r).
Proof.
  intros Hr. rewrite nth_error_firstn.
  destruct (Nat.ltb_spec r inner); [|lia]. apply nth_error_skipn.
Qed.

Lemma chunk_length {A} (data : list A) (inner i n : nat) :
  length data = (n * inner)%nat -> (i < n)%nat ->
  length (firstn inner (skipn (i * inner) data)) = inner.
Proof.
  intros Hlen Hi. rewrite length_firstn, length_skipn, Hlen. nia.
Qed.

Lemma slice_bound_range (n i : Z) : 0 <= n -> 0 <= slice_bound n i <= n.
Proof.
  intros Hn. unfold slice_bound. destruct (Z.ltb_spec i 0); lia.
Qed.

Lemma slice_ranges_inside (shape : list nat) (slices : region)
    (ranges : list (nat * nat)) :
  slice_ranges shape slices = Some ranges -> ranges_inside shape ranges.
Proof.
  revert shape ranges.
  induction slices as [|s slices IH]; intros shape ranges H.
  - injection H as <-. exact I.
  - destruct shape as [|n rest]; [discriminate|]. cbn [slice_ranges] in H.
    destruct (slice_ranges rest slices) as [rs|] eqn:E; [|discriminate].
    cbn [option_map] in H. injection H as <-.
    unfold slice_range. cbn [ranges_inside].
    split; [|now apply IH].
    pose proof (slice_bound_range (Z.of_nat n) (fst s) ltac:(lia)).
    pose proof (slice_bound_range (Z.of_nat n) (snd s) ltac:(lia)).
    lia.
Qed.

Lemma slice_data_length {A} (shape : list nat) (ranges : list (nat * nat))
    (data : list A) :
  length data = size_of shape -> ranges_inside shape ranges ->
  length (slice_data shape ranges data) = size_of (slice_shape shape ranges).
Proof.
  revert ranges data.
  induction shape as [|n rest IH]; intros ranges data Hlen Hin.
  - destruct ranges as [|[start len] rs]; [exact Hlen|contradiction].
  - destruct ranges as [|[start len] rs]; [exact Hlen|].
    destruct Hin as [Hle Hin]. cbn [slice_data slice_shape].
    cbn [size_of fold_right] in *. fold (size_of rest) in Hlen.
    fold (size_of (slice_shape rest rs)).
    rewrite (flat_map_uniform_length _ _ (size_of (slice_shape rest rs))).
    + now rewrite length_seq.
    + intros i Hi. apply in_seq in Hi. apply IH; [|assumption].
      apply (chunk_length data (size_of rest) i n); [assumption|lia].
Qed.

Lemma slice_data_voxel {A} (shape : list nat) (ranges : list (nat * nat))
    (data : list A) (c : list Z) (i : nat) :
  length data = size_of shape -> ranges_inside shape ranges ->
  ravel (slice_shape shape ranges) c = Some i ->
  exists j,
    ravel shape (selected_coordinates ranges c) = Some j /\
    nth_error (slice_data shape ranges data) i = nth_error data j.
Proof.
  revert ranges data c i.
  induction shape as [|n rest IH]; intros ranges data c i Hlen Hin Hr.
  - destruct ranges as [|[start len] rs]; [|contradiction].
    exists i. cbn [slice_shape] in Hr. destruct c; auto.
  - destruct ranges as [|[start len] rs].
    { exists i. cbn [slice_shape] in Hr. destruct c; auto. }
    destruct Hin as [Hle Hin]. cbn [slice_shape] in Hr.
    destruct c as [|z cs]; [discriminate|]. cbn [ravel] in Hr.
    destruct ((0 <=? z) && (z <? Z.of_nat len)) eqn:Hz; [|discriminate].
    apply andb_true_iff in Hz. destruct Hz as [Hz0 Hzl].
    apply Z.leb_le in Hz0. apply Z.ltb_lt in Hzl.
    destruct (ravel (slice_shape rest rs) cs) as [r|] eqn:Er; [|discriminate].
    cbn [option_map] in Hr. injection Hr as <-.
    cbn [size_of fold_right] in Hlen. fold (size_of rest) in Hlen.
    assert (Hchunk : forall k, (k < n)%nat ->
              length (firstn (size_of rest) (skipn (k * size_of rest) data))
              = size_of rest).
    { intros k Hk. now apply (chunk_length data (size_of rest) k n). }
    destruct (IH rs (firstn (size_of rest)
                       (skipn ((start + Z.to_nat z) * size_of rest) data))
                 cs r) as (j & Hj & Hnth).
    { apply Hchunk. lia. }
    { assumption. }
    { assumption. }
    destruct (ravel_unravel _ _ _ Er) as [Hrlt _].
    destruct (ravel_unravel _ _ _ Hj) as [Hjlt _].
    exists ((start + Z.to_nat z) * size_of rest + j)%nat. split.
    + cbn [selected_coordinates ravel].
      replace ((0 <=? Z.of_nat start + z)
               && (Z.of_nat start + z <? Z.of_nat n)) with true
        by (symmetry; apply andb_true_iff;
            split; [apply Z.leb_le|apply Z.ltb_lt]; lia).
      rewrite Hj. cbn [option_map]. f_equal.
      replace (Z.to_nat (Z.of_nat start + z)) with (start + Z.to_nat z)%nat
        by lia.
      reflexivity.
    + cbn [slice_data].
      rewrite (flat_map_uniform_nth _ _ (size_of (slice_shape rest rs))
                 (Z.to_nat z) r (start + Z.to_nat z)%nat).
      * rewrite Hnth. now apply chunk_nth.
      * intros k Hk. apply in_seq in Hk.
        apply slice_data_length; [|assumption]. apply Hchunk. lia.
      * rewrite nth_error_seq.
        destruct (Nat.ltb_spec (Z.to_nat z) len); [reflexivity|lia].
      * assumption.
Qed.

(** What a selection by slices holds: its shape is given by the ranges of
    the slices, and its element at the coordinates [c] is the element of
    the array at the coordinates [c] shifted by the starts of the ranges. *)
Lemma getitem_slices_spec {A} (a : ndarray A) (slices : region)
    (ranges : list (nat * nat)) :
  ndarray_wf a ->
  slice_ranges (shape a) slices = Some ranges ->
  exists img,
    getitem_slices a slices = Ok img /\
    ndarray_wf img /\
    shape img = slice_shape (shape a) ranges /\
    forall c i, ravel (shape img) c = Some i ->
      voxel img c = voxel a (selected_coordinates ranges c).
Proof.
  intros Hwf Hr. unfold getitem_slices. rewrite Hr.
  pose proof (slice_ranges_inside _ _ _ Hr) as Hin.
  eexists. split; [reflexivity|]. split; [|split; [reflexivity|]].
  - unfold ndarray_wf. cbn [shape data]. now apply slice_data_length.
  - cbn [shape]. intros c i Hc. unfold voxel. cbn [shape data]. rewrite Hc.
    destruct (slice_data_voxel (shape a) ranges (data a) c i Hwf Hin Hc)
      as (j & -> & Hnth).
    exact Hnth.
Qed.

Lemma slice_range_nonneg (n : nat) (s e : Z) :
  0 <= s -> 0 <= e ->
  slice_range n (s, e)
  = (Z.to_nat (Z.min s (Z.of_nat n)),
     Z.to_nat (Z.min e (Z.of_nat n) - s)).
Proof.
  intros Hs He. unfold slice_range, slice_bound. cbn [fst snd].
  destruct (Z.ltb_spec s 0); [lia|]. destruct (Z.ltb_spec e 0); [lia|].
  f_equal. lia.
Qed.

Lemma ravel_in_bounds (shape : list nat) (c : list Z) :
  Forall2 (fun n z => 0 <= z < Z.of_nat n) shape c ->
  exists i, ravel shape c = Some i.
Proof.
  induction 1 as [|n z shape c Hz _ [i IH]]; [now exists 0%nat|].
  cbn [ravel]. rewrite IH.
  replace ((0 <=? z) && (z <? Z.of_nat n)) with true
    by (symmetry; apply andb_true_iff;
        split; [apply Z.leb_le|apply Z.ltb_lt]; lia).
  eexists. reflexivity.
Qed.

Lemma load_region_of_indices {A} (data_zyx : ndarray A) (nz ny nx : nat)
    (sz ez sy ey sx ex : Z) (return_as_3D : bool) :
  ndarray_wf data_zyx -> shape data_zyx = [nz; ny; nx] ->
  0 <= sz -> 0 <= ez -> 0 <= sy -> 0 <= ey -> 0 <= sx -> 0 <= ex ->
  exists region img,
    convert_indices_to_regions [sz; ez; sy; ey; sx; ex] = Ok region /\
    load_region data_zyx region return_as_3D = Ok img /\
    ndarray_wf img /\
    shape img = [ Z.to_nat (Z.min ez (Z.of_nat nz) - sz);
                  Z.to_nat (Z.min ey (Z.of_nat ny) - sy);
                  Z.to_nat (Z.min ex (Z.of_nat nx) - sx) ] /\
    forall z y x,
      0 <= z < Z.min ez (Z.of_nat nz) - sz ->
      0 <= y < Z.min ey (Z.of_nat ny) - sy ->
      0 <= x < Z.min ex (Z.of_nat nx) - sx ->
      voxel img [z; y; x] = voxel data_zyx [sz + z; sy + y; sx + x].
Proof.
  intros Hwf Hshape Hsz Hez Hsy Hey Hsx Hex.
  exists [(sz, ez); (sy, ey); (sx, ex)].
  destruct (getitem_slices_spec data_zyx [(sz, ez); (sy, ey); (sx, ex)]
              [slice_range nz (sz, ez); slice_range ny (sy, ey);
               slice_range nx (sx, ex)] Hwf)
    as (img & E & Hwf' & Hs & Hvox).
  { rewrite Hshape. reflexivity. }
  rewrite Hshape in Hs. rewrite !slice_range_nonneg in Hs, Hvox by assumption.
  cbn [slice_shape] in Hs.
  exists img. split; [reflexivity|]. split; [|split; [exact Hwf'|split]].
  - unfold load_region. rewrite Hshape. cbn [length Nat.eqb negb]. exact E.
  - exact Hs.
  - intros z y x Hz Hy Hx.
    destruct (ravel_in_bounds (shape img) [z; y; x]) as [i Hi].
    { rewrite Hs. repeat constructor; lia. }
    rewrite (Hvox _ _ Hi). cbn [selected_coordinates].
    repeat f_equal; lia.
Qed.

(** X9.  A region of a three-dimensional array.  For six non-negative
    indices, [convert_indices_to_regions] gives the three slices, and
    [load_region] returns the part of the array they select: along each
    axis it runs from the start index up to (excluded) the end index or
    the end of the array, whichever comes first; its voxel at [z, y, x]
    is the voxel of the array at [start_z + z, start_y + y, start_x + x].
    A region that reaches beyond the array is cut at the border, without
    an error; the argument [return_as_3D] changes nothing. *)
Theorem load_region_3D {A} (data_zyx : ndarray A) (nz ny nx : nat)
    (sz ez sy ey sx ex : Z) (return_as_3D : bool) :
  ndarray_wf data_zyx -> shape data_zyx = [nz; ny; nx] ->
  0 <= sz -> 0 <= ez -> 0 <= sy -> 0 <= ey -> 0 <= sx -> 0 <= ex ->
  exists region img,
    convert_indices_to_regions [sz; ez; sy; ey; sx; ex] = Ok region /\
    load_region data_zyx region return_as_3D = Ok img /\
    ndarray_wf img /\
    shape img = [ Z.to_nat (Z.min ez (Z.of_nat nz) - sz);
                  Z.to_nat (Z.min ey (Z.of_nat ny) - sy);
                  Z.to_nat (Z.min ex (Z.of_nat nx) - sx) ] /\
    forall z y x,
      0 <= z < Z.min ez (Z.of_nat nz) - sz ->
      0 <= y < Z.min ey (Z.of_nat ny) - sy ->
      0 <= x < Z.min ex (Z.of_nat nx) - sx ->
      voxel img [z; y; x] = voxel data_zyx [sz + z; sy + y; sx + x].
Proof. apply load_region_of_indices. Qed.

Lemma load_region_3D_witness :
  exists region img,
    convert_indices_to_regions [1; 2; 0; 2; 1; 5] = Ok region /\
    load_region demo_mask region false = Ok img /\
    ndarray_wf img /\
    shape img = [1; 2; 2]%nat /\
    forall z y x,
      0 <= z < 1 -> 0 <= y < 2 -> 0 <= x < 2 ->
      voxel img [z; y; x] = voxel demo_mask [1 + z; 0 + y; 1 + x].
Proof.
  apply (load_region_3D demo_mask 2 2 3 1 2 0 2 1 5 false);
    reflexivity || lia.
Defined.

Lemma voxel_expand_dims0 {A} (a : ndarray A) (c : list Z) :
  voxel (expand_dims0 a) (0 :: c) = voxel a c.
Proof.
  unfold voxel, expand_dims0. cbn [shape data ravel].
  cbn [Z.leb Z.ltb Z.compare Z.of_nat Pos.of_succ_nat andb].
  destruct (ravel (shape a) c); reflexivity.
Qed.

(** X10.  A region of a two-dimensional array.  [load_region] applies
    the Y and X slices of the region and ignores its Z slice, whatever
    it is.  The result is the selected part of the plane, cut at the
    border of the array; with [return_as_3D] it gets a leading Z axis of
    length one. *)
Theorem load_region_2D {A} (data_zyx : ndarray A) (ny nx : nat)
    (region_z : Z * Z) (sy ey sx ex : Z) (return_as_3D : bool) :
  ndarray_wf data_zyx -> shape data_zyx = [ny; nx] ->
  0 <= sy -> 0 <= ey -> 0 <= sx -> 0 <= ex ->
  let len_y := Z.min ey (Z.of_nat ny) - sy in
  let len_x := Z.min ex (Z.of_nat nx) - sx in
  exists img,
    load_region data_zyx [region_z; (sy, ey); (sx, ex)] return_as_3D
    = Ok img /\
    ndarray_wf img /\
    shape img = (if return_as_3D
                 then [1%nat; Z.to_nat len_y; Z.to_nat len_x]
                 else [Z.to_nat len_y; Z.to_nat len_x]) /\
    forall y x,
      0 <= y < len_y -> 0 <= x < len_x ->
      voxel img (if return_as_3D then [0; y; x] else [y; x])
      = voxel data_zyx [sy + y; sx + x].
Proof.
  intros Hwf Hshape Hsy Hey Hsx Hex len_y len_x.
  destruct (getitem_slices_spec data_zyx [(sy, ey); (sx, ex)]
              [slice_range ny (sy, ey); slice_range nx (sx, ex)] Hwf)
    as (img & E & Hwf' & Hs & Hvox).
  { rewrite Hshape. reflexivity. }
  rewrite Hshape in Hs. rewrite !slice_range_nonneg in Hs, Hvox by assumption.
  cbn [slice_shape] in Hs. fold len_y len_x in Hs.
  assert (Hyx : forall y x, 0 <= y < len_y -> 0 <= x < len_x ->
            voxel img [y; x] = voxel data_zyx [sy + y; sx + x]).
  { intros y x Hy Hx.
    destruct (ravel_in_bounds (shape img) [y; x]) as [i Hi].
    { rewrite Hs. repeat constructor; lia. }
    rewrite (Hvox _ _ Hi). cbn [selected_coordinates].
    repeat f_equal; lia. }
  unfold load_region. rewrite Hshape.
  cbn [length Nat.eqb negb list_item nth_error bind]. rewrite E. cbn [bind].
  destruct return_as_3D.
  - eexists. split; [reflexivity|]. split; [|split].
    + unfold ndarray_wf, expand_dims0 in *. cbn [shape data size_of fold_right].
      fold (size_of (shape img)). lia.
    + cbn [expand_dims0 shape]. now rewrite Hs.
    + intros y x Hy Hx. rewrite voxel_expand_dims0. now apply Hyx.
  - exists img. auto.
Qed.

Lemma load_region_2D_witness :
  exists img,
    load_region {| shape := [2; 3]%nat; data := [0; 5; 5; 0; 0; 5] |}
                [(7, 9); (1, 4); (0, 2)] true
    = Ok img /\
    ndarray_wf img /\
    shape img = [1; 1; 2]%nat /\
    forall y x,
      0 <= y < 1 -> 0 <= x < 2 ->
      voxel img [0; y; x]
      = voxel {| shape := [2; 3]%nat; data := [0; 5; 5; 0; 0; 5] |}
              [1 + y; 0 + x].
Proof.
  apply (load_region_2D {| shape := [2; 3]%nat; data := [0; 5; 5; 0; 0; 5] |}
           2 3 (7, 9) 1 4 0 2 true);
    reflexivity || lia.
Defined.

(** X11.  [load_region] fails exactly when the region does not consist of
    three slices, or the array is neither two- nor three-dimensional; the
    error is a [ValueError] in both cases.  When it succeeds, the result
    has three axes for a three-dimensional array, and for a
    two-dimensional one it has three axes with [return_as_3D] and two
    without. *)
Theorem load_region_defined {A} (data_zyx : ndarray A) (region : region)
    (return_as_3D : bool) :
  ((exists img, load_region data_zyx region return_as_3D = Ok img) <->
   length region = 3%nat /\ (ndim data_zyx = 3%nat \/ ndim data_zyx = 2%nat)) /\
  (forall e, load_region data_zyx region return_as_3D = Err e ->
     exists msg, e = ValueError msg) /\
  (forall img, load_region data_zyx region return_as_3D = Ok img ->
     ndim img = if (ndim data_zyx =? 2)%nat && negb return_as_3D
                then 2%nat else 3%nat).
Proof.
  unfold load_region, ndim.
  destruct (Nat.eqb_spec (length region) 3) as [Hr|Hr]; cbn [negb].
  2: { split; [split|split].
       - intros [img H]. discriminate.
       - intros [H _]. contradiction.
       - intros e H. injection H as <-. eexists. reflexivity.
       - intros img H. discriminate. }
  destruct region as [|r0 [|r1 [|r2 [|? ?]]]]; try discriminate.
  destruct (shape data_zyx) as [|nz [|ny [|nx [|? ?]]]] eqn:Hs;
    cbn [length Nat.eqb andb negb list_item nth_error bind].
  - split; [split|split]; try discriminate.
    + intros [img H]. discriminate.
    + intros [_ [H|H]]; discriminate.
    + intros e H. injection H as <-. eexists. reflexivity.
  - split; [split|split]; try discriminate.
    + intros [img H]. discriminate.
    + intros [_ [H|H]]; discriminate.
    + intros e H. injection H as <-. eexists. reflexivity.
  - unfold getitem_slices. rewrite Hs. cbn [slice_ranges option_map bind].
    split; [split|split].
    + auto.
    + intros _. destruct return_as_3D; eexists; reflexivity.
    + intros e H. destruct return_as_3D; discriminate.
    + intros img H. destruct return_as_3D; injection H as <-; reflexivity.
  - unfold getitem_slices. rewrite Hs. cbn [slice_ranges option_map].
    split; [split|split].
    + auto.
    + intros _. eexists; reflexivity.
    + intros e H. discriminate.
    + intros img H. injection H as <-. reflexivity.
  - split; [split|split]; try discriminate.
    + intros [img H]. discriminate.
    + intros [_ [H|H]]; discriminate.
    + intros e H. injection H as <-. eexists. reflexivity.
Qed.

Lemma load_region_defined_witness :
  exists msg,
    load_region demo_mask [(0, 1); (0, 2)] false = Err (ValueError msg).
Proof.
  destruct (proj1 (proj2 (load_region_defined demo_mask [(0, 1); (0, 2)] false))
              (ValueError "In load_region, region must have three elements")
              eq_refl) as [msg E].
  exists msg. unfold load_region. cbn [length Nat.eqb negb]. now rewrite E.
Defined.

(** ** reset_origin, in full *)

Lemma reset_row_frame vars ox oy oz x_pos y_pos z_pos (row row' : list Q) :
  reset_row vars ox oy oz x_pos y_pos z_pos row = Ok row' ->
  length row' = length row /\
  forall c, c <> x_pos -> c <> y_pos -> c <> z_pos ->
            row_value vars row' c = row_value vars row c.
Proof.
  unfold reset_row. intros H.
  destruct (row_value vars row x_pos) as [x|]; [|discriminate].
  cbn [bind] in H.
  destruct (row_value vars (row_set vars row x_pos _) y_pos) as [y|];
    [|discriminate].
  cbn [bind] in H.
  destruct (row_value vars _ z_pos) as [z|]; [|discriminate].
  cbn [bind] in H. injection H as <-. split.
  - now rewrite !row_set_length.
  - intros c Hx Hy Hz. rewrite !row_value_row_set_other by congruence.
    reflexivity.
Qed.

Lemma find_row_Forall2 (P : list Q -> list Q -> Prop) name names rows rows' row :
  Forall2 P rows rows' ->
  find_row name names rows = Ok row ->
  exists row', find_row name names rows' = Ok row' /\ P row row'.
Proof.
  intros HF. revert names.
  induction HF as [|r r' rows rows' Hr _ IH]; intros names H.
  - destruct names; discriminate.
  - destruct names as [|n names]; [discriminate|]. cbn [find_row] in *.
    destruct (String.eqb name n).
    + injection H as <-. now exists r'.
    + now apply IH.
Qed.

Lemma find_row_Forall2_Err (P : list Q -> list Q -> Prop) name names
    rows rows' e :
  Forall2 P rows rows' ->
  find_row name names rows = Err e -> find_row name names rows' = Err e.
Proof.
  intros HF. revert names.
  induction HF as [|r r' rows rows' Hr _ IH]; intros names H.
  - destruct names; exact H.
  - destruct names as [|n names]; [exact H|]. cbn [find_row] in *.
    destruct (String.eqb name n); [discriminate|now apply IH].
Qed.

Lemma mapM_In_defined {A B} (f : A -> result B) (l : list A) (vs : list B)
    (a : A) :
  mapM f l = Ok vs -> In a l -> exists b, f a = Ok b /\ In b vs.
Proof.
  revert vs. induction l as [|x l IH]; intros vs H Hin; [contradiction|].
  cbn [mapM] in H. destruct (f x) as [b|] eqn:Ex; [|discriminate].
  cbn [bind] in H. destruct (mapM f l) as [bs|]; [|discriminate].
  cbn [bind] in H. injection H as <-. destruct Hin as [->|Hin].
  - exists b. split; [assumption|now left].
  - destruct (IH bs eq_refl Hin) as (b' & E & Hb). exists b'.
    split; [assumption|now right].
Qed.

Lemma reset_origin_rows (ROI_table : AnnData) (x_pos y_pos z_pos : string)
    (xs ys zs : list Q) :
  NoDup (obs_names ROI_table) ->
  length (obs_names ROI_table) = length (X ROI_table) ->
  X ROI_table <> [] ->
  x_pos <> y_pos -> x_pos <> z_pos -> y_pos <> z_pos ->
  column ROI_table x_pos = Ok xs ->
  column ROI_table y_pos = Ok ys ->
  column ROI_table z_pos = Ok zs ->
  exists origin_x origin_y origin_z rows',
    py_min_float xs = Ok origin_x /\
    py_min_float ys = Ok origin_y /\
    py_min_float zs = Ok origin_z /\
    reset_origin ROI_table x_pos y_pos z_pos
    = Ok {| obs_names := obs_names ROI_table;
            var_names := var_names ROI_table;
            X := rows'; obs := obs ROI_table |} /\
    Forall2 (fun row row' =>
               reset_row (var_names ROI_table) origin_x origin_y origin_z
                         x_pos y_pos z_pos row = Ok row')
            (X ROI_table) rows'.
Proof.
  intros HN Hlen Hne Hxy Hxz Hyz Hx Hy Hz.
  destruct ROI_table as [names vars rows annotation].
  unfold column in *. cbn [obs_names var_names X obs] in *.
  assert (Hnonempty : forall vs : list Q, length vs = length rows -> vs <> []).
  { intros vs Hl ->. destruct rows; [congruence|discriminate]. }
  destruct (py_min_float_spec xs) as (ox & Eox & _).
  { apply Hnonempty. eapply mapM_Ok_length; eassumption. }
  destruct (py_min_float_spec ys) as (oy & Eoy & _).
  { apply Hnonempty. eapply mapM_Ok_length; eassumption. }
  destruct (py_min_float_spec zs) as (oz & Eoz & _).
  { apply Hnonempty. eapply mapM_Ok_length; eassumption. }
  destruct (reset_rows_columns ox oy oz x_pos y_pos z_pos vars
              Hxy Hxz Hyz rows xs ys zs Hx Hy Hz)
    as (rows' & HF & _).
  exists ox, oy, oz, rows'.
  split; [exact Eox|]. split; [exact Eoy|]. split; [exact Eoz|].
  split; [|exact HF].
  unfold reset_origin, column. cbn [obs_names var_names X obs].
  rewrite Hx. cbn [bind]. rewrite Eox. cbn [bind].
  rewrite Hy. cbn [bind]. rewrite Eoy. cbn [bind].
  rewrite Hz. cbn [bind]. rewrite Eoz. cbn [bind].
  apply (reset_origin_loop_rows ox oy oz _ _ _ names vars annotation HN
           [] names [] rows rows'); auto.
Qed.

(** X12.  [reset_origin] in full.  On a non-empty table with unique row
    names that has the three (distinct) position columns, [reset_origin]
    returns a table with the same row names, column names and
    annotation, in which the value of each position column is, in every
    row, the value of the given table minus the smallest value of this
    column, and the value of every other column (the lengths of the ROIs
    among them) is the value of the given table. *)
Theorem reset_origin_spec (ROI_table : AnnData) (x_pos y_pos z_pos : string)
    (xs ys zs : list Q) :
  NoDup (obs_names ROI_table) ->
  length (obs_names ROI_table) = length (X ROI_table) ->
  X ROI_table <> [] ->
  x_pos <> y_pos -> x_pos <> z_pos -> y_pos <> z_pos ->
  column ROI_table x_pos = Ok xs ->
  column ROI_table y_pos = Ok ys ->
  column ROI_table z_pos = Ok zs ->
  exists new_table origin_x origin_y origin_z,
    reset_origin ROI_table x_pos y_pos z_pos = Ok new_table /\
    (In origin_x xs /\ Forall (fun x => origin_x <= x)%Q xs) /\
    (In origin_y ys /\ Forall (fun y => origin_y <= y)%Q ys) /\
    (In origin_z zs /\ Forall (fun z => origin_z <= z)%Q zs) /\
    obs_names new_table = obs_names ROI_table /\
    var_names new_table = var_names ROI_table /\
    obs new_table = obs ROI_table /\
    (forall r v, getitem ROI_table r x_pos = Ok v ->
                 getitem new_table r x_pos = Ok (v - origin_x)%Q) /\
    (forall r v, getitem ROI_table r y_pos = Ok v ->
                 getitem new_table r y_pos = Ok (v - origin_y)%Q) /\
    (forall r v, getitem ROI_table r z_pos = Ok v ->
                 getitem new_table r z_pos = Ok (v - origin_z)%Q) /\
    (forall r c, c <> x_pos -> c <> y_pos -> c <> z_pos ->
                 getitem new_table r c = getitem ROI_table r c).
Proof.
  intros HN Hlen Hne Hxy Hxz Hyz Hx Hy Hz.
  destruct (reset_origin_rows ROI_table x_pos y_pos z_pos xs ys zs)
    as (ox & oy & oz & rows' & Eox & Eoy & Eoz & E & HF); try assumption.
  assert (Hmin : forall vs o, py_min_float vs = Ok o ->
            In o vs /\ Forall (fun v => o <= v)%Q vs).
  { intros vs o Eo. destruct vs as [|v vs]; [discriminate|].
    injection Eo as <-. apply min_from_spec. }
  assert (Hvals : forall row, In row (X ROI_table) ->
    exists x y z,
      row_value (var_names ROI_table) row x_pos = Ok x /\
      row_value (var_names ROI_table) row y_pos = Ok y /\
      row_value (var_names ROI_table) row z_pos = Ok z).
  { intros row Hin. unfold column in *.
    destruct (mapM_In_defined _ _ _ row Hx Hin) as (x & Ex & _).
    destruct (mapM_In_defined _ _ _ row Hy Hin) as (y & Ey & _).
    destruct (mapM_In_defined _ _ _ row Hz Hin) as (z & Ez & _).
    now exists x, y, z. }
  assert (Hshift : forall r row,
    find_row r (obs_names ROI_table) (X ROI_table) = Ok row ->
    exists row' x y z,
      find_row r (obs_names ROI_table) rows' = Ok row' /\
      row_value (var_names ROI_table) row x_pos = Ok x /\
      row_value (var_names ROI_table) row y_pos = Ok y /\
      row_value (var_names ROI_table) row z_pos = Ok z /\
      row_value (var_names ROI_table) row' x_pos = Ok (x - ox)%Q /\
      row_value (var_names ROI_table) row' y_pos = Ok (y - oy)%Q /\
      row_value (var_names ROI_table) row' z_pos = Ok (z - oz)%Q).
  { intros r row Hr.
    destruct (find_row_Forall2 _ _ _ _ _ _ HF Hr) as (row' & Hr' & Hreset).
    destruct (Hvals row (find_row_In _ _ _ _ Hr)) as (x & y & z & Ex & Ey & Ez).
    destruct (reset_row_values ox oy oz x_pos y_pos z_pos
                (var_names ROI_table) Hxy Hxz Hyz row x y z Ex Ey Ez)
      as (row'' & Hreset' & Hx' & Hy' & Hz').
    assert (row'' = row') by congruence. subst row''.
    exists row', x, y, z. auto 10. }
  eexists. exists ox, oy, oz. split; [exact E|].
  split; [now apply Hmin|]. split; [now apply Hmin|]. split; [now apply Hmin|].
  cbn [obs_names var_names obs]. do 3 (split; [reflexivity|]).
  unfold getitem. cbn [obs_names var_names X].
  split; [|split; [|split]].
  - intros r v H.
    destruct (find_row r (obs_names ROI_table) (X ROI_table)) as [row|] eqn:Er;
      [|discriminate].
    cbn [bind] in H.
    destruct (Hshift r row Er)
      as (row' & x & y & z & -> & Ex & _ & _ & Hx' & _).
    cbn [bind]. congruence.
  - intros r v H.
    destruct (find_row r (obs_names ROI_table) (X ROI_table)) as [row|] eqn:Er;
      [|discriminate].
    cbn [bind] in H.
    destruct (Hshift r row Er)
      as (row' & x & y & z & -> & _ & Ey & _ & _ & Hy' & _).
    cbn [bind]. congruence.
  - intros r v H.
    destruct (find_row r (obs_names ROI_table) (X ROI_table)) as [row|] eqn:Er;
      [|discriminate].
    cbn [bind] in H.
    destruct (Hshift r row Er)
      as (row' & x & y & z & -> & _ & _ & Ez & _ & _ & Hz').
    cbn [bind]. congruence.
  - intros r c Hcx Hcy Hcz.
    destruct (find_row r (obs_names ROI_table) (X ROI_table)) as [row|] eqn:Er.
    + destruct (find_row_Forall2 _ _ _ _ _ _ HF Er) as (row' & -> & Hreset).
      cbn [bind]. apply reset_row_frame in Hreset. now apply Hreset.
    + now rewrite (find_row_Forall2_Err _ _ _ _ _ _ HF Er).
Qed.

Lemma reset_origin_spec_witness :
  exists new_table origin_x origin_y origin_z,
    reset_origin demo_shifted_table
                 "x_micrometer" "y_micrometer" "z_micrometer"
    = Ok new_table /\
    (In origin_x [5; 3]%Q /\ Forall (fun x => origin_x <= x)%Q [5; 3]%Q) /\
    (In origin_y [7; 9]%Q /\ Forall (fun y => origin_y <= y)%Q [7; 9]%Q) /\
    (In origin_z [1; 1]%Q /\ Forall (fun z => origin_z <= z)%Q [1; 1]%Q) /\
    obs_names new_table = obs_names demo_shifted_table /\
    var_names new_table = var_names demo_shifted_table /\
    obs new_table = obs demo_shifted_table /\
    (forall r v, getitem demo_shifted_table r "x_micrometer" = Ok v ->
                 getitem new_table r "x_micrometer" = Ok (v - origin_x)%Q) /\
    (forall r v, getitem demo_shifted_table r "y_micrometer" = Ok v ->
                 getitem new_table r "y_micrometer" = Ok (v - origin_y)%Q) /\
    (forall r v, getitem demo_shifted_table r "z_micrometer" = Ok v ->
                 getitem new_table r "z_micrometer" = Ok (v - origin_z)%Q) /\
    (forall r c, c <> "x_micrometer"%string -> c <> "y_micrometer"%string ->
                 c <> "z_micrometer"%string ->
                 getitem new_table r c = getitem demo_shifted_table r c).
Proof.
  apply (reset_origin_spec demo_shifted_table
           "x_micrometer" "y_micrometer" "z_micrometer"
           [5; 3]%Q [7; 9]%Q [1; 1]%Q);
    try reflexivity; try discriminate.
  repeat constructor; simpl; intuition discriminate.
Defined.

(** ** From a zero origin to the check of the index ranges *)

Lemma columns_typed (vars : list string) (xrows : list (list Q))
    (rows : list (string * PhysicalROI)) :
  Forall2 (fun xrow nr => row_holds vars xrow (snd nr)) xrows rows ->
  mapM (fun row => row_value vars row "x_micrometer") xrows
  = Ok (map (fun nr => roi_x (snd nr)) rows) /\
  mapM (fun row => row_value vars row "y_micrometer") xrows
  = Ok (map (fun nr => roi_y (snd nr)) rows) /\
  mapM (fun row => row_value vars row "z_micrometer") xrows
  = Ok (map (fun nr => roi_z (snd nr)) rows).
Proof.
  induction 1 as [|xrow nr xrows rows Hrow _ (IHx & IHy & IHz)];
    [repeat split|].
  destruct Hrow as (Hx & Hy & Hz & _).
  cbn [mapM map]. rewrite Hx, Hy, Hz, IHx, IHy, IHz. repeat split.
Qed.

(** The starts of the ranges along one axis, when the positions along
    this axis have minimum zero: none is negative and one is zero. *)
Lemma zero_minimum_start (pos : PhysicalROI -> Q) (start : PhysicalROI -> Z)
    (p : Q) (rows : list (string * PhysicalROI)) :
  (forall r, start r = py_round (pos r / p)) -> (0 < p)%Q ->
  zero_minimum (map (fun nr => pos (snd nr)) rows) ->
  exists nr, In nr rows /\ start (snd nr) = 0.
Proof.
  intros Hstart Hp [_ Hex]. apply Exists_exists in Hex.
  destruct Hex as (v & Hin & Hv). apply in_map_iff in Hin.
  destruct Hin as (nr & <- & Hin). exists nr. split; [assumption|].
  rewrite Hstart. rewrite (py_round_eq _ (0 / p)).
  - apply py_round_zero_div.
  - rewrite Hv. reflexivity.
Qed.

Lemma axis_minimum_zero (k : nat) (l : list (list Z)) (m : Z) :
  axis_minimum k l m ->
  Forall (Forall (fun i => 0 <= i)) l ->
  (exists item, In item l /\ nth_error item k = Some 0) ->
  m = 0.
Proof.
  intros [(item & Hin & Hm) Hall] Hnonneg (item0 & Hin0 & H0).
  pose proof (Hall item0 0 Hin0 H0) as Hle.
  rewrite Forall_forall in Hnonneg. specialize (Hnonneg item Hin).
  rewrite Forall_forall in Hnonneg.
  pose proof (Hnonneg m (nth_error_In _ _ Hm)). lia.
Qed.

Lemma zero_origin_check
    (ROI : AnnData) (fz fy fx : Q) (level c : Z)
    (list_indices : list (list Z)) (ROI_table_name : string) :
  are_ROI_table_columns_valid ROI = Ok tt ->
  rectangular ROI ->
  NoDup (obs_names ROI) ->
  origin_normalized ROI ->
  (0 < fz)%Q ->
  (0 < fy * inject_Z c ^ level)%Q ->
  (0 < fx * inject_Z c ^ level)%Q ->
  convert_ROI_table_to_indices ROI [fz; fy; fx] level c
    default_cols_xyz_pos default_cols_xyz_len = Ok list_indices ->
  check_valid_ROI_indices list_indices ROI_table_name = Ok tt.
Proof.
  intros Hvalid [Hlen Hrect] HN (xs & ys & zs & Hx & Hxm & Hy & Hym & Hz & Hzm)
         Hpz Hpy Hpx Hconv.
  destruct (validated_rows (var_names ROI) (obs_names ROI) (X ROI))
    as (rows & Hnames & HT); [exact Hvalid|exact Hlen|exact Hrect|].
  destruct (columns_typed _ _ _ HT) as (Ex & Ey & Ez).
  unfold column in Hx, Hy, Hz.
  rewrite Ex in Hx. rewrite Ey in Hy. rewrite Ez in Hz.
  injection Hx as <-. injection Hy as <-. injection Hz as <-.
  rewrite (convert_as_rows ROI rows) in Hconv;
    [|split; assumption|now rewrite <- Hnames|assumption..].
  apply convert_rows_Ok in Hconv. destruct Hconv as [-> Hnonneg].
  set (pz := fz) in *.
  set (py := (fy * inject_Z c ^ level)%Q) in *.
  set (px := (fx * inject_Z c ^ level)%Q) in *.
  set (l := map (fun nr => pixel_range (snd nr) pz py px) rows) in *.
  assert (Hzero : forall (pos : PhysicalROI -> Q) (p : Q) (k : nat),
            (forall r, nth_error (pixel_range r pz py px) k
                       = Some (py_round (pos r / p))) ->
            (0 < p)%Q ->
            zero_minimum (map (fun nr => pos (snd nr)) rows) ->
            exists item, In item l /\ nth_error item k = Some 0).
  { intros pos p k Hk Hp Hmin.
    destruct (zero_minimum_start pos (fun r => py_round (pos r / p)) p rows)
      as (nr & Hin & H0); auto.
    exists (pixel_range (snd nr) pz py px). split.
    - unfold l. apply in_map_iff. now exists nr.
    - rewrite Hk. now f_equal. }
  destruct (check_valid_ROI_indices_nonempty l ROI_table_name)
    as (mz & my & mx & Hmz & Hmy & Hmx & E).
  { destruct Hxm as [_ Hex]. unfold l. destruct rows; [inversion Hex|].
    discriminate. }
  { unfold l. apply Forall_map. apply Forall_forall. reflexivity. }
  rewrite E.
  rewrite (axis_minimum_zero 0 l mz Hmz Hnonneg)
    by (apply (Hzero roi_z pz); auto).
  rewrite (axis_minimum_zero 2 l my Hmy Hnonneg)
    by (apply (Hzero roi_y py); auto).
  rewrite (axis_minimum_zero 4 l mx Hmx Hnonneg)
    by (apply (Hzero roi_x px); auto).
  destruct (negb (existsb _ _)); reflexivity.
Qed.

(** X13.  A table with its origin at zero passes the check of its index
    ranges.  Take a table that [are_ROI_table_columns_valid] accepts,
    with unique row names, whose X, Y and Z positions each have minimum
    zero (as [reset_origin] leaves them).  Whatever the level, the
    coarsening factor and the (positive) pixel sizes, the index ranges
    that [convert_ROI_table_to_indices] returns for it are accepted by
    [check_valid_ROI_indices], under every table name. *)
Theorem zero_origin_table_passes_check
    (ROI : AnnData) (fz fy fx : Q) (level c : Z)
    (list_indices : list (list Z)) (ROI_table_name : string) :
  are_ROI_table_columns_valid ROI = Ok tt ->
  rectangular ROI ->
  NoDup (obs_names ROI) ->
  origin_normalized ROI ->
  (0 < fz)%Q ->
  (0 < fy * inject_Z c ^ level)%Q ->
  (0 < fx * inject_Z c ^ level)%Q ->
  convert_ROI_table_to_indices ROI [fz; fy; fx] level c
    default_cols_xyz_pos default_cols_xyz_len = Ok list_indices ->
  check_valid_ROI_indices list_indices ROI_table_name = Ok tt.
Proof. apply zero_origin_check. Qed.

Lemma zero_origin_table_passes_check_witness :
  check_valid_ROI_indices [[0; 1; 0; 2; 0; 2]; [0; 1; 0; 2; 2; 4]]
                          "FOV_ROI_table" = Ok tt.
Proof.
  apply (zero_origin_table_passes_check demo_ROI_table 1 (1 # 2) (1 # 2) 1 2).
  - reflexivity.
  - split; [reflexivity|]. repeat constructor.
  - repeat constructor; simpl; intuition discriminate.
  - exists [0; 2]%Q, [0; 0]%Q, [0; 0]%Q.
    repeat split; try reflexivity;
      repeat constructor; try discriminate; try reflexivity.
  - reflexivity.
  - reflexivity.
  - reflexivity.
  - reflexivity.
Defined.

(** ** prepare_FOV_ROI_table and prepare_well_ROI_table, in full *)

Lemma reset_rows_FOV (ox oy oz : Q) (sites : list site_metadata)
    (rows' : list (list Q)) :
  Forall2 (fun row row' =>
             reset_row FOV_positional_columns ox oy oz
               "x_micrometer" "y_micrometer" "z_micrometer" row = Ok row')
    (map (fun s => [x_micrometer s; y_micrometer s; z_micrometer s;
                    len_x_micrometer s; len_y_micrometer s;
                    len_z_micrometer s;
                    x_micrometer_original s; y_micrometer_original s])
         sites)
    rows' ->
  rows' = map (FOV_row ox oy oz) sites.
Proof.
  revert rows'. induction sites as [|s sites IH]; intros rows' H.
  - now inversion H.
  - cbn [map] in H. inversion H as [|? row' ? rest Hrow Hrest]; subst.
    cbn [map]. f_equal; [|now apply IH].
    change (Ok (FOV_row ox oy oz s) = Ok row') in Hrow. now injection Hrow.
Qed.

Lemma append_inj (prefix s1 s2 : string) :
  String.append prefix s1 = String.append prefix s2 -> s1 = s2.
Proof.
  induction prefix as [|a prefix IH]; cbn [String.append]; intros H.
  - exact H.
  - injection H as H. now apply IH.
Qed.

Lemma NoDup_map_append (prefix : string) (l : list string) :
  NoDup l -> NoDup (map (String.append prefix) l).
Proof.
  apply Injective_map_NoDup. intros a b. apply append_inj.
Qed.

Lemma prepare_FOV_ROI_table_rows
    (df : metadata_DataFrame) (metadata : list string) :
  df_rows df <> [] ->
  NoDup (df_index df) ->
  length (df_index df) = length (df_rows df) ->
  exists origin_x origin_y origin_z,
    smallest origin_x (map x_micrometer (df_rows df)) /\
    smallest origin_y (map y_micrometer (df_rows df)) /\
    smallest origin_z (map z_micrometer (df_rows df)) /\
    prepare_FOV_ROI_table df metadata
    = Ok {| obs_names := map (String.append "FOV_") (df_index df);
            var_names := FOV_positional_columns;
            X := map (FOV_row origin_x origin_y origin_z) (df_rows df);
            obs := save_metadata (df_other df) metadata |}.
Proof.
  intros Hne HN Hlen. unfold prepare_FOV_ROI_table.
  match goal with
  | |- context [reset_origin ?a _ _ _] => set (adata := a)
  end.
  destruct (reset_origin_rows adata
              "x_micrometer" "y_micrometer" "z_micrometer"
              (map x_micrometer (df_rows df)) (map y_micrometer (df_rows df))
              (map z_micrometer (df_rows df)))
    as (ox & oy & oz & rows' & Eox & Eoy & Eoz & E & HF);
    try discriminate.
  - exact HN.
  - subst adata. cbn [obs_names X]. now rewrite length_map.
  - subst adata. cbn [X].
    destruct (df_rows df); [congruence|discriminate].
  - apply mapM_map_Ok. reflexivity.
  - apply mapM_map_Ok. reflexivity.
  - apply mapM_map_Ok. reflexivity.
  - assert (Hmin : forall vs o, py_min_float vs = Ok o -> smallest o vs).
    { intros vs o Eo. destruct vs as [|v vs]; [discriminate|].
      injection Eo as <-. apply min_from_spec. }
    exists ox, oy, oz.
    split; [now apply Hmin|]. split; [now apply Hmin|].
    split; [now apply Hmin|].
    rewrite E. cbn [bind obs_names var_names X].
    subst adata. cbn [var_names X] in HF.
    apply reset_rows_FOV in HF. now rewrite HF.
Qed.

(** X14.  [prepare_FOV_ROI_table] in full.  For a non-empty dataframe
    with a unique index, the table has one row per field of view, named
    [FOV_] followed by its index, and the eight positional columns: the
    X, Y and Z positions counted from the smallest X, Y and Z position of
    all fields of view, the lengths (number of pixels times pixel size)
    along X, Y and Z, and the original X and Y positions, unshifted. *)
Theorem prepare_FOV_ROI_table_spec
    (df : metadata_DataFrame) (metadata : list string) :
  df_rows df <> [] ->
  NoDup (df_index df) ->
  length (df_index df) = length (df_rows df) ->
  exists adata origin_x origin_y origin_z,
    prepare_FOV_ROI_table df metadata = Ok adata /\
    smallest origin_x (map x_micrometer (df_rows df)) /\
    smallest origin_y (map y_micrometer (df_rows df)) /\
    smallest origin_z (map z_micrometer (df_rows df)) /\
    obs_names adata = map (String.append "FOV_") (df_index df) /\
    var_names adata = FOV_positional_columns /\
    X adata = map (FOV_row origin_x origin_y origin_z) (df_rows df).
Proof.
  intros Hne HN Hlen.
  destruct (prepare_FOV_ROI_table_rows df metadata Hne HN Hlen)
    as (ox & oy & oz & Hox & Hoy & Hoz & E).
  eexists. exists ox, oy, oz. split; [exact E|]. auto 10.
Qed.

Lemma prepare_FOV_ROI_table_spec_witness :
  exists adata origin_x origin_y origin_z,
    prepare_FOV_ROI_table demo_dataframe ["time"%string] = Ok adata /\
    smallest origin_x (map x_micrometer (df_rows demo_dataframe)) /\
    smallest origin_y (map y_micrometer (df_rows demo_dataframe)) /\
    smallest origin_z (map z_micrometer (df_rows demo_dataframe)) /\
    obs_names adata
    = map (String.append "FOV_") (df_index demo_dataframe) /\
    var_names adata = FOV_positional_columns /\
    X adata = map (FOV_row origin_x origin_y origin_z)
                  (df_rows demo_dataframe).
Proof.
  apply (prepare_FOV_ROI_table_spec demo_dataframe ["time"%string]).
  - discriminate.
  - repeat constructor; simpl; intuition discriminate.
  - reflexivity.
Defined.

Lemma smallest_zero_minimum (o : Q) (vs : list Q) :
  smallest o vs -> zero_minimum (map (fun v => v - o)%Q vs).
Proof. intros [Hin Hall]. now apply shifted_zero_minimum. Qed.

Lemma FOV_table_normalized (ox oy oz : Q) (names : list string)
    (sites : list site_metadata) (annotation : list (string * list string)) :
  smallest ox (map x_micrometer sites) ->
  smallest oy (map y_micrometer sites) ->
  smallest oz (map z_micrometer sites) ->
  origin_normalized
    {| obs_names := names; var_names := FOV_positional_columns;
       X := map (FOV_row ox oy oz) sites; obs := annotation |}.
Proof.
  intros Hx Hy Hz.
  exists (map (fun v => v - ox)%Q (map x_micrometer sites)),
         (map (fun v => v - oy)%Q (map y_micrometer sites)),
         (map (fun v => v - oz)%Q (map z_micrometer sites)).
  unfold column. cbn [var_names X].
  split; [rewrite map_map; apply mapM_map_Ok; reflexivity|].
  split; [now apply smallest_zero_minimum|].
  split; [rewrite map_map; apply mapM_map_Ok; reflexivity|].
  split; [now apply smallest_zero_minimum|].
  split; [rewrite map_map; apply mapM_map_Ok; reflexivity|].
  now apply smallest_zero_minimum.
Qed.

(** X15.  From the metadata of the fields of view to checked index
    ranges.  For a non-empty dataframe with a unique index and
    non-negative numbers of pixels and pixel sizes, the table of
    [prepare_FOV_ROI_table] is accepted by [are_ROI_table_columns_valid];
    [convert_ROI_table_to_indices] turns it, at any level and for any
    positive pixel sizes, into one range of six non-negative indices per
    field of view; and [check_valid_ROI_indices] accepts these ranges as
    those of a [FOV_ROI_table]. *)
Theorem prepare_FOV_ROI_table_pipeline
    (df : metadata_DataFrame) (metadata : list string)
    (fz fy fx : Q) (level c : Z) :
  df_rows df <> [] ->
  NoDup (df_index df) ->
  length (df_index df) = length (df_rows df) ->
  Forall (fun s => 0 <= x_pixel s /\ 0 <= y_pixel s /\ 0 <= z_pixel s /\
                   (0 <= pixel_size_x s)%Q /\ (0 <= pixel_size_y s)%Q /\
                   (0 <= pixel_size_z s)%Q) (df_rows df) ->
  (0 < fz)%Q ->
  (0 < fy * inject_Z c ^ level)%Q ->
  (0 < fx * inject_Z c ^ level)%Q ->
  exists FOV_ROI_table list_indices,
    prepare_FOV_ROI_table df metadata = Ok FOV_ROI_table /\
    are_ROI_table_columns_valid FOV_ROI_table = Ok tt /\
    convert_ROI_table_to_indices FOV_ROI_table [fz; fy; fx] level c
      default_cols_xyz_pos default_cols_xyz_len = Ok list_indices /\
    length list_indices = length (df_rows df) /\
    Forall (fun item => length item = 6%nat /\
                        Forall (fun i => 0 <= i) item) list_indices /\
    check_valid_ROI_indices list_indices "FOV_ROI_table" = Ok tt.
Proof.
  intros Hne HN Hlen Hsites Hpz Hpy Hpx.
  destruct (prepare_FOV_ROI_table_rows df metadata Hne HN Hlen)
    as (ox & oy & oz & Hox & Hoy & Hoz & E0).
  set (table := {| obs_names := map (String.append "FOV_") (df_index df) |})
    in *.
  set (rows := combine (obs_names table)
                 (map (fun s =>
                         {| roi_x := x_micrometer s - ox;
                            roi_y := y_micrometer s - oy;
                            roi_z := z_micrometer s - oz;
                            roi_len_x := len_x_micrometer s;
                            roi_len_y := len_y_micrometer s;
                            roi_len_z := len_z_micrometer s |})
                      (df_rows df))).
  assert (Hl : length (obs_names table) = length (df_rows df)).
  { subst table. cbn [obs_names]. now rewrite length_map. }
  assert (HT : ROI_table_rows table rows).
  { split.
    - unfold rows. symmetry. apply map_fst_combine. now rewrite length_map.
    - unfold rows. subst table. cbn [obs_names var_names X] in *.
      clear -Hl. revert Hl.
      generalize (map (String.append "FOV_") (df_index df)) as names.
      induction (df_rows df) as [|s sites IH]; intros [|n names] H;
        try discriminate; constructor.
      + repeat split.
      + apply IH. simpl in H. lia. }
  assert (HN' : NoDup (map fst rows)).
  { unfold rows. rewrite map_fst_combine by (now rewrite length_map).
    subst table. cbn [obs_names]. now apply NoDup_map_append. }
  assert (Hnonneg : Forall (fun nr : string * PhysicalROI =>
                              nonneg_ROI (snd nr)) rows).
  { apply Forall_forall. intros [name r] Hin. unfold rows in Hin.
    apply in_combine_r in Hin. apply in_map_iff in Hin.
    destruct Hin as (s & <- & Hs). cbn [snd].
    rewrite Forall_forall in Hsites.
    destruct (Hsites s Hs) as (Hxp & Hyp & Hzp & Hsx & Hsy & Hsz).
    destruct Hox as [_ Hox], Hoy as [_ Hoy], Hoz as [_ Hoz].
    rewrite Forall_forall in Hox, Hoy, Hoz.
    pose proof (Hox _ (in_map x_micrometer _ _ Hs)).
    pose proof (Hoy _ (in_map y_micrometer _ _ Hs)).
    pose proof (Hoz _ (in_map z_micrometer _ _ Hs)).
    unfold nonneg_ROI, len_x_micrometer, len_y_micrometer, len_z_micrometer.
    cbn [roi_x roi_y roi_z roi_len_x roi_len_y roi_len_z].
    assert (Hprod : forall (n : Z) (p : Q),
              0 <= n -> (0 <= p)%Q -> (0 <= inject_Z n * p)%Q).
    { intros n p Hn Hp. apply Qmult_le_0_compat; [|assumption].
      change 0%Q with (inject_Z 0). now rewrite <- Zle_Qle. }
    repeat split; try lra; now apply Hprod. }
  assert (Hconv : convert_ROI_table_to_indices table [fz; fy; fx] level c
                    default_cols_xyz_pos default_cols_xyz_len
                  = Ok (map (fun nr => pixel_range (snd nr) fz
                                         (fy * inject_Z c ^ level)
                                         (fx * inject_Z c ^ level)) rows)).
  { rewrite (convert_as_rows table rows) by assumption.
    apply convert_rows_nonneg. eapply Forall_impl; [|exact Hnonneg].
    intros nr H. now apply pixel_range_nonneg. }
  eexists. eexists. split; [exact E0|].
  split; [reflexivity|]. split; [exact Hconv|].
  split; [|split].
  - rewrite length_map. unfold rows. rewrite length_combine, length_map. lia.
  - apply Forall_map. eapply Forall_impl; [|exact Hnonneg].
    intros nr H. split; [reflexivity|]. now apply pixel_range_nonneg.
  - apply (zero_origin_check table fz fy fx level c);
      try assumption.
    + reflexivity.
    + split.
      * subst table. cbn [obs_names X]. now rewrite !length_map.
      * subst table. cbn [var_names X]. apply Forall_map.
        apply Forall_forall. reflexivity.
    + subst table. cbn [obs_names]. now apply NoDup_map_append.
    + now apply FOV_table_normalized.
Qed.

Lemma prepare_FOV_ROI_table_pipeline_witness :
  exists FOV_ROI_table list_indices,
    prepare_FOV_ROI_table demo_dataframe ["time"%string] = Ok FOV_ROI_table /\
    are_ROI_table_columns_valid FOV_ROI_table = Ok tt /\
    convert_ROI_table_to_indices FOV_ROI_table [1; 1 # 2; 1 # 2]%Q 0 2
      default_cols_xyz_pos default_cols_xyz_len = Ok list_indices /\
    length list_indices = length (df_rows demo_dataframe) /\
    Forall (fun item => length item = 6%nat /\
                        Forall (fun i => 0 <= i) item) list_indices /\
    check_valid_ROI_indices list_indices "FOV_ROI_table" = Ok tt.
Proof.
  apply (prepare_FOV_ROI_table_pipeline demo_dataframe ["time"%string]
           1 (1 # 2) (1 # 2) 0 2).
  - discriminate.
  - repeat constructor; simpl; intuition discriminate.
  - reflexivity.
  - repeat constructor; simpl; try lia; discriminate.
  - reflexivity.
  - reflexivity.
  - reflexivity.
Defined.

Lemma max_from_spec (l : list Q) (m : Q) :
  In (max_from m l) (m :: l) /\
  Forall (fun x => x <= max_from m l)%Q (m :: l).
Proof.
  revert m. induction l as [|x r IH]; intros m; cbn [max_from].
  - split; [now left|]. constructor; [apply Qle_refl|constructor].
  - destruct (Qle_bool x m) eqn:E.
    + destruct (IH m) as [Hin Hall]. apply Qle_bool_iff in E.
      inversion Hall as [|? ? Hm Hr]; subst. split.
      * destruct Hin as [<-|Hin]; [now left|right; now right].
      * constructor; [assumption|]. constructor; [|assumption].
        eapply Qle_trans; eassumption.
    + destruct (IH x) as [Hin Hall].
      assert (Hmx : (m <= x)%Q).
      { destruct (Qlt_le_dec m x) as [H|H]; [now apply Qlt_le_weak|].
        apply Qle_bool_iff in H. congruence. }
      inversion Hall as [|? ? Hx Hr]; subst. split.
      * right. exact Hin.
      * constructor; [eapply Qle_trans; eassumption|]. now constructor.
Qed.

Lemma prepare_well_ROI_table_rows
    (df : metadata_DataFrame) (metadata : list string)
    (s : site_metadata) (rest : list site_metadata)
    (i0 : string) (index : list string) :
  df_rows df = s :: rest -> df_index df = i0 :: index ->
  NoDup (df_index df) \/
  (forall col, In col metadata -> in_dataframe df col = false) ->
  exists lo_x lo_y lo_z hi_x hi_y hi_z,
    smallest lo_x (map x_micrometer (s :: rest)) /\
    smallest lo_y (map y_micrometer (s :: rest)) /\
    smallest lo_z (map z_micrometer (s :: rest)) /\
    largest hi_x (map (fun t => x_micrometer t + len_x_micrometer t)%Q
                      (s :: rest)) /\
    largest hi_y (map (fun t => y_micrometer t + len_y_micrometer t)%Q
                      (s :: rest)) /\
    largest hi_z (map (fun t => z_micrometer t + len_z_micrometer t)%Q
                      (s :: rest)) /\
    prepare_well_ROI_table df metadata
    = Ok {| obs_names := [String.append "well_" i0];
            var_names := well_positional_columns;
            X := [well_row lo_x lo_y lo_z hi_x hi_y hi_z];
            obs := save_metadata
                     (map (fun kv => (fst kv, firstn 1 (snd kv)))
                          (df_other df)) metadata |}.
Proof.
  intros Hrows Hindex Hmeta. apply metadata_saved in Hmeta.
  unfold prepare_well_ROI_table. rewrite Hmeta. clear Hmeta.
  rewrite Hrows, Hindex. cbn [firstn].
  match goal with
  | |- context [reset_origin ?a _ _ _] => set (adata := a)
  end.
  set (lo_x := min_from (x_micrometer s) (map x_micrometer rest)).
  set (lo_y := min_from (y_micrometer s) (map y_micrometer rest)).
  set (lo_z := min_from (z_micrometer s) (map z_micrometer rest)).
  destruct (reset_origin_rows adata
              "x_micrometer" "y_micrometer" "z_micrometer"
              [lo_x] [lo_y] [lo_z])
    as (ox & oy & oz & rows' & Eox & Eoy & Eoz & E & HF);
    try discriminate; try reflexivity.
  { repeat constructor. simpl. tauto. }
  injection Eox as <-. injection Eoy as <-. injection Eoz as <-.
  cbn [min_from] in *.
  set (hi_x := (max_from (x_micrometer s + len_x_micrometer s)
                  (map (fun t => x_micrometer t + len_x_micrometer t) rest))%Q)
    in *.
  set (hi_y := (max_from (y_micrometer s + len_y_micrometer s)
                  (map (fun t => y_micrometer t + len_y_micrometer t) rest))%Q)
    in *.
  set (hi_z := (max_from (z_micrometer s + len_z_micrometer s)
                  (map (fun t => z_micrometer t + len_z_micrometer t) rest))%Q)
    in *.
  exists lo_x, lo_y, lo_z, hi_x, hi_y, hi_z.
  split; [apply min_from_spec|]. split; [apply min_from_spec|].
  split; [apply min_from_spec|].
  split; [apply (max_from_spec (map _ rest))|].
  split; [apply (max_from_spec (map _ rest))|].
  split; [apply (max_from_spec (map _ rest))|].
  rewrite E. cbn [bind obs_names var_names X map].
  subst adata. cbn [var_names X] in HF.
  inversion HF as [|? row' ? rest' Hrow Hrest]; subst.
  inversion Hrest; subst.
  change (Ok (well_row lo_x lo_y lo_z hi_x hi_y hi_z) = Ok row') in Hrow.
  injection Hrow as <-. reflexivity.
Qed.

(** X16.  [prepare_well_ROI_table] in full.  For a non-empty dataframe
    whose index repeats no label, or of which no column is to be saved as
    metadata, the table has a single row, named [well_] followed by the
    first index of the dataframe, and the six positional columns.  Its position is
    zero on the three axes (the smallest position of the fields of view,
    minus itself), and its length along each axis is the largest end
    (position plus number of pixels times pixel size) of the fields of
    view minus their smallest position.  The index ranges that
    [convert_ROI_table_to_indices] gives for this table are accepted by
    [check_valid_ROI_indices] as those of a [well_ROI_table]. *)
Theorem prepare_well_ROI_table_spec
    (df : metadata_DataFrame) (metadata : list string)
    (s : site_metadata) (rest : list site_metadata)
    (i0 : string) (index : list string) :
  df_rows df = s :: rest -> df_index df = i0 :: index ->
  NoDup (df_index df) \/
  (forall col, In col metadata -> in_dataframe df col = false) ->
  exists adata lo_x lo_y lo_z hi_x hi_y hi_z,
    prepare_well_ROI_table df metadata = Ok adata /\
    smallest lo_x (map x_micrometer (s :: rest)) /\
    smallest lo_y (map y_micrometer (s :: rest)) /\
    smallest lo_z (map z_micrometer (s :: rest)) /\
    largest hi_x (map (fun t => x_micrometer t + len_x_micrometer t)%Q
                      (s :: rest)) /\
    largest hi_y (map (fun t => y_micrometer t + len_y_micrometer t)%Q
                      (s :: rest)) /\
    largest hi_z (map (fun t => z_micrometer t + len_z_micrometer t)%Q
                      (s :: rest)) /\
    obs_names adata = [String.append "well_" i0] /\
    var_names adata = well_positional_columns /\
    X adata = [[ lo_x - lo_x; lo_y - lo_y; lo_z - lo_z;
                 hi_x - lo_x; hi_y - lo_y; hi_z - lo_z ]%Q] /\
    (forall fz fy fx level c list_indices,
        (0 < fz)%Q ->
        (0 < fy * inject_Z c ^ level)%Q ->
        (0 < fx * inject_Z c ^ level)%Q ->
        convert_ROI_table_to_indices adata [fz; fy; fx] level c
          default_cols_xyz_pos default_cols_xyz_len = Ok list_indices ->
        check_valid_ROI_indices list_indices "well_ROI_table" = Ok tt).
Proof.
  intros Hrows Hindex Hmeta.
  destruct (prepare_well_ROI_table_rows df metadata s rest i0 index
              Hrows Hindex Hmeta)
    as (lo_x & lo_y & lo_z & hi_x & hi_y & hi_z
        & Hx & Hy & Hz & HX & HY & HZ & E).
  eexists. exists lo_x, lo_y, lo_z, hi_x, hi_y, hi_z.
  split; [exact E|]. do 6 (split; [assumption|]).
  cbn [obs_names var_names X]. do 3 (split; [reflexivity|]).
  intros fz fy fx level c l Hpz Hpy Hpx Hconv.
  match type of Hconv with
  | convert_ROI_table_to_indices ?t _ _ _ _ _ = _ =>
      apply (zero_origin_check t fz fy fx level c); try assumption
  end.
  - reflexivity.
  - split; [reflexivity|]. repeat constructor.
  - repeat constructor. simpl. tauto.
  - exists [lo_x - lo_x]%Q, [lo_y - lo_y]%Q, [lo_z - lo_z]%Q.
    assert (Hzero : forall v : Q, zero_minimum [v - v]%Q).
    { intros v. split; repeat constructor; lra. }
    repeat split; try reflexivity; apply Hzero.
Qed.

Lemma prepare_well_ROI_table_spec_witness :
  exists adata lo_x lo_y lo_z hi_x hi_y hi_z,
    prepare_well_ROI_table demo_dataframe ["time"%string] = Ok adata /\
    smallest lo_x (map x_micrometer [demo_site 10; demo_site 12]) /\
    smallest lo_y (map y_micrometer [demo_site 10; demo_site 12]) /\
    smallest lo_z (map z_micrometer [demo_site 10; demo_site 12]) /\
    largest hi_x (map (fun t => x_micrometer t + len_x_micrometer t)%Q
                      [demo_site 10; demo_site 12]) /\
    largest hi_y (map (fun t => y_micrometer t + len_y_micrometer t)%Q
                      [demo_site 10; demo_site 12]) /\
    largest hi_z (map (fun t => z_micrometer t + len_z_micrometer t)%Q
                      [demo_site 10; demo_site 12]) /\
    obs_names adata = [String.append "well_" "1"] /\
    var_names adata = well_positional_columns /\
    X adata = [[ lo_x - lo_x; lo_y - lo_y; lo_z - lo_z;
                 hi_x - lo_x; hi_y - lo_y; hi_z - lo_z ]%Q] /\
    (forall fz fy fx level c list_indices,
        (0 < fz)%Q ->
        (0 < fy * inject_Z c ^ level)%Q ->
        (0 < fx * inject_Z c ^ level)%Q ->
        convert_ROI_table_to_indices adata [fz; fy; fx] level c
          default_cols_xyz_pos default_cols_xyz_len = Ok list_indices ->
        check_valid_ROI_indices list_indices "well_ROI_table" = Ok tt).
Proof.
  apply (prepare_well_ROI_table_spec demo_dataframe ["time"%string]
           (demo_site 10) [demo_site 12] "1"%string ["2"%string]);
    try reflexivity.
  left. repeat constructor; simpl; intuition discriminate.
Defined.

(** ** What convert_ROI_table_to_indices returns, whatever the table *)

Lemma ROI_indices_Ok (ROI : AnnData) (pz py px : Q) (level : Z)
    (x_pos y_pos z_pos x_len y_len z_len ROI_name : string)
    (indices : list Z) :
  ROI_indices ROI pz py px level x_pos y_pos z_pos x_len y_len z_len ROI_name
  = Ok indices ->
  length indices = 6%nat /\ Forall (fun i => 0 <= i) indices.
Proof.
  unfold ROI_indices. intros H.
  repeat match type of H with
         | bind (getitem ?a ?r ?c) _ = _ =>
             destruct (getitem a r c); [|discriminate]; cbn [bind] in H
         end.
  match type of H with
  | bind (mapM round ?l) _ = _ =>
      destruct (mapM round l) as [rounded|] eqn:E; [|discriminate]
  end.
  cbn [bind] in H. apply mapM_Ok_length in E. cbn [length] in E.
  destruct (py_min_spec rounded) as (m & Em & _ & Hall).
  { intros ->. discriminate. }
  rewrite Em in H. cbn [bind] in H.
  destruct (Z.ltb_spec m 0) as [|Hm]; [discriminate|].
  injection H as <-. split; [exact E|].
  eapply Forall_impl; [|exact Hall]. cbn beta. intros i Hi. lia.
Qed.

Lemma ROI_loop_Ok (ROI : AnnData) (pz py px : Q) (level : Z)
    (x_pos y_pos z_pos x_len y_len z_len : string) (names : list string)
    (list_indices : list (list Z)) :
  ROI_loop ROI pz py px level x_pos y_pos z_pos x_len y_len z_len names
  = Ok list_indices ->
  length list_indices = length names /\
  Forall (fun item => length item = 6%nat /\ Forall (fun i => 0 <= i) item)
         list_indices.
Proof.
  revert list_indices. induction names as [|name names IH]; intros l H;
    cbn [ROI_loop] in H.
  - injection H as <-. split; [reflexivity|constructor].
  - destruct (ROI_indices _ _ _ _ _ _ _ _ _ _ _ name) as [indices|] eqn:E;
      [|discriminate].
    cbn [bind] in H.
    destruct (ROI_loop _ _ _ _ _ _ _ _ _ _ _ names) as [rest|]; [|discriminate].
    cbn [bind] in H. injection H as <-.
    destruct (IH rest eq_refl) as [Hlen Hall].
    split; [simpl; now rewrite Hlen|].
    constructor; [|assumption]. eapply ROI_indices_Ok; eassumption.
Qed.

(** X18.  What [convert_ROI_table_to_indices] returns, whatever it is
    given (any table, any column names, any pixel sizes, level and
    coarsening factor): when it returns at all, it returns one range per
    row name of the table, each range consists of six indices, and no
    index is negative.  Each range is therefore accepted by
    [convert_indices_to_regions], which makes of it the three slices
    from [start] to [end] along Z, Y and X. *)
Theorem convert_ROI_table_to_indices_postcondition
    (ROI : AnnData) (full_res_pxl_sizes_zyx : list Q) (level coarsening_xy : Z)
    (cols_xyz_pos cols_xyz_len : list string) (list_indices : list (list Z)) :
  convert_ROI_table_to_indices ROI full_res_pxl_sizes_zyx level coarsening_xy
    cols_xyz_pos cols_xyz_len = Ok list_indices ->
  length list_indices = n_obs ROI /\
  Forall (fun indices =>
            exists s_z e_z s_y e_y s_x e_x,
              indices = [s_z; e_z; s_y; e_y; s_x; e_x] /\
              0 <= s_z /\ 0 <= e_z /\ 0 <= s_y /\ 0 <= e_y /\
              0 <= s_x /\ 0 <= e_x /\
              convert_indices_to_regions indices
              = Ok [(s_z, e_z); (s_y, e_y); (s_x, e_x)])
         list_indices.
Proof.
  unfold convert_ROI_table_to_indices, n_obs. intros H.
  destruct (Nat.eqb_spec (length (obs_names ROI)) 0) as [E0|_].
  { injection H as <-. split; [now rewrite E0|constructor]. }
  destruct full_res_pxl_sizes_zyx as [|pz [|py [|px [|? ?]]]];
    try discriminate.
  destruct (py_pow coarsening_xy level) as [prefactor|]; [|discriminate].
  cbn [bind] in H.
  destruct cols_xyz_pos as [|x_pos [|y_pos [|z_pos [|? ?]]]];
    try discriminate.
  destruct cols_xyz_len as [|x_len [|y_len [|z_len [|? ?]]]];
    try discriminate.
  apply ROI_loop_Ok in H. destruct H as [Hlen Hall].
  split; [exact Hlen|].
  eapply Forall_impl; [|exact Hall]. cbn beta.
  intros indices [H6 Hnonneg].
  destruct indices as [|s_z [|e_z [|s_y [|e_y [|s_x [|e_x [|? ?]]]]]]];
    try discriminate.
  exists s_z, e_z, s_y, e_y, s_x, e_x.
  repeat match goal with
         | H : Forall _ (_ :: _) |- _ => inversion H; subst; clear H
         end.
  repeat split; assumption.
Qed.

Lemma convert_ROI_table_to_indices_postcondition_witness :
  length [[0; 1; 0; 2; 0; 2]; [0; 1; 0; 2; 2; 4]] = n_obs demo_ROI_table /\
  Forall (fun indices =>
            exists s_z e_z s_y e_y s_x e_x,
              indices = [s_z; e_z; s_y; e_y; s_x; e_x] /\
              0 <= s_z /\ 0 <= e_z /\ 0 <= s_y /\ 0 <= e_y /\
              0 <= s_x /\ 0 <= e_x /\
              convert_indices_to_regions indices
              = Ok [(s_z, e_z); (s_y, e_y); (s_x, e_x)])
         [[0; 1; 0; 2; 0; 2]; [0; 1; 0; 2; 2; 4]].
Proof.
  apply (convert_ROI_table_to_indices_postcondition demo_ROI_table
           [1; 1 # 2; 1 # 2]%Q 1 2
           default_cols_xyz_pos default_cols_xyz_len).
  reflexivity.
Defined.

(** ** Bounding boxes, converted back to voxels *)

Lemma row_holds_ROI_of_row (a b c d e f : Q) :
  row_holds df_columns [a; b; c; d; e; f] (ROI_of_row [a; b; c; d; e; f]).
Proof. repeat split. Qed.

Lemma pixel_range_bbox_values (pz py px : Q) (oz oy ox : Z)
    (z0 z1 y0 y1 x0 x1 : Z) :
  (0 < pz)%Q -> (0 < py)%Q -> (0 < px)%Q ->
  pixel_range (ROI_of_row (bbox_values pz py px oz oy ox z0 z1 y0 y1 x0 x1))
              pz (py * 1) (px * 1)
  = voxel_range oz oy ox z0 z1 y0 y1 x0 x1.
Proof.
  intros Hz Hy Hx.
  assert (Hstart : forall (p d : Q) (v o : Z), (0 < p)%Q -> (d == p)%Q ->
            py_round ((inject_Z v * p + inject_Z o * p) / d) = v + o).
  { intros p d v o Hp Hd.
    rewrite (py_round_eq _ (inject_Z (v + o))); [apply py_round_inject_Z|].
    rewrite Hd, inject_Z_plus. field. lra. }
  assert (Hend : forall (p d : Q) (v w o : Z), (0 < p)%Q -> (d == p)%Q ->
            py_round ((inject_Z v * p + inject_Z o * p
                       + (inject_Z (w + 1) * p - inject_Z v * p)) / d)
            = w + 1 + o).
  { intros p d v w o Hp Hd.
    rewrite (py_round_eq _ (inject_Z (w + 1 + o))); [apply py_round_inject_Z|].
    rewrite Hd, !inject_Z_plus. field. lra. }
  unfold pixel_range, ROI_of_row, bbox_values, voxel_range.
  cbn [nth roi_x roi_y roi_z roi_len_x roi_len_y roi_len_z].
  rewrite (Hstart pz pz), (Hstart py (py * 1)%Q), (Hstart px (px * 1)%Q),
          (Hend pz pz), (Hend py (py * 1)%Q), (Hend px (px * 1)%Q)
    by (assumption || reflexivity || ring).
  reflexivity.
Qed.

Lemma Forall2_map_r {A B} (R : A -> B -> Prop) (f : A -> B) (l : list A) :
  Forall (fun x => R x (f x)) l -> Forall2 R l (map f l).
Proof. induction 1; constructor; assumption. Qed.

Lemma bbox_table_rows (names : list string) (rows : list (list Q * Z)) :
  length names = length rows ->
  Forall (fun row => length (fst row) = 6%nat) rows ->
  Forall2 (fun xrow (nr : string * PhysicalROI) =>
             row_holds df_columns xrow (snd nr))
    (map fst rows)
    (combine names (map (fun row => ROI_of_row (fst row)) rows)).
Proof.
  revert names. induction rows as [|[values label] rows IH];
    intros [|n names] Hlen H6; try discriminate; [constructor|].
  inversion H6 as [|? ? Hv H6']; subst. cbn [map combine fst].
  constructor; [|apply IH; [simpl in Hlen; lia|assumption]].
  cbn [fst snd] in *.
  destruct values as [|a [|b [|c [|d [|e [|f [|? ?]]]]]]]; try discriminate.
  apply row_holds_ROI_of_row.
Qed.

Lemma bounding_box_indices
    (mask_array : ndarray Z) (nz ny nx : nat) (pz py px : Q) (oz oy ox c : Z) :
  shape mask_array = [nz; ny; nx] -> ndarray_wf mask_array ->
  (0 < pz)%Q -> (0 < py)%Q -> (0 < px)%Q ->
  0 <= oz -> 0 <= oy -> 0 <= ox ->
  exists df,
    array_to_bounding_box_table mask_array [pz; py; px] [oz; oy; ox] = Ok df /\
    forall names annotation,
      NoDup names -> length names = length (bbox_rows df) ->
      exists list_indices,
        convert_ROI_table_to_indices
          {| obs_names := names; var_names := df_columns;
             X := map fst (bbox_rows df); obs := annotation |}
          [pz; py; px] 0 c default_cols_xyz_pos default_cols_xyz_len
        = Ok list_indices /\
        Forall2 (fun row indices =>
                   exists z0 z1 y0 y1 x0 x1,
                     axis_extent mask_array (snd row) 0 z0 z1 /\
                     axis_extent mask_array (snd row) 1 y0 y1 /\
                     axis_extent mask_array (snd row) 2 x0 x1 /\
                     indices = voxel_range oz oy ox z0 z1 y0 y1 x0 x1)
                (bbox_rows df) list_indices.
Proof.
  intros Hshape Hwf Hpz Hpy Hpx Hoz Hoy Hox.
  destruct (bounding_box_table mask_array nz ny nx pz py px oz oy ox
              Hshape Hwf) as (df & E & _ & _ & Hrows).
  exists df. split; [exact E|]. intros names annotation HN Hlen.
  set (rows := combine names
                 (map (fun row : list Q * Z => ROI_of_row (fst row))
                      (bbox_rows df))).
  assert (Hfst : map fst rows = names).
  { unfold rows. apply map_fst_combine. now rewrite length_map. }
  assert (Hrange : Forall (fun row : list Q * Z =>
            exists z0 z1 y0 y1 x0 x1,
              axis_extent mask_array (snd row) 0 z0 z1 /\
              axis_extent mask_array (snd row) 1 y0 y1 /\
              axis_extent mask_array (snd row) 2 x0 x1 /\
              pixel_range (ROI_of_row (fst row)) pz (py * 1) (px * 1)
              = voxel_range oz oy ox z0 z1 y0 y1 x0 x1) (bbox_rows df)).
  { eapply Forall_impl; [|exact Hrows]. cbn beta.
    intros [values label] (z0 & z1 & y0 & y1 & x0 & x1 & Hz & Hy & Hx & Hv).
    cbn [fst snd] in *. subst values.
    exists z0, z1, y0, y1, x0, x1. repeat (split; [assumption|]).
    now apply pixel_range_bbox_values. }
  exists (map (fun row : list Q * Z =>
                 pixel_range (ROI_of_row (fst row)) pz (py * 1) (px * 1))
              (bbox_rows df)).
  split.
  - rewrite (convert_as_rows _ rows);
      [|split; [now rewrite Hfst|]
       |now rewrite Hfst|assumption|cbn [Qpower]; lra|cbn [Qpower]; lra].
    + cbn [Qpower]. rewrite convert_rows_nonneg.
      * f_equal. unfold rows.
        rewrite (map_snd_combine
                   (fun r => pixel_range r pz (py * 1) (px * 1)))
          by (now rewrite length_map).
        now rewrite map_map.
      * apply Forall_forall. intros [name r] Hin. cbn [snd].
        unfold rows in Hin. apply in_combine_r in Hin.
        apply in_map_iff in Hin. destruct Hin as (row & <- & Hrow).
        rewrite Forall_forall in Hrange.
        destruct (Hrange row Hrow)
          as (z0 & z1 & y0 & y1 & x0 & x1 & Hz & Hy & Hx & ->).
        pose proof (axis_extent_bounds _ nz ny nx _ 0 _ _ Hshape
                      ltac:(lia) Hz).
        pose proof (axis_extent_bounds _ nz ny nx _ 1 _ _ Hshape
                      ltac:(lia) Hy).
        pose proof (axis_extent_bounds _ nz ny nx _ 2 _ _ Hshape
                      ltac:(lia) Hx).
        unfold voxel_range. repeat constructor; lia.
    + cbn [X var_names]. apply bbox_table_rows; [assumption|].
      eapply Forall_impl; [|exact Hrows]. cbn beta.
      intros row (z0 & z1 & y0 & y1 & x0 & x1 & _ & _ & _ & ->). reflexivity.
  - apply Forall2_map_r. exact Hrange.
Qed.

(** X19.  Bounding boxes convert back to voxel ranges.  Take the table of
    [array_to_bounding_box_table] for a three-dimensional label array,
    positive pixel sizes and a non-negative origin, and store its six
    float columns as a ROI table, under any unique row names.
    [convert_ROI_table_to_indices] at level 0, with the same pixel
    sizes, then succeeds and returns for the row of each label the range
    of its voxels, shifted by the origin: from the smallest coordinate
    of the label up to (excluded) its largest coordinate plus one, along
    Z, Y and X. *)
Theorem array_to_bounding_box_table_round_trip
    (mask_array : ndarray Z) (nz ny nx : nat) (pz py px : Q) (oz oy ox c : Z) :
  shape mask_array = [nz; ny; nx] -> ndarray_wf mask_array ->
  (0 < pz)%Q -> (0 < py)%Q -> (0 < px)%Q ->
  0 <= oz -> 0 <= oy -> 0 <= ox ->
  exists df,
    array_to_bounding_box_table mask_array [pz; py; px] [oz; oy; ox] = Ok df /\
    forall names annotation,
      NoDup names -> length names = length (bbox_rows df) ->
      exists list_indices,
        convert_ROI_table_to_indices
          {| obs_names := names; var_names := df_columns;
             X := map fst (bbox_rows df); obs := annotation |}
          [pz; py; px] 0 c default_cols_xyz_pos default_cols_xyz_len
        = Ok list_indices /\
        Forall2 (fun row indices =>
                   exists z0 z1 y0 y1 x0 x1,
                     axis_extent mask_array (snd row) 0 z0 z1 /\
                     axis_extent mask_array (snd row) 1 y0 y1 /\
                     axis_extent mask_array (snd row) 2 x0 x1 /\
                     indices = [ z0 + oz; z1 + 1 + oz;
                                 y0 + oy; y1 + 1 + oy;
                                 x0 + ox; x1 + 1 + ox ])
                (bbox_rows df) list_indices.
Proof. apply bounding_box_indices. Qed.

Lemma array_to_bounding_box_table_round_trip_witness :
  exists df,
    array_to_bounding_box_table demo_mask [1; 1 # 2; 1 # 4]%Q [0; 10; 20]
    = Ok df /\
    forall names annotation,
      NoDup names -> length names = length (bbox_rows df) ->
      exists list_indices,
        convert_ROI_table_to_indices
          {| obs_names := names; var_names := df_columns;
             X := map fst (bbox_rows df); obs := annotation |}
          [1; 1 # 2; 1 # 4]%Q 0 2 default_cols_xyz_pos default_cols_xyz_len
        = Ok list_indices /\
        Forall2 (fun row indices =>
                   exists z0 z1 y0 y1 x0 x1,
                     axis_extent demo_mask (snd row) 0 z0 z1 /\
                     axis_extent demo_mask (snd row) 1 y0 y1 /\
                     axis_extent demo_mask (snd row) 2 x0 x1 /\
                     indices = [ z0 + 0; z1 + 1 + 0;
                                 y0 + 10; y1 + 1 + 10;
                                 x0 + 20; x1 + 1 + 20 ])
                (bbox_rows df) list_indices.
Proof.
  apply (array_to_bounding_box_table_round_trip demo_mask 2 2 3
           1 (1 # 2) (1 # 4) 0 10 20 2);
    reflexivity || lia.
Defined.

(** X20.  The region of a bounding box holds its label.  With the origin
    at zero, each range that [convert_ROI_table_to_indices] gives for the
    bounding-box table of a label array is turned by
    [convert_indices_to_regions] into a region that [load_region] can
    load from the array itself; the loaded
    block has one voxel per position of the bounding box, and every voxel
    of the array that carries the label of the row is found in the block,
    at its coordinates counted from the start of the range. *)
Theorem bounding_box_region_holds_label
    (mask_array : ndarray Z) (nz ny nx : nat) (pz py px : Q) (c : Z) :
  shape mask_array = [nz; ny; nx] -> ndarray_wf mask_array ->
  (0 < pz)%Q -> (0 < py)%Q -> (0 < px)%Q ->
  exists df,
    array_to_bounding_box_table mask_array [pz; py; px] [0; 0; 0] = Ok df /\
    forall names annotation,
      NoDup names -> length names = length (bbox_rows df) ->
      exists list_indices,
        convert_ROI_table_to_indices
          {| obs_names := names; var_names := df_columns;
             X := map fst (bbox_rows df); obs := annotation |}
          [pz; py; px] 0 c default_cols_xyz_pos default_cols_xyz_len
        = Ok list_indices /\
        Forall2 (fun row indices =>
                   exists s_z e_z s_y e_y s_x e_x region img,
                     indices = [s_z; e_z; s_y; e_y; s_x; e_x] /\
                     convert_indices_to_regions indices = Ok region /\
                     load_region mask_array region false = Ok img /\
                     shape img = [ Z.to_nat (e_z - s_z); Z.to_nat (e_y - s_y);
                                   Z.to_nat (e_x - s_x) ] /\
                     forall z y x,
                       voxel mask_array [z; y; x] = Some (snd row) ->
                       voxel img [z - s_z; y - s_y; x - s_x]
                       = Some (snd row))
                (bbox_rows df) list_indices.
Proof.
  intros Hshape Hwf Hpz Hpy Hpx.
  destruct (bounding_box_indices mask_array nz ny nx pz py px 0 0 0 c
              Hshape Hwf Hpz Hpy Hpx) as (df & E & Hconv); try lia.
  exists df. split; [exact E|]. intros names annotation HN Hlen.
  destruct (Hconv names annotation HN Hlen) as (l & El & HF).
  exists l. split; [exact El|].
  eapply Forall2_impl; [|exact HF]. cbn beta.
  intros [values label] indices
         (z0 & z1 & y0 & y1 & x0 & x1 & Hz & Hy & Hx & ->).
  cbn [snd] in *. unfold voxel_range.
  pose proof (axis_extent_bounds _ nz ny nx _ 0 _ _ Hshape ltac:(lia) Hz)
    as Bz.
  pose proof (axis_extent_bounds _ nz ny nx _ 1 _ _ Hshape ltac:(lia) Hy)
    as By.
  pose proof (axis_extent_bounds _ nz ny nx _ 2 _ _ Hshape ltac:(lia) Hx)
    as Bx.
  cbn [nth] in Bz, By, Bx.
  destruct (load_region_of_indices mask_array nz ny nx
              (z0 + 0) (z1 + 1 + 0) (y0 + 0) (y1 + 1 + 0)
              (x0 + 0) (x1 + 1 + 0) false Hwf Hshape)
    as (region & img & Er & Eimg & _ & Hs & Hvox); try lia.
  exists (z0 + 0), (z1 + 1 + 0), (y0 + 0), (y1 + 1 + 0),
         (x0 + 0), (x1 + 1 + 0), region, img.
  split; [reflexivity|]. split; [exact Er|]. split; [exact Eimg|]. split.
  - rewrite Hs. rewrite !Z.min_l by lia. reflexivity.
  - intros z y x Hv.
    destruct Hz as (_ & _ & Hz), Hy as (_ & _ & Hy), Hx as (_ & _ & Hx).
    specialize (Hz _ Hv). specialize (Hy _ Hv). specialize (Hx _ Hv).
    cbn [nth] in Hz, Hy, Hx.
    rewrite Hvox by lia. rewrite <- Hv.
    assert (Hadd : forall a b, a + (b - a) = b) by (intros; lia).
    now rewrite !Hadd.
Qed.

Lemma bounding_box_region_holds_label_witness :
  exists df,
    array_to_bounding_box_table demo_mask [1; 1 # 2; 1 # 4]%Q [0; 0; 0]
    = Ok df /\
    forall names annotation,
      NoDup names -> length names = length (bbox_rows df) ->
      exists list_indices,
        convert_ROI_table_to_indices
          {| obs_names := names; var_names := df_columns;
             X := map fst (bbox_rows df); obs := annotation |}
          [1; 1 # 2; 1 # 4]%Q 0 2 default_cols_xyz_pos default_cols_xyz_len
        = Ok list_indices /\
        Forall2 (fun row indices =>
                   exists s_z e_z s_y e_y s_x e_x region img,
                     indices = [s_z; e_z; s_y; e_y; s_x; e_x] /\
                     convert_indices_to_regions indices = Ok region /\
                     load_region demo_mask region false = Ok img /\
                     shape img = [ Z.to_nat (e_z - s_z); Z.to_nat (e_y - s_y);
                                   Z.to_nat (e_x - s_x) ] /\
                     forall z y x,
                       voxel demo_mask [z; y; x] = Some (snd row) ->
                       voxel img [z - s_z; y - s_y; x - s_x]
                       = Some (snd row))
                (bbox_rows df) list_indices.
Proof.
  apply (bounding_box_region_holds_label demo_mask 2 2 3
           1 (1 # 2) (1 # 4) 2);
    reflexivity.
Defined.

(** ** NGFF metadata *)

Lemma existsb_key (d : list (Z * string)) (a : Z) :
  existsb (fun item => fst item =? a) d = true <-> In a (map fst d).
Proof.
  rewrite existsb_exists, in_map_iff. split.
  - intros (item & Hin & E). apply Z.eqb_eq in E. now exists item.
  - intros (item & E & Hin). exists item. split; [assumption|].
    now apply Z.eqb_eq.
Qed.

Lemma acquisition_loop_Return (imgs : list Image) (d0 d : list (Z * string)) :
  acquisition_loop imgs d0 = Return d ->
  exists items,
    d = d0 ++ items /\
    Forall2 (fun image item =>
               acquisition image = Some (fst item) /\
               image_path image = snd item) imgs items /\
    (NoDup (map fst d0) -> NoDup (map fst d)).
Proof.
  revert d0. induction imgs as [|image imgs IH]; intros d0 H;
    cbn [acquisition_loop] in H.
  - injection H as <-. exists []. rewrite app_nil_r.
    split; [reflexivity|]. split; [constructor|auto].
  - destruct (acquisition image) as [a|] eqn:Ea; [|discriminate].
    destruct (existsb _ d0) eqn:Ex; [discriminate|].
    destruct (IH _ H) as (items & -> & HF & HN).
    exists ((a, image_path image) :: items). rewrite <- app_assoc.
    split; [reflexivity|]. split.
    + constructor; [split; [exact Ea|reflexivity]|assumption].
    + intros HN0. rewrite app_assoc. apply HN.
      rewrite map_app. cbn [map fst].
      apply NoDup_app; [assumption|repeat constructor; simpl; tauto|].
      intros x Hx [<-|[]]. apply existsb_key in Hx. congruence.
Qed.

Lemma acquisition_loop_complete (imgs : list Image)
    (d0 items : list (Z * string)) :
  Forall2 (fun image item =>
             acquisition image = Some (fst item) /\
             image_path image = snd item) imgs items ->
  NoDup (map fst (d0 ++ items)) ->
  acquisition_loop imgs d0 = Return (d0 ++ items).
Proof.
  intros HF. revert d0.
  induction HF as [|image [a p] imgs items [Ha Hp] _ IH]; intros d0 HN.
  - now rewrite app_nil_r.
  - cbn [acquisition_loop fst snd] in *. rewrite Ha.
    assert (Hnot : ~ In a (map fst d0)).
    { rewrite map_app in HN. cbn [map fst] in HN.
      apply NoDup_remove_2 in HN. intros Hin. apply HN.
      apply in_or_app. now left. }
    destruct (existsb _ d0) eqn:Ex.
    { apply existsb_key in Ex. contradiction. }
    rewrite Hp.
    replace (d0 ++ (a, p) :: items) with ((d0 ++ [(a, p)]) ++ items)
      by (now rewrite <- app_assoc).
    apply IH. now rewrite <- app_assoc.
Qed.

Lemma acquisition_loop_app (before imgs : list Image)
    (acc d : list (Z * string)) :
  acquisition_loop before acc = Return d ->
  acquisition_loop (before ++ imgs) acc = acquisition_loop imgs d.
Proof.
  revert acc. induction before as [|b before IH]; intros acc H;
    cbn [app acquisition_loop] in *.
  - now injection H as <-.
  - destruct (acquisition b) as [a|]; [|discriminate].
    destruct (existsb _ acc); [discriminate|]. now apply IH.
Qed.

Lemma dict_get_In (d : list (Z * string)) (a : Z) (p : string) :
  NoDup (map fst d) -> In (a, p) d -> dict_get d a = Some p.
Proof.
  unfold dict_get. induction d as [|[b q] d IH]; intros HN Hin;
    [contradiction|].
  cbn [map fst] in HN. inversion HN as [|? ? Hnot HN']; subst.
  cbn [find fst]. destruct (Z.eqb_spec b a) as [->|Hne].
  - destruct Hin as [E|Hin]; [now injection E as ->|].
    exfalso. apply Hnot. apply in_map_iff. now exists (a, p).
  - destruct Hin as [E|Hin]; [congruence|]. now apply IH.
Qed.

(** X24.  [get_acquisition_paths] returns a dictionary exactly when the
    well metadata is there, every image has an acquisition, and no two
    images have the same one.  The dictionary then has one item per
    image, in the order of the images, made of its acquisition and its
    path, so that looking up the acquisition of an image gives the path
    of this image.  Going through the images in order, the first image
    without an acquisition makes the call fail with a [ValueError], and
    the first image whose acquisition was met before, with a
    [NotImplementedError]; without well metadata the call fails with an
    [AttributeError]. *)
Theorem get_acquisition_paths_spec (self : NgffWellMeta) :
  (forall d,
      get_acquisition_paths self = Return d <->
      exists w,
        well self = Some w /\
        Forall2 (fun image item =>
                   acquisition image = Some (fst item) /\
                   image_path image = snd item) (images w) d /\
        NoDup (map fst d)) /\
  (forall d w image a,
      get_acquisition_paths self = Return d ->
      well self = Some w -> In image (images w) ->
      acquisition image = Some a ->
      dict_get d a = Some (image_path image)) /\
  (forall w before image after,
      well self = Some w ->
      images w = before ++ image :: after ->
      Forall (fun earlier => acquisition earlier <> None) before ->
      NoDup (map acquisition before) ->
      (acquisition image = None ->
       exists msg, get_acquisition_paths self
                   = Raise (BuiltIn (ValueError msg))) /\
      (forall a, acquisition image = Some a ->
                 In (Some a) (map acquisition before) ->
                 exists msg, get_acquisition_paths self
                             = Raise (NotImplementedError msg))) /\
  (well self = None ->
   get_acquisition_paths self = Raise (BuiltIn AttributeError)).
Proof.
  unfold get_acquisition_paths.
  assert (Hiff : forall d,
    match well self with
    | Some w => acquisition_loop (images w) []
    | None => Raise (BuiltIn AttributeError)
    end = Return d <->
    exists w,
      well self = Some w /\
      Forall2 (fun image item =>
                 acquisition image = Some (fst item) /\
                 image_path image = snd item) (images w) d /\
      NoDup (map fst d)).
  { intros d. destruct (well self) as [w|]; split.
    - intros H. apply acquisition_loop_Return in H.
      destruct H as (items & -> & HF & HN). exists w.
      split; [reflexivity|]. split; [exact HF|]. apply HN. constructor.
    - intros (w' & E & HF & HN). injection E as <-.
      now apply (acquisition_loop_complete (images w) [] d).
    - discriminate.
    - intros (w' & E & _). discriminate. }
  split; [exact Hiff|]. split; [|split].
  - intros d w image a H Hw Hin Ha. apply Hiff in H.
    destruct H as (w' & E & HF & HN).
    assert (w' = w) by congruence. subst w'.
    apply dict_get_In; [assumption|].
    clear -HF Hin Ha. induction HF as [|im [b q] imgs items [Hb Hq] _ IH];
      [contradiction|].
    destruct Hin as [->|Hin].
    + left. cbn [fst snd] in *. congruence.
    + right. now apply IH.
  - intros w before image after Hw Himgs Hsome Hdistinct.
    assert (Hd0 : exists d0, acquisition_loop before [] = Return d0).
    { assert (Hitems : exists items,
                Forall2 (fun image item =>
                           acquisition image = Some (fst item) /\
                           image_path image = snd item) before items).
      { clear -Hsome. induction Hsome as [|b before Hb _ [items IH]].
        - exists []. constructor.
        - destruct (acquisition b) as [a|] eqn:Ea; [|congruence].
          exists ((a, image_path b) :: items). constructor; auto. }
      destruct Hitems as [items HF]. exists items.
      apply (acquisition_loop_complete before [] items HF). cbn [app].
      assert (E : map acquisition before = map Some (map fst items)).
      { clear -HF. induction HF as [|b item before items [Hb _] _ IH];
          [reflexivity|].
        cbn [map]. now rewrite Hb, IH. }
      rewrite E in Hdistinct. now apply NoDup_map_inv in Hdistinct. }
    destruct Hd0 as [d0 Hd0]. rewrite Hw, Himgs.
    rewrite (acquisition_loop_app before (image :: after) [] d0 Hd0).
    cbn [app acquisition_loop]. split.
    + intros ->. eexists. reflexivity.
    + intros a Ha Hin. rewrite Ha.
      apply acquisition_loop_Return in Hd0.
      destruct Hd0 as (items & E & HF & _). cbn [app] in E. subst items.
      assert (Hkey : In a (map fst d0)).
      { clear -HF Hin. induction HF as [|im [b q] imgs items [Hb Hq] _ IH];
          [contradiction|].
        cbn [map fst] in *. destruct Hin as [E|Hin].
        - left. congruence.
        - right. now apply IH. }
      apply existsb_key in Hkey. rewrite Hkey. eexists. reflexivity.
  - intros ->. reflexivity.
Qed.

Lemma get_acquisition_paths_spec_witness :
  dict_get [(1, "path1"%string); (2, "path2"%string)] 2
  = Some "path2"%string.
Proof.
  apply (proj1 (proj2 (get_acquisition_paths_spec
           {| well := Some {| images :=
                [ {| acquisition := Some 1; image_path := "path1" |};
                  {| acquisition := Some 2; image_path := "path2" |} ] |} |}))
           [(1, "path1"%string); (2, "path2"%string)]
           {| images :=
                [ {| acquisition := Some 1; image_path := "path1" |};
                  {| acquisition := Some 2; image_path := "path2" |} ] |}
           {| acquisition := Some 2; image_path := "path2" |} 2);
    try reflexivity.
  simpl. tauto.
Defined.

Lemma omapM_length {A B} (f : A -> outcome B) (l : list A) (bs : list B) :
  omapM f l = Return bs -> length bs = length l.
Proof.
  revert bs. induction l as [|a l IH]; intros bs H; cbn [omapM] in H.
  - now injection H as <-.
  - destruct (f a); [|discriminate]. cbn [obind] in H.
    destruct (omapM f l) as [bs'|]; [|discriminate]. cbn [obind] in H.
    injection H as <-. simpl. f_equal. now apply IH.
Qed.

Lemma pixel_sizes_num_levels (self : NgffImageMeta)
    (sizes : list (Q * Q * Q)) :
  pixel_sizes_zyx self = Return sizes ->
  num_levels self = Return (length sizes).
Proof.
  unfold pixel_sizes_zyx. intros H.
  destruct (multiscale self) as [m|]; [|discriminate]. cbn [obind] in H.
  destruct (lift (axes_index "x" _)) as [x_index|]; [|discriminate].
  cbn [obind] in H.
  destruct (lift (axes_index "y" _)) as [y_index|]; [|discriminate].
  cbn [obind] in H.
  destruct (num_levels self) as [n|]; [|discriminate]. cbn [obind] in H.
  apply omapM_length in H. rewrite length_seq in H. now subst.
Qed.

Lemma level_ratio_sizes (self : NgffImageMeta) (sizes : list (Q * Q * Q))
    (component : Q * Q * Q -> Q) (ind : nat) :
  pixel_sizes_zyx self = Return sizes ->
  level_ratio self component ind
  = (fine <~ lift (list_item sizes ind) ;;
     coarse <~ lift (list_item sizes (ind - 1)) ;;
     ratio <~ lift (py_truediv (component fine) (component coarse)) ;;
     Return (py_round ratio)).
Proof.
  intros H. unfold level_ratio. rewrite H. cbn [obind].
  destruct (lift (list_item sizes ind)); reflexivity.
Qed.

Lemma level_ratio_Return (self : NgffImageMeta) (sizes : list (Q * Q * Q))
    (component : Q * Q * Q -> Q) (ind : nat) (ratio : Z) :
  pixel_sizes_zyx self = Return sizes ->
  level_ratio self component ind = Return ratio ->
  exists fine coarse,
    nth_error sizes ind = Some fine /\
    nth_error sizes (ind - 1) = Some coarse /\
    ratio = py_round (float64 (component fine / component coarse)).
Proof.
  intros Hs H. rewrite (level_ratio_sizes self sizes) in H by assumption.
  unfold list_item, py_truediv in H.
  destruct (nth_error sizes ind) as [fine|]; [|discriminate].
  cbn [lift obind] in H.
  destruct (nth_error sizes (ind - 1)) as [coarse|]; [|discriminate].
  cbn [lift obind] in H.
  destruct (Qeq_bool (component coarse) 0); [discriminate|].
  cbn [lift obind] in H. injection H as <-. now exists fine, coarse.
Qed.

Lemma level_ratio_defined (self : NgffImageMeta) (sizes : list (Q * Q * Q))
    (component : Q * Q * Q -> Q) (ind : nat) (fine coarse : Q * Q * Q) :
  pixel_sizes_zyx self = Return sizes ->
  nth_error sizes ind = Some fine ->
  nth_error sizes (ind - 1) = Some coarse ->
  ~ (component coarse == 0)%Q ->
  level_ratio self component ind
  = Return (py_round (float64 (component fine / component coarse))).
Proof.
  intros Hs Hf Hc Hne. rewrite (level_ratio_sizes self sizes) by assumption.
  unfold list_item, py_truediv. rewrite Hf, Hc. cbn [lift obind].
  destruct (Qeq_bool (component coarse) 0) eqn:E; [|reflexivity].
  apply Qeq_bool_eq in E. contradiction.
Qed.

Lemma coarsening_loop_sound (self : NgffImageMeta)
    (sizes : list (Q * Q * Q)) (inds : list nat)
    (current_ratio result : option Z) :
  pixel_sizes_zyx self = Return sizes ->
  coarsening_loop self inds current_ratio = Return result ->
  (inds = [] -> result = current_ratio) /\
  (forall c, current_ratio = Some c -> result = Some c) /\
  (inds <> [] -> exists c, result = Some c) /\
  (forall c, result = Some c ->
     Forall (fun ind =>
               exists fine coarse,
                 nth_error sizes ind = Some fine /\
                 nth_error sizes (ind - 1) = Some coarse /\
                 py_round (float64 (snd fine / snd coarse)) = c /\
                 py_round (float64 (snd (fst fine) / snd (fst coarse))) = c) inds).
Proof.
  intros Hs. revert current_ratio.
  induction inds as [|ind inds IH]; intros cur H; cbn [coarsening_loop] in H.
  - injection H as <-. repeat split; auto; congruence.
  - destruct (level_ratio self _ ind) as [ratio_x|] eqn:Ex in H;
      [|discriminate].
    cbn [obind] in H.
    destruct (level_ratio self _ ind) as [ratio_y|] eqn:Ey in H;
      [|discriminate].
    cbn [obind] in H.
    destruct (Z.eqb_spec ratio_x ratio_y) as [Exy|]; [|discriminate].
    cbn [negb] in H.
    destruct (level_ratio_Return _ _ _ _ _ Hs Ex)
      as (fine & coarse & Hf & Hc & Hx).
    destruct (level_ratio_Return _ _ _ _ _ Hs Ey)
      as (fine' & coarse' & Hf' & Hc' & Hy).
    assert (fine' = fine) by congruence.
    assert (coarse' = coarse) by congruence. subst fine' coarse'.
    cbn beta in Hx, Hy.
    assert (Hthis : forall c, c = ratio_x ->
              exists fine coarse,
                nth_error sizes ind = Some fine /\
                nth_error sizes (ind - 1) = Some coarse /\
                py_round (float64 (snd fine / snd coarse)) = c /\
                py_round (float64 (snd (fst fine) / snd (fst coarse))) = c).
    { intros c ->. exists fine, coarse. repeat split; congruence. }
    destruct cur as [ratio|].
    + destruct (Z.eqb_spec ratio ratio_x) as [->|]; [|discriminate].
      cbn [negb] in H.
      destruct (IH _ H) as (_ & Hcur & _ & Hall).
      pose proof (Hcur _ eq_refl) as ->.
      split; [discriminate|]. split; [now intros c [= <-]|].
      split; [intros _; now exists ratio_x|].
      intros c [= <-]. constructor; [now apply Hthis|now apply Hall].
    + destruct (IH _ H) as (_ & Hcur & _ & Hall).
      pose proof (Hcur _ eq_refl) as ->.
      split; [discriminate|]. split; [discriminate|].
      split; [intros _; now exists ratio_x|].
      intros c [= <-]. constructor; [now apply Hthis|now apply Hall].
Qed.

Lemma homogeneous_ratio (p0 : Q) (c : Z) (level : nat) (fine coarse : Q) :
  (0 < p0)%Q -> 0 < c < 2 ^ 53 ->
  (fine == p0 * inject_Z c ^ Z.of_nat (S level))%Q ->
  (coarse == p0 * inject_Z c ^ Z.of_nat level)%Q ->
  ~ (coarse == 0)%Q /\ py_round (float64 (fine / coarse)) = c.
Proof.
  intros Hp Hc Hf Hco.
  assert (Hcq : (0 < inject_Z c)%Q).
  { change 0%Q with (inject_Z 0). rewrite <- Zlt_Qlt. lia. }
  assert (Hpow : (0 < inject_Z c ^ Z.of_nat level)%Q)
    by now apply Qpower_0_lt.
  assert (Hpos : (0 < coarse)%Q).
  { rewrite Hco. now apply Qmult_lt_0_compat. }
  split; [lra|].
  rewrite (py_round_eq _ (inject_Z c)); [apply py_round_inject_Z|].
  rewrite <- (float64_inject_Z c) by assumption. apply float64_comp.
  rewrite Hf, Hco. rewrite Nat2Z.inj_succ. unfold Z.succ.
  rewrite Qpower_plus by lra.
  change (inject_Z c ^ 1)%Q with (inject_Z c).
  set (k := (inject_Z c ^ Z.of_nat level)%Q) in *.
  field. split; lra.
Qed.

Lemma coarsening_loop_homogeneous (self : NgffImageMeta)
    (sizes : list (Q * Q * Q)) (y0 x0 : Q) (c : Z) (inds : list nat)
    (current_ratio : option Z) :
  pixel_sizes_zyx self = Return sizes ->
  (0 < y0)%Q -> (0 < x0)%Q -> 0 < c < 2 ^ 53 ->
  homogeneous_pyramid y0 x0 c sizes ->
  Forall (fun ind => 1 <= ind < length sizes)%nat inds ->
  current_ratio = None \/ current_ratio = Some c ->
  coarsening_loop self inds current_ratio
  = Return (match inds with [] => current_ratio | _ :: _ => Some c end).
Proof.
  intros Hs Hy Hx Hc Hpyr Hinds. revert current_ratio.
  induction Hinds as [|ind inds Hind _ IH]; intros cur Hcur; [reflexivity|].
  cbn [coarsening_loop].
  destruct (nth_error sizes ind) as [fine|] eqn:Ef;
    [|apply nth_error_None in Ef; lia].
  destruct (nth_error sizes (ind - 1)) as [coarse|] eqn:Eco;
    [|apply nth_error_None in Eco; lia].
  destruct (Hpyr _ _ Ef) as [Hfy Hfx].
  destruct (Hpyr _ _ Eco) as [Hcy Hcx].
  replace ind with (S (ind - 1)) in Hfy, Hfx by lia.
  destruct (homogeneous_ratio x0 c (ind - 1) _ _ Hx Hc Hfx Hcx) as [Hnx Hrx].
  destruct (homogeneous_ratio y0 c (ind - 1) _ _ Hy Hc Hfy Hcy) as [Hny Hry].
  rewrite (level_ratio_defined self sizes (fun zyx => snd zyx) ind fine coarse)
    by assumption.
  cbn [obind].
  rewrite (level_ratio_defined self sizes (fun zyx => snd (fst zyx)) ind
             fine coarse) by assumption.
  cbn [obind]. rewrite Hrx, Hry, Z.eqb_refl. cbn [negb].
  destruct Hcur as [->| ->].
  - rewrite IH by now right. destruct inds; reflexivity.
  - rewrite Z.eqb_refl. cbn [negb]. rewrite IH by now right.
    destruct inds; reflexivity.
Qed.

(** X22.  [coarsening_xy].  For an image with a single resolution level
    it returns [None], without looking at the pixel sizes.  When it
    returns a factor [c], there are at least two levels, and between each
    level and the next both the X and the Y pixel size grow by the factor
    [c] after rounding: [round(size[ind] / size[ind - 1]) = c], the
    quotient being the float that the division returns.  And for pixel
    sizes that are exactly those of a pyramid built with an integer
    factor [c], [0 < c < 2^53] (X and Y sizes [x0 * c^level],
    [y0 * c^level], with at least two levels), it returns this factor
    [c]: the coarsening factor that [convert_ROI_table_to_indices] is to
    be called with. *)
Theorem coarsening_xy_spec (self : NgffImageMeta) :
  (forall n, num_levels self = Return n -> (n <= 1)%nat ->
             coarsening_xy self = Return None) /\
  (forall sizes c,
      pixel_sizes_zyx self = Return sizes ->
      coarsening_xy self = Return (Some c) ->
      (2 <= length sizes)%nat /\
      forall ind fine coarse,
        nth_error sizes (S ind) = Some fine ->
        nth_error sizes ind = Some coarse ->
        py_round (float64 (snd fine / snd coarse)) = c /\
        py_round (float64 (snd (fst fine) / snd (fst coarse))) = c) /\
  (forall sizes y0 x0 c,
      pixel_sizes_zyx self = Return sizes ->
      (2 <= length sizes)%nat ->
      (0 < y0)%Q -> (0 < x0)%Q -> 0 < c < 2 ^ 53 ->
      homogeneous_pyramid y0 x0 c sizes ->
      coarsening_xy self = Return (Some c)).
Proof.
  split; [|split].
  - intros n Hn Hle. unfold coarsening_xy. rewrite Hn. cbn [obind].
    replace (n - 1)%nat with 0%nat by lia. reflexivity.
  - intros sizes c Hs H. unfold coarsening_xy in H.
    rewrite (pixel_sizes_num_levels self sizes Hs) in H. cbn [obind] in H.
    destruct (coarsening_loop_sound self sizes _ _ _ Hs H)
      as (Hnil & _ & _ & Hall).
    assert (Hlen : (2 <= length sizes)%nat).
    { destruct (length sizes) as [|[|n]]; try lia;
        cbn [Nat.sub seq] in Hnil; specialize (Hnil eq_refl); discriminate. }
    split; [exact Hlen|].
    intros ind fine coarse Hf Hco.
    specialize (Hall c eq_refl). rewrite Forall_forall in Hall.
    destruct (Hall (S ind)) as (fine' & coarse' & Hf' & Hco' & Hx & Hy).
    { apply in_seq.
      assert (S ind < length sizes)%nat
        by (apply nth_error_Some; congruence).
      lia. }
    replace (S ind - 1)%nat with ind in Hco' by lia.
    assert (fine' = fine) by congruence.
    assert (coarse' = coarse) by congruence. subst. auto.
  - intros sizes y0 x0 c Hs Hlen Hy Hx Hc Hpyr. unfold coarsening_xy.
    rewrite (pixel_sizes_num_levels self sizes Hs). cbn [obind].
    rewrite (coarsening_loop_homogeneous self sizes y0 x0 c) by
      (try assumption; try (now left);
       apply Forall_forall; intros ind Hind; apply in_seq in Hind; lia).
    destruct (length sizes) as [|[|n]]; try lia. reflexivity.
Qed.

Lemma coarsening_xy_spec_witness :
  coarsening_xy demo_image_meta = Return (Some 2).
Proof.
  apply (proj2 (proj2 (coarsening_xy_spec demo_image_meta))
           [(1, 1 # 2, 1 # 2); (1, 1, 1); (1, 2, 2)]%Q (1 # 2)%Q (1 # 2)%Q 2).
  - reflexivity.
  - simpl. lia.
  - reflexivity.
  - reflexivity.
  - lia.
  - intros [|[|[|[|level]]]] zyx H; simpl in H; try discriminate;
      injection H as <-; split; reflexivity.
Defined.

Lemma omapM_items {A B} (g : A -> outcome B) (before l : list A) :
  omapM (fun i => a <~ lift (list_item (before ++ l) i) ;; g a)
        (seq (length before) (length l))
  = omapM g l.
Proof.
  revert before. induction l as [|a l IH]; intros before; [reflexivity|].
  cbn [length seq omapM]. unfold list_item at 1.
  rewrite nth_error_app2 by lia. rewrite Nat.sub_diag. cbn [nth_error lift obind].
  destruct (g a) as [b|]; [|reflexivity]. cbn [obind].
  specialize (IH (before ++ [a])). rewrite <- app_assoc in IH.
  cbn [app] in IH. rewrite length_app in IH. cbn [length] in IH.
  replace (length before + 1)%nat with (S (length before)) in IH by lia.
  now rewrite IH.
Qed.

Lemma index_of_In (c : string) (vars : list string) :
  In c vars -> exists j, index_of c vars = Some j /\ (j < length vars)%nat.
Proof.
  intros Hin. destruct (index_of c vars) as [j|] eqn:E.
  - exists j. split; [reflexivity|]. eapply index_of_lt; eassumption.
  - apply index_of_None in E. contradiction.
Qed.

Lemma list_item_nth (l : list Q) (i : nat) :
  (i < length l)%nat -> list_item l i = Ok (nth i l 0%Q).
Proof.
  intros Hi. unfold list_item.
  destruct (nth_error l i) as [v|] eqn:E.
  - now rewrite (nth_error_nth _ _ _ E).
  - apply nth_error_None in E. lia.
Qed.

(** X23.  [pixel_sizes_zyx].  An image with more than one multiscale is
    refused with a [NotImplementedError] (and so is its coarsening
    factor).  For an image with one multiscale, the axes must include
    [x] and [y], or the call fails with a [ValueError].  When they do,
    and every level starts with a scale transformation that has one
    factor per axis, the call returns for each level, in order, the
    factors of this scale for the axes [z], [y] and [x]; without an axis
    [z] the Z pixel size is 1 at every level. *)
Theorem pixel_sizes_zyx_spec (self : NgffImageMeta) :
  ((1 < length (multiscales self))%nat ->
   exists msg,
     pixel_sizes_zyx self = Raise (NotImplementedError msg) /\
     coarsening_xy self = Raise (NotImplementedError msg)) /\
  (forall m,
      multiscales self = [m] ->
      let names := map axe_name (axes m) in
      ((~ In "x"%string names \/ ~ In "y"%string names) ->
       exists msg, pixel_sizes_zyx self = Raise (BuiltIn (ValueError msg))) /\
      (forall scales,
          In "x"%string names -> In "y"%string names ->
          Forall2 (fun dataset scale =>
                     nth_error (coordinateTransformations dataset) 0
                     = Some (Scale scale) /\
                     length scale = length names)
                  (multiscale_datasets m) scales ->
          exists x_index y_index,
            index_of "x" names = Some x_index /\
            index_of "y" names = Some y_index /\
            pixel_sizes_zyx self
            = Return (map (fun scale =>
                             (match index_of "z" names with
                              | Some z_index => nth z_index scale 0
                              | None => 1
                              end,
                              nth y_index scale 0,
                              nth x_index scale 0)%Q) scales) /\
            (~ In "z"%string names ->
             forall level zyx,
               get_pixel_sizes_zyx self (Z.of_nat level) = Return zyx ->
               fst (fst zyx) = 1%Q))).
Proof.
  split.
  - intros Hlen. eexists.
    unfold coarsening_xy, num_levels, datasets, pixel_sizes_zyx, multiscale.
    destruct (Nat.ltb_spec 1 (length (multiscales self))); [|lia].
    split; reflexivity.
  - intros m Hm names.
    assert (Em : multiscale self = Return m).
    { unfold multiscale. rewrite Hm. reflexivity. }
    assert (En : num_levels self = Return (length (multiscale_datasets m))).
    { unfold num_levels, datasets. rewrite Em. reflexivity. }
    split.
    + intros Hmissing. unfold pixel_sizes_zyx. rewrite Em. cbn [obind].
      fold names. unfold axes_index.
      destruct (index_of "x" names) as [x_index|] eqn:Ex.
      * destruct (index_of "y" names) as [y_index|] eqn:Ey.
        -- exfalso. destruct Hmissing as [H|H]; apply H;
             [destruct (in_dec string_dec "x"%string names) as [|Hn]
             |destruct (in_dec string_dec "y"%string names) as [|Hn]];
             try assumption; apply index_of_None in Hn; congruence.
        -- eexists. reflexivity.
      * eexists. reflexivity.
    + intros scales Hx Hy HF.
      destruct (index_of_In _ _ Hx) as (x_index & Ex & Hxlt).
      destruct (index_of_In _ _ Hy) as (y_index & Ey & Hylt).
      exists x_index, y_index. split; [exact Ex|]. split; [exact Ey|].
      assert (Esizes : pixel_sizes_zyx self
                = Return (map (fun scale =>
                             (match index_of "z" names with
                              | Some z_index => nth z_index scale 0
                              | None => 1
                              end,
                              nth y_index scale 0,
                              nth x_index scale 0)%Q) scales)).
      { unfold pixel_sizes_zyx. rewrite Em. cbn [obind]. fold names.
        unfold axes_index. rewrite Ex, Ey. cbn [lift obind].
        rewrite En. cbn [obind]. unfold datasets. rewrite Em. cbn [obind].
        rewrite (omapM_items _ [] (multiscale_datasets m)).
        clear En.
        destruct (index_of "z" names) as [z_index|] eqn:Ez.
        - apply index_of_lt in Ez.
          induction HF as [|dataset scale ds scales [Ht Hl] _ IH];
            [reflexivity|].
          cbn [omapM map]. unfold list_item at 1. rewrite Ht.
          cbn [lift obind scale_of].
          rewrite !list_item_nth by lia. cbn [lift obind].
          now rewrite IH.
        - induction HF as [|dataset scale ds scales [Ht Hl] _ IH];
            [reflexivity|].
          cbn [omapM map]. unfold list_item at 1. rewrite Ht.
          cbn [lift obind scale_of].
          rewrite !list_item_nth by lia. cbn [lift obind] in IH |- *.
          now rewrite IH. }
      split; [exact Esizes|].
      intros Hnoz level zyx H. unfold get_pixel_sizes_zyx in H.
      rewrite Esizes in H. cbn [obind] in H. unfold py_getitem in H.
      destruct (Z.leb_spec 0 (Z.of_nat level)); [|lia].
      rewrite Nat2Z.id in H. unfold list_item in H.
      rewrite nth_error_map in H.
      destruct (nth_error scales level) as [scale|]; [|discriminate].
      cbn [option_map lift] in H. injection H as <-.
      apply index_of_None in Hnoz. now rewrite Hnoz.
Qed.

Lemma pixel_sizes_zyx_spec_witness :
  exists x_index y_index,
    index_of "x" ["c"; "z"; "y"; "x"]%string = Some x_index /\
    index_of "y" ["c"; "z"; "y"; "x"]%string = Some y_index /\
    pixel_sizes_zyx demo_image_meta
    = Return (map (fun scale =>
                     (match index_of "z" ["c"; "z"; "y"; "x"]%string with
                      | Some z_index => nth z_index scale 0
                      | None => 1
                      end,
                      nth y_index scale 0,
                      nth x_index scale 0)%Q)
                  [[1; 1; 1 # 2; 1 # 2]; [1; 1; 1; 1]; [1; 1; 2; 2]]%Q) /\
    (~ In "z"%string ["c"; "z"; "y"; "x"]%string ->
     forall level zyx,
       get_pixel_sizes_zyx demo_image_meta (Z.of_nat level) = Return zyx ->
       fst (fst zyx) = 1%Q).
Proof.
  apply (proj2 (pixel_sizes_zyx_spec demo_image_meta)
           {| multiscale_datasets := [
                {| dataset_path := "0";
                   coordinateTransformations :=
                     [Scale [1; 1; 1 # 2; 1 # 2]%Q] |};
                {| dataset_path := "1";
                   coordinateTransformations := [Scale [1; 1; 1; 1]%Q] |};
                {| dataset_path := "2";
                   coordinateTransformations := [Scale [1; 1; 2; 2]%Q] |} ];
              axes := [ {| axe_name := "c";
                           axe_type := Some "channel"%string |};
                        {| axe_name := "z"; axe_type := Some "space"%string |};
                        {| axe_name := "y"; axe_type := Some "space"%string |};
                        {| axe_name := "x";
                           axe_type := Some "space"%string |} ] |}
           eq_refl).
  - simpl. tauto.
  - simpl. tauto.
  - repeat constructor.
Defined.

(** ** check_valid_ROI_indices on a non-empty list *)

(** X25.  [check_valid_ROI_indices] on a non-empty list of six-index
    ranges.  Let [mz], [my], [mx] be the smallest Z, Y and X start
    (positions 0, 2 and 4) among the ranges.  The check passes exactly
    when the table is neither [FOV_ROI_table] nor [well_ROI_table], or
    the three minima are zero.  Otherwise it fails with the error that
    names the table and the first axis, in the order Z, Y, X, whose
    minimum is not zero, together with this minimum. *)
Theorem check_valid_ROI_indices_spec
    (list_indices : list (list Z)) (ROI_table_name : string) :
  list_indices <> [] ->
  Forall (fun item => length item = 6%nat) list_indices ->
  exists mz my mx,
    axis_minimum 0 list_indices mz /\
    axis_minimum 2 list_indices my /\
    axis_minimum 4 list_indices mx /\
    (check_valid_ROI_indices list_indices ROI_table_name = Ok tt <->
     ~ FOV_or_well ROI_table_name \/ (mz = 0 /\ my = 0 /\ mx = 0)) /\
    (FOV_or_well ROI_table_name -> mz <> 0 ->
     check_valid_ROI_indices list_indices ROI_table_name
     = Err (NonZeroOrigin "Z" ROI_table_name mz)) /\
    (FOV_or_well ROI_table_name -> mz = 0 -> my <> 0 ->
     check_valid_ROI_indices list_indices ROI_table_name
     = Err (NonZeroOrigin "Y" ROI_table_name my)) /\
    (FOV_or_well ROI_table_name -> mz = 0 -> my = 0 -> mx <> 0 ->
     check_valid_ROI_indices list_indices ROI_table_name
     = Err (NonZeroOrigin "X" ROI_table_name mx)).
Proof.
  intros Hne H6.
  destruct (check_valid_ROI_indices_nonempty list_indices ROI_table_name
              Hne H6) as (mz & my & mx & Hz & Hy & Hx & E).
  exists mz, my, mx. do 3 (split; [assumption|]). rewrite E.
  destruct (existsb (String.eqb ROI_table_name) _) eqn:Ex; cbn [negb].
  - apply FOV_or_well_existsb in Ex.
    destruct (Z.eqb_spec mz 0) as [Hmz|Hmz]; cbn [negb];
      [destruct (Z.eqb_spec my 0) as [Hmy|Hmy]; cbn [negb];
       [destruct (Z.eqb_spec mx 0) as [Hmx|Hmx]; cbn [negb]|]|];
      (split; [split; [intros H; try discriminate; auto
                      |intros [H|(? & ? & ?)]; [contradiction|congruence]]|]);
      repeat split; intros; congruence.
  - assert (Hnot : ~ FOV_or_well ROI_table_name).
    { intros H. apply FOV_or_well_existsb in H. congruence. }
    split; [split; auto|]. repeat split; intros; contradiction.
Qed.

Lemma check_valid_ROI_indices_spec_witness :
  exists mz my mx,
    axis_minimum 0 [[0; 1; 3; 5; 0; 2]; [0; 1; 4; 6; 2; 4]] mz /\
    axis_minimum 2 [[0; 1; 3; 5; 0; 2]; [0; 1; 4; 6; 2; 4]] my /\
    axis_minimum 4 [[0; 1; 3; 5; 0; 2]; [0; 1; 4; 6; 2; 4]] mx /\
    (check_valid_ROI_indices [[0; 1; 3; 5; 0; 2]; [0; 1; 4; 6; 2; 4]]
                             "FOV_ROI_table" = Ok tt <->
     ~ FOV_or_well "FOV_ROI_table" \/ (mz = 0 /\ my = 0 /\ mx = 0)) /\
    (FOV_or_well "FOV_ROI_table" -> mz <> 0 ->
     check_valid_ROI_indices [[0; 1; 3; 5; 0; 2]; [0; 1; 4; 6; 2; 4]]
                             "FOV_ROI_table"
     = Err (NonZeroOrigin "Z" "FOV_ROI_table" mz)) /\
    (FOV_or_well "FOV_ROI_table" -> mz = 0 -> my <> 0 ->
     check_valid_ROI_indices [[0; 1; 3; 5; 0; 2]; [0; 1; 4; 6; 2; 4]]
                             "FOV_ROI_table"
     = Err (NonZeroOrigin "Y" "FOV_ROI_table" my)) /\
    (FOV_or_well "FOV_ROI_table" -> mz = 0 -> my = 0 -> mx <> 0 ->
     check_valid_ROI_indices [[0; 1; 3; 5; 0; 2]; [0; 1; 4; 6; 2; 4]]
                             "FOV_ROI_table"
     = Err (NonZeroOrigin "X" "FOV_ROI_table" mx)).
Proof.
  apply (check_valid_ROI_indices_spec
           [[0; 1; 3; 5; 0; 2]; [0; 1; 4; 6; 2; 4]] "FOV_ROI_table").
  - discriminate.
  - repeat constructor.
Defined.

(** ** When postprocess_cellpose_output fails *)

(** X29.  With masking enabled, [postprocess_cellpose_output] succeeds
    exactly when the new label array is three-dimensional and the old
    label array and the background mask have its shape.  Otherwise it
    raises a [ValueError], and when one of its three arguments is
    [None], an [AttributeError]; in both cases no array is changed. *)
Theorem postprocess_cellpose_output_defined :
  (forall (h : heap) (new_ref old_ref : ref)
          (new_array old_array : ndarray Z) (background : ndarray bool),
      heap_get h new_ref = Some new_array ->
      heap_get h old_ref = Some old_array ->
      ndarray_wf new_array -> ndarray_wf old_array -> ndarray_wf background ->
      let r := postprocess_cellpose_output h true (Some new_ref)
                 (Some old_ref) (Some background) in
      let fit := ndim new_array = 3%nat /\
                 shape old_array = shape new_array /\
                 shape background = shape new_array in
      (snd r = Ok (Some new_ref) <-> fit) /\
      (~ fit -> exists msg, r = (h, Err (ValueError msg)))) /\
  (forall (h : heap) new_label_array old_label_array background_3D,
      new_label_array = None \/ old_label_array = None \/
      background_3D = None ->
      postprocess_cellpose_output h true new_label_array old_label_array
        background_3D
      = (h, Err AttributeError)).
Proof.
  split.
  - intros h new_ref old_ref new_array old_array background
           Hnew Hold Hwn Hwo Hwb r fit.
    destruct (Nat.eq_dec (ndim new_array) 3) as [Hn|Hn];
      [destruct (list_eq_dec Nat.eq_dec (shape old_array) (shape new_array))
         as [Ho|Ho];
       [destruct (list_eq_dec Nat.eq_dec (shape background)
                              (shape new_array)) as [Hb|Hb]|]|].
    + assert (Hfit : fit) by (repeat split; assumption).
      subst r. unfold ndarray_wf in *.
      rewrite (postprocess_cellpose_output_masked h new_ref old_ref
                 new_array old_array background) by congruence.
      cbn [snd]. split; [tauto|]. intros H. contradiction.
    + assert (Hfit : ~ fit) by (intros (_ & _ & H); contradiction).
      assert (E : r = (h, Err (ValueError "In postprocess_cellpose_output"))).
      { subst r. unfold postprocess_cellpose_output. rewrite Hnew, Hold.
        replace (shape_eqb (shape background) (shape new_array)) with false.
        - now rewrite andb_false_r.
        - symmetry. apply not_true_iff_false. intros H.
          apply shape_eqb_eq in H. contradiction. }
      rewrite E. cbn [snd]. split; [split; [discriminate|tauto]|].
      intros _. eexists. reflexivity.
    + assert (Hfit : ~ fit) by (intros (_ & H & _); contradiction).
      assert (E : r = (h, Err (ValueError "In postprocess_cellpose_output"))).
      { subst r. unfold postprocess_cellpose_output. rewrite Hnew, Hold.
        replace (shape_eqb (shape old_array) (shape new_array)) with false.
        - now rewrite andb_false_r.
        - symmetry. apply not_true_iff_false. intros H.
          apply shape_eqb_eq in H. contradiction. }
      rewrite E. cbn [snd]. split; [split; [discriminate|tauto]|].
      intros _. eexists. reflexivity.
    + assert (Hfit : ~ fit) by (intros (H & _); contradiction).
      assert (E : r = (h, Err (ValueError "In postprocess_cellpose_output"))).
      { subst r. unfold postprocess_cellpose_output. rewrite Hnew, Hold.
        destruct (Nat.eqb_spec (ndim new_array) 3); [contradiction|].
        reflexivity. }
      rewrite E. cbn [snd]. split; [split; [discriminate|tauto]|].
      intros _. eexists. reflexivity.
  - intros h new old bg H. unfold postprocess_cellpose_output.
    destruct new, old, bg; try reflexivity;
      destruct H as [H|[H|H]]; discriminate.
Qed.

Lemma postprocess_cellpose_output_defined_witness :
  exists msg,
    postprocess_cellpose_output [demo_new_labels; demo_primary_labels] true
      (Some 0%nat) (Some 1%nat) (Some demo_background)
    = ([demo_new_labels; demo_primary_labels], Err (ValueError msg)).
Proof.
  apply (proj1 postprocess_cellpose_output_defined
           [demo_new_labels; demo_primary_labels] 0%nat 1%nat
           demo_new_labels demo_primary_labels demo_background);
    try reflexivity.
  intros (_ & H & _). discriminate.
Defined.

(** ** A missing column, for the column check and for the conversion *)

Lemma row_value_missing (vars : list string) (row : list Q) (c : string) :
  existsb (String.eqb c) vars = false -> row_value vars row c = Err (KeyError c).
Proof.
  intros H. unfold row_value.
  destruct (index_of c vars) as [j|] eqn:E; [|reflexivity].
  assert (Hin : In c vars).
  { destruct (in_dec string_dec c vars) as [|Hn]; [assumption|].
    apply index_of_None in Hn. congruence. }
  apply existsb_eqb_In in Hin. congruence.
Qed.

Lemma ROI_indices_missing_column (ROI : AnnData) (pz py px : Q) (level : Z)
    (name : string) (names : list string) (row : list Q)
    (rows : list (list Q)) (e : exn) :
  obs_names ROI = name :: names -> X ROI = row :: rows ->
  length row = length (var_names ROI) ->
  are_ROI_table_columns_valid ROI = Err e ->
  exists column,
    ~ In column (var_names ROI) /\
    e = ValueError (String.append "Column "
                      (String.append column " is not present in ROI table")) /\
    ROI_indices ROI pz py px level
      "x_micrometer" "y_micrometer" "z_micrometer"
      "len_x_micrometer" "len_y_micrometer" "len_z_micrometer" name
    = Err (KeyError column).
Proof.
  intros Hnames Hrows Hlen Hvalid.
  assert (Hget : forall c, getitem ROI name c
                           = row_value (var_names ROI) row c).
  { intros c. unfold getitem. rewrite Hnames, Hrows. cbn [find_row].
    now rewrite String.eqb_refl. }
  assert (Hpresent : forall c, existsb (String.eqb c) (var_names ROI) = true ->
            exists v, row_value (var_names ROI) row c = Ok v).
  { intros c H. apply existsb_eqb_true_In in H.
    now apply row_value_defined. }
  assert (Hmissing : forall c,
            existsb (String.eqb c) (var_names ROI) = false ->
            ~ In c (var_names ROI)).
  { intros c H Hin. apply existsb_eqb_In in Hin. congruence. }
  unfold ROI_indices. rewrite !Hget.
  unfold are_ROI_table_columns_valid in Hvalid. cbn [columns_loop] in Hvalid.
  repeat match type of Hvalid with
         | (if negb (existsb (String.eqb ?c) ?vars) then _ else _) = _ =>
             let E := fresh "E" in
             destruct (existsb (String.eqb c) vars) eqn:E; cbn [negb] in Hvalid;
             [ let v := fresh "v" in
               let Hv := fresh "Hv" in
               destruct (Hpresent c E) as (v & Hv); rewrite Hv; cbn [bind]
             | injection Hvalid as <-; exists c;
               split; [now apply Hmissing|]; split; [reflexivity|];
               now rewrite (row_value_missing _ _ _ E) ]
         end.
  discriminate.
Qed.

(** X28.  The column check anticipates the conversion.  When
    [are_ROI_table_columns_valid] rejects a non-empty (rectangular)
    table, naming a missing column, [convert_ROI_table_to_indices] with
    its default column names fails on this table with a [KeyError] for
    the very same column.  (Pixel sizes, level and coarsening factor are
    arbitrary, as long as [coarsening_xy ** level] is defined.) *)
Theorem missing_column_KeyError
    (ROI : AnnData) (fz fy fx : Q) (level c : Z) (e : exn) :
  rectangular ROI ->
  obs_names ROI <> [] ->
  c <> 0 \/ 0 <= level ->
  are_ROI_table_columns_valid ROI = Err e ->
  exists column,
    ~ In column (var_names ROI) /\
    e = ValueError (String.append "Column "
                      (String.append column " is not present in ROI table")) /\
    convert_ROI_table_to_indices ROI [fz; fy; fx] level c
      default_cols_xyz_pos default_cols_xyz_len
    = Err (KeyError column).
Proof.
  intros [Hlen Hrect] Hne Hpow Hvalid.
  destruct (obs_names ROI) as [|name names] eqn:Hnames; [congruence|].
  destruct (X ROI) as [|row rows] eqn:Hrows; [discriminate|].
  inversion Hrect as [|? ? Hrow _]; subst.
  destruct (ROI_indices_missing_column ROI fz
              (fy * inject_Z c ^ level) (fx * inject_Z c ^ level) level
              name names row rows e Hnames Hrows Hrow Hvalid)
    as (column & Hnot & He & E).
  exists column. split; [exact Hnot|]. split; [exact He|].
  unfold convert_ROI_table_to_indices, n_obs. rewrite Hnames.
  cbn [length Nat.eqb].
  assert (Epow : py_pow c level = Ok (inject_Z c ^ level)%Q).
  { unfold py_pow. destruct (Z.eqb_spec c 0); destruct (Z.ltb_spec level 0);
      try reflexivity. lia. }
  rewrite Epow. cbn [bind]. unfold default_cols_xyz_pos, default_cols_xyz_len.
  cbn [ROI_loop]. rewrite E. reflexivity.
Qed.

Lemma missing_column_KeyError_witness :
  exists column,
    ~ In column ["x_micrometer"; "y_micrometer"]%string /\
    ValueError "Column z_micrometer is not present in ROI table"
    = ValueError (String.append "Column "
                    (String.append column " is not present in ROI table")) /\
    convert_ROI_table_to_indices
      {| obs_names := ["a"%string];
         var_names := ["x_micrometer"; "y_micrometer"]%string;
         X := [[0; 0]%Q]; obs := [] |}
      [1; 1; 1]%Q 0 2 default_cols_xyz_pos default_cols_xyz_len
    = Err (KeyError column).
Proof.
  apply (missing_column_KeyError
           {| obs_names := ["a"%string];
              var_names := ["x_micrometer"; "y_micrometer"]%string;
              X := [[0; 0]%Q]; obs := [] |} 1 1 1 0 2).
  - split; [reflexivity|]. repeat constructor.
  - discriminate.
  - now left.
  - reflexivity.
Defined.

(** ** When get_image_grid_ROIs succeeds *)

Lemma mapM_ext {A B} (f g : A -> result B) (l : list A) :
  (forall a, f a = g a) -> mapM f l = mapM g l.
Proof.
  intros H. induction l as [|a l IH]; [reflexivity|].
  cbn [mapM]. now rewrite H, IH.
Qed.

Lemma firstn_3_split {A} (l : list A) :
  (3 <= length l)%nat -> exists a b c rest, l = a :: b :: c :: rest.
Proof.
  destruct l as [|a [|b [|c rest]]]; cbn [length]; try lia.
  intros _. now exists a, b, c, rest.
Qed.

Lemma last3_split {A} (l : list A) :
  (3 <= length l)%nat -> exists leading a b c, l = leading ++ [a; b; c].
Proof.
  intros H. exists (firstn (length l - 3) l).
  pose proof (firstn_skipn (length l - 3) l) as E.
  pose proof (length_skipn (length l - 3) l) as Hl.
  destruct (skipn (length l - 3) l) as [|a [|b [|c [|? ?]]]];
    cbn [length] in Hl; try lia.
  exists a, b, c. now rewrite E.
Qed.

Lemma last3_short {A} (l : list A) :
  (length l < 3)%nat -> unpack3 (last3 l) = Err UnpackError.
Proof.
  destruct l as [|a [|b [|c rest]]]; cbn [length]; try lia; reflexivity.
Qed.

Lemma grid_inds_nil (grid_size_y grid_size_x : Z) :
  list_prod (py_range grid_size_y) (py_range grid_size_x) = [] <->
  grid_size_y <= 0 \/ grid_size_x <= 0.
Proof.
  rewrite <- length_zero_iff_nil, length_prod, !length_py_range. lia.
Qed.

Lemma get_image_grid_ROIs_general
    (leading : list Z) (shape_z shape_y shape_x : Z)
    (pixels_ZYX : list Q) (grid_ROI_shape : option (list Z))
    (grid_size_y grid_size_x : Z) :
  match grid_ROI_shape with None => [2; 2] | Some g => g end
  = [grid_size_y; grid_size_x] ->
  grid_size_y <> 0 -> grid_size_x <> 0 ->
  get_image_grid_ROIs (leading ++ [shape_z; shape_y; shape_x]) pixels_ZYX
                      grid_ROI_shape
  = (rows <- mapM (grid_ROI pixels_ZYX shape_z shape_y shape_x
                            (- ((- shape_y) / grid_size_y))
                            (- ((- shape_x) / grid_size_x)))
                  (list_prod (py_range grid_size_y) (py_range grid_size_x)) ;;
     match rows with
     | [] => Err (ValueError "X needs to be 2-dimensional, not 1-dimensional.")
     | _ :: _ =>
         Ok {| obs_names := map ROI_name_of (seq 1 (length rows));
               var_names := grid_var_names; X := rows; obs := [] |}
     end).
Proof.
  intros Hgrid Hy Hx. unfold get_image_grid_ROIs.
  rewrite last3_app. cbn [unpack3 bind]. rewrite Hgrid. cbn [unpack2 bind].
  unfold py_ceil_div.
  destruct (Z.eqb_spec grid_size_y 0); [contradiction|].
  destruct (Z.eqb_spec grid_size_x 0); [contradiction|]. reflexivity.
Qed.

(** X27.  [get_image_grid_ROIs] succeeds exactly when the array shape has
    at least three axes, at least three pixel sizes are given, and the
    grid shape (2 x 2 when it is [None]) consists of two sizes that are
    both at least 1.  The table then has one row per cell of the grid,
    as many values per row as column names, and is accepted by
    [are_ROI_table_columns_valid].  A grid size of zero makes the call
    fail with a [ZeroDivisionError], and a negative one, which leaves no
    cell, with the [ValueError] of a table without rows. *)
Theorem get_image_grid_ROIs_defined
    (array_shape : list Z) (pixels_ZYX : list Q)
    (grid_ROI_shape : option (list Z)) :
  let grid := match grid_ROI_shape with None => [2; 2] | Some g => g end in
  ((exists ROI,
       get_image_grid_ROIs array_shape pixels_ZYX grid_ROI_shape = Ok ROI) <->
   (3 <= length array_shape)%nat /\ (3 <= length pixels_ZYX)%nat /\
   exists grid_size_y grid_size_x,
     grid = [grid_size_y; grid_size_x] /\
     1 <= grid_size_y /\ 1 <= grid_size_x) /\
  (forall ROI grid_size_y grid_size_x,
      grid = [grid_size_y; grid_size_x] ->
      get_image_grid_ROIs array_shape pixels_ZYX grid_ROI_shape = Ok ROI ->
      n_obs ROI = Z.to_nat (grid_size_y * grid_size_x) /\
      rectangular ROI /\
      are_ROI_table_columns_valid ROI = Ok tt) /\
  (forall grid_size_y grid_size_x,
      (3 <= length array_shape)%nat ->
      grid = [grid_size_y; grid_size_x] ->
      grid_size_y = 0 \/ grid_size_x = 0 ->
      get_image_grid_ROIs array_shape pixels_ZYX grid_ROI_shape
      = Err ZeroDivisionError) /\
  (forall grid_size_y grid_size_x,
      (3 <= length array_shape)%nat ->
      grid = [grid_size_y; grid_size_x] ->
      grid_size_y < 0 /\ grid_size_x <> 0 \/
      grid_size_y <> 0 /\ grid_size_x < 0 ->
      exists msg,
        get_image_grid_ROIs array_shape pixels_ZYX grid_ROI_shape
        = Err (ValueError msg)).
Proof.
  intros grid.
  (* the call, for a shape with three axes or more and non-zero grid sizes *)
  assert (Hgen : forall gy gx,
    (3 <= length array_shape)%nat -> grid = [gy; gx] ->
    gy <> 0 -> gx <> 0 ->
    exists shape_z shape_y shape_x,
      get_image_grid_ROIs array_shape pixels_ZYX grid_ROI_shape
      = (rows <- mapM (grid_ROI pixels_ZYX shape_z shape_y shape_x
                                (- ((- shape_y) / gy)) (- ((- shape_x) / gx)))
                      (list_prod (py_range gy) (py_range gx)) ;;
         match rows with
         | [] =>
             Err (ValueError "X needs to be 2-dimensional, not 1-dimensional.")
         | _ :: _ =>
             Ok {| obs_names := map ROI_name_of (seq 1 (length rows));
                   var_names := grid_var_names; X := rows; obs := [] |}
         end)).
  { intros gy gx Hs Hg Hy Hx.
    destruct (last3_split array_shape Hs) as (leading & sz & sy & sx & ->).
    exists sz, sy, sx. now apply get_image_grid_ROIs_general. }
  (* the rows, when there are three pixel sizes or more *)
  assert (Hrows : forall sz sy sx ly lx inds,
    (3 <= length pixels_ZYX)%nat ->
    exists row_of : Z * Z -> list Q,
      mapM (grid_ROI pixels_ZYX sz sy sx ly lx) inds = Ok (map row_of inds) /\
      forall ind, length (row_of ind) = 8%nat).
  { intros sz sy sx ly lx inds Hp.
    destruct (firstn_3_split pixels_ZYX Hp) as (pz & py & px & rest & ->).
    exists (fun ind => cell_row pz py px sz (cell_of sy sx ly lx ind)).
    split; [|reflexivity].
    apply mapM_pointwise. intros [iy ix]. reflexivity. }
  (* no rows, or a pixel size missing *)
  assert (Hfail : forall sz sy sx ly lx inds,
    (length pixels_ZYX < 3)%nat -> inds <> [] ->
    mapM (grid_ROI pixels_ZYX sz sy sx ly lx) inds = Err IndexError).
  { intros sz sy sx ly lx [|[iy ix] inds] Hp Hne; [congruence|].
    cbn [mapM]. unfold grid_ROI, list_item.
    destruct pixels_ZYX as [|pz [|py [|px rest]]]; cbn [length] in Hp;
      try lia; reflexivity. }
  split; [split|split; [|split]].
  - intros [ROI E].
    destruct (Nat.lt_ge_cases (length array_shape) 3) as [Hs|Hs].
    { unfold get_image_grid_ROIs in E. rewrite last3_short in E by assumption.
      discriminate. }
    split; [exact Hs|].
    assert (Hgrid : exists gy gx, grid = [gy; gx]).
    { destruct (last3_split array_shape Hs) as (leading & sz & sy & sx & ->).
      unfold get_image_grid_ROIs in E. rewrite last3_app in E.
      cbn [unpack3 bind] in E. fold grid in E.
      destruct grid as [|gy [|gx [|? ?]]]; try discriminate.
      now exists gy, gx. }
    destruct Hgrid as (gy & gx & Hg).
    destruct (Z.eq_dec gy 0) as [Hy|Hy].
    { exfalso. destruct (last3_split array_shape Hs)
        as (leading & sz & sy & sx & ->).
      unfold get_image_grid_ROIs in E. rewrite last3_app in E.
      cbn [unpack3 bind] in E. fold grid in E. rewrite Hg in E.
      cbn [unpack2 bind] in E. unfold py_ceil_div in E. subst gy.
      discriminate. }
    destruct (Z.eq_dec gx 0) as [Hx|Hx].
    { exfalso. destruct (last3_split array_shape Hs)
        as (leading & sz & sy & sx & ->).
      unfold get_image_grid_ROIs in E. rewrite last3_app in E.
      cbn [unpack3 bind] in E. fold grid in E. rewrite Hg in E.
      cbn [unpack2 bind] in E. unfold py_ceil_div in E. subst gx.
      destruct (gy =? 0); discriminate. }
    destruct (Hgen gy gx Hs Hg Hy Hx) as (sz & sy & sx & Eg).
    rewrite Eg in E.
    destruct (list_prod (py_range gy) (py_range gx)) as [|ind inds] eqn:Ei.
    { discriminate. }
    assert (Hpos : 1 <= gy /\ 1 <= gx).
    { assert (Hn : ~ (gy <= 0 \/ gx <= 0)).
      { intros H. apply grid_inds_nil in H. congruence. }
      lia. }
    destruct (Nat.lt_ge_cases (length pixels_ZYX) 3) as [Hp|Hp].
    { rewrite Hfail in E by (assumption || discriminate). discriminate. }
    split; [exact Hp|]. now exists gy, gx.
  - intros (Hs & Hp & gy & gx & Hg & Hy & Hx).
    destruct (Hgen gy gx Hs Hg) as (sz & sy & sx & Eg); try lia.
    destruct (Hrows sz sy sx (- ((- sy) / gy)) (- ((- sx) / gx))
                (list_prod (py_range gy) (py_range gx)) Hp)
      as (row_of & Er & _).
    rewrite Eg, Er. cbn [bind].
    destruct (list_prod (py_range gy) (py_range gx)) as [|ind inds] eqn:Ei.
    { apply grid_inds_nil in Ei. lia. }
    cbn [map]. eexists. reflexivity.
  - intros ROI gy gx Hg E.
    assert (Hex : exists ROI, get_image_grid_ROIs array_shape pixels_ZYX
                                grid_ROI_shape = Ok ROI) by now exists ROI.
    destruct (Nat.lt_ge_cases (length array_shape) 3) as [Hs|Hs].
    { unfold get_image_grid_ROIs in E. rewrite last3_short in E by assumption.
      discriminate. }
    destruct (Z.eq_dec gy 0) as [Hy|Hy].
    { exfalso. destruct (last3_split array_shape Hs)
        as (leading & sz & sy & sx & ->).
      unfold get_image_grid_ROIs in E. rewrite last3_app in E.
      cbn [unpack3 bind] in E. fold grid in E. rewrite Hg in E.
      cbn [unpack2 bind] in E. unfold py_ceil_div in E. subst gy.
      discriminate. }
    destruct (Z.eq_dec gx 0) as [Hx|Hx].
    { exfalso. destruct (last3_split array_shape Hs)
        as (leading & sz & sy & sx & ->).
      unfold get_image_grid_ROIs in E. rewrite last3_app in E.
      cbn [unpack3 bind] in E. fold grid in E. rewrite Hg in E.
      cbn [unpack2 bind] in E. unfold py_ceil_div in E. subst gx.
      destruct (gy =? 0); discriminate. }
    destruct (Hgen gy gx Hs Hg Hy Hx) as (sz & sy & sx & Eg).
    rewrite Eg in E.
    destruct (Nat.lt_ge_cases (length pixels_ZYX) 3) as [Hp|Hp].
    { destruct (list_prod (py_range gy) (py_range gx)) as [|ind inds] eqn:Ei;
        [discriminate|].
      rewrite Hfail in E by (assumption || discriminate). discriminate. }
    destruct (Hrows sz sy sx (- ((- sy) / gy)) (- ((- sx) / gx))
                (list_prod (py_range gy) (py_range gx)) Hp)
      as (row_of & Er & H8).
    rewrite Er in E. cbn [bind] in E.
    assert (Hlen : length (map row_of (list_prod (py_range gy) (py_range gx)))
                   = Z.to_nat (gy * gx)).
    { assert (Hpos : 1 <= gy /\ 1 <= gx).
      { destruct (Z.le_gt_cases gy 0) as [H|H];
          [|destruct (Z.le_gt_cases gx 0) as [H'|H']; [|lia]];
          exfalso;
          (assert (Ei : list_prod (py_range gy) (py_range gx) = [])
             by (apply grid_inds_nil; lia));
          rewrite Ei in E; discriminate. }
      rewrite length_map, length_prod, !length_py_range.
      rewrite Z2Nat.inj_mul by lia. reflexivity. }
    destruct (map row_of (list_prod (py_range gy) (py_range gx)))
      as [|row rows] eqn:Em; [discriminate|].
    injection E as <-. unfold n_obs, rectangular.
    cbn [obs_names var_names X length] in *. rewrite length_map, length_seq.
    split; [exact Hlen|]. split; [|reflexivity]. split; [reflexivity|].
    rewrite <- Em. apply Forall_map. apply Forall_forall. intros ind _.
    apply H8.
  - intros gy gx Hs Hg H0.
    destruct (last3_split array_shape Hs) as (leading & sz & sy & sx & ->).
    unfold get_image_grid_ROIs. rewrite last3_app. cbn [unpack3 bind].
    fold grid. rewrite Hg. cbn [unpack2 bind]. unfold py_ceil_div.
    destruct (Z.eqb_spec gy 0); [reflexivity|]. cbn [bind].
    destruct (Z.eqb_spec gx 0); [reflexivity|]. lia.
  - intros gy gx Hs Hg Hneg.
    destruct (Hgen gy gx Hs Hg) as (sz & sy & sx & Eg); try lia.
    rewrite Eg.
    assert (Ei : list_prod (py_range gy) (py_range gx) = [])
      by (apply grid_inds_nil; lia).
    rewrite Ei. cbn [mapM bind]. eexists. reflexivity.
Qed.

Lemma get_image_grid_ROIs_defined_witness :
  get_image_grid_ROIs [1; 4; 4] [1; 1; 1]%Q (Some [0; 2])
  = Err ZeroDivisionError.
Proof.
  apply (proj1 (proj2 (proj2 (get_image_grid_ROIs_defined
                                [1; 4; 4] [1; 1; 1]%Q (Some [0; 2]))))
           0 2).
  - simpl. lia.
  - reflexivity.
  - now left.
Defined.

(** ** is_ROI_table_valid *)

Lemma attrs_get_key (attrs : list (string * json)) (key : string) :
  existsb (String.eqb key) (map fst attrs) = true <->
  exists value, attrs_get attrs key = Ok value.
Proof.
  unfold attrs_get. induction attrs as [|[k v] attrs IH]; cbn [map existsb find fst].
  - split; [discriminate|]. intros [value H]. discriminate.
  - destruct (String.eqb key k); cbn [orb].
    + split; [|reflexivity]. intros _. now exists v.
    + exact IH.
Qed.

(** X26.  [is_ROI_table_valid], given the table and the attributes found
    at [table_path].  A table that lacks one of the six ROI columns makes
    it fail with the error of [are_ROI_table_columns_valid], whatever the
    rest.  Otherwise it returns [None] without masking, and with masking
    it returns [True] exactly when the attributes have the three keys
    [type], [region] and [instance_key], the type is the string
    [ngff:region_table], and the region is a dictionary with the key
    [path]; it fails (with an [AttributeError]) only when the keys are
    there, the type is right and the region is not a dictionary; in all
    other cases it returns [False]. *)
Theorem is_ROI_table_valid_spec
    (table : AnnData) (attrs : list (string * json)) :
  (forall e use_masks,
      are_ROI_table_columns_valid table = Err e ->
      is_ROI_table_valid table attrs use_masks = Err e) /\
  (are_ROI_table_columns_valid table = Ok tt ->
   is_ROI_table_valid table attrs false = Ok None /\
   (is_ROI_table_valid table attrs true = Ok (Some true) <->
    masking_attrs attrs) /\
   (forall e,
       is_ROI_table_valid table attrs true = Err e <->
       e = AttributeError /\
       attrs_get attrs "type" = Ok (JString "ngff:region_table") /\
       (exists instance_key,
           attrs_get attrs "instance_key" = Ok instance_key) /\
       exists region,
         attrs_get attrs "region" = Ok region /\
         forall items, region <> JObject items) /\
   (~ masking_attrs attrs ->
    (forall e, is_ROI_table_valid table attrs true <> Err e) ->
    is_ROI_table_valid table attrs true = Ok (Some false))).
Proof.
  split.
  - intros e use_masks H. unfold is_ROI_table_valid. now rewrite H.
  - intros Hcols. unfold is_ROI_table_valid. rewrite Hcols. cbn [bind negb].
    split; [reflexivity|].
    cbn [forallb]. rewrite andb_true_r.
    destruct (existsb (String.eqb "type") (map fst attrs)) eqn:Etype.
    2: { (* no type *)
      cbn [andb bind].
      assert (Hno : forall v, attrs_get attrs "type" <> Ok v).
      { intros v H.
        assert (Hex : exists value, attrs_get attrs "type" = Ok value)
          by now exists v.
        apply attrs_get_key in Hex. congruence. }
      split; [split; [discriminate|]|split; [|reflexivity]].
      - intros (items & ik & Ht & _). now apply Hno in Ht.
      - intros e. split; [discriminate|].
        intros (_ & Ht & _). now apply Hno in Ht. }
    destruct (existsb (String.eqb "region") (map fst attrs)) eqn:Eregion.
    2: { cbn [andb bind].
      assert (Hno : forall v, attrs_get attrs "region" <> Ok v).
      { intros v H.
        assert (Hex : exists value, attrs_get attrs "region" = Ok value)
          by now exists v.
        apply attrs_get_key in Hex. congruence. }
      split; [split; [discriminate|]|split; [|reflexivity]].
      - intros (items & ik & _ & Hr & _). now apply Hno in Hr.
      - intros e. split; [discriminate|].
        intros (_ & _ & _ & region & Hr & _). now apply Hno in Hr. }
    destruct (existsb (String.eqb "instance_key") (map fst attrs)) eqn:Ekey.
    2: { cbn [andb bind].
      assert (Hno : forall v, attrs_get attrs "instance_key" <> Ok v).
      { intros v H.
        assert (Hex : exists value, attrs_get attrs "instance_key" = Ok value)
          by now exists v.
        apply attrs_get_key in Hex. congruence. }
      split; [split; [discriminate|]|split; [|reflexivity]].
      - intros (items & ik & _ & _ & _ & Hk). now apply Hno in Hk.
      - intros e. split; [discriminate|].
        intros (_ & _ & [ik Hk] & _). now apply Hno in Hk. }
    cbn [andb].
    apply attrs_get_key in Etype. destruct Etype as [type Etype].
    apply attrs_get_key in Eregion. destruct Eregion as [region Eregion].
    apply attrs_get_key in Ekey. destruct Ekey as [ik Ekey].
    rewrite Etype. cbn [bind].
    destruct (json_eqb_string type "ngff:region_table") eqn:Et.
    2: { cbn [bind].
      assert (Hno : type <> JString "ngff:region_table").
      { intros ->. cbn in Et. discriminate. }
      split; [split; [discriminate|]|split; [|reflexivity]].
      - intros (items & ik' & Ht & _). congruence.
      - intros e. split; [discriminate|]. intros (_ & Ht & _). congruence. }
    assert (Htype : type = JString "ngff:region_table").
    { destruct type; try discriminate. cbn in Et.
      apply String.eqb_eq in Et. now subst. }
    subst type. rewrite Eregion. cbn [bind].
    destruct region as [| | | | |items]; cbn [json_keys bind].
    1-5: (split; [split; [discriminate|]|split]);
      [ unfold masking_attrs; intros (items & ik' & _ & Hr & _); congruence
      | intros e; (split; [|now intros [-> _]]); intros H;
        injection H as <-;
        (split; [reflexivity|]); (split; [reflexivity|]);
        (split; [now exists ik|]); eexists; (split; [reflexivity|]);
        discriminate
      | intros _ H; exfalso; now apply (H AttributeError) ].
    destruct (existsb (String.eqb "path") (map fst items)) eqn:Ep.
    + apply existsb_eqb_true_In in Ep.
      split; [split; [|reflexivity]|split].
      * intros _. now exists items, ik.
      * intros e. split; [discriminate|].
        intros (_ & _ & _ & region & Hr & Hn).
        injection Hr as <-. now contradiction (Hn items).
      * intros Hn. exfalso. apply Hn. now exists items, ik.
    + split; [split; [discriminate|]|split; [|reflexivity]].
      * unfold masking_attrs. intros (items' & ik' & _ & Hr & Hp & _).
        rewrite Eregion in Hr. injection Hr as <-.
        apply existsb_eqb_In in Hp. congruence.
      * intros e. split; [discriminate|].
        intros (_ & _ & _ & region & Hr & Hn).
        injection Hr as <-. now contradiction (Hn items).
Qed.

Lemma is_ROI_table_valid_spec_witness :
  is_ROI_table_valid demo_ROI_table
    [("type"%string, JString "ngff:region_table");
     ("region"%string, JString "../labels/nuclei");
     ("instance_key"%string, JString "label")] false
  = Ok None.
Proof.
  apply (proj2 (is_ROI_table_valid_spec demo_ROI_table
           [("type"%string, JString "ngff:region_table");
            ("region"%string, JString "../labels/nuclei");
            ("instance_key"%string, JString "label")])).
  reflexivity.
Defined.
